(* ===== verification/_CoqProject ===== *)
-Q . S2P
Prelude.v
GoString.v
GoFloat.v
GoTime.v
Sha256.v
Types.v
Purl.v
Matching.v
Store.v
StoreSpec.v
Sql.v
Schema.v
Credentials.v
Gateway.v
Cache.v
Fingerprint.v
Aggregator.v
Policy.v
ExamplePolicy.v
Encoding.v
Orchestrator.v
Adapter.v
Osv.v
OssIndex.v
Workers.v
Queue.v
Server.v
Handlers.v
Auth.v
Api.v
Webhook.v
Cli.v
System.v
GenExtensions.v
