(* ===== verification/Prelude.v ===== *)
(** * SCINTX: a verification library for the supply-chain gateway

The program ([src/], in Go) is a gateway between package registries and security
providers.  A client submits an artifact over HTTP; a worker runs
[Orchestrator.Process], which selects the providers whose capabilities match the
artifact, asks them concurrently (through a result cache), correlates their
findings, evaluates a policy on them and completes, fails or defers the
submission; a deferred submission can be resumed, a completed one adjudicated.
Everything is recorded behind a store interface and announced as events, which may
be delivered to a webhook.

** The parts, their files and their sources

Language and shared definitions:
 - [Prelude]: errors as values ([res]), the state and error monad [GoM] with its
   weakest preconditions, 64-bit wrap-around, clocks, tactics, the hint database
   [scintx], shared list lemmas.
 - [GoString], [GoFloat], [GoTime], [Sha256], [Encoding]: what the sources use of
   the Go standard library: byte strings, [strings], [sort], [strconv]; IEEE 754
   binary64; [time.ParseDuration] and [time.RFC3339Nano]; SHA-256 and hexadecimal;
   base64, HMAC, [strings.Fields], percent decoding.
 - [Types]: the structs of [api/types.go] and [api/merged.go] as records, and
   [CloneJSON] ([api/clone.go]) through the class [Json].

State:
 - [Store]: [internal/scintx/store.go], [memory_store.go] and
   [job_queue_memory.go].  The struct is the record [MemoryStore]; [Module Mem]
   has one definition per method.  The Go interface is the class [Store].
 - [StoreSpec]: what a client may rely on, the class [StoreLaws] on the abstract
   [StoreView], with the refinement of it by the memory store.
 - [Sql]: [internal/store/{sql,sql_ops,job_queue,open}.go], the tables as maps and
   every method as a transaction; the second instance of [StoreLaws].  [Schema]: the
   schemas of both dialects, migration and opening.
 - [Gateway]: [api/blob.go], [api/registry.go], [api/sortkeys.go], [api/id.go],
   [internal/scintx/events.go], [cache.go], [cache_key.go]; the cache interface is
   the class [ResultCache] with [ResultCacheLaws].  [Cache]: its implementations,
   [internal/cache/{open,redis,ristretto}.go], on clients with the laws of a cache.
 - [Credentials]: [credentials/], on a state of keyring and files.

From artifact to decision:
 - [Purl]: [api/purl.go].  [Matching]: [api/matching.go].  [Aggregator]:
   [internal/scintx/aggregator.go].  [Fingerprint]: [internal/scintx/fingerprint.go].
 - [Policy]: [extensions/policies/yaml/{document,engine,evaluate}.go]; the
   interface of policy engines ([api/interfaces.go]) is the record [PolicyEngine]
   with the laws [PolicyLaws].  [ExamplePolicy]: the second engine,
   [extensions/policies/example/policy.go].
 - [Adapter], [Osv], [OssIndex]: the providers of [extensions/providers/]: what the
   lookup providers share, the OSV client and provider, the OSS Index client and
   provider with (Module [Stub]) the two stubs.
 - [Orchestrator]: [internal/scintx/orchestrator.go], [artifact_content.go],
   [adjudication_forward.go], proved against [StoreLaws], [ResultCacheLaws],
   [PolicyLaws] and [AggregatorLaws] and never against an implementation.

The running gateway:
 - [Workers]: [internal/workers/dispatcher.go], configuration and local pool.
   [Queue]: [internal/workers/queue.go], on the job table of the store.
 - [Server]: [internal/server/server.go], one function per handler; the pool is
   behind the class [Dispatcher] with [DispatcherLaws], which both pools implement.
   [Handlers]: the handlers that change submissions as threads, one step per call on
   store or pool, with the lemmas that a thread running alone is the handler.
   [Auth]: [internal/auth/], [Api]: the routes behind the authentication.
 - [Webhook]: [internal/webhook/].
 - [Cli]: [cmd/scintx/], the auth commands, start-up and shutdown.
 - [System]: the composition: handlers, workers that run [Process], and shutdown
   as the steps of one transition system.
 - [GenExtensions]: [cmd/gen-extensions/main.go].

** How the code is represented

Data keeps the shape of the Go structs; a pointer is an [option], a map a [gmap],
a slice a [list].  A method is a function on the state of its receiver; a method
under a mutex is one step.  The clock, the random source, the environment, the
iteration order of maps ([GoMaps]), Unicode case mapping outside ASCII
([Unicode]), the text of floating-point numbers, [yaml.Unmarshal], JSON decoders,
the transport of HTTP clients, keyring and cache clients and the answers of
providers are arguments of the definitions that use them.  The goroutines of the
fan-out of [Process] are state machines with one step per call on shared state,
interleaved by an arbitrary schedule; the clients and workers of the local pool are
a step relation ([pool_step], [worker_step]); the gateway is one ([sys_step]), in
which handlers interleave at each of their calls on the store and the pool, and a
worker's run of [Process] is one step.

** What the theorems show

 - System: a submission whose creation has been answered is never lost - until it is
   settled it has a job, or a handler in flight that is responsible for it - and after
   a shutdown workers and handlers always come to rest with every submission settled.
 - Orchestrator: [Process] settles every submission it is given under every
   schedule, provider behaviour and cancellation point, provided policy engine and
   aggregator make no number JSON cannot carry, which is proved of both engines and of
   the aggregator [serve] builds; the fan-out finishes, stores one result per selected
   provider and touches nothing else; adjudication is guarded and only adds a decision.
 - Stores: an invariant of every reachable state; idempotent creation, also of two
   racing requests; exclusive resume; the oldest claimable job is claimed, and a
   lease of the memory store excludes others until it runs out; both stores give the same answers; a
   database of an earlier version is migrated without loss.
   Caches: a hit is a result that was stored under that key.
 - Server and authentication: creating is complete or leaves no trace, with its answer
   on every branch; without
   credentials nothing is served or changed but the discovery document; a signed
   request is accepted and an accepted signature was made with a configured key.
   What is uploaded is what providers get.  Webhook deliveries verify, attempts are
   bounded.
 - Aggregation: merged findings partition the findings of completed results; keys,
   sources, normalised identifiers, status and conflicts do not depend on their order;
   the VEX lattice of the code; severities and identifiers of a merged finding;
   correlation by CVE.
 - Policies: the decision is the strongest of those asked for, on raw and merged
   results, one of four values, independent of order, monotone in the evidence;
   conflicts escalate; validation and loading accept exactly what they should.
 - Providers: the result is what the server's answers to the requests say, the records
   of all pages or the code of the failure, so an artifact that could not be looked up
   is never passed.
 - Workers: admission never exceeds the limit, admitted jobs are neither lost nor
   run twice, closing drains the pool; what becomes of a claimed queue job, case by case;
   a loop handles the pending jobs, each once and oldest first, whatever is enqueued,
   extended or panics meanwhile.
 - Package URLs and matching: parse/print round trip; eligibility is the
   declarative reading of the requirements.
 - Command line: the gateway does not start half configured; [auth status] does not
   depend on secrets; stored credentials are found again; the imports read off the
   generated text are exactly the extension packages.
 - Some theorems state behaviour that the sources or their comments do not intend:
   [CanonicalPurl_not_stable], [resume_keeps_stale_results],
   [resume_race_loses_job], [fail_without_affected_allowed],
   [ResultCacheKey_inputs], [ConfigFromEnv_overflow],
   [shared_cve_not_correlated], [merged_walks_pass_findings],
   [queue_tokens_not_reserved], [sql_lease_lost_early], [uncovered_parts_unchecked],
   [stripped_body_verifies], [lone_colon_panics], [long_body_truncated],
   [repeated_token_diverges], [nan_score_unstorable], [refused_token_shadowed],
   [replay_of_abandoned], [merged_type_of_first] and [mean_overflows]; and
   [reconcileAssessment_lattice] differs from the last row of the table in
   [docs/ARCHITECTURE.md] 9.3.

** Fuel and bounds

[duration_loop] has the length of its text as fuel, and every round shortens the
text ([duration_loop_fuel]: more fuel gives the same result).  The fan-out runs
the given schedule and then seven rounds over all goroutines; a goroutine has at
most seven steps, so all are done ([fan_out_done]).  The loop of SHA-256 over
blocks has the number of words as fuel, [strings.ReplaceAll], [strings.TrimSpace]
and [strings.Fields] the length of their text.  The paging loop of the OSV client has its fuel as
an argument: it may not end by itself, and [query_returns] shows that fuel up to the
end of the request's context is enough.  The polling of the webhook's [Close] has
the rounds that fit before its deadline.  Integers are wrapped at 64 bits where the
code adds or multiplies configuration values and attempt counts, and at 31 bits in
event sequence numbers; scores are binary64.  Times are unbounded nanosecond counts.

** What is not modelled

What [encoding/json] and [yaml] make of a text (a decoded request, document or
answer is an input; the encodings that are hashed or signed are modelled); faults of
the database, of Redis and of the file system beyond those named; listening, TLS and
the timeouts of [net/http]; panics of providers; the hidden prompt of the auth
command; log output; effects of timers other than those the code waits for.  A run of
[Process] is one step of [System], so what a handler does in the middle of one is not
covered there; the queue pool's races with a resume are treated in [Queue].  The
packages [extensions/*/all] are lists of imports. *)
From Corelib Require Export ssreflect.
From Stdlib Require Export Ascii.
From stdpp Require Export gmap strings pretty sorting.

#[export] Set Warnings "-rewrite-rw,-register-all,-clear-no-such-hyp".
#[export] Set Default Goal Selector "!".
#[global] Open Scope general_if_scope.

(** ** Notation scope of the development *)
Declare Scope go_scope.
Delimit Scope go_scope with go.
Open Scope go_scope.

(** ** Fallible Go code

A Go function returning [(T, error)] is modelled by [res E T]: the error
branch carries the error value, the other branch the result. *)
Inductive res (E A : Type) : Type :=
| Ok (a : A)
| Err (e : E).
Arguments Ok {E A} a.
Arguments Err {E A} e.

Definition res_bind {E A B : Type} (r : res E A) (k : A → res E B) : res E B :=
  match r with Ok a => k a | Err e => Err e end.

Definition is_Ok {E A : Type} (r : res E A) : bool :=
  match r with Ok _ => true | Err _ => false end.

Notation "'let?' x ':=' e 'in' k" := (res_bind e (λ x, k))
  (at level 10, x pattern, e at level 100, k at level 200) : go_scope.

Lemma res_bind_Ok {E A B} (m : res E A) (k : A → res E B) b :
  res_bind m k = Ok b → ∃ a, m = Ok a ∧ k a = Ok b.
Proof. destruct m; simpl; [eauto|done]. Qed.

(** Stateful fallible code: a computation on a state of type [S] that returns an
[A] or an error, in the state it leaves.  The [x ← m; k] notation is stdpp's. *)
Definition GoM (E S A : Type) : Type := S → S * res E A.

#[export] Instance GoM_ret {E S} : MRet (GoM E S) := λ A a s, (s, Ok a).
#[export] Instance GoM_bind {E S} : MBind (GoM E S) := λ A B k m s,
  let r := m s in
  match r.2 with
  | Ok a => k a r.1
  | Err e => (r.1, Err e)
  end.

Definition go_fail {E S A} (e : E) : GoM E S A := λ s, (s, Err e).
(** Run [m] and look at its error instead of returning it. *)
Definition go_try {E S A} (m : GoM E S A) : GoM E S (res E A) := λ s, ((m s).1, Ok (m s).2).

(** Weakest preconditions of such computations: [Q] holds of the outcome. *)
Definition wp {E S A} (m : GoM E S A) (Q : res E A → S → Prop) (s : S) : Prop := Q (m s).2 (m s).1.

Section wp.
Context {E S : Type}.

Lemma wp_bind {A B} (m : GoM E S A) (k : A → GoM E S B) Q s :
  wp m (λ r s', match r with Ok a => wp (k a) Q s' | Err e => Q (Err e) s' end) s → wp (m ≫= k) Q s.
Proof. unfold wp, mbind, GoM_bind. by destruct (m s) as [s' []]. Qed.

Lemma wp_ret {A} (a : A) (Q : res E A → S → Prop) s : Q (Ok a) s → wp (mret a) Q s.
Proof. done. Qed.

Lemma wp_fail {A} (e : E) (Q : res E A → S → Prop) s : Q (Err e) s → wp (go_fail e) Q s.
Proof. done. Qed.

Lemma wp_try {A} (m : GoM E S A) (Q : res E (res E A) → S → Prop) s :
  wp m (λ r s', Q (Ok r) s') s → wp (go_try m) Q s.
Proof. done. Qed.

Lemma wp_mono {A} (m : GoM E S A) (P Q : res E A → S → Prop) s :
  wp m P s → (∀ r s', P r s' → Q r s') → wp m Q s.
Proof. unfold wp. auto. Qed.
End wp.

(** ** Machine integers and clocks *)

(** Two's complement wrap-around of a 64-bit [int]. *)
Definition wrap64 (z : Z) : Z := ((z + 2^63) `mod` 2^64 - 2^63)%Z.

(** [time.Time] is the number of nanoseconds since the zero time (January 1,
year 1 UTC), so that the zero value of the Go type is [0]; a
[time.Duration] is a number of nanoseconds. *)
Definition Time := Z.
Definition Duration := Z.
Bind Scope Z_scope with Time.
Bind Scope Z_scope with Duration.
Definition zero_time : Time := 0%Z.
Definition Second : Duration := 1000000000%Z.
Definition Minute : Duration := (60 * Second)%Z.
Definition Hour : Duration := (60 * Minute)%Z.

(** ** Tactics *)

(** Case analysis on every boolean test or match scrutinee of the goal,
closing the branches that simplification and congruence settle. *)
Ltac go_cases :=
  repeat (case_match || case_bool_decide || case_decide);
  simplify_eq/=; try done.

(** Unfold the monadic plumbing of [res]. *)
Ltac res_simpl := unfold res_bind, is_Ok in *; simplify_eq/=.

Create HintDb scintx discriminated.

(** ** Lists *)
Section lists.
Context {A : Type}.
Implicit Types l : list A.

Lemma forallb_true (f : A → bool) l : forallb f l = true ↔ ∀ x, x ∈ l → f x = true.
Proof.
  rewrite forallb_forall. split; intros H x Hx; apply H.
  - by apply list_elem_of_In.
  - by apply list_elem_of_In.
Qed.

Lemma existsb_true (f : A → bool) l : existsb f l = true ↔ ∃ x, x ∈ l ∧ f x = true.
Proof.
  rewrite existsb_exists. split; intros (x & Hx & Hf); exists x; split; try done;
    by apply list_elem_of_In.
Qed.
End lists.
