(* ===== verification/GoString.v ===== *)
(** * Go strings

The functions of the packages [strings], [sort] and [strconv] that the
gateway calls, on byte strings ([string] is a list of bytes, as a Go string
is).  Functions that Go specifies through Unicode tables ([ToLower],
[ToUpper], [EqualFold]) are computed on ASCII strings, where Go takes the same
byte-wise path, and are a parameter (the class [Unicode]) on the others. *)
From S2P Require Import Prelude.

Definition chr (n : nat) : ascii := ascii_of_nat n.
Definition str1 (c : ascii) : string := String c "".

(** ** Elementary operations *)
Fixpoint has_char (c : ascii) (s : string) : bool :=
  match s with
  | "" => false
  | String d s => bool_decide (c = d) || has_char c s
  end.

Fixpoint all_chars (f : ascii → bool) (s : string) : bool :=
  match s with "" => true | String d s => f d && all_chars f s end.

Fixpoint map_chars (f : ascii → ascii) (s : string) : string :=
  match s with "" => "" | String d s => String (f d) (map_chars f s) end.

Definition HasPrefix (s p : string) : bool := String.prefix p s.

Fixpoint drop_str (n : nat) (s : string) : string :=
  match n, s with S n, String _ s => drop_str n s | _, _ => s end.

Fixpoint take_str (n : nat) (s : string) : string :=
  match n, s with S n, String d s => String d (take_str n s) | _, _ => "" end.

Definition TrimPrefix (s p : string) : string :=
  if HasPrefix s p then drop_str (String.length p) s else s.

(** [i := strings.Index(s, c); s[:i], s[i+1:]] for a one-byte [c]; [None]
when [i < 0]. *)
Fixpoint cut_at (c : ascii) (s : string) : option (string * string) :=
  match s with
  | "" => None
  | String d s' =>
      if decide (c = d) then Some ("", s')
      else match cut_at c s' with
           | Some (a, b) => Some (String d a, b)
           | None => None
           end
  end.

(** [strings.Split(s, c)] for a one-byte separator. *)
Fixpoint Split (s : string) (c : ascii) : list string :=
  match s with
  | "" => [""]
  | String d s' =>
      if decide (c = d) then "" :: Split s' c
      else match Split s' c with
           | w :: ws => String d w :: ws
           | [] => [str1 d]
           end
  end.

(** [strings.Join]. *)
Definition Join (l : list string) (sep : string) : string := String.concat sep l.

(** [strings.TrimRight(s, c)] for a one-byte cutset. *)
Fixpoint TrimRight (s : string) (c : ascii) : string :=
  match s with
  | "" => ""
  | String d s' =>
      match TrimRight s' c with
      | "" => if decide (c = d) then "" else str1 d
      | t => String d t
      end
  end.

(** [strings.ReplaceAll(s, old, new)] for a non-empty [old]; the fuel is the
length of the string, each round consumes at least one byte. *)
Fixpoint replace_all (fuel : nat) (s old new : string) : string :=
  match fuel, s with
  | S fuel, String d s' =>
      if HasPrefix s old then new +:+ replace_all fuel (drop_str (String.length old) s) old new
      else String d (replace_all fuel s' old new)
  | _, _ => s
  end.
Definition ReplaceAll (s old new : string) : string :=
  replace_all (String.length s) s old new.

(** [sort.Strings]: byte-wise lexicographic order. *)
Definition sort_strings (l : list string) : list string := merge_sort String.le l.

(** ** ASCII case mapping and Unicode *)
Definition byte_of (c : ascii) : N := N_of_ascii c.
Definition is_ascii_char (c : ascii) : bool := bool_decide (byte_of c < 128)%N.
Definition is_ascii (s : string) : bool := all_chars is_ascii_char s.

Definition lower_char (c : ascii) : ascii :=
  if bool_decide (65 ≤ byte_of c ≤ 90)%N then ascii_of_N (byte_of c + 32) else c.
Definition upper_char (c : ascii) : ascii :=
  if bool_decide (97 ≤ byte_of c ≤ 122)%N then ascii_of_N (byte_of c - 32) else c.

Class Unicode := {
  unicode_lower : string → string;
  unicode_upper : string → string;
  unicode_fold : string → string → bool;
}.

(** An instance for closed computations: case mapping that leaves every
non-ASCII string unchanged. *)
Definition ascii_unicode : Unicode :=
  {| unicode_lower := id; unicode_upper := id; unicode_fold := λ a b, bool_decide (a = b) |}.

Definition ToLower `{Unicode} (s : string) : string :=
  if is_ascii s then map_chars lower_char s else unicode_lower s.
Definition ToUpper `{Unicode} (s : string) : string :=
  if is_ascii s then map_chars upper_char s else unicode_upper s.
Definition EqualFold `{Unicode} (a b : string) : bool :=
  if is_ascii a && is_ascii b
  then bool_decide (map_chars lower_char a = map_chars lower_char b)
  else unicode_fold a b.

(** ** [strings.TrimSpace]

The UTF-8 encodings of the code points [unicode.IsSpace] accepts: six ASCII
bytes, U+0085, U+00A0, U+1680, U+2000..U+200A, U+2028, U+2029, U+202F, U+205F,
U+3000.  Each starts with a rune-start byte, so that decoding the first (last)
rune is matching a prefix (suffix) of this list. *)
Definition bytes (l : list nat) : string := foldr (λ n s, String (chr n) s) "" l.
Definition space_runes : list string :=
  bytes <$> ([[9]; [10]; [11]; [12]; [13]; [32]; [194;133]; [194;160]; [225;154;128];
             [226;128;168]; [226;128;169]; [226;128;175]; [226;129;159]; [227;128;128]]
             ++ ((λ k, [226;128;128 + k]) <$> seq 0 11)).

Fixpoint trim_prefixes (pats : list string) (fuel : nat) (s : string) : string :=
  match fuel with
  | 0 => s
  | S fuel =>
      match List.find (HasPrefix s) pats with
      | Some p => trim_prefixes pats fuel (drop_str (String.length p) s)
      | None => s
      end
  end.

Definition TrimSpace (s : string) : string :=
  let t := trim_prefixes space_runes (String.length s) s in
  String.rev (trim_prefixes (String.rev <$> space_runes) (String.length t) (String.rev t)).

(** ** [strconv] and [fmt] on integers *)
Definition digit_of (c : ascii) : option Z :=
  if bool_decide (48 ≤ byte_of c ≤ 57)%N then Some (Z.of_N (byte_of c - 48)) else None.

Fixpoint parse_digits (acc : Z) (s : string) : option Z :=
  match s with
  | "" => Some acc
  | String c s => match digit_of c with
                  | Some d => parse_digits (acc * 10 + d)%Z s
                  | None => None
                  end
  end.

(** [strconv.ParseInt(s, 10, 64)], which [strconv.Atoi] is on 64-bit
platforms. *)
Definition ParseInt (s : string) : option Z :=
  let body b := match b with "" => None | _ => parse_digits 0 b end in
  let v := match s with
           | String "-" b => Z.opp <$> body b
           | String "+" b => body b
           | _ => body s
           end in
  match v with
  | Some z => if bool_decide (- 2^63 ≤ z < 2^63)%Z then Some z else None
  | None => None
  end.

(** [%q] of text that needs no escape. *)
Definition quoted (s : string) : string := str1 (chr 34) +:+ s +:+ str1 (chr 34).

(** [fmt.Sprintf("%d", z)]. *)
Definition fmt_d (z : Z) : string := pretty z.

(** ** Lemmas *)
Lemma app_cons c a b : String c a +:+ b = String c (a +:+ b).
Proof. done. Qed.
Lemma app_nil_l b : "" +:+ b = b.
Proof. done. Qed.
Lemma app_nil_r a : a +:+ "" = a.
Proof. induction a as [|c a IH]; [done|]. by rewrite app_cons IH. Qed.
Lemma app_assoc a b c : (a +:+ b) +:+ c = a +:+ (b +:+ c).
Proof. induction a as [|d a IH]; [done|]. by rewrite !app_cons IH. Qed.
Lemma app_eq_nil a b : a +:+ b = "" → a = "" ∧ b = "".
Proof. by destruct a. Qed.

Lemma has_char_app c a b : has_char c (a +:+ b) = has_char c a || has_char c b.
Proof. induction a as [|d a IH]; [done|]. rewrite app_cons; simpl. rewrite IH. by destruct (bool_decide _). Qed.
Lemma all_chars_app f a b : all_chars f (a +:+ b) = all_chars f a && all_chars f b.
Proof. induction a as [|d a IH]; [done|]. rewrite app_cons; simpl. rewrite IH. by destruct (f d). Qed.
Lemma map_chars_app f a b : map_chars f (a +:+ b) = map_chars f a +:+ map_chars f b.
Proof. induction a as [|d a IH]; [done|]. rewrite !app_cons; simpl. by rewrite IH. Qed.

Lemma HasPrefix_drop s p : HasPrefix s p = true → s = p +:+ drop_str (String.length p) s.
Proof.
  unfold HasPrefix. revert s. induction p as [|c p IH]; intros s Hp; [done|].
  destruct s as [|d s]; simpl in Hp; [done|]. case_match; [|done]. subst.
  rewrite app_cons. simpl. by rewrite -IH.
Qed.

Lemma HasPrefix_app p s : HasPrefix (p +:+ s) p = true.
Proof.
  unfold HasPrefix. induction p as [|c p IH]; [by destruct s|]. rewrite app_cons. simpl. by case_match.
Qed.

Lemma drop_str_app p s : drop_str (String.length p) (p +:+ s) = s.
Proof. induction p as [|c p IH]; [by rewrite app_nil_l|]. by rewrite app_cons. Qed.

(** [cut_at] splits at the first occurrence of the byte. *)
Lemma cut_at_Some c s a b :
  cut_at c s = Some (a, b) ↔ s = a +:+ String c b ∧ has_char c a = false.
Proof.
  revert a b. induction s as [|d s IH]; intros a b; simpl.
  - split; [done|]. intros [H _]. by destruct a.
  - destruct (decide (c = d)) as [->|Hne].
    + split; [intros [= <- <-]; done|]. intros [H Hc]. destruct a as [|e a].
      { rewrite app_nil_l in H. by simplify_eq. }
      rewrite app_cons in H; simplify_eq/=. by rewrite bool_decide_true in Hc.
    + destruct (cut_at c s) as [[x y]|] eqn:E; split.
      * intros [= <- <-]. destruct (proj1 (IH x y) eq_refl) as [-> Hx].
        rewrite app_cons; simpl. by rewrite bool_decide_false.
      * intros [H Hc]. destruct a as [|e a]; [by rewrite app_nil_l in H; simplify_eq|].
        rewrite app_cons in H; simplify_eq/=. rewrite bool_decide_false // in Hc; simpl in Hc.
        pose proof (proj2 (IH a b) (conj eq_refl Hc)). by simplify_eq.
      * done.
      * intros [H Hc]. destruct a as [|e a]; [by rewrite app_nil_l in H; simplify_eq|].
        rewrite app_cons in H; simplify_eq/=. rewrite bool_decide_false // in Hc; simpl in Hc.
        pose proof (proj2 (IH a b) (conj eq_refl Hc)). by simplify_eq.
Qed.

Lemma cut_at_None c s : cut_at c s = None ↔ has_char c s = false.
Proof.
  induction s as [|d s IH]; simpl; [done|].
  destruct (decide (c = d)) as [->|Hne].
  - by rewrite bool_decide_true.
  - rewrite bool_decide_false //=. rewrite -IH. by destruct (cut_at c s) as [[]|].
Qed.

Lemma cut_at_app c a b : has_char c a = false → cut_at c (a +:+ String c b) = Some (a, b).
Proof. intros. by apply cut_at_Some. Qed.

Lemma Split_nonempty s c : Split s c ≠ [].
Proof. destruct s; simpl; [done|]. go_cases. Qed.

(** Splitting a joined list gives the list back when no piece holds the
separator. *)
Lemma Split_Join c l :
  l ≠ [] → Forall (λ w, has_char c w = false) l → Split (Join l (str1 c)) c = l.
Proof.
  unfold Join. induction l as [|w l IH]; [done|]. intros _ [Hw Hl]%Forall_cons.
  assert (∀ w r, has_char c w = false → Split (w +:+ String c r) c = w :: Split r c) as Hcut.
  { clear. intros w r. induction w as [|d w IH]; intros Hw.
    - rewrite app_nil_l; simpl. by rewrite decide_True.
    - rewrite app_cons; simpl in *. apply orb_false_iff in Hw as [Hd Hw].
      apply bool_decide_eq_false in Hd. rewrite decide_False //. by rewrite IH. }
  assert (∀ w, has_char c w = false → Split w c = [w]) as Hone.
  { clear. intros w. induction w as [|d w IH]; intros Hw; [done|]; simpl in *.
    apply orb_false_iff in Hw as [Hd Hw]. apply bool_decide_eq_false in Hd.
    rewrite decide_False //. by rewrite IH. }
  destruct l as [|v l]; [by apply Hone|].
  cbn [String.concat]. rewrite Hcut //. f_equal. by apply IH.
Qed.

(** ASCII case mapping. *)
Lemma lower_char_eq c d : (byte_of d < 65 ∨ 122 < byte_of d ∨ 90 < byte_of d < 97)%N →
  lower_char c = d ↔ c = d.
Proof.
  intros Hd. unfold lower_char. case_bool_decide as Hc; [|done].
  split; intros H; subst; exfalso.
  - unfold byte_of in *. rewrite N_ascii_embedding in Hd; lia.
  - lia.
Qed.

Lemma lower_char_idem c : lower_char (lower_char c) = lower_char c.
Proof.
  unfold lower_char. destruct (bool_decide (65 ≤ byte_of c ≤ 90)%N) eqn:E; [|by rewrite E].
  apply bool_decide_eq_true in E. rewrite bool_decide_false //.
  unfold byte_of in *. rewrite N_ascii_embedding; lia.
Qed.

Lemma lower_char_ascii c : is_ascii_char c → is_ascii_char (lower_char c).
Proof.
  unfold is_ascii_char, lower_char. intros H%bool_decide_unpack. apply bool_decide_pack.
  case_bool_decide; [|done]. unfold byte_of in *. rewrite N_ascii_embedding; lia.
Qed.

(** The delimiters of the package-URL syntax are not letters. *)
Definition is_caseless (c : ascii) : bool :=
  bool_decide (byte_of c < 65 ∨ 122 < byte_of c ∨ 90 < byte_of c < 97)%N.

Lemma has_char_lower c s : is_caseless c → has_char c (map_chars lower_char s) = has_char c s.
Proof.
  intros Hc%bool_decide_unpack. induction s as [|d s IH]; simpl; [done|]. rewrite IH. f_equal.
  apply bool_decide_ext. split; intros H; symmetry; symmetry in H; by apply (lower_char_eq d c).
Qed.

Lemma map_lower_idem s : map_chars lower_char (map_chars lower_char s) = map_chars lower_char s.
Proof. induction s as [|c s IH]; simpl; [done|]. by rewrite lower_char_idem IH. Qed.

Lemma is_ascii_lower s : is_ascii s = true → is_ascii (map_chars lower_char s) = true.
Proof.
  induction s as [|c s IH]; [done|]. unfold is_ascii in *; simpl. rewrite !andb_true_iff. intros [Hc Hs].
  split; [|auto]. apply Is_true_true, lower_char_ascii. by apply Is_true_true.
Qed.

Lemma is_ascii_app a b : is_ascii (a +:+ b) = is_ascii a && is_ascii b.
Proof. apply all_chars_app. Qed.

Section unicode.
Context `{Unicode}.

Lemma ToLower_ascii s : is_ascii s = true → ToLower s = map_chars lower_char s.
Proof. intros Hs. unfold ToLower. by rewrite Hs. Qed.

Lemma ToLower_idem s : is_ascii s = true → ToLower (ToLower s) = ToLower s.
Proof.
  intros Hs. rewrite (ToLower_ascii s) // ToLower_ascii; [by apply is_ascii_lower|].
  apply map_lower_idem.
Qed.

Lemma has_char_ToLower c s : is_caseless c → is_ascii s = true → has_char c (ToLower s) = has_char c s.
Proof. intros Hc Hs. rewrite ToLower_ascii //. by apply has_char_lower. Qed.

Lemma is_ascii_ToLower s : is_ascii s = true → is_ascii (ToLower s) = true.
Proof. intros Hs. rewrite ToLower_ascii //. by apply is_ascii_lower. Qed.
End unicode.

(** Trimming a byte at the right end. *)
Lemma TrimRight_idem s c : TrimRight (TrimRight s c) c = TrimRight s c.
Proof.
  induction s as [|d s IH]; simpl; [done|].
  destruct (TrimRight s c) as [|e t] eqn:E; simpl.
  - destruct (decide (c = d)); simpl; [done|]. by rewrite decide_False.
  - simpl in IH. by rewrite IH.
Qed.

Lemma TrimRight_app s c : ∃ t, s = TrimRight s c +:+ t.
Proof.
  induction s as [|d s [t IH]]; simpl; [by exists ""|].
  destruct (TrimRight s c) as [|e u].
  - destruct (decide (c = d)); [by exists (String d s)|]. exists s. done.
  - exists t. rewrite app_cons. by rewrite -IH.
Qed.

(** Sorting. *)
Lemma sort_strings_perm l : sort_strings l ≡ₚ l.
Proof. apply merge_sort_Permutation. Qed.
Lemma sort_strings_sorted l : StronglySorted String.le (sort_strings l).
Proof. apply StronglySorted_merge_sort; apply _. Qed.
Lemma sort_strings_ext l k : l ≡ₚ k → sort_strings l = sort_strings k.
Proof.
  intros Hp. apply (StronglySorted_unique String.le); [apply sort_strings_sorted..|].
  by rewrite !sort_strings_perm.
Qed.
Lemma sort_strings_id l : StronglySorted String.le l → sort_strings l = l.
Proof.
  intros Hs. apply (StronglySorted_unique String.le); [apply sort_strings_sorted|done|].
  apply sort_strings_perm.
Qed.
#[export] Instance sort_strings_proper : Proper ((≡ₚ) ==> (=)) sort_strings.
Proof. intros l k. apply sort_strings_ext. Qed.

(** ** [TrimSpace] on text without spaces *)
Definition is_graphic (c : ascii) : bool := bool_decide (33 ≤ byte_of c ≤ 126)%N.

Lemma rev_app_spec a b c : String.rev_app (String.rev_app a b) c = String.rev_app b (a +:+ c).
Proof.
  revert b c. induction a as [|x a IH]; intros b c; simpl; [by rewrite app_nil_l|]. rewrite IH. simpl.
  by rewrite app_cons.
Qed.

Lemma rev_rev s : String.rev (String.rev s) = s.
Proof. unfold String.rev. rewrite rev_app_spec /=. apply app_nil_r. Qed.

Lemma all_chars_rev_app f a b : all_chars f (String.rev_app a b) = all_chars f a && all_chars f b.
Proof.
  revert b. induction a as [|x a IH]; intros b; simpl; [done|]. rewrite IH /=.
  by destruct (f x), (all_chars f a).
Qed.

Definition starts_nongraphic (p : string) : bool :=
  match p with String c _ => negb (is_graphic c) | "" => false end.

Lemma trim_prefixes_graphic pats fuel s :
  forallb starts_nongraphic pats = true → all_chars is_graphic s = true → trim_prefixes pats fuel s = s.
Proof.
  intros Hp Hs. destruct fuel; simpl; [done|].
  destruct (List.find (HasPrefix s) pats) as [p|] eqn:E; [|done].
  apply List.find_some in E as [Hin Hpre]. rewrite forallb_forall in Hp. apply Hp in Hin.
  destruct p as [|c p]; [done|]. destruct s as [|d s]; [done|]. simpl in *.
  apply andb_true_iff in Hs as [Hd _]. unfold HasPrefix in Hpre. simpl in Hpre.
  destruct (ascii_dec c d) as [->|]; [|done]. by rewrite Hd in Hin.
Qed.

Lemma TrimSpace_graphic s : all_chars is_graphic s = true → TrimSpace s = s.
Proof.
  intros Hs. unfold TrimSpace. rewrite (trim_prefixes_graphic space_runes); [done..|].
  rewrite trim_prefixes_graphic; [done| |apply rev_rev].
  unfold String.rev. by rewrite all_chars_rev_app Hs.
Qed.
