(* ===== verification/GoFloat.v ===== *)
(** * Go floating point numbers

[float64] is the IEEE 754 binary64 format of [SpecFloat] (53 bits of
precision, exponents below 1024): comparisons, sums, products and quotients
are rounded exactly as the hardware rounds them, NaN and the infinities
included. *)
From S2P Require Import Prelude GoString.
From Corelib Require Export SpecFloat.

Abbreviation float64 := spec_float.

#[export] Instance float64_eq_dec : EqDecision float64.
Proof. solve_decision. Defined.

Definition fprec : Z := 53.
Definition femax : Z := 1024.

Definition f_zero : float64 := S754_zero false.
Definition f_nan : float64 := S754_nan.
Definition f_of_Z (z : Z) : float64 := binary_normalize fprec femax z 0 false.
Definition f_add (a b : float64) : float64 := SFadd fprec femax a b.
Definition f_mul (a b : float64) : float64 := SFmul fprec femax a b.
Definition f_div (a b : float64) : float64 := SFdiv fprec femax a b.

(** The literal [n / 10^k], rounded to nearest even as the Go compiler does
([n] and [10^k] are exact, so one division rounds once). *)
Definition f_dec (n : Z) (k : nat) : float64 := f_div (f_of_Z n) (f_of_Z (10 ^ Z.of_nat k)).

(** [a < b], [a > b], [a <= b], [a >= b]: all false when an operand is NaN. *)
Definition f_lt (a b : float64) : bool := SFltb a b.
Definition f_gt (a b : float64) : bool := SFltb b a.
Definition f_le (a b : float64) : bool := SFleb a b.
Definition f_ge (a b : float64) : bool := SFleb b a.

Definition is_nan (a : float64) : bool := match a with S754_nan => true | _ => false end.
Definition is_finite (a : float64) : bool :=
  match a with S754_nan | S754_infinity _ => false | _ => true end.

(** [fmt.Sprintf("%.1f", x)]: the exact value rounded half to even at the first
decimal. *)
Definition round_half_even (num den : Z) : Z :=
  let q := (num `div` den)%Z in
  let r := (num `mod` den)%Z in
  match (2 * r ?= den)%Z with
  | Lt => q
  | Gt => q + 1
  | Eq => if Z.even q then q else q + 1
  end%Z.

Definition fmt_tenths (neg : bool) (t : Z) : string :=
  (if neg then "-" else "") +:+ fmt_d (t `div` 10) +:+ "." +:+ fmt_d (t `mod` 10).

Definition fmt_1f (a : float64) : string :=
  match a with
  | S754_nan => "NaN"
  | S754_infinity false => "+Inf"
  | S754_infinity true => "-Inf"
  | S754_zero s => fmt_tenths s 0
  | S754_finite s m e =>
      let t := if (0 <=? e)%Z then (10 * Zpos m * 2 ^ e)%Z
               else round_half_even (10 * Zpos m) (2 ^ (- e)) in
      fmt_tenths s t
  end.

(** ** The order on numbers

[f_key] embeds the numbers (not NaN) into triples compared
lexicographically; the comparisons of the code are that order. *)
Definition f_key (a : float64) : Z * Z * Z :=
  match a with
  | S754_infinity true => (-2, 0, 0)
  | S754_finite true m e => (-1, -e, Zneg m)
  | S754_zero _ => (0, 0, 0)
  | S754_finite false m e => (1, e, Zpos m)
  | S754_infinity false => (2, 0, 0)
  | S754_nan => (3, 0, 0)
  end%Z.

Definition lex_lt (x y : Z * Z * Z) : Prop :=
  let '(a, b, c) := x in let '(a', b', c') := y in
  (a < a' ∨ a = a' ∧ (b < b' ∨ b = b' ∧ c < c'))%Z.

Lemma SFcompare_spec a b : is_nan a = false → is_nan b = false →
  match SFcompare a b with
  | Some Lt => lex_lt (f_key a) (f_key b)
  | Some Gt => lex_lt (f_key b) (f_key a)
  | Some Eq => f_key a = f_key b
  | None => False
  end.
Proof.
  destruct a as [?|[]| |[] m e], b as [?|[]| |[] m' e']; intros Ha Hb; try done;
    simpl; try lia.
  - destruct (Z.compare_spec e e'); try (simpl; lia).
    change (Pos.compare_cont Eq m m') with (Pos.compare m m').
    destruct (Pos.compare_spec m m'); simpl; try lia. by subst.
  - destruct (Z.compare_spec e e'); try (simpl; lia).
    change (Pos.compare_cont Eq m m') with (Pos.compare m m').
    destruct (Pos.compare_spec m m'); simpl; try lia. by subst.
Qed.

Ltac f_order_cases :=
  unfold f_lt, f_gt, f_le, f_ge, SFltb, SFleb in *;
  repeat match goal with
  | _ : context [SFcompare ?a ?b], Ha : is_nan ?a = false, Hb : is_nan ?b = false |- _ =>
      let H := fresh "Hcmp" in
      pose proof (SFcompare_spec a b Ha Hb) as H;
      destruct (SFcompare a b) as [[]|]
  | Ha : is_nan ?a = false, Hb : is_nan ?b = false |- context [SFcompare ?a ?b] =>
      let H := fresh "Hcmp" in
      pose proof (SFcompare_spec a b Ha Hb) as H;
      destruct (SFcompare a b) as [[]|]
  end; try done;
  repeat match goal with
  | H : context [f_key ?a] |- _ =>
      let x := fresh "k" in destruct (f_key a) as [[? ?] ?]
  end; unfold lex_lt in *; simplify_eq/=; try lia.

Lemma f_le_nan a b : f_le a b = true → is_nan a = false ∧ is_nan b = false.
Proof. by destruct a, b. Qed.
Lemma f_lt_nan a b : f_lt a b = true → is_nan a = false ∧ is_nan b = false.
Proof. by destruct a, b. Qed.

Lemma f_le_refl a : is_nan a = false → f_le a a = true.
Proof.
  intros Ha. pose proof (SFcompare_spec a a Ha Ha). unfold f_le, SFleb.
  destruct (SFcompare a a) as [[]|]; try done. destruct (f_key a) as [[]]; simpl in *; lia.
Qed.
Lemma f_le_trans a b c : f_le a b = true → f_le b c = true → f_le a c = true.
Proof.
  intros H1 H2. destruct (f_le_nan _ _ H1) as [Ha Hb], (f_le_nan _ _ H2) as [_ Hc]. f_order_cases.
Qed.
Lemma f_lt_le a b : f_lt a b = true → f_le a b = true.
Proof. intros H. destruct (f_lt_nan _ _ H) as [Ha Hb]. f_order_cases. Qed.
Lemma f_not_lt_le a b : is_nan a = false → is_nan b = false → f_lt a b = false → f_le b a = true.
Proof. intros Ha Hb H. f_order_cases. Qed.
Lemma f_le_not_lt a b : f_le a b = true → f_lt b a = false.
Proof. intros H. destruct (f_le_nan _ _ H) as [Ha Hb]. f_order_cases. Qed.
Lemma f_total a b : is_nan a = false → is_nan b = false → f_le a b = true ∨ f_le b a = true.
Proof. intros Ha Hb. destruct (f_lt a b) eqn:E; [left; by apply f_lt_le|right; by apply f_not_lt_le]. Qed.
