(* ===== verification/GoTime.v ===== *)
(** * The parts of package [time] the gateway uses

[time.ParseDuration] with its overflow checks, and the RFC 3339 formatting of a
UTC time ([t.UTC().Format(time.RFC3339Nano)]). *)
From S2P Require Import Prelude GoString GoFloat.

(** ** [time.ParseDuration] of the Go standard library *)
Definition is_digit (c : ascii) : bool := match digit_of c with Some _ => true | None => false end.

(** [leadingInt]: the value, or [None] on overflow, and the rest. *)
Fixpoint leadingInt (x : Z) (s : string) : option (Z * string) :=
  match s with
  | "" => Some (x, "")
  | String c s' =>
      match digit_of c with
      | None => Some (x, s)
      | Some d =>
          if bool_decide (2^63 / 10 < x)%Z then None
          else let y := (x * 10 + d)%Z in
               if bool_decide (2^63 < y)%Z then None else leadingInt y s'
      end
  end.

(** [leadingFraction]: digits after an overflow are skipped; [k] counts the powers
of ten of the scale. *)
Fixpoint leadingFraction (x : Z) (k : Z) (overflow : bool) (s : string) : Z * Z * string :=
  match s with
  | "" => (x, k, "")
  | String c s' =>
      match digit_of c with
      | None => (x, k, s)
      | Some d =>
          if overflow then leadingFraction x k true s'
          else if bool_decide ((2^63 - 1) / 10 < x)%Z then leadingFraction x k true s'
          else let y := (x * 10 + d)%Z in
               if bool_decide (2^63 < y)%Z then leadingFraction x k true s'
               else leadingFraction y (k + 1) false s'
      end
  end.

Fixpoint take_unit (s : string) : string * string :=
  match s with
  | "" => ("", "")
  | String c s' =>
      if bool_decide (c = "."%char) || is_digit c then ("", s)
      else let '(u, r) := take_unit s' in (String c u, r)
  end.

Definition unitMap (u : string) : option Z :=
  if bool_decide (u = "ns") then Some 1%Z
  else if bool_decide (u = "us") || bool_decide (u = bytes [194; 181; 115])
          || bool_decide (u = bytes [206; 188; 115]) then Some 1000%Z
  else if bool_decide (u = "ms") then Some 1000000%Z
  else if bool_decide (u = "s") then Some Second
  else if bool_decide (u = "m") then Some Minute
  else if bool_decide (u = "h") then Some Hour
  else None.

(** [uint64(x)] of a non-negative float below [2^64]. *)
Definition f_trunc (x : float64) : Z :=
  match x with
  | SpecFloat.S754_finite _ m e => Z.shiftl (Zpos m) e
  | _ => 0%Z
  end.

(** [float64(f) * (float64(unit) / scale)], truncated; the scale is the float
product of [k] tens. *)
Definition fraction_ns (f unit k : Z) : Z :=
  let scale := fold_left (λ s _, f_mul s (f_of_Z 10)) (seq 0 (Z.to_nat k)) (f_of_Z 1) in
  f_trunc (f_mul (f_of_Z f) (f_div (f_of_Z unit) scale)).

(** Why a duration is refused, as the texts of the errors distinguish it. *)
Inductive DurationErr :=
| InvalidDuration
| MissingUnit
| UnknownUnit (u : string).

(** One number with its unit, and the rest. *)
Definition duration_component (s : string) : res DurationErr (Z * string) :=
  match leadingInt 0 s with
  | None => Err InvalidDuration
  | Some (v, s1) =>
      let pre := negb (bool_decide (String.length s1 = String.length s)) in
      let '(f, k, post, s2) :=
        match s1 with
        | String "." s2 =>
            let '(f, k, s3) := leadingFraction 0 0 false s2 in
            (f, k, negb (bool_decide (String.length s3 = String.length s2)), s3)
        | _ => (0%Z, 0%Z, false, s1)
        end in
      if negb pre && negb post then Err InvalidDuration
      else
        let '(u, s4) := take_unit s2 in
        if bool_decide (u = "") then Err MissingUnit
        else match unitMap u with
             | None => Err (UnknownUnit u)
             | Some unit =>
                 if bool_decide (2^63 / unit < v)%Z then Err InvalidDuration
                 else
                   let v := (v * unit)%Z in
                   let v := if bool_decide (0 < f)%Z then (v + fraction_ns f unit k)%Z else v in
                   if bool_decide (2^63 < v)%Z then Err InvalidDuration else Ok (v, s4)
             end
  end.

(** The loop; each round consumes at least a digit or a unit, so the length of
the string is enough fuel. *)
Fixpoint duration_loop (fuel : nat) (d : Z) (s : string) : res DurationErr Z :=
  match fuel, s with
  | _, "" => Ok d
  | 0, _ => Err InvalidDuration
  | S fuel, String c _ =>
      if bool_decide (c = "."%char) || is_digit c then
        let? vs := duration_component s in
        let d := ((d + vs.1) `mod` 2^64)%Z in
        if bool_decide (2^63 < d)%Z then Err InvalidDuration else duration_loop fuel d vs.2
      else Err InvalidDuration
  end.

(** *** The fuel of the loop *)
Lemma leadingInt_length (s : string) : ∀ x v r,
  leadingInt x s = Some (v, r) → String.length r ≤ String.length s.
Proof.
  induction s as [|c s IH]; intros x v r; simpl; [by intros [= <- <-]|].
  destruct (digit_of c); [|by intros [= <- <-]].
  repeat case_bool_decide; try done. intros ?%IH. lia.
Qed.

Lemma leadingFraction_length (s : string) : ∀ x k o,
  String.length (leadingFraction x k o s).2 ≤ String.length s.
Proof.
  induction s as [|c s IH]; intros x k o; simpl; [done|].
  destruct (digit_of c); [|done].
  assert (Hall : ∀ x k o, String.length (leadingFraction x k o s).2 ≤ S (String.length s))
    by (intros; etrans; [apply IH|lia]).
  destruct o; [apply Hall|]. by repeat case_bool_decide.
Qed.

Lemma take_unit_length (s : string) :
  String.length (take_unit s).2 + String.length (take_unit s).1 = String.length s.
Proof.
  induction s as [|c s IH]; simpl; [done|]. destruct (_ || _); [simpl; lia|].
  destruct (take_unit s) as [u r]. simpl in *. lia.
Qed.

(** Every component has a non-empty unit, so it shortens the text. *)
Lemma duration_component_length (s : string) v r :
  duration_component s = Ok (v, r) → String.length r < String.length s.
Proof.
  unfold duration_component. destruct (leadingInt 0 s) as [[n s1]|] eqn:H1; [|done].
  apply leadingInt_length in H1.
  set (q := match s1 with String "." s2 => _ | _ => _ end).
  assert (Hq : String.length q.2 ≤ String.length s1).
  { subst q. destruct s1 as [|c s2]; [done|]. destruct (decide (c = "."%char)) as [->|Hc].
    - pose proof (leadingFraction_length s2 0 0 false) as Hf.
      destruct (leadingFraction 0 0 false s2) as [[f k] s3]. simpl in *. lia.
    - destruct c as [[] [] [] [] [] [] [] []]; done. }
  destruct q as [[[f k] post] s2]. simpl in Hq. destruct (_ && _); [done|].
  pose proof (take_unit_length s2) as Hu. destruct (take_unit s2) as [u s4]. simpl in Hu.
  destruct (bool_decide (u = "")) eqn:Hue; [done|]. apply bool_decide_eq_false in Hue.
  destruct (unitMap u); [|done]. repeat case_bool_decide; try done; intros [= <- <-];
    destruct u; try done; simpl in *; lia.
Qed.

Lemma duration_loop_fuel (n : nat) : ∀ m d s,
  String.length s ≤ n → String.length s ≤ m → duration_loop n d s = duration_loop m d s.
Proof.
  induction n as [|n IH]; intros m d [|c s] Hn Hm; try by destruct m. { simpl in Hn. lia. }
  destruct m as [|m]; [simpl in Hm; lia|]. cbn [duration_loop]. destruct (_ || _); [|done].
  destruct (duration_component _) as [[v r]|] eqn:Hc; [|done].
  apply duration_component_length in Hc. simpl in *. case_bool_decide; [done|]. apply IH; lia.
Qed.

Definition parse_duration (s : string) : res DurationErr Duration :=
  let '(neg, s) :=
    match s with
    | String "-" s' => (true, s')
    | String "+" s' => (false, s')
    | _ => (false, s)
    end in
  if bool_decide (s = "0") then Ok 0%Z
  else if bool_decide (s = "") then Err InvalidDuration
  else let? d := duration_loop (String.length s) 0 s in
       if neg then Ok (wrap64 (- d))
       else if bool_decide (2^63 - 1 < d)%Z then Err InvalidDuration else Ok d.

(** The text of the error for the argument [orig]. *)
Definition duration_error (orig : string) (e : DurationErr) : string :=
  match e with
  | InvalidDuration => "time: invalid duration " +:+ quoted orig
  | MissingUnit => "time: missing unit in duration " +:+ quoted orig
  | UnknownUnit u => "time: unknown unit " +:+ quoted u +:+ " in duration " +:+ quoted orig
  end.

Definition ParseDuration (s : string) : res string Duration :=
  match parse_duration s with Ok d => Ok d | Err e => Err (duration_error s e) end.

Example ParseDuration_examples :
  ParseDuration "1h" = Ok Hour ∧ ParseDuration "1h30m" = Ok (90 * Minute)%Z
  ∧ ParseDuration "-1.5s" = Ok (-1500000000)%Z ∧ ParseDuration ".5us" = Ok 500%Z
  ∧ ParseDuration "0" = Ok 0%Z ∧ parse_duration "1" = Err MissingUnit
  ∧ parse_duration "" = Err InvalidDuration
  ∧ parse_duration "9223372036854775808ns" = Err InvalidDuration
  ∧ ParseDuration "-9223372036854775808ns" = Ok (-2^63)%Z ∧ parse_duration "1d" = Err (UnknownUnit "d").
Proof. vm_compute. repeat split; reflexivity. Qed.

(** ** [Format(time.RFC3339Nano)] *)

(** Year, month and day of a day counted from January 1, year 1, through the
civil calendar of 400-year eras that start on March 1. *)
Definition civil_of_days (days : Z) : Z * Z * Z :=
  let z := (days + 306)%Z in
  let era := (z / 146097)%Z in
  let doe := (z - era * 146097)%Z in
  let yoe := ((doe - doe / 1460 + doe / 36524 - doe / 146096) / 365)%Z in
  let doy := (doe - (365 * yoe + yoe / 4 - yoe / 100))%Z in
  let mp := ((5 * doy + 2) / 153)%Z in
  let d := (doy - (153 * mp + 2) / 5 + 1)%Z in
  let m := if bool_decide (mp < 10)%Z then (mp + 3)%Z else (mp - 9)%Z in
  let y := (yoe + era * 400 + if bool_decide (m <= 2)%Z then 1 else 0)%Z in
  (y, m, d).

(** Zero-padded to [w] digits. *)
Definition pad_digits (w : nat) (z : Z) : string :=
  let s := fmt_d z in
  String.concat "" (replicate (w - String.length s) "0") +:+ s.

Definition RFC3339Nano (t : Time) : string :=
  let secs := (t `div` Second)%Z in
  let ns := (t `mod` Second)%Z in
  let '(y, m, d) := civil_of_days (secs `div` 86400) in
  let sod := (secs `mod` 86400)%Z in
  pad_digits 4 y +:+ "-" +:+ pad_digits 2 m +:+ "-" +:+ pad_digits 2 d +:+ "T"
  +:+ pad_digits 2 (sod / 3600) +:+ ":" +:+ pad_digits 2 (sod `mod` 3600 / 60) +:+ ":"
  +:+ pad_digits 2 (sod `mod` 60)
  +:+ (if bool_decide (ns = 0)%Z then "" else "." +:+ TrimRight (pad_digits 9 ns) "0"%char) +:+ "Z".

Example RFC3339Nano_examples :
  RFC3339Nano 0 = "0001-01-01T00:00:00Z"
  ∧ RFC3339Nano ((62135596800 + 1709210096) * Second + 120000000) = "2024-02-29T12:34:56.12Z".
Proof. vm_compute. split; reflexivity. Qed.
