(* ===== verification/Sha256.v ===== *)
(** * [crypto/sha256] and [encoding/hex]

SHA-256 (FIPS 180-4) on byte strings, computed on 32-bit words kept in [Z] with
their wrap-around, so that every key the gateway derives from a hash can be
evaluated.  The two test vectors at the end are those of the standard. *)
From S2P Require Import Prelude GoString.

Definition mask32 (x : Z) : Z := Z.land x (2^32 - 1).
Definition rotr (n x : Z) : Z :=
  mask32 (Z.lor (Z.shiftr x n) (Z.shiftl x (32 - n))).
Definition not32 (x : Z) : Z := Z.lxor x (2^32 - 1).

Definition Ch (x y z : Z) : Z := Z.lxor (Z.land x y) (Z.land (not32 x) z).
Definition Maj (x y z : Z) : Z := Z.lxor (Z.lxor (Z.land x y) (Z.land x z)) (Z.land y z).
Definition Sig0 (x : Z) : Z := Z.lxor (Z.lxor (rotr 2 x) (rotr 13 x)) (rotr 22 x).
Definition Sig1 (x : Z) : Z := Z.lxor (Z.lxor (rotr 6 x) (rotr 11 x)) (rotr 25 x).
Definition sig0 (x : Z) : Z := Z.lxor (Z.lxor (rotr 7 x) (rotr 18 x)) (Z.shiftr x 3).
Definition sig1 (x : Z) : Z := Z.lxor (Z.lxor (rotr 17 x) (rotr 19 x)) (Z.shiftr x 10).

(** The round constants are the first 32 bits of the fractional parts of the cube
roots of the first 64 primes, the initial state that of the square roots of the
first eight: they are computed, by integer roots, instead of listed. *)
Definition is_prime (n : Z) : bool :=
  forallb (λ d, negb (bool_decide (n `mod` Z.of_nat d = 0)%Z)) (seq 2 (Z.to_nat (Z.sqrt n) - 1)).

Definition primes64 : list Z := List.filter is_prime (Z.of_nat <$> seq 2 310).

(** The largest [r] below [lo + 2^n] with [r^3 <= z], by bisection from [lo]. *)
Fixpoint cbrt_bits (n : nat) (z lo : Z) : Z :=
  match n with
  | 0 => lo
  | S n =>
      let c := (lo + 2 ^ Z.of_nat n)%Z in
      cbrt_bits n z (if bool_decide (c * c * c <= z)%Z then c else lo)
  end.

Definition K256 : list Z :=
  Eval vm_compute in (λ p, mask32 (cbrt_bits 36 (Z.shiftl p 96) 0)) <$> primes64.

Definition H256 : list Z :=
  Eval vm_compute in (λ p, mask32 (Z.sqrt (Z.shiftl p 64))) <$> take 8 primes64.

Fixpoint bytes_of (s : string) : list Z :=
  match s with "" => [] | String c s => Z.of_N (N_of_ascii c) :: bytes_of s end.

Fixpoint be_bytes (n : nat) (z : Z) : list Z :=
  match n with 0 => [] | S n => be_bytes n (Z.shiftr z 8) ++ [Z.land z 255] end.

Definition pad256 (m : list Z) : list Z :=
  let l := Z.of_nat (length m) in
  m ++ [128%Z] ++ replicate (Z.to_nat ((55 - l) `mod` 64)%Z) 0%Z ++ be_bytes 8 (8 * l)%Z.

Fixpoint words_of (l : list Z) : list Z :=
  match l with
  | a :: b :: c :: d :: l =>
      Z.lor (Z.shiftl a 24) (Z.lor (Z.shiftl b 16) (Z.lor (Z.shiftl c 8) d)) :: words_of l
  | _ => []
  end.

(** The message schedule, latest word first. *)
Fixpoint schedule (n : nat) (rw : list Z) : list Z :=
  match n with
  | 0 => rw
  | S n =>
      let w k := nth k rw 0%Z in
      schedule n (mask32 (sig1 (w 1%nat) + w 6%nat + sig0 (w 14%nat) + w 15%nat)%Z :: rw)
  end.

Definition round256 (st : list Z) (kw : Z * Z) : list Z :=
  match st with
  | [a; b; c; d; e; f; g; h] =>
      let t1 := (h + Sig1 e + Ch e f g + kw.1 + kw.2)%Z in
      let t2 := (Sig0 a + Maj a b c)%Z in
      [mask32 (t1 + t2); a; b; c; mask32 (d + t1); e; f; g]
  | _ => st
  end.

Definition compress (st block : list Z) : list Z :=
  let w := reverse (schedule 48 (reverse block)) in
  zip_with (λ x y, mask32 (x + y)%Z) st (fold_left round256 (zip K256 w) st).

(** The fuel is the number of words, sixteen of which each round consumes. *)
Fixpoint blocks (fuel : nat) (st w : list Z) : list Z :=
  match fuel, w with
  | S fuel, _ :: _ => blocks fuel (compress st (take 16 w)) (drop 16 w)
  | _, _ => st
  end.

(** [sha256.Sum256]: the 32 bytes of the digest. *)
Definition Sum256 (s : string) : list Z :=
  let w := words_of (pad256 (bytes_of s)) in
  concat (be_bytes 4 <$> blocks (length w) H256 w).

Definition hex_digit (z : Z) : ascii :=
  ascii_of_N (if bool_decide (z < 10)%Z then 48 + Z.to_N z else 87 + Z.to_N z)%N.

(** [hex.EncodeToString]. *)
Definition hex_encode (l : list Z) : string :=
  foldr (λ z s, String (hex_digit (Z.shiftr z 4)) (String (hex_digit (Z.land z 15)) s)) "" l.

Definition sha256_hex (s : string) : string := hex_encode (Sum256 s).

Example sha256_empty :
  sha256_hex "" = "e3b0c44298fc1c149afbf4c8996fb92427ae41e4649b934ca495991b7852b855".
Proof. vm_compute. reflexivity. Qed.

Example sha256_two_blocks :
  sha256_hex "abcdbcdecdefdefgefghfghighijhijkijkljklmklmnlmnomnopnopq"
  = "248d6a61d20638b8e5c026930c3e6039a33ce45964ff2167f6ecedd419db06c1".
Proof. vm_compute. reflexivity. Qed.

(** A digest has 32 bytes, whatever the message. *)
Lemma round256_length st kw : length (round256 st kw) = length st.
Proof. unfold round256. do 9 (destruct st as [|? st]; [done|]). done. Qed.

Lemma compress_length st block : length (compress st block) = length st.
Proof.
  unfold compress. rewrite length_zip_with.
  assert (∀ l s, length (fold_left round256 l s) = length s) as ->; [|lia].
  induction l as [|kw l IH]; intros s; simpl; [done|]. by rewrite IH round256_length.
Qed.

Lemma blocks_length fuel st w : length (blocks fuel st w) = length st.
Proof.
  revert st w. induction fuel as [|n IH]; intros st w; simpl; [done|]. destruct w; [done|].
  by rewrite IH compress_length.
Qed.

Lemma be_bytes_length n z : length (be_bytes n z) = n.
Proof. revert z. induction n as [|n IH]; intros z; simpl; [done|]. rewrite length_app IH /=. lia. Qed.

Lemma be_bytes_range n z : Forall (λ b, 0 <= b < 256)%Z (be_bytes n z).
Proof.
  revert z. induction n as [|n IH]; intros z; simpl; [constructor|]. apply Forall_app. split; [apply IH|].
  apply Forall_singleton. rewrite (Z.land_ones z 8) //. by apply Z.mod_pos_bound.
Qed.

Lemma Sum256_length s : length (Sum256 s) = 32.
Proof.
  unfold Sum256. set (b := blocks _ _ _). assert (length b = 8) as Hb by apply blocks_length. clearbody b.
  do 8 (destruct b as [|? b]; [done|]). destruct b; [|done]. done.
Qed.

Lemma Sum256_range s : Forall (λ b, 0 <= b < 256)%Z (Sum256 s).
Proof. unfold Sum256. apply Forall_concat, Forall_fmap, Forall_forall. intros z _. apply be_bytes_range. Qed.

Lemma hex_encode_length l : String.length (hex_encode l) = 2 * length l.
Proof. induction l; simpl; lia. Qed.

Lemma sha256_nonempty s : sha256_hex s ≠ "".
Proof. unfold sha256_hex. pose proof (hex_encode_length (Sum256 s)) as Hl. rewrite Sum256_length in Hl. by intros Hn; rewrite Hn in Hl. Qed.
