(* ===== verification/Types.v ===== *)
(** * The data model of the gateway: package [api], files [types.go], [merged.go]
and [clone.go]

One record per Go struct with the fields of the struct, in order.  A field name
is the Go name behind a prefix of its struct.  A pointer is an [option], a slice
a [list], a [map[string]T] a [gmap string T].  Typed strings whose values reach
the code from documents, requests or providers ([PolicyDecisionValue],
[VerdictValue], [AssessmentStatus], ...) stay strings; the two that only the
gateway writes ([SubmissionStatus], [CompletionReason]) are enumerations
([SubmissionUnset] is the zero value of the Go type). *)
From S2P Require Import Prelude GoString GoFloat.

(** [any], the dynamic values of extension maps: what [encoding/json] decodes. *)
Inductive any : Type :=
| VNil
| VBool (b : bool)
| VNum (x : float64)
| VStr (s : string)
| VArr (l : list any)
| VObj (m : list (string * any)).

Abbreviation anymap := (gmap string any).
Abbreviation strmap := (gmap string string).

(** ** Artifacts *)
Record ResourceReference := mkResourceReference {
  Ref_URI : string;
  Ref_MediaType : string;
  Ref_Digests : strmap;
  Ref_Format : string;
  Ref_FormatVersion : string;
  Ref_ExpiresAt : string;
  Ref_Extensions : anymap;
}.

Record ArtifactRef := mkArtifactRef {
  ARef_PURL : option string;
  ARef_Digests : strmap;
  ARef_ContentRef : option ResourceReference;
}.

Record Artifact := mkArtifact {
  Art_PURL : option string;
  Art_Digests : strmap;
  Art_ContentRef : option ResourceReference;
  Art_SBOMRefs : list ResourceReference;
  Art_ProvenanceRefs : list ResourceReference;
  Art_Extensions : anymap;
  Art_Content : option string;
}.

(** ** Submissions *)
Inductive SubmissionStatus :=
| SubmissionUnset
| SubmissionAccepted
| SubmissionRunning
| SubmissionCompleted
| SubmissionFailed
| SubmissionDeferred.

Inductive CompletionReason :=
| CompletionDecisionProduced
| CompletionFindingsOnly
| CompletionDeferred
| CompletionFailed
| CompletionAllProvidersIneligible
| CompletionInterrupted
| CompletionCapacityExceeded.

Definition status_string (s : SubmissionStatus) : string :=
  match s with
  | SubmissionUnset => ""
  | SubmissionAccepted => "accepted"
  | SubmissionRunning => "running"
  | SubmissionCompleted => "completed"
  | SubmissionFailed => "failed"
  | SubmissionDeferred => "deferred"
  end.

Definition reason_string (r : CompletionReason) : string :=
  match r with
  | CompletionDecisionProduced => "decision_produced"
  | CompletionFindingsOnly => "findings_only"
  | CompletionDeferred => "deferred"
  | CompletionFailed => "failed"
  | CompletionAllProvidersIneligible => "all_providers_ineligible"
  | CompletionInterrupted => "interrupted"
  | CompletionCapacityExceeded => "capacity_exceeded"
  end.

Record Submission := mkSubmission {
  Sub_ID : string;
  Sub_SchemaVersion : string;
  Sub_Artifact : Artifact;
  Sub_RequestedCapabilities : list string;
  Sub_ProviderSelectors : anymap;
  Sub_PolicyRef : option string;
  Sub_Status : SubmissionStatus;
  Sub_CompletionReason : option CompletionReason;
  Sub_CreatedAt : Time;
  Sub_CompletedAt : option Time;
  Sub_ResultIDs : list string;
  Sub_DecisionID : option string;
  Sub_ResumeAt : option Time;
  Sub_Extensions : anymap;
}.

(** ** Provider results *)
Definition ExecutionStatus := string.
Definition ExecutionCompleted : ExecutionStatus := "completed".
Definition ExecutionError : ExecutionStatus := "error".
Definition ExecutionTimeout : ExecutionStatus := "timeout".

Definition VerdictValue := string.
Definition VerdictPass : VerdictValue := "pass".
Definition VerdictWarn : VerdictValue := "warn".
Definition VerdictFail : VerdictValue := "fail".
Definition VerdictUnknown : VerdictValue := "unknown".

Definition VerdictOriginProvider : string := "provider".
Definition VerdictOriginAdapter : string := "adapter".

Record VerdictDerivationEntry := mkVerdictDerivationEntry {
  Drv_FindingID : string;
  Drv_Weight : string;
}.

Record VerdictDerivation := mkVerdictDerivation {
  Drv_DrivenBy : list VerdictDerivationEntry;
  Drv_Summary : string;
}.

Record Verdict := mkVerdict {
  Vd_Value : VerdictValue;
  Vd_Origin : string;
  Vd_Rule : string;
  Vd_Derivation : option VerdictDerivation;
}.

Definition ProviderErrorCode := string.
Definition ErrTransport : ProviderErrorCode := "transport_error".
Definition ErrProvider5xx : ProviderErrorCode := "provider_5xx".
Definition ErrProvider4xx : ProviderErrorCode := "provider_4xx".
Definition ErrNormalization : ProviderErrorCode := "normalization_error".
Definition ErrSemantic : ProviderErrorCode := "semantic_error".
Definition ErrUnsupportedVersion : ProviderErrorCode := "unsupported_version".
Definition ErrTimeout : ProviderErrorCode := "timeout".

Record ProviderError := mkProviderError {
  PErr_Code : ProviderErrorCode;
  PErr_Message : string;
  PErr_Detail : anymap;
}.

Record Execution := mkExecution {
  Exec_Status : ExecutionStatus;
  Exec_StartedAt : Time;
  Exec_FinishedAt : Time;
  Exec_Error : option ProviderError;
}.

Record CacheInfo := mkCacheInfo {
  Cache_Hit : bool;
  Cache_OriginalResultID : string;
  Cache_ValidUntil : option Time;
  Cache_FreshnessBasis : string;
}.

Record ProviderRef := mkProviderRef {
  PRef_ID : string;
  PRef_Version : string;
}.

(** ** Findings *)
Definition IdentifierRelation := string.
Definition RelNone : IdentifierRelation := "none".
Definition RelAlias : IdentifierRelation := "alias".
Definition RelUpstream : IdentifierRelation := "upstream".
Definition RelRelated : IdentifierRelation := "related".

Record TypedIdentifier := mkTypedIdentifier {
  Id_Scheme : string;
  Id_Value : string;
  Id_Relation : IdentifierRelation;
}.

Definition AssessmentStatus := string.
Definition AssessAffected : AssessmentStatus := "affected".
Definition AssessNotAffected : AssessmentStatus := "not_affected".
Definition AssessFixed : AssessmentStatus := "fixed".
Definition AssessUnderInvestigation : AssessmentStatus := "under_investigation".
Definition AssessUnknown : AssessmentStatus := "unknown".

Record Assessment := mkAssessment {
  As_Status : AssessmentStatus;
  As_Justification : string;
  As_Detail : string;
}.

Record CweRef := mkCweRef { Cwe_Scheme : string; Cwe_ID : string }.

Record DerivationInfo := mkDerivationInfo { DI_Method : string }.

Record SeverityObservation := mkSeverityObservation {
  Sev_Scheme : string;
  Sev_Version : string;
  Sev_Score : option float64;
  Sev_Level : string;
  Sev_Vector : string;
  Sev_Source : string;
  Sev_Derivation : option DerivationInfo;
}.

Record Metric := mkMetric {
  Met_Scheme : string;
  Met_Value : any;
  Met_Version : string;
  Met_Percentile : option float64;
  Met_ObservedAt : option Time;
  Met_Extensions : anymap;
}.

Record Remediation := mkRemediation {
  Rem_Summary : string;
  Rem_Detail : string;
  Rem_References : list string;
}.

Record Finding := mkFinding {
  Find_ID : string;
  Find_Type : string;
  Find_Title : string;
  Find_Description : string;
  Find_Identifiers : list TypedIdentifier;
  Find_Subjects : list ArtifactRef;
  Find_SubjectOrigin : string;
  Find_SubjectPath : list string;
  Find_Severity : list SeverityObservation;
  Find_Weaknesses : list CweRef;
  Find_Assessment : option Assessment;
  Find_References : list string;
  Find_Evidence : list ResourceReference;
  Find_Remediation : option Remediation;
  Find_Fingerprints : strmap;
  Find_Metrics : list Metric;
  Find_Extensions : anymap;
}.

Record ProviderResult := mkProviderResult {
  Res_ID : string;
  Res_SchemaVersion : string;
  Res_SubmissionID : string;
  Res_Provider : ProviderRef;
  Res_Capabilities : list string;
  Res_CapabilityManifestDigest : string;
  Res_Execution : Execution;
  Res_Verdict : option Verdict;
  Res_Findings : list Finding;
  Res_RawResult : option ResourceReference;
  Res_Cache : option CacheInfo;
  Res_Extensions : anymap;
}.

(** ** Policy decisions *)
Definition PolicyDecisionValue := string.
Definition DecisionAllow : PolicyDecisionValue := "allow".
Definition DecisionReview : PolicyDecisionValue := "review".
Definition DecisionDeny : PolicyDecisionValue := "deny".
Definition DecisionDefer : PolicyDecisionValue := "defer".

Record SeverityRef := mkSeverityRef {
  SRef_Scheme : string;
  SRef_Version : string;
  SRef_Score : option float64;
}.

Record DecisionReason := mkDecisionReason {
  Why_Code : string;
  Why_ResultID : string;
  Why_FindingID : string;
  Why_SeverityRef : option SeverityRef;
  Why_Message : string;
}.

Record PolicyRef := mkPolicyRef {
  Pol_ID : string;
  Pol_Version : string;
  Pol_Digest : string;
}.

Record PolicyDecision := mkPolicyDecision {
  Dec_ID : string;
  Dec_SubmissionID : string;
  Dec_Decision : PolicyDecisionValue;
  Dec_Policy : PolicyRef;
  Dec_EvaluatedAt : Time;
  Dec_InputResultIDs : list string;
  Dec_Reasons : list DecisionReason;
  Dec_ResumeAt : option Time;
  Dec_ResumeOn : string;
  Dec_Extensions : anymap;
}.

Record AdjudicateRequest := mkAdjudicateRequest {
  Adj_Decision : PolicyDecisionValue;
  Adj_Actor : string;
  Adj_Rationale : string;
  Adj_Source : string;
  Adj_ExpiresAt : option Time;
  Adj_Extensions : anymap;
}.

Record CloudEvent := mkCloudEvent {
  Evt_SpecVersion : string;
  Evt_ID : string;
  Evt_Source : string;
  Evt_Type : string;
  Evt_Subject : string;
  Evt_Time : Time;
  Evt_DataContentType : string;
  Evt_DataSchema : string;
  Evt_Data : anymap;
  Evt_Sequence : option Z;
}.

(** ** Capabilities *)
Definition RequirementKind := string.
Definition ReqPurl : RequirementKind := "purl".
Definition ReqDigest : RequirementKind := "digest".
Definition ReqContent : RequirementKind := "content".
Definition ReqSBOM : RequirementKind := "sbom".
Definition ReqProvenance : RequirementKind := "provenance".

Record Requirement := mkRequirement {
  Req_Kind : RequirementKind;
  Req_Types : list string;
  Req_Algorithms : list string;
  Req_Formats : gmap string (list string);
}.

Record InputProfile := mkInputProfile {
  Prof_ID : string;
  Prof_Requires : list Requirement;
}.

Record Capability := mkCapability {
  Cap_ID : string;
  Cap_Version : string;
  Cap_InputProfiles : list InputProfile;
  Cap_FindingTypes : list string;
  Cap_NativeOutputFormats : list string;
  Cap_Limits : anymap;
  Cap_CostHint : string;
  Cap_LatencyHint : string;
}.

Record ProviderCapabilities := mkProviderCapabilities {
  Caps_SchemaVersion : string;
  Caps_Provider : ProviderRef;
  Caps_ManifestVersion : string;
  Caps_ManifestDigest : string;
  Caps_UpdatedAt : Time;
  Caps_Capabilities : list Capability;
  Caps_AcceptsAdjudications : bool;
  Caps_Extensions : anymap;
}.

Definition CompatibilityReasonCode := string.
Definition ReasonMissingInput : CompatibilityReasonCode := "missing_required_input".
Definition ReasonUnsupportedPurlType : CompatibilityReasonCode := "unsupported_purl_type".
Definition ReasonUnsupportedDigest : CompatibilityReasonCode := "unsupported_digest_algorithm".
Definition ReasonUnsupportedSBOM : CompatibilityReasonCode := "unsupported_sbom_format".
Definition ReasonSizeExceeded : CompatibilityReasonCode := "size_exceeded".
Definition ReasonNoMatchingProfile : CompatibilityReasonCode := "no_matching_profile".

Record CompatibilityReason := mkCompatibilityReason {
  CR_Code : CompatibilityReasonCode;
  CR_Input : string;
  CR_Detail : string;
}.

Record CompatibilityResult := mkCompatibilityResult {
  Compat_ProviderID : string;
  Compat_Capability : string;
  Compat_Eligible : bool;
  Compat_Reasons : list CompatibilityReason;
}.

Record ProblemDetails := mkProblemDetails {
  Prob_Type : string;
  Prob_Title : string;
  Prob_Status : Z;
  Prob_Detail : string;
  Prob_Instance : string;
}.

(** ** Merged results ([api/merged.go]) *)
Record FindingSource := mkFindingSource {
  Src_ProviderID : string;
  Src_ResultID : string;
  Src_FindingID : string;
}.

Record SeverityConsensus := mkSeverityConsensus {
  Con_Strategy : string;
  Con_SourceCount : Z;
  Con_Conflicts : list string;
}.

Record MergedFinding := mkMergedFinding {
  MF_CorrelationKey : string;
  MF_Type : string;
  MF_Title : string;
  MF_Identifiers : list TypedIdentifier;
  MF_Sources : list FindingSource;
  MF_Severity : list SeverityObservation;
  MF_Assessment : option Assessment;
  MF_Consensus : SeverityConsensus;
}.

Record MergedResult := mkMergedResult {
  MR_ID : string;
  MR_SubmissionID : string;
  MR_InputResultIDs : list string;
  MR_Findings : list MergedFinding;
  MR_MergedAt : Time;
}.

(** [api/interfaces.go]: the anonymous signal forwarded to providers. *)
Record AdjudicationFeedback := mkAdjudicationFeedback {
  Fb_Decision : PolicyDecisionValue;
  Fb_PURL : string;
}.

(** ** Decidable equality *)
#[export] Instance SubmissionStatus_eq_dec : EqDecision SubmissionStatus.
Proof. solve_decision. Defined.
#[export] Instance CompletionReason_eq_dec : EqDecision CompletionReason.
Proof. solve_decision. Defined.
#[export] Instance TypedIdentifier_eq_dec : EqDecision TypedIdentifier.
Proof. solve_decision. Defined.
#[export] Instance FindingSource_eq_dec : EqDecision FindingSource.
Proof. solve_decision. Defined.
#[export] Instance Assessment_eq_dec : EqDecision Assessment.
Proof. solve_decision. Defined.

(** ** [CloneJSON] ([api/clone.go])

A JSON round trip: [json.Marshal] refuses NaN and the infinities, and then the
code returns the zero value of the type; otherwise the value comes back with the
fields tagged [json:"-"] reset.  (Strings are those [encoding/json] decodes,
valid UTF-8, which it encodes unchanged; a nil and an empty slice are both
[[]].) *)
Class Json (A : Type) := {
  json_ok : A → bool;
  json_visible : A → A;
  json_zero : A;
}.

Definition CloneJSON `{Json A} (v : A) : A :=
  if json_ok v then json_visible v else json_zero.

(** Values JSON can carry. *)
Definition all_json `{Json A} (l : list A) : Prop := Forall (λ x, json_ok x = true) l.

Fixpoint any_ok (v : any) : bool :=
  match v with
  | VNum x => is_finite x
  | VArr l => forallb any_ok l
  | VObj m => forallb (λ kv, any_ok kv.2) m
  | _ => true
  end.

Definition anymap_ok (m : anymap) : bool := forallb (λ kv, any_ok kv.2) (map_to_list m).
Definition score_ok (x : option float64) : bool := match x with Some x => is_finite x | None => true end.
Definition ref_ok (r : ResourceReference) : bool := anymap_ok (Ref_Extensions r).
Definition optref_ok (r : option ResourceReference) : bool :=
  match r with Some r => ref_ok r | None => true end.
Definition metric_ok (m : Metric) : bool :=
  any_ok (Met_Value m) && score_ok (Met_Percentile m) && anymap_ok (Met_Extensions m).
Definition artifact_ok (a : Artifact) : bool :=
  optref_ok (Art_ContentRef a) && forallb ref_ok (Art_SBOMRefs a)
  && forallb ref_ok (Art_ProvenanceRefs a) && anymap_ok (Art_Extensions a).
Definition finding_ok (f : Finding) : bool :=
  forallb (λ a, optref_ok (ARef_ContentRef a)) (Find_Subjects f)
  && forallb (λ s, score_ok (Sev_Score s)) (Find_Severity f)
  && forallb ref_ok (Find_Evidence f) && forallb metric_ok (Find_Metrics f)
  && anymap_ok (Find_Extensions f).

Definition reason_ok (w : DecisionReason) : bool :=
  match Why_SeverityRef w with Some s => score_ok (SRef_Score s) | None => true end.

Definition zero_Execution : Execution := mkExecution "" zero_time zero_time None.
Definition zero_Artifact : Artifact := mkArtifact None ∅ None [] [] ∅ None.
Definition artifact_visible (a : Artifact) : Artifact :=
  mkArtifact (Art_PURL a) (Art_Digests a) (Art_ContentRef a) (Art_SBOMRefs a)
    (Art_ProvenanceRefs a) (Art_Extensions a) None.

#[export] Instance Json_Submission : Json Submission := {|
  json_ok s := artifact_ok (Sub_Artifact s) && anymap_ok (Sub_ProviderSelectors s)
               && anymap_ok (Sub_Extensions s);
  json_visible s :=
    mkSubmission (Sub_ID s) (Sub_SchemaVersion s) (artifact_visible (Sub_Artifact s))
      (Sub_RequestedCapabilities s) (Sub_ProviderSelectors s) (Sub_PolicyRef s) (Sub_Status s)
      (Sub_CompletionReason s) (Sub_CreatedAt s) (Sub_CompletedAt s) (Sub_ResultIDs s)
      (Sub_DecisionID s) (Sub_ResumeAt s) (Sub_Extensions s);
  json_zero :=
    mkSubmission "" "" zero_Artifact [] ∅ None SubmissionUnset None zero_time None [] None None ∅;
|}.

#[export] Instance Json_ProviderResult : Json ProviderResult := {|
  json_ok r := forallb finding_ok (Res_Findings r) && optref_ok (Res_RawResult r)
               && anymap_ok (Res_Extensions r)
               && match Exec_Error (Res_Execution r) with
                  | Some e => anymap_ok (PErr_Detail e) | None => true end;
  json_visible r := r;
  json_zero := mkProviderResult "" "" "" (mkProviderRef "" "") [] "" zero_Execution None [] None None ∅;
|}.

#[export] Instance Json_MergedResult : Json MergedResult := {|
  json_ok r := forallb (λ f, forallb (λ s, score_ok (Sev_Score s)) (MF_Severity f)) (MR_Findings r);
  json_visible r := r;
  json_zero := mkMergedResult "" "" [] [] zero_time;
|}.

#[export] Instance Json_PolicyDecision : Json PolicyDecision := {|
  json_ok d := forallb reason_ok (Dec_Reasons d) && anymap_ok (Dec_Extensions d);
  json_visible d := d;
  json_zero := mkPolicyDecision "" "" "" (mkPolicyRef "" "" "") zero_time [] [] None "" ∅;
|}.

#[export] Instance Json_CloudEvent : Json CloudEvent := {|
  json_ok e := anymap_ok (Evt_Data e);
  json_visible e := e;
  json_zero := mkCloudEvent "" "" "" "" "" zero_time "" "" ∅ None;
|}.

Definition zero_ProviderCapabilities : ProviderCapabilities :=
  mkProviderCapabilities "" (mkProviderRef "" "") "" "" zero_time [] false ∅.

#[export] Instance Json_ProviderCapabilities : Json ProviderCapabilities := {|
  json_ok c := forallb (λ k, anymap_ok (Cap_Limits k)) (Caps_Capabilities c) && anymap_ok (Caps_Extensions c);
  json_visible c := c;
  json_zero := zero_ProviderCapabilities;
|}.

(** ** Record updates *)
Definition set_Sub_Artifact (a : Artifact) (s : Submission) : Submission :=
  mkSubmission (Sub_ID s) (Sub_SchemaVersion s) a (Sub_RequestedCapabilities s)
    (Sub_ProviderSelectors s) (Sub_PolicyRef s) (Sub_Status s) (Sub_CompletionReason s)
    (Sub_CreatedAt s) (Sub_CompletedAt s) (Sub_ResultIDs s) (Sub_DecisionID s) (Sub_ResumeAt s)
    (Sub_Extensions s).
Definition set_Sub_Status (st : SubmissionStatus) (s : Submission) : Submission :=
  mkSubmission (Sub_ID s) (Sub_SchemaVersion s) (Sub_Artifact s) (Sub_RequestedCapabilities s)
    (Sub_ProviderSelectors s) (Sub_PolicyRef s) st (Sub_CompletionReason s) (Sub_CreatedAt s)
    (Sub_CompletedAt s) (Sub_ResultIDs s) (Sub_DecisionID s) (Sub_ResumeAt s) (Sub_Extensions s).
Definition set_Sub_CompletionReason (r : option CompletionReason) (s : Submission) : Submission :=
  mkSubmission (Sub_ID s) (Sub_SchemaVersion s) (Sub_Artifact s) (Sub_RequestedCapabilities s)
    (Sub_ProviderSelectors s) (Sub_PolicyRef s) (Sub_Status s) r (Sub_CreatedAt s)
    (Sub_CompletedAt s) (Sub_ResultIDs s) (Sub_DecisionID s) (Sub_ResumeAt s) (Sub_Extensions s).
Definition set_Sub_CompletedAt (t : option Time) (s : Submission) : Submission :=
  mkSubmission (Sub_ID s) (Sub_SchemaVersion s) (Sub_Artifact s) (Sub_RequestedCapabilities s)
    (Sub_ProviderSelectors s) (Sub_PolicyRef s) (Sub_Status s) (Sub_CompletionReason s)
    (Sub_CreatedAt s) t (Sub_ResultIDs s) (Sub_DecisionID s) (Sub_ResumeAt s) (Sub_Extensions s).
Definition set_Sub_ResultIDs (l : list string) (s : Submission) : Submission :=
  mkSubmission (Sub_ID s) (Sub_SchemaVersion s) (Sub_Artifact s) (Sub_RequestedCapabilities s)
    (Sub_ProviderSelectors s) (Sub_PolicyRef s) (Sub_Status s) (Sub_CompletionReason s)
    (Sub_CreatedAt s) (Sub_CompletedAt s) l (Sub_DecisionID s) (Sub_ResumeAt s) (Sub_Extensions s).
Definition set_Sub_DecisionID (d : option string) (s : Submission) : Submission :=
  mkSubmission (Sub_ID s) (Sub_SchemaVersion s) (Sub_Artifact s) (Sub_RequestedCapabilities s)
    (Sub_ProviderSelectors s) (Sub_PolicyRef s) (Sub_Status s) (Sub_CompletionReason s)
    (Sub_CreatedAt s) (Sub_CompletedAt s) (Sub_ResultIDs s) d (Sub_ResumeAt s) (Sub_Extensions s).
Definition set_Sub_ResumeAt (t : option Time) (s : Submission) : Submission :=
  mkSubmission (Sub_ID s) (Sub_SchemaVersion s) (Sub_Artifact s) (Sub_RequestedCapabilities s)
    (Sub_ProviderSelectors s) (Sub_PolicyRef s) (Sub_Status s) (Sub_CompletionReason s)
    (Sub_CreatedAt s) (Sub_CompletedAt s) (Sub_ResultIDs s) (Sub_DecisionID s) t (Sub_Extensions s).

Definition set_Art_PURL (p : option string) (a : Artifact) : Artifact :=
  mkArtifact p (Art_Digests a) (Art_ContentRef a) (Art_SBOMRefs a) (Art_ProvenanceRefs a)
    (Art_Extensions a) (Art_Content a).
Definition set_Art_Content (c : option string) (a : Artifact) : Artifact :=
  mkArtifact (Art_PURL a) (Art_Digests a) (Art_ContentRef a) (Art_SBOMRefs a)
    (Art_ProvenanceRefs a) (Art_Extensions a) c.

Definition set_Res_SubmissionID (i : string) (r : ProviderResult) : ProviderResult :=
  mkProviderResult (Res_ID r) (Res_SchemaVersion r) i (Res_Provider r) (Res_Capabilities r)
    (Res_CapabilityManifestDigest r) (Res_Execution r) (Res_Verdict r) (Res_Findings r)
    (Res_RawResult r) (Res_Cache r) (Res_Extensions r).
Definition set_Res_ID (i : string) (r : ProviderResult) : ProviderResult :=
  mkProviderResult i (Res_SchemaVersion r) (Res_SubmissionID r) (Res_Provider r)
    (Res_Capabilities r) (Res_CapabilityManifestDigest r) (Res_Execution r) (Res_Verdict r)
    (Res_Findings r) (Res_RawResult r) (Res_Cache r) (Res_Extensions r).
Definition set_Res_Cache (c : option CacheInfo) (r : ProviderResult) : ProviderResult :=
  mkProviderResult (Res_ID r) (Res_SchemaVersion r) (Res_SubmissionID r) (Res_Provider r)
    (Res_Capabilities r) (Res_CapabilityManifestDigest r) (Res_Execution r) (Res_Verdict r)
    (Res_Findings r) (Res_RawResult r) c (Res_Extensions r).

Definition set_MR_SubmissionID (i : string) (r : MergedResult) : MergedResult :=
  mkMergedResult (MR_ID r) i (MR_InputResultIDs r) (MR_Findings r) (MR_MergedAt r).
