(* ===== verification/Purl.v ===== *)
(** * Package URLs: [api/purl.go]

[parsePurl] and [CanonicalPurl] on byte strings, the round trip between them
and the inputs on which canonicalisation is not stable. *)
From S2P Require Import Prelude GoString.

Section purl.
Context `{Unicode}.

(** [namespaceLowerTypes]. *)
Definition namespaceLowerTypes : list string := ["pypi"; "npm"; "gem"; "composer"; "golang"].

Record parsedPurl := mkParsedPurl {
  P_Type : string;
  P_Namespace : string;
  P_Name : string;
  P_Version : string;
  P_Qualifiers : gmap string string;
  P_Subpath : string;
  P_Hash : string;
}.

(** The longest prefix whose bytes satisfy [f], and what follows it. *)
Fixpoint span (f : ascii → bool) (s : string) : string * string :=
  match s with
  | "" => ("", "")
  | String c s' => if f c then let '(a, b) := span f s' in (String c a, b) else ("", s)
  end.

Definition type_char (c : ascii) : bool :=
  negb (bool_decide (c = "/"%char) || bool_decide (c = "#"%char) || bool_decide (c = "?"%char)).
Definition path_char (c : ascii) : bool :=
  negb (bool_decide (c = "?"%char) || bool_decide (c = "#"%char)).
Definition newline : ascii := chr 10.

(** The submatches of [purlRe]: after [pkg:] one or more bytes outside [/#?];
then nothing, or a slash and bytes outside [?#]; then nothing, or [?] or [#]
and bytes other than a newline (which the dot of the expression does not match)
up to the end.  The byte classes make the split unique. *)
Definition purlRe (s : string) : option (string * string * string) :=
  if HasPrefix s "pkg:" then
    let '(typ, s1) := span type_char (drop_str 4 s) in
    let '(rest, tail) := match s1 with
                         | String "/" _ => span path_char s1
                         | _ => ("", s1)
                         end in
    if bool_decide (typ = "") || has_char newline tail then None
    else Some (typ, rest, tail)
  else None.

Definition extractVersion (s : string) : option string :=
  match cut_at "@" s with Some (_, v) => Some v | None => None end.

Definition stripVersion (s : string) : string :=
  match cut_at "@" s with Some (n, _) => n | None => s end.

(** One [key=value] pair of the qualifier string. *)
Definition add_qualifier (m : gmap string string) (kv : string) : gmap string string :=
  if bool_decide (kv = "") then m else
  match cut_at "=" kv with
  | None => m
  | Some (k, v) => <[ToLower k := v]> m
  end.

Definition parse_qualifiers (body : string) : gmap string string :=
  fold_left add_qualifier (Split body "&") ∅.

(** The [#hash/subpath] part. *)
Definition split_hash (body : string) : string * string :=
  match cut_at "/" body with
  | Some (h, sp) => (h, String "/" sp)
  | None => (body, "")
  end.

(** Namespace, then name and version together. *)
Definition split_body (rest : string) : string * string :=
  match rest with
  | "" => ("", "")
  | String _ body => match cut_at "/" body with
                     | Some (ns, name) => (ns, name)
                     | None => ("", body)
                     end
  end.

(** Qualifiers, hash and subpath. *)
Definition parse_tail (tail : string) : gmap string string * string * string :=
  match tail with
  | String "?" body0 =>
      let '(body, hashSub) := match cut_at "#" body0 with
                              | Some (b, h) => (b, h)
                              | None => (body0, "")
                              end in
      let '(h, sp) := if bool_decide (hashSub = "") then ("", "") else split_hash hashSub in
      (parse_qualifiers body, h, sp)
  | String "#" body => let '(h, sp) := split_hash body in (∅, h, sp)
  | _ => (∅, "", "")
  end.

Definition lower_if (b : bool) (s : string) : string := if b then ToLower s else s.

Definition parsePurl (purl : string) : res string parsedPurl :=
  match purlRe purl with
  | None => Err ("invalid purl: " +:+ purl)
  | Some (m1, rest, tail) =>
      let typ := ToLower m1 in
      let '(ns, name0) := split_body rest in
      let version := default "" (extractVersion name0) in
      let name := stripVersion name0 in
      let '(quals, hash, subpath) := parse_tail tail in
      let low := bool_decide (typ ∈ namespaceLowerTypes) in
      Ok (mkParsedPurl typ (lower_if low ns) (lower_if low name) version quals
            (TrimRight subpath "/") hash)
  end.

Definition prefixed (p s : string) : string := if bool_decide (s = "") then "" else p +:+ s.

Definition render_qualifiers (m : gmap string string) : string :=
  let keys := sort_strings (map_to_list m).*1 in
  let qs := (λ k, k +:+ "=" +:+ default "" (m !! k)) <$> keys in
  if bool_decide (m = ∅) then "" else "?" +:+ Join qs "&".

(** What [CanonicalPurl] prints for a parsed package URL. *)
Definition renderPurl (p : parsedPurl) : string :=
  "pkg:" +:+ P_Type p +:+ prefixed "/" (P_Namespace p) +:+ "/" +:+ P_Name p
  +:+ prefixed "@" (P_Version p) +:+ render_qualifiers (P_Qualifiers p)
  +:+ prefixed "#" (P_Hash p) +:+ P_Subpath p.

Definition CanonicalPurl (purl : string) : res string string :=
  let? p := parsePurl purl in Ok (renderPurl p).

Definition PurlType (purl : string) : res string string :=
  let? p := parsePurl purl in Ok (P_Type p).

Definition PurlName (purl : string) : res string string :=
  let? p := parsePurl purl in Ok (P_Name p).

Definition PurlVersion (purl : string) : res string (option string) :=
  let? p := parsePurl purl in
  Ok (if bool_decide (P_Version p = "") then None else Some (P_Version p)).

(** ** Well-formed parse results *)
Definition free (cs : list ascii) (s : string) : Prop := ∀ c, c ∈ cs → has_char c s = false.

Record wf_purl (p : parsedPurl) : Prop := {
  wf_type : P_Type p ≠ "" ∧ free ["/"; "#"; "?"]%char (P_Type p) ∧ ToLower (P_Type p) = P_Type p;
  wf_ns : free ["/"; "#"; "?"]%char (P_Namespace p);
  wf_name : free ["@"; "#"; "?"]%char (P_Name p);
  wf_version : free ["#"; "?"]%char (P_Version p);
  wf_lower : P_Type p ∈ namespaceLowerTypes →
             ToLower (P_Namespace p) = P_Namespace p ∧ ToLower (P_Name p) = P_Name p;
  wf_quals : ∀ k v, P_Qualifiers p !! k = Some v →
             free ["="; "&"; "#"; newline]%char k ∧ ToLower k = k ∧ free ["&"; "#"; newline]%char v;
  wf_hash : free ["/"; newline]%char (P_Hash p);
  wf_subpath : free [newline] (P_Subpath p) ∧ TrimRight (P_Subpath p) "/" = P_Subpath p
               ∧ (P_Subpath p = "" ∨ ∃ t, P_Subpath p = String "/" t);
}.

(** What the printed form needs in addition to be read back: an empty namespace
leaves no slash in the name or version, and a subpath has a hash before it. *)
Definition printable (p : parsedPurl) : Prop :=
  (P_Namespace p = "" → free ["/"%char] (P_Name p) ∧ free ["/"%char] (P_Version p))
  ∧ (P_Hash p = "" → P_Subpath p = "").


(** ** Scanning lemmas *)
Definition stops (f : ascii → bool) (s : string) : Prop :=
  match s with "" => True | String c _ => f c = false end.

Lemma span_spec f s : let '(a, b) := span f s in
  s = a +:+ b ∧ all_chars f a = true ∧ stops f b.
Proof.
  induction s as [|c s IH]; simpl; [done|]. destruct (f c) eqn:E; [|done].
  destruct (span f s) as [a b]. destruct IH as (-> & Ha & Hb). simpl. by rewrite E.
Qed.

Lemma span_app f a b : all_chars f a = true → stops f b → span f (a +:+ b) = (a, b).
Proof.
  intros Ha Hb. induction a as [|c a IH].
  - rewrite app_nil_l. destruct b as [|c b]; [done|]. simpl in *. by rewrite Hb.
  - rewrite app_cons. simpl in *. apply andb_true_iff in Ha as [Hc Ha]. by rewrite Hc IH.
Qed.

Lemma free_cons c cs s : free (c :: cs) s ↔ has_char c s = false ∧ free cs s.
Proof.
  unfold free. split.
  - intros Hf. split; [|intros d Hd]; apply Hf; set_solver.
  - intros [Hc Hf] d Hd. apply elem_of_cons in Hd as [->|Hd]; auto.
Qed.

Lemma free_nil s : free [] s ↔ True.
Proof. split; [done|]. intros _ c Hc. by apply elem_of_nil in Hc. Qed.

Lemma free_app cs a b : free cs (a +:+ b) ↔ free cs a ∧ free cs b.
Proof.
  unfold free. setoid_rewrite has_char_app. setoid_rewrite orb_false_iff.
  split; [intros Hf; split; intros; by apply Hf|]. intros [Ha Hb] c Hc. auto.
Qed.

Lemma free_empty cs : free cs "".
Proof. by intros c _. Qed.

Lemma free_mono cs ds s : ds ⊆ cs → free cs s → free ds s.
Proof. intros Hs Hf c Hc. apply Hf. set_solver. Qed.

Lemma type_char_free a : all_chars type_char a = true ↔ free ["/"; "#"; "?"]%char a.
Proof.
  rewrite !free_cons free_nil. induction a as [|c a IH]; simpl; [done|].
  rewrite andb_true_iff IH !orb_false_iff !bool_decide_eq_false /type_char negb_true_iff
    !orb_false_iff !bool_decide_eq_false. clear IH. intuition congruence.
Qed.

Lemma path_char_free a : all_chars path_char a = true ↔ free ["?"; "#"]%char a.
Proof.
  rewrite !free_cons free_nil. induction a as [|c a IH]; simpl; [done|].
  rewrite andb_true_iff IH !orb_false_iff !bool_decide_eq_false /path_char negb_true_iff
    !orb_false_iff !bool_decide_eq_false. clear IH. intuition congruence.
Qed.

Lemma free_prefixed cs p s : free cs p → free cs s → free cs (prefixed p s).
Proof. intros Hp Hs. unfold prefixed. case_bool_decide; [by intros ??|]. by apply free_app. Qed.

(** ** Reading back what is printed *)
Lemma fold_add_qualifier (m : gmap string string) ks m0 :
  (∀ k, k ∈ ks → ∃ v, m !! k = Some v ∧ has_char "=" k = false ∧ ToLower k = k) → NoDup ks →
  ∀ k, fold_left add_qualifier ((λ k, k +:+ "=" +:+ default "" (m !! k)) <$> ks) m0 !! k
       = if bool_decide (k ∈ ks) then m !! k else m0 !! k.
Proof.
  revert m0. induction ks as [|j ks IH]; intros m0 Hks Hnd k; [done|].
  apply NoDup_cons in Hnd as [Hj Hnd].
  destruct (Hks j) as (v & Hv & Heq & Hlow); [set_solver|].
  rewrite fmap_cons. cbn [fold_left]. rewrite Hv. cbn [default].
  unfold add_qualifier at 2. rewrite bool_decide_false; [by destruct j|].
  change ("=" +:+ v) with (String "=" v). rewrite cut_at_app // Hlow.
  rewrite IH //; [set_solver|].
  destruct (decide (k = j)) as [->|Hkj].
  - rewrite bool_decide_false // bool_decide_true; [set_solver|].
    by rewrite lookup_insert_eq.
  - rewrite lookup_insert_ne //. assert (k ∈ j :: ks ↔ k ∈ ks) as Hin by set_solver.
    by rewrite (bool_decide_ext _ _ Hin).
Qed.

Lemma parse_render_qualifiers (m : gmap string string) :
  m ≠ ∅ →
  (∀ k v, m !! k = Some v →
     free ["="; "&"; "#"; newline]%char k ∧ ToLower k = k ∧ free ["&"; "#"; newline]%char v) →
  ∃ body, render_qualifiers m = String "?" body ∧ parse_qualifiers body = m
          ∧ free ["#"; newline]%char body.
Proof.
  intros Hm Hq. unfold render_qualifiers. rewrite bool_decide_false //.
  set (keys := sort_strings (map_to_list m).*1).
  set (qs := (λ k, k +:+ "=" +:+ default "" (m !! k)) <$> keys).
  assert (keys ≡ₚ (map_to_list m).*1) as Hkeys by apply sort_strings_perm.
  assert (∀ k, k ∈ keys ↔ is_Some (m !! k)) as Hin.
  { intros k. rewrite Hkeys list_elem_of_fmap. split.
    - intros ([k' v] & -> & Hkv). apply elem_of_map_to_list in Hkv. simpl. eauto.
    - intros [v Hv]. exists (k, v). split; [done|]. by apply elem_of_map_to_list. }
  assert (Forall (free ["&"; "#"; newline]%char) qs) as Hfree.
  { apply Forall_fmap, Forall_forall. intros k [v Hv]%Hin. simpl. rewrite Hv. cbn [default].
    destruct (Hq k v Hv) as (Hk & _ & Hval). rewrite !free_app. split_and!; [..|done].
    - eapply free_mono; [|exact Hk]. set_solver.
    - by rewrite !free_cons free_nil. }
  exists (Join qs "&"). split; [done|]. split.
  - unfold parse_qualifiers. change "&" with (str1 "&"). rewrite Split_Join.
    + unfold qs. intros Hnil%fmap_nil_inv. apply Hm, map_size_empty_inv.
      by rewrite -length_map_to_list -(length_fmap fst) -Hkeys Hnil.
    + eapply Forall_impl; [exact Hfree|]. intros w Hw. apply Hw. set_solver.
    + apply map_eq. intros k. rewrite fold_add_qualifier.
      * intros j [v Hv]%Hin. exists v. destruct (Hq j v Hv) as (Hk & Hl & _).
        split_and!; [done| |done]. apply Hk. set_solver.
      * rewrite Hkeys. apply NoDup_fst_map_to_list.
      * rewrite lookup_empty. case_bool_decide as Hk; [done|].
        rewrite Hin in Hk. by apply eq_None_not_Some in Hk.
  - unfold Join. clear -Hfree. induction Hfree as [|w ws Hw Hws IH]; [apply free_empty|].
    destruct ws as [|w' ws].
    + eapply free_mono; [|exact Hw]. set_solver.
    + cbn [String.concat]. rewrite !free_app. split_and!; [| |exact IH].
      * eapply free_mono; [|exact Hw]. set_solver.
      * by rewrite !free_cons free_nil.
Qed.

Lemma split_hash_render h sp :
  free ["/"; newline]%char h → (sp = "" ∨ ∃ t, sp = String "/" t) → split_hash (h +:+ sp) = (h, sp).
Proof.
  intros Hh Hsp. unfold split_hash. assert (has_char "/" h = false) as Hs by (apply Hh; set_solver).
  destruct Hsp as [->|[t ->]].
  - rewrite app_nil_r. by rewrite (proj2 (cut_at_None _ _) Hs).
  - by rewrite cut_at_app.
Qed.

Definition render_tail (p : parsedPurl) : string :=
  render_qualifiers (P_Qualifiers p) +:+ prefixed "#" (P_Hash p) +:+ P_Subpath p.

Definition render_path (p : parsedPurl) : string :=
  prefixed "/" (P_Namespace p) +:+ "/" +:+ P_Name p +:+ prefixed "@" (P_Version p).

Lemma renderPurl_parts p :
  renderPurl p = "pkg:" +:+ P_Type p +:+ render_path p +:+ render_tail p.
Proof. unfold renderPurl, render_path, render_tail. by rewrite !app_assoc. Qed.

Lemma parse_render_tail p : wf_purl p → printable p →
  parse_tail (render_tail p) = (P_Qualifiers p, P_Hash p, P_Subpath p)
  ∧ has_char newline (render_tail p) = false ∧ stops path_char (render_tail p).
Proof.
  intros Hwf [_ Hsub]. unfold render_tail.
  destruct (wf_subpath p Hwf) as (Hnl & _ & Hsp). pose proof (wf_hash p Hwf) as Hh.
  assert (has_char newline (P_Hash p +:+ P_Subpath p) = false) as Hnl2.
  { rewrite has_char_app. apply orb_false_iff. split; [apply Hh|apply Hnl]; set_solver. }
  assert (prefixed "#" (P_Hash p) +:+ P_Subpath p = "" ∧ P_Hash p = "" ∧ P_Subpath p = ""
          ∨ prefixed "#" (P_Hash p) +:+ P_Subpath p = String "#" (P_Hash p +:+ P_Subpath p)
            ∧ P_Hash p ≠ "") as Hcase.
  { unfold prefixed. case_bool_decide as Hn.
    - left. specialize (Hsub Hn). by rewrite Hsub.
    - by right. }
  destruct (decide (P_Qualifiers p = ∅)) as [Hq|Hq].
  - unfold render_qualifiers. rewrite bool_decide_true // Hq.
    rewrite app_nil_l. destruct Hcase as [(-> & -> & ->)|[-> Hn]]; [done|]. cbn [parse_tail].
    by rewrite split_hash_render.
  - destruct (parse_render_qualifiers _ Hq (wf_quals p Hwf)) as (body & -> & Hb & Hfree).
    assert (has_char "#" body = false) as Hhash by (apply Hfree; set_solver).
    assert (has_char newline body = false) as Hbn by (apply Hfree; set_solver).
    rewrite app_cons. cbn [parse_tail].
    destruct Hcase as [(-> & -> & ->)|[-> Hn]].
    + rewrite app_nil_r. rewrite (proj2 (cut_at_None _ _) Hhash). cbn [bool_decide].
      rewrite bool_decide_true // Hb. split_and!; [done| |done]. cbn. by rewrite Hbn.
    + rewrite cut_at_app //. rewrite bool_decide_false.
      { intros [? _]%app_eq_nil. done. }
      rewrite split_hash_render // Hb. split_and!; [done| |done].
      cbn. rewrite has_char_app Hbn. cbn. exact Hnl2.
Qed.

Lemma parse_render_path p : wf_purl p → printable p →
  (∃ body, render_path p = String "/" body)
  ∧ split_body (render_path p) = (P_Namespace p, P_Name p +:+ prefixed "@" (P_Version p))
  ∧ all_chars path_char (render_path p) = true.
Proof.
  intros Hwf [Hns _]. unfold render_path.
  pose proof (wf_name p Hwf) as Hn. pose proof (wf_ns p Hwf) as Hnsf.
  pose proof (wf_version p Hwf) as Hv. split_and!.
  - unfold prefixed. case_bool_decide; eauto.
  - unfold prefixed at 1. case_bool_decide as He.
    + destruct (Hns He) as [H1 H2]. rewrite app_nil_l app_cons. cbn [split_body].
      rewrite app_nil_l. rewrite (proj2 (cut_at_None _ _)); [|by rewrite He].
      rewrite has_char_app orb_false_iff. split; [apply H1; set_solver|].
      unfold prefixed. case_bool_decide; [done|]. rewrite app_cons. cbn. apply H2. set_solver.
    + rewrite !app_cons !app_nil_l. cbn [split_body]. rewrite cut_at_app //.
      apply Hnsf. set_solver.
  - rewrite path_char_free !free_app. split_and!.
    + apply free_prefixed; [by rewrite !free_cons free_nil|]. eapply free_mono; [|exact Hnsf]. set_solver.
    + by rewrite !free_cons free_nil.
    + eapply free_mono; [|exact Hn]. set_solver.
    + apply free_prefixed; [by rewrite !free_cons free_nil|]. eapply free_mono; [|exact Hv]. set_solver.
Qed.

Lemma version_render p : wf_purl p →
  default "" (extractVersion (P_Name p +:+ prefixed "@" (P_Version p))) = P_Version p
  ∧ stripVersion (P_Name p +:+ prefixed "@" (P_Version p)) = P_Name p.
Proof.
  intros Hwf. assert (has_char "@" (P_Name p) = false) as Hn.
  { apply (wf_name p Hwf). set_solver. }
  unfold extractVersion, stripVersion, prefixed. case_bool_decide as Hv.
  - rewrite app_nil_r (proj2 (cut_at_None _ _) Hn). by rewrite Hv.
  - change ("@" +:+ P_Version p) with (String "@" (P_Version p)). by rewrite cut_at_app.
Qed.

(** A well-formed printable package URL is read back exactly as it was. *)
Lemma parse_renderPurl p : wf_purl p → printable p → parsePurl (renderPurl p) = Ok p.
Proof.
  intros Hwf Hp. rewrite renderPurl_parts. unfold parsePurl, purlRe.
  destruct (wf_type p Hwf) as (Hne & Htf & Hlow).
  destruct (parse_render_tail p Hwf Hp) as (Ht & Hnl & Hst).
  destruct (parse_render_path p Hwf Hp) as ([body Hb] & Hsp & Hpc).
  destruct (version_render p Hwf) as [Hv Hn].
  change (HasPrefix ("pkg:" +:+ P_Type p +:+ render_path p +:+ render_tail p) "pkg:") with
    (HasPrefix (P_Type p +:+ render_path p +:+ render_tail p) "").
  change (drop_str 4 ("pkg:" +:+ P_Type p +:+ render_path p +:+ render_tail p)) with
    (P_Type p +:+ render_path p +:+ render_tail p).
  assert (∀ s, HasPrefix s "" = true) as -> by (by intros []).
  rewrite span_app; [by apply type_char_free|by rewrite Hb|].
  assert (match render_path p +:+ render_tail p with
          | String "/" _ => span path_char (render_path p +:+ render_tail p)
          | _ => ("", render_path p +:+ render_tail p)
          end = (render_path p, render_tail p)) as ->.
  { rewrite Hb app_cons. rewrite -app_cons -Hb. by apply span_app. }
  rewrite bool_decide_false // Hnl. cbn [orb]. rewrite Hlow Hsp Ht Hn Hv.
  destruct (wf_subpath p Hwf) as (_ & -> & _).
  destruct p as [ty ns nm ve qu su ha]. cbn [P_Type P_Namespace P_Name P_Version P_Qualifiers P_Subpath P_Hash] in *.
  case_bool_decide as Hl; [|done]. destruct (wf_lower _ Hwf Hl) as [Hl1 Hl2]. simpl in *.
  by rewrite Hl1 Hl2.
Qed.

(** ** Every parse of an ASCII string is well formed *)
Lemma purlRe_spec s m1 rest tail : purlRe s = Some (m1, rest, tail) →
  s = "pkg:" +:+ m1 +:+ rest +:+ tail ∧ m1 ≠ "" ∧ free ["/"; "#"; "?"]%char m1
  ∧ free ["#"; "?"]%char rest ∧ (rest = "" ∨ ∃ b, rest = String "/" b)
  ∧ free [newline] tail.
Proof.
  unfold purlRe. destruct (HasPrefix s "pkg:") eqn:Hpre; [|done].
  assert (s = "pkg:" +:+ drop_str 4 s) as Hs.
  { by apply HasPrefix_drop in Hpre. }
  pose proof (span_spec type_char (drop_str 4 s)) as Hsp.
  destruct (span type_char (drop_str 4 s)) as [typ s1]. destruct Hsp as (Hd & Htyp & Hst).
  destruct (match s1 with String "/" _ => span path_char s1 | _ => ("", s1) end) as [r t] eqn:Hr.
  intros Heq. assert (bool_decide (typ = "") || has_char newline t = false ∧ typ = m1 ∧ r = rest ∧ t = tail)
    as (Hor & -> & -> & ->) by (destruct (bool_decide _ || _); naive_solver).
  apply orb_false_iff in Hor as [Hne%bool_decide_eq_false Hnl].
  assert (s1 = rest +:+ tail ∧ free ["#"; "?"]%char rest ∧ (rest = "" ∨ ∃ b, rest = String "/" b)) as (-> & Hf & Hb).
  { destruct s1 as [|c s1]; [by simplify_eq; split_and!; [done|by intros ??|left]|].
    destruct (decide (c = "/"%char)) as [->|Hc].
    - pose proof (span_spec path_char (String "/" s1)) as Hsp. rewrite Hr in Hsp.
      destruct Hsp as (H1 & H2%path_char_free & H3). split_and!; [done| |].
      { eapply free_mono; [|exact H2]. set_solver. }
      right. destruct rest as [|d rest]; [|by rewrite app_cons in H1; simplify_eq; eauto].
      rewrite app_nil_l in H1. by rewrite -H1 in H3.
    - assert (("", String c s1) = (rest, tail)) as [= <- <-].
      { rewrite -Hr. destruct c as [[] [] [] [] [] [] [] []]; try done. }
      split_and!; [done|by intros ??|by left]. }
  split_and!; try done.
  - by rewrite {1}Hs Hd.
  - by apply type_char_free.
  - by rewrite free_cons free_nil.
Qed.

Lemma cut_free c cs s a b : cut_at c s = Some (a, b) → free cs s → free (c :: cs) a ∧ free cs b.
Proof.
  intros [-> Hc]%cut_at_Some Hf. rewrite free_cons. apply free_app in Hf as [Ha Hb].
  split; [done|]. intros d Hd. specialize (Hb d Hd). simpl in Hb. by apply orb_false_iff in Hb as [_ ?].
Qed.

Lemma cut_ascii c s a b : cut_at c s = Some (a, b) → is_ascii s = true → is_ascii a = true ∧ is_ascii b = true.
Proof.
  intros [-> _]%cut_at_Some. rewrite is_ascii_app andb_true_iff. unfold is_ascii; simpl.
  rewrite andb_true_iff. naive_solver.
Qed.

Lemma Split_free c cs s : free cs s → Forall (free (c :: cs)) (Split s c).
Proof.
  induction s as [|d s IH]; intros Hf; simpl.
  { constructor; [by intros ??|done]. }
  assert (free cs s ∧ ∀ e, e ∈ cs → e ≠ d) as [Hs Hd].
  { split; intros e He; specialize (Hf e He); simpl in Hf; apply orb_false_iff in Hf as [H1 H2]; [done|].
    by apply bool_decide_eq_false in H1. }
  specialize (IH Hs). destruct (decide (c = d)) as [->|Hc].
  - constructor; [by intros ??|done].
  - assert (∀ w, free (c :: cs) w → free (c :: cs) (String d w)) as Hcons.
    { intros w Hw e He. simpl. rewrite (Hw e He) orb_false_r. apply bool_decide_eq_false.
      apply elem_of_cons in He as [->|He]; [done|]. by apply Hd. }
    destruct (Split s c) as [|w ws]; [constructor; [apply Hcons; by intros ??|done]|].
    apply Forall_cons in IH as [Hw Hws]. constructor; auto.
Qed.

Lemma Split_ascii s c : is_ascii s = true → Forall (λ w, is_ascii w = true) (Split s c).
Proof.
  induction s as [|d s IH]; intros Hs; simpl; [by constructor|].
  unfold is_ascii in Hs; simpl in Hs. apply andb_true_iff in Hs as [Hd Hs]. specialize (IH Hs).
  destruct (decide (c = d)); [by constructor|].
  destruct (Split s c) as [|w ws]; [constructor; [|done]; unfold is_ascii; simpl; by rewrite Hd|].
  apply Forall_cons in IH as [Hw Hws]. constructor; [|done]. unfold is_ascii; simpl. by rewrite Hd.
Qed.

Lemma free_ToLower cs s : Forall (λ c, is_caseless c) cs → is_ascii s = true → free cs s → free cs (ToLower s).
Proof.
  intros Hcs Hs Hf c Hc. rewrite has_char_ToLower //; [|by apply Hf].
  by apply (proj1 (Forall_forall _ _) Hcs).
Qed.

Definition wf_qualifier (k v : string) : Prop :=
  free ["="; "&"; "#"; newline]%char k ∧ ToLower k = k ∧ free ["&"; "#"; newline]%char v.

Lemma parse_qualifiers_wf body k v :
  is_ascii body = true → free ["#"; newline]%char body →
  parse_qualifiers body !! k = Some v → wf_qualifier k v.
Proof.
  intros Ha Hf. unfold parse_qualifiers.
  pose proof (Split_free "&" _ _ Hf) as H1. pose proof (Split_ascii _ "&" Ha) as H2.
  revert H1 H2. generalize (Split body "&"). intros l.
  assert (∀ k v, (∅ : gmap string string) !! k = Some v → wf_qualifier k v) as H0 by done.
  revert H0. generalize (∅ : gmap string string). revert k v.
  induction l as [|w l IH]; intros k v m Hm Hl1 Hl2; simpl; [by apply Hm|].
  apply Forall_cons in Hl1 as [Hw Hl1]. apply Forall_cons in Hl2 as [Hwa Hl2].
  apply IH; [|done..]. clear k v. intros k v. unfold add_qualifier.
  case_bool_decide; [by apply Hm|]. destruct (cut_at "=" w) as [[a b]|] eqn:Hcut; [|by apply Hm].
  destruct (cut_free _ _ _ _ _ Hcut Hw) as [Hka Hvb]. destruct (cut_ascii _ _ _ _ Hcut Hwa) as [Haa _].
  destruct (decide (ToLower a = k)) as [<-|Hne].
  - rewrite lookup_insert_eq. intros [= <-]. split_and!; [|by apply ToLower_idem|done].
    apply free_ToLower; [|done..]. by repeat constructor.
  - rewrite lookup_insert_ne //. apply Hm.
Qed.

Lemma split_hash_wf body : free [newline] body → let '(h, sp) := split_hash body in
  free ["/"; newline]%char h ∧ free [newline] sp ∧ (sp = "" ∨ ∃ t, sp = String "/" t).
Proof.
  intros Hf. unfold split_hash. destruct (cut_at "/" body) as [[h sp]|] eqn:Hc.
  - destruct (cut_free _ _ _ _ _ Hc Hf) as [H1 H2]. split_and!; [done| |eauto].
    intros c Hin. simpl. rewrite (H2 c Hin). by apply list_elem_of_singleton in Hin as ->.
  - apply cut_at_None in Hc. split_and!; [by apply free_cons|by intros ??|by left].
Qed.

Lemma parse_tail_wf tail : is_ascii tail = true → free [newline] tail →
  let '(quals, h, sp) := parse_tail tail in
  (∀ k v, quals !! k = Some v → wf_qualifier k v)
  ∧ free ["/"; newline]%char h ∧ free [newline] sp ∧ (sp = "" ∨ ∃ t, sp = String "/" t).
Proof.
  intros Ha Hf. assert (free ["/"; newline]%char "" ∧ free [newline] "") as [He1 He2] by (split; by intros ??).
  destruct tail as [|c body]; [cbn; split_and!; [done..|by left]|].
  assert (free [newline] body ∧ is_ascii body = true) as [Hb Hba].
  { split.
    - intros d Hd. specialize (Hf d Hd). simpl in Hf. by apply orb_false_iff in Hf as [_ ?].
    - unfold is_ascii in *. simpl in Ha. by apply andb_true_iff in Ha as [_ ?]. }
  assert (∀ q, parse_tail (String c body) = q → q = (∅, "", "") ∨ c = "?"%char ∨ c = "#"%char) as Hc.
  { intros q <-. destruct (decide (c = "?"%char)); [auto|]. destruct (decide (c = "#"%char)); [auto|].
    left. destruct c as [[] [] [] [] [] [] [] []]; try done. }
  destruct (Hc _ eq_refl) as [->|[->| ->]].
  - split_and!; [done..|by left].
  - cbn [parse_tail].
    assert (∃ q hs, (match cut_at "#" body with Some (b, h) => (b, h) | None => (body, "") end) = (q, hs)
            ∧ free ["#"; newline]%char q ∧ free [newline] hs ∧ is_ascii q = true) as (q & hs & -> & Hq & Hhs & Hqa).
    { destruct (cut_at "#" body) as [[b h]|] eqn:Hcut.
      - destruct (cut_free _ _ _ _ _ Hcut Hb), (cut_ascii _ _ _ _ Hcut Hba). eauto 10.
      - apply cut_at_None in Hcut. do 2 eexists. split_and!; [done|by apply free_cons|done..]. }
    assert (∃ h sp, (if bool_decide (hs = "") then ("", "") else split_hash hs) = (h, sp)
            ∧ free ["/"; newline]%char h ∧ free [newline] sp ∧ (sp = "" ∨ ∃ t, sp = String "/" t))
      as (h & sp & -> & Hsp).
    { case_bool_decide; [do 2 eexists; split_and!; [done..|by left]|].
      pose proof (split_hash_wf hs Hhs). destruct (split_hash hs). eauto. }
    split; [|done]. intros k v. by apply parse_qualifiers_wf.
  - cbn [parse_tail]. pose proof (split_hash_wf body Hb). destruct (split_hash body). done.
Qed.

Lemma split_body_wf rest : is_ascii rest = true → free ["#"; "?"]%char rest →
  (rest = "" ∨ ∃ b, rest = String "/" b) → let '(ns, name) := split_body rest in
  free ["/"; "#"; "?"]%char ns ∧ free ["#"; "?"]%char name ∧ is_ascii ns = true ∧ is_ascii name = true.
Proof.
  intros Ha Hf [->|[b ->]]; cbn [split_body]; [done|].
  assert (free ["#"; "?"]%char b ∧ is_ascii b = true) as [Hb Hba].
  { split; [|done]. intros d Hd. specialize (Hf d Hd). simpl in Hf. by apply orb_false_iff in Hf as [_ ?]. }
  destruct (cut_at "/" b) as [[ns name]|] eqn:Hc; [|done].
  destruct (cut_free _ _ _ _ _ Hc Hb), (cut_ascii _ _ _ _ Hc Hba). done.
Qed.

Lemma version_wf name : is_ascii name = true → free ["#"; "?"]%char name →
  free ["@"; "#"; "?"]%char (stripVersion name) ∧ is_ascii (stripVersion name) = true
  ∧ free ["#"; "?"]%char (default "" (extractVersion name)).
Proof.
  intros Ha Hf. unfold stripVersion, extractVersion. destruct (cut_at "@" name) as [[n v]|] eqn:Hc.
  - destruct (cut_free _ _ _ _ _ Hc Hf), (cut_ascii _ _ _ _ Hc Ha). done.
  - apply cut_at_None in Hc. split_and!; [by apply free_cons|done|by intros ??].
Qed.

Lemma TrimRight_slash sp : free [newline] sp → (sp = "" ∨ ∃ t, sp = String "/" t) →
  free [newline] (TrimRight sp "/") ∧ TrimRight (TrimRight sp "/") "/" = TrimRight sp "/"
  ∧ (TrimRight sp "/" = "" ∨ ∃ t, TrimRight sp "/" = String "/" t).
Proof.
  intros Hf Hsp. split_and!; [|apply TrimRight_idem|].
  - destruct (TrimRight_app sp "/") as [t Ht]. rewrite {1}Ht in Hf. by apply free_app in Hf as [? _].
  - destruct Hsp as [->|[t ->]]; [by left|]. simpl.
    destruct (TrimRight t "/"); [by left|right; eauto].
Qed.

Lemma parsePurl_wf s p : is_ascii s = true → parsePurl s = Ok p → wf_purl p.
Proof.
  intros Ha. unfold parsePurl. destruct (purlRe s) as [[[m1 rest] tail]|] eqn:Hre; [|done].
  apply purlRe_spec in Hre as (-> & Hne & Hm1 & Hrest & Hrb & Htail).
  rewrite !is_ascii_app !andb_true_iff in Ha. destruct Ha as (_ & Ham & Har & Hat).
  pose proof (split_body_wf rest Har Hrest Hrb) as Hsb. destruct (split_body rest) as [ns name].
  destruct Hsb as (Hns & Hname & Hans & Hanm). destruct (version_wf name Hanm Hname) as (Hn & Hna & Hv).
  pose proof (parse_tail_wf tail Hat Htail) as Hpt. destruct (parse_tail tail) as [[quals h] sp].
  destruct Hpt as (Hq & Hh & Hsp & Hspb). intros [= <-].
  assert (∀ b cs x, Forall (λ c, is_caseless c) cs → is_ascii x = true → free cs x → free cs (lower_if b x)) as Hlow.
  { intros [] cs x Hcs Hx Hf; simpl; [by apply free_ToLower|done]. }
  constructor; cbn [P_Type P_Namespace P_Name P_Version P_Qualifiers P_Subpath P_Hash].
  - split_and!; [|apply free_ToLower; [by repeat constructor|done..]|by apply ToLower_idem].
    rewrite ToLower_ascii //. by destruct m1.
  - apply Hlow; [by repeat constructor|done..].
  - apply Hlow; [by repeat constructor|done..].
  - done.
  - intros Hl. rewrite bool_decide_true //. simpl. split; by apply ToLower_idem.
  - exact Hq.
  - exact Hh.
  - by apply TrimRight_slash.
Qed.

Lemma span_app_l f a b : all_chars f a = true →
  span f (a +:+ b) = let '(x, y) := span f b in (a +:+ x, y).
Proof.
  induction a as [|c a IH]; intros Ha; [rewrite app_nil_l; by destruct (span f b)|].
  simpl in Ha. apply andb_true_iff in Ha as [Hc Ha]. rewrite app_cons. simpl.
  rewrite Hc IH //. by destruct (span f b).
Qed.

Lemma render_path_chars p : wf_purl p → all_chars path_char (render_path p) = true.
Proof.
  intros Hwf. unfold render_path.
  pose proof (wf_name p Hwf) as Hn. pose proof (wf_ns p Hwf) as Hnsf. pose proof (wf_version p Hwf) as Hv.
  rewrite path_char_free !free_app. split_and!.
  - apply free_prefixed; [by rewrite !free_cons free_nil|]. eapply free_mono; [|exact Hnsf]. set_solver.
  - by rewrite !free_cons free_nil.
  - eapply free_mono; [|exact Hn]. set_solver.
  - apply free_prefixed; [by rewrite !free_cons free_nil|]. eapply free_mono; [|exact Hv]. set_solver.
Qed.

Lemma render_tail_newline p : wf_purl p → free [newline] (render_tail p).
Proof.
  intros Hwf. unfold render_tail. rewrite !free_app.
  destruct (wf_subpath p Hwf) as (Hnl & _ & _). split_and!; [| |done].
  - destruct (decide (P_Qualifiers p = ∅)) as [Hq|Hq].
    + unfold render_qualifiers. rewrite bool_decide_true //.
    + destruct (parse_render_qualifiers _ Hq (wf_quals p Hwf)) as (body & -> & _ & Hfree).
      intros c Hc. simpl. rewrite (Hfree c); [set_solver|]. by apply list_elem_of_singleton in Hc as ->.
  - apply free_prefixed; [by rewrite !free_cons free_nil|].
    eapply free_mono; [|exact (wf_hash p Hwf)]. set_solver.
Qed.

(** The printed form always parses, with the same type, even where it is read
back as another package. *)
Lemma renderPurl_type p : wf_purl p → PurlType (renderPurl p) = Ok (P_Type p).
Proof.
  intros Hwf. rewrite renderPurl_parts. unfold PurlType, parsePurl, purlRe.
  destruct (wf_type p Hwf) as (Hne & Htf & Hlow).
  assert (∃ b, render_path p = String "/" b) as [b Hb].
  { unfold render_path, prefixed. case_bool_decide; eauto. }
  rewrite HasPrefix_app. change (drop_str 4 ("pkg:" +:+ ?x)) with x.
  rewrite span_app; [by apply type_char_free|by rewrite Hb|].
  set (sp := match render_path p +:+ render_tail p with String "/" _ => _ | _ => _ end).
  assert (∃ x y, sp = (render_path p +:+ x, y) ∧ has_char newline y = false) as (x & y & -> & Hy).
  { assert (sp = span path_char (render_path p +:+ render_tail p)) as ->.
    { unfold sp. by rewrite Hb app_cons. }
    rewrite span_app_l; [by apply render_path_chars|].
    pose proof (span_spec path_char (render_tail p)) as Hs.
    destruct (span path_char (render_tail p)) as [x y]. destruct Hs as (Heq & _ & _).
    exists x, y. split; [done|]. pose proof (render_tail_newline p Hwf) as Hf. rewrite Heq in Hf.
    apply free_app in Hf as [_ Hf]. apply Hf. set_solver. }
  rewrite bool_decide_false // Hy. cbn [orb]. destruct (split_body _) as [ns nm].
  destruct (parse_tail y) as [[? ?] ?]. cbn. by rewrite Hlow.
Qed.

(** [C24] Canonicalisation is a round trip: for an ASCII package URL whose parse is
printable (an empty namespace leaves no slash in name or version, a subpath
follows a hash), the canonical form parses back to exactly the same components
and canonicalising it again changes nothing. *)
Theorem CanonicalPurl_roundtrip s p :
  is_ascii s = true → parsePurl s = Ok p → printable p →
  ∃ c, CanonicalPurl s = Ok c ∧ parsePurl c = Ok p ∧ CanonicalPurl c = Ok c.
Proof.
  intros Ha Hp Hpr. exists (renderPurl p).
  assert (parsePurl (renderPurl p) = Ok p) as Hback.
  { apply parse_renderPurl; [by eapply parsePurl_wf|done]. }
  unfold CanonicalPurl. by rewrite Hp Hback.
Qed.

(** The printed form of every ASCII package URL parses, and its type is the
type of the original, whatever its namespace, hash and subpath are. *)
Theorem CanonicalPurl_type s c :
  is_ascii s = true → CanonicalPurl s = Ok c → PurlType c = PurlType s ∧ is_Ok (PurlType c) = true.
Proof.
  unfold CanonicalPurl, PurlType at 2. intros Ha. destruct (parsePurl s) as [p|e] eqn:Hp; [|done].
  intros [= <-]. rewrite renderPurl_type; [by eapply parsePurl_wf|]. done.
Qed.

End purl.
Arguments parsedPurl : clear implicits.

(** ** Concrete inputs *)
Definition sample_purl : string := "pkg:PYPI/Requests@2.32.3?B=2&a=1#x/y/".

Definition printableb (p : parsedPurl) : bool :=
  (negb (bool_decide (P_Namespace p = "")) || negb (has_char "/" (P_Name p) || has_char "/" (P_Version p)))
  && (negb (bool_decide (P_Hash p = "")) || bool_decide (P_Subpath p = "")).

Lemma printableb_spec p : printableb p = true → printable p.
Proof.
  unfold printableb, printable. rewrite andb_true_iff !orb_true_iff !negb_true_iff
    orb_false_iff !bool_decide_eq_false bool_decide_eq_true. intros [H1 H2]. split.
  - intros Hn. destruct H1 as [?|[? ?]]; [done|]. by rewrite !free_cons !free_nil.
  - intros Hh. by destruct H2.
Qed.

Lemma CanonicalPurl_roundtrip_witness :
  ∃ c, @CanonicalPurl ascii_unicode sample_purl = Ok c ∧ @CanonicalPurl ascii_unicode c = Ok c.
Proof.
  destruct (@parsePurl ascii_unicode sample_purl) as [p|e] eqn:Hp; [|exfalso; vm_compute in Hp; discriminate].
  assert (printable p) as Hpr.
  { apply printableb_spec. vm_compute in Hp. injection Hp as <-. vm_compute. reflexivity. }
  destruct (@CanonicalPurl_roundtrip ascii_unicode sample_purl p) as (c & H1 & _ & H2).
  - vm_compute. reflexivity.
  - exact Hp.
  - exact Hpr.
  - exists c. split; assumption.
Defined.

Lemma CanonicalPurl_type_witness :
  @PurlType ascii_unicode "pkg:npm/foo@1.0.0/lib" = @PurlType ascii_unicode "pkg:npm/foo@1.0.0#/lib".
Proof.
  apply (@CanonicalPurl_type ascii_unicode "pkg:npm/foo@1.0.0#/lib"); vm_compute; reflexivity.
Defined.

(** Canonicalisation is not a projection on every accepted input: a subpath
without a hash is glued to the version, so that the canonical form of one
package names another one (name [lib] instead of [foo]), and an empty namespace
before a slash is dropped again by a second pass. *)
Theorem CanonicalPurl_not_stable :
  @CanonicalPurl ascii_unicode "pkg:npm/foo@1.0.0#/lib" = Ok "pkg:npm/foo@1.0.0/lib"
  ∧ @PurlName ascii_unicode "pkg:npm/foo@1.0.0#/lib" = Ok "foo"
  ∧ @PurlName ascii_unicode "pkg:npm/foo@1.0.0/lib" = Ok "lib"
  ∧ @CanonicalPurl ascii_unicode "pkg:npm///b" = Ok "pkg:npm//b"
  ∧ @CanonicalPurl ascii_unicode "pkg:npm//b" = Ok "pkg:npm/b".
Proof. vm_compute. auto. Qed.
