(* ===== verification/Matching.v ===== *)
(** * Capability matching: [api/matching.go]

Which requirements of a capability an artifact meets, with the code's
explanations, and the declarative reading of it. *)
From S2P Require Import Prelude GoString GoFloat Types Purl.

Section matching.
Context `{Unicode}.

(** The loops over [SBOMRefs] and [ProvenanceRefs]: a reference whose format the
requirement lists, with a listed version; no formats means any reference. *)
Definition ref_matches (formats : gmap string (list string)) (ref : ResourceReference) : bool :=
  bool_decide (formats = ∅)
  || match formats !! Ref_Format ref with
     | None => false
     | Some versions => existsb (λ v, bool_decide (v = Ref_FormatVersion ref)) versions
     end.

Definition requirementSatisfied (artifact : Artifact) (req : Requirement) : bool * string :=
  if decide (Req_Kind req = ReqPurl) then
    match Art_PURL artifact with
    | None => (false, "missing purl")
    | Some purl =>
        if bool_decide (purl = "") then (false, "missing purl") else
        match CanonicalPurl purl with
        | Err _ => (false, "invalid purl")
        | Ok cp =>
            let typ := match PurlType cp with Ok t => t | Err _ => "" end in
            if negb (bool_decide (Req_Types req = []))
               && negb (existsb (λ t, bool_decide (t = typ)) (Req_Types req))
            then (false, "unsupported purl type: " +:+ typ)
            else (true, "")
        end
    end
  else if decide (Req_Kind req = ReqDigest) then
    if bool_decide (Art_Digests artifact = ∅) then (false, "missing digests")
    else if negb (bool_decide (Req_Algorithms req = []))
            && negb (existsb (λ a, bool_decide (is_Some (Art_Digests artifact !! a))) (Req_Algorithms req))
         then (false, "no supported digest algorithm")
         else (true, "")
  else if decide (Req_Kind req = ReqContent) then
    match Art_ContentRef artifact with
    | None => (false, "missing content")
    | Some _ => (true, "")
    end
  else if decide (Req_Kind req = ReqSBOM) then
    if bool_decide (length (Art_SBOMRefs artifact) = 0) then (false, "missing sbom")
    else if existsb (ref_matches (Req_Formats req)) (Art_SBOMRefs artifact) then (true, "")
         else (false, "no matching sbom format/version")
  else if decide (Req_Kind req = ReqProvenance) then
    if bool_decide (length (Art_ProvenanceRefs artifact) = 0) then (false, "missing provenance")
    else if existsb (ref_matches (Req_Formats req)) (Art_ProvenanceRefs artifact) then (true, "")
         else (false, "no matching provenance format/version")
  else (false, "unknown requirement kind").

Fixpoint requirements_satisfied (artifact : Artifact) (reqs : list Requirement) : bool * string :=
  match reqs with
  | [] => (true, "")
  | req :: reqs =>
      let '(ok, detail) := requirementSatisfied artifact req in
      if ok then requirements_satisfied artifact reqs else (false, detail)
  end.

Definition profileSatisfied (artifact : Artifact) (profile : InputProfile) : bool * string :=
  requirements_satisfied artifact (Prof_Requires profile).

(** The reasons collected over all profiles. *)
Definition requirement_reasons (artifact : Artifact) (capability : Capability) : list CompatibilityReason :=
  profile ← Cap_InputProfiles capability;
  req ← Prof_Requires profile;
  let '(ok, detail) := requirementSatisfied artifact req in
  if ok then [] else [mkCompatibilityReason ReasonMissingInput (Req_Kind req) detail].

Definition CapabilityEligible (artifact : Artifact) (capability : Capability) : CompatibilityResult :=
  let name := Cap_ID capability +:+ ":" +:+ Cap_Version capability in
  if existsb (λ profile, (profileSatisfied artifact profile).1) (Cap_InputProfiles capability)
  then mkCompatibilityResult "" name true []
  else
    let reasons := requirement_reasons artifact capability in
    let reasons := if bool_decide (length reasons = 0)
                   then [mkCompatibilityReason ReasonNoMatchingProfile "" ""] else reasons in
    mkCompatibilityResult "" name false reasons.

(** The first capability with the requested id decides. *)
Fixpoint MatchingCapability (artifact : Artifact) (capabilities : list Capability)
    (requestedCapability : string) : Capability + CompatibilityResult :=
  match capabilities with
  | [] => inr (mkCompatibilityResult "" requestedCapability false
                 [mkCompatibilityReason ReasonNoMatchingProfile "" "capability not advertised"])
  | c :: cs =>
      if decide (Cap_ID c = requestedCapability) then
        let res := CapabilityEligible artifact c in
        if Compat_Eligible res then inl c else inr res
      else MatchingCapability artifact cs requestedCapability
  end.

(** ** The declarative reading *)
Definition meets_refs (formats : gmap string (list string)) (refs : list ResourceReference) : Prop :=
  ∃ ref, ref ∈ refs ∧
    (formats = ∅ ∨ ∃ versions, formats !! Ref_Format ref = Some versions ∧ Ref_FormatVersion ref ∈ versions).

Inductive meets (a : Artifact) (req : Requirement) : Prop :=
| meets_purl purl p :
    Req_Kind req = ReqPurl → Art_PURL a = Some purl → parsePurl purl = Ok p →
    (Req_Types req = [] ∨ P_Type p ∈ Req_Types req) → meets a req
| meets_digest :
    Req_Kind req = ReqDigest → Art_Digests a ≠ ∅ →
    (Req_Algorithms req = [] ∨ ∃ alg, alg ∈ Req_Algorithms req ∧ is_Some (Art_Digests a !! alg)) →
    meets a req
| meets_content ref :
    Req_Kind req = ReqContent → Art_ContentRef a = Some ref → meets a req
| meets_sbom :
    Req_Kind req = ReqSBOM → meets_refs (Req_Formats req) (Art_SBOMRefs a) → meets a req
| meets_provenance :
    Req_Kind req = ReqProvenance → meets_refs (Req_Formats req) (Art_ProvenanceRefs a) → meets a req.

Definition eligible (a : Artifact) (c : Capability) : Prop :=
  ∃ profile, profile ∈ Cap_InputProfiles c ∧ ∀ req, req ∈ Prof_Requires profile → meets a req.

Definition ascii_purl (a : Artifact) : Prop :=
  match Art_PURL a with Some s => is_ascii s = true | None => True end.

(** ** Correctness *)
Lemma refs_spec formats refs :
  existsb (ref_matches formats) refs = true ↔ meets_refs formats refs.
Proof.
  rewrite existsb_true. unfold meets_refs, ref_matches. f_equiv. intros ref. f_equiv.
  rewrite orb_true_iff bool_decide_eq_true. f_equiv.
  destruct (formats !! Ref_Format ref) as [vs|]; [|naive_solver].
  rewrite existsb_true. setoid_rewrite bool_decide_eq_true. naive_solver.
Qed.

Lemma existsb_elem (x : string) l : existsb (λ t, bool_decide (t = x)) l = true ↔ x ∈ l.
Proof. rewrite existsb_true. setoid_rewrite bool_decide_eq_true. naive_solver. Qed.

Lemma meets_refs_nonempty formats refs : meets_refs formats refs → length refs ≠ 0.
Proof. intros (r & Hr & _). destruct refs; [by apply elem_of_nil in Hr|done]. Qed.

Ltac kind_cases :=
  repeat match goal with
  | |- context [decide (Req_Kind ?r = ?k)] => destruct (decide (Req_Kind r = k)) as [?Hk|?]
  end.

Ltac kind_clash :=
  match goal with
  | H1 : Req_Kind ?r = _, H2 : Req_Kind ?r = _ |- _ => rewrite H1 in H2; discriminate H2
  | H1 : Req_Kind ?r = ?k, H2 : Req_Kind ?r ≠ ?k |- _ => destruct (H2 H1)
  end.

Lemma purl_requirement a req : ascii_purl a → Req_Kind req = ReqPurl →
  (requirementSatisfied a req).1 = true ↔ meets a req.
Proof.
  intros Ha Hk. unfold requirementSatisfied. rewrite decide_True //.
  assert (meets a req ↔ ∃ purl p, Art_PURL a = Some purl ∧ parsePurl purl = Ok p
    ∧ (Req_Types req = [] ∨ P_Type p ∈ Req_Types req)) as ->.
  { split; [|intros (? & ? & ? & ? & ?); by econstructor].
    intros []; [eauto 10|kind_clash..]. }
  unfold ascii_purl in Ha. destruct (Art_PURL a) as [purl|]; [|naive_solver].
  case_bool_decide as He.
  { subst purl. split; [done|]. intros (? & ? & [= <-] & Hp & _). by vm_compute in Hp. }
  unfold CanonicalPurl. destruct (parsePurl purl) as [p|e] eqn:Hp; cbn [res_bind]; cycle 1.
  { split; [done|]. intros (? & ? & [= <-] & ? & _). congruence. }
  rewrite renderPurl_type; [by eapply parsePurl_wf|].
  pose proof (existsb_elem (P_Type p) (Req_Types req)) as Hex.
  transitivity (Req_Types req = [] ∨ P_Type p ∈ Req_Types req); cycle 1.
  { split; [by eauto|]. intros (? & p' & [= <-] & Hp' & ?). by assert (p = p') as -> by congruence. }
  destruct (existsb _ (Req_Types req)); case_bool_decide; simpl; intuition.
Qed.

Lemma requirementSatisfied_spec a req : ascii_purl a →
  (requirementSatisfied a req).1 = true ↔ meets a req.
Proof.
  intros Ha. destruct (decide (Req_Kind req = ReqPurl)) as [Hk|Hn]; [by apply purl_requirement|].
  unfold requirementSatisfied. rewrite decide_False //. kind_cases.
  - rewrite (_ : meets a req ↔ Art_Digests a ≠ ∅ ∧ (Req_Algorithms req = [] ∨
        ∃ alg, alg ∈ Req_Algorithms req ∧ is_Some (Art_Digests a !! alg))).
    { split; [|intros []; by apply meets_digest]. intros []; try kind_clash; done. }
    case_bool_decide; [naive_solver|].
    destruct (existsb _ (Req_Algorithms req)) eqn:E.
    + apply existsb_true in E as (alg & Hin & Hs%bool_decide_eq_true). rewrite andb_false_r. naive_solver.
    + case_bool_decide as Hnil; [naive_solver|]. split; [done|]. intros [_ [?|(alg & Hin & Hs)]]; [done|].
      assert (existsb (λ a0, bool_decide (is_Some (Art_Digests a !! a0))) (Req_Algorithms req) = true) as Hex;
        [|congruence].
      apply existsb_true. exists alg. split; [done|]. by apply bool_decide_eq_true.
  - destruct (Art_ContentRef a) eqn:E; simpl; [by split; [econstructor|]|].
    split; [done|]. intros []; kind_clash || congruence.
  - rewrite (_ : meets a req ↔ meets_refs (Req_Formats req) (Art_SBOMRefs a)).
    { split; [|by apply meets_sbom]. intros []; kind_clash || done. }
    rewrite -refs_spec. case_bool_decide as Hl; [|by destruct (existsb _ _)].
    split; [done|]. intros ?%refs_spec%meets_refs_nonempty. done.
  - rewrite (_ : meets a req ↔ meets_refs (Req_Formats req) (Art_ProvenanceRefs a)).
    { split; [|by apply meets_provenance]. intros []; kind_clash || done. }
    rewrite -refs_spec. case_bool_decide as Hl; [|by destruct (existsb _ _)].
    split; [done|]. intros ?%refs_spec%meets_refs_nonempty. done.
  - split; [done|]. intros []; kind_clash.
Qed.

Lemma requirements_satisfied_spec a reqs : ascii_purl a →
  (requirements_satisfied a reqs).1 = true ↔ ∀ req, req ∈ reqs → meets a req.
Proof.
  intros Ha. induction reqs as [|req reqs IH]; simpl; [set_solver|].
  pose proof (requirementSatisfied_spec a req Ha) as Hr.
  destruct (requirementSatisfied a req) as [[] d]; simpl in *; [rewrite IH|]; set_solver.
Qed.

Lemma eligible_spec a c : ascii_purl a → Compat_Eligible (CapabilityEligible a c) = true ↔ eligible a c.
Proof.
  intros Ha. unfold CapabilityEligible.
  transitivity (existsb (λ profile, (profileSatisfied a profile).1) (Cap_InputProfiles c) = true).
  { by destruct (existsb _ _). }
  rewrite existsb_true. unfold eligible, profileSatisfied.
  f_equiv. intros profile. f_equiv. by apply requirements_satisfied_spec.
Qed.

(** [C25] [CapabilityEligible] answers yes exactly when some input profile of the
capability has every requirement met by the artifact, the requirements read
declaratively; a refusal always carries at least one reason, an acceptance
none. *)
Theorem CapabilityEligible_correct a c : ascii_purl a →
  (Compat_Eligible (CapabilityEligible a c) = true ↔ eligible a c)
  ∧ (Compat_Reasons (CapabilityEligible a c) = [] ↔ eligible a c).
Proof.
  intros Ha. split; [by apply eligible_spec|]. rewrite -(eligible_spec a c Ha).
  unfold CapabilityEligible. destruct (existsb _ _); simpl; [done|].
  case_bool_decide as Hl; simpl; [done|]. split; [|done]. intros Hn. by rewrite Hn in Hl.
Qed.

(** [MatchingCapability] selects a capability exactly when the first
advertised capability with the requested id is eligible; later capabilities
with the same id are never considered. *)
Theorem MatchingCapability_correct a caps req c : ascii_purl a →
  MatchingCapability a caps req = inl c ↔
  ∃ before after, caps = before ++ c :: after ∧ Cap_ID c = req ∧ eligible a c
                  ∧ Forall (λ d, Cap_ID d ≠ req) before.
Proof.
  intros Ha. induction caps as [|d caps IH]; simpl.
  { split; [done|]. intros (b & ? & Hb & _). by destruct b. }
  destruct (decide (Cap_ID d = req)) as [Hd|Hd].
  - pose proof (eligible_spec a d Ha) as Hel. split.
    + destruct (Compat_Eligible _); [|done]. intros [= <-]. exists [], caps.
      split_and!; [done..|by apply Hel|constructor].
    + intros (before & after & Heq & Hc & Hec & Hb). destruct before as [|e before]; simplify_eq/=.
      * by rewrite (proj2 Hel Hec).
      * by apply Forall_cons in Hb as [? _].
  - rewrite IH. split.
    + intros (before & after & -> & Hc & Hec & Hb). exists (d :: before), after.
      split_and!; [done..|by constructor].
    + intros (before & after & Heq & Hc & Hec & Hb). destruct before as [|e before]; simplify_eq/=.
      apply Forall_cons in Hb as [_ Hb]. by exists before, after.
Qed.
End matching.

(** ** A concrete capability *)
Definition sample_capability : Capability :=
  mkCapability "vulnerability" "v1"
    [mkInputProfile "purl" [mkRequirement ReqPurl ["pypi"; "npm"; "maven"] [] ∅]] ["vulnerability"]
    ["osv"] ∅ "" "".

Definition sample_artifact : Artifact :=
  mkArtifact (Some "pkg:pypi/requests@2.32.3") ∅ None [] [] ∅ None.

Lemma CapabilityEligible_correct_witness :
  @eligible ascii_unicode sample_artifact sample_capability.
Proof.
  apply (@CapabilityEligible_correct ascii_unicode); vm_compute; reflexivity.
Defined.

Lemma MatchingCapability_correct_witness :
  ∃ before after, [sample_capability] = before ++ sample_capability :: after
    ∧ Forall (λ d, Cap_ID d ≠ "vulnerability") before.
Proof.
  destruct (proj1 (@MatchingCapability_correct ascii_unicode sample_artifact [sample_capability]
    "vulnerability" sample_capability eq_refl)) as (b & af & H1 & _ & _ & H2).
  - vm_compute. reflexivity.
  - exists b, af. split; assumption.
Defined.
