(* ===== verification/Store.v ===== *)
(** * The store: [internal/scintx/store.go], [memory_store.go], [job_queue_memory.go]

[MemoryStore] keeps the maps of the Go struct; one definition per method, which
runs under the store's mutex and so is one atomic step on the record.  The clock
a method reads is its [now] argument.  [Store] is the Go interface as a type
class; what a client may rely on is in [StoreSpec]. *)
From S2P Require Import Prelude GoString GoFloat Types.

(** ** Errors ([store.go] and the [fmt.Errorf] of the methods) *)
Inductive GoErr :=
| ErrIdempotencyConflict
| ErrResumeNotDeferred
| ErrAbandonRejected
| ErrAdjudicateNotFound
| ErrAdjudicateInvalidState (detail : string)
| ErrAdjudicateInvalidDecision
| ErrorString (msg : string).

(** [error.Error()]. *)
Definition err_string (e : GoErr) : string :=
  match e with
  | ErrIdempotencyConflict => "idempotency key conflict"
  | ErrResumeNotDeferred => "submission is not deferred"
  | ErrAbandonRejected => "submission cannot be abandoned"
  | ErrAdjudicateNotFound => "submission not found"
  | ErrAdjudicateInvalidState d =>
      "submission cannot be adjudicated in its current state: " +:+ d
  | ErrAdjudicateInvalidDecision => "adjudication decision must be allow or deny"
  | ErrorString m => m
  end.

Record ProviderEntry := mkProviderEntry {
  PE_ID : string;
  PE_Name : string;
  PE_Capabilities : ProviderCapabilities;
}.

Definition jobPending : string := "pending".
Definition jobLeased : string := "leased".

Record memJob := mkMemJob {
  Job_SubmissionID : string;
  Job_Status : string;
  Job_CreatedAt : Time;
  Job_LeaseOwner : string;
  Job_LeaseUntil : Time;
  Job_Attempts : Z;
}.

(** The order in which [for ... range m] visits a map is unspecified: it is a
parameter, any enumeration of the entries. *)
Class GoMaps := {
  map_iter : ∀ {A : Type}, gmap string A → list (string * A);
  map_iter_perm : ∀ {A : Type} (m : gmap string A), map_iter m ≡ₚ map_to_list m;
}.

Definition sorted_maps : GoMaps := {|
  map_iter A m := map_to_list m;
  map_iter_perm A m := Permutation_refl _;
|}.

(** ** The state *)
Record MemoryStore := mkMemoryStore {
  ms_submissions : gmap string Submission;
  ms_idempotency : strmap;
  ms_idemHash : strmap;
  ms_jobs : gmap string memJob;
  ms_results : gmap string ProviderResult;
  ms_mergedResults : gmap string MergedResult;
  ms_decisions : gmap string PolicyDecision;
  ms_events : list CloudEvent;
  ms_artifacts : gmap string string;
  ms_capSnapshots : gmap string ProviderCapabilities;
  ms_providers : list ProviderEntry;
}.

Definition set_ms_submissions (x : gmap string Submission) (s : MemoryStore) : MemoryStore :=
  mkMemoryStore x (ms_idempotency s) (ms_idemHash s) (ms_jobs s) (ms_results s) (ms_mergedResults s) (ms_decisions s) (ms_events s) (ms_artifacts s) (ms_capSnapshots s) (ms_providers s).
Definition set_ms_idempotency (x : strmap) (s : MemoryStore) : MemoryStore :=
  mkMemoryStore (ms_submissions s) x (ms_idemHash s) (ms_jobs s) (ms_results s) (ms_mergedResults s) (ms_decisions s) (ms_events s) (ms_artifacts s) (ms_capSnapshots s) (ms_providers s).
Definition set_ms_idemHash (x : strmap) (s : MemoryStore) : MemoryStore :=
  mkMemoryStore (ms_submissions s) (ms_idempotency s) x (ms_jobs s) (ms_results s) (ms_mergedResults s) (ms_decisions s) (ms_events s) (ms_artifacts s) (ms_capSnapshots s) (ms_providers s).
Definition set_ms_jobs (x : gmap string memJob) (s : MemoryStore) : MemoryStore :=
  mkMemoryStore (ms_submissions s) (ms_idempotency s) (ms_idemHash s) x (ms_results s) (ms_mergedResults s) (ms_decisions s) (ms_events s) (ms_artifacts s) (ms_capSnapshots s) (ms_providers s).
Definition set_ms_results (x : gmap string ProviderResult) (s : MemoryStore) : MemoryStore :=
  mkMemoryStore (ms_submissions s) (ms_idempotency s) (ms_idemHash s) (ms_jobs s) x (ms_mergedResults s) (ms_decisions s) (ms_events s) (ms_artifacts s) (ms_capSnapshots s) (ms_providers s).
Definition set_ms_mergedResults (x : gmap string MergedResult) (s : MemoryStore) : MemoryStore :=
  mkMemoryStore (ms_submissions s) (ms_idempotency s) (ms_idemHash s) (ms_jobs s) (ms_results s) x (ms_decisions s) (ms_events s) (ms_artifacts s) (ms_capSnapshots s) (ms_providers s).
Definition set_ms_decisions (x : gmap string PolicyDecision) (s : MemoryStore) : MemoryStore :=
  mkMemoryStore (ms_submissions s) (ms_idempotency s) (ms_idemHash s) (ms_jobs s) (ms_results s) (ms_mergedResults s) x (ms_events s) (ms_artifacts s) (ms_capSnapshots s) (ms_providers s).
Definition set_ms_events (x : list CloudEvent) (s : MemoryStore) : MemoryStore :=
  mkMemoryStore (ms_submissions s) (ms_idempotency s) (ms_idemHash s) (ms_jobs s) (ms_results s) (ms_mergedResults s) (ms_decisions s) x (ms_artifacts s) (ms_capSnapshots s) (ms_providers s).
Definition set_ms_artifacts (x : gmap string string) (s : MemoryStore) : MemoryStore :=
  mkMemoryStore (ms_submissions s) (ms_idempotency s) (ms_idemHash s) (ms_jobs s) (ms_results s) (ms_mergedResults s) (ms_decisions s) (ms_events s) x (ms_capSnapshots s) (ms_providers s).
Definition set_ms_capSnapshots (x : gmap string ProviderCapabilities) (s : MemoryStore) : MemoryStore :=
  mkMemoryStore (ms_submissions s) (ms_idempotency s) (ms_idemHash s) (ms_jobs s) (ms_results s) (ms_mergedResults s) (ms_decisions s) (ms_events s) (ms_artifacts s) x (ms_providers s).
Definition set_ms_providers (x : list ProviderEntry) (s : MemoryStore) : MemoryStore :=
  mkMemoryStore (ms_submissions s) (ms_idempotency s) (ms_idemHash s) (ms_jobs s) (ms_results s) (ms_mergedResults s) (ms_decisions s) (ms_events s) (ms_artifacts s) (ms_capSnapshots s) x.

Definition NewMemoryStore : MemoryStore := mkMemoryStore ∅ ∅ ∅ ∅ ∅ ∅ ∅ [] ∅ ∅ [].

Abbreviation StoreM S A := (GoM GoErr S A).
Abbreviation MemM A := (StoreM MemoryStore A).

(** A Go [(T, bool, error)] getter. *)
Definition lookup_clone `{Json A} (m : gmap string A) (k : string) : option A :=
  CloneJSON <$> m !! k.

Module Mem.

Definition PutSubmission (sub : option Submission) : MemM unit := λ s,
  match sub with
  | None => (s, Ok tt)
  | Some sub =>
      let cp := CloneJSON sub in
      (set_ms_submissions (<[Sub_ID cp := cp]> (ms_submissions s)) s, Ok tt)
  end.

Definition GetSubmission (id : string) : MemM (option Submission) := λ s,
  (s, Ok (lookup_clone (ms_submissions s) id)).

Definition unbind (key : string) (s : MemoryStore) : MemoryStore :=
  set_ms_idemHash (delete key (ms_idemHash s))
    (set_ms_idempotency (delete key (ms_idempotency s)) s).

Definition bind (key id requestHash : string) (s : MemoryStore) : MemoryStore :=
  set_ms_idemHash (<[key := requestHash]> (ms_idemHash s))
    (set_ms_idempotency (<[key := id]> (ms_idempotency s)) s).

(** The tail of [PutSubmissionIdempotent] once no live binding was found. *)
Definition create_submission (key requestHash : string) (cp : Submission) (s : MemoryStore)
  : MemoryStore * res GoErr (option Submission * bool) :=
  let s := if bool_decide (key ≠ "") then bind key (Sub_ID cp) requestHash s else s in
  (set_ms_submissions (<[Sub_ID cp := cp]> (ms_submissions s)) s, Ok (Some (CloneJSON cp), true)).

Definition PutSubmissionIdempotent (key requestHash : string) (sub : option Submission)
  : MemM (option Submission * bool) := λ s,
  match sub with
  | None => (s, Ok (None, false))
  | Some sub =>
      let cp := CloneJSON sub in
      if bool_decide (key ≠ "") then
        match ms_idempotency s !! key with
        | Some id =>
            match ms_submissions s !! id with
            | None => create_submission key requestHash cp (unbind key s)
            | Some existing =>
                let bound := default "" (ms_idemHash s !! key) in
                if bool_decide (bound ≠ "" ∧ requestHash ≠ "" ∧ bound ≠ requestHash)
                then (s, Err ErrIdempotencyConflict)
                else (s, Ok (Some (CloneJSON existing), false))
            end
        | None => create_submission key requestHash cp s
        end
      else create_submission key requestHash cp s
  end.

Definition RememberIdempotencyKey (key submissionID : string) : MemM unit := λ s,
  if bool_decide (key = "") then (s, Ok tt)
  else match ms_idempotency s !! key with
       | Some _ => (s, Ok tt)
       | None => (set_ms_idempotency (<[key := submissionID]> (ms_idempotency s)) s, Ok tt)
       end.

Definition AbandonSubmission (id idempotencyKey : string) : MemM unit := λ s,
  match ms_submissions s !! id with
  | None => (s, Err ErrAbandonRejected)
  | Some sub =>
      if bool_decide (Sub_Status sub ≠ SubmissionAccepted) then (s, Err ErrAbandonRejected)
      else
        let s := set_ms_submissions (delete id (ms_submissions s)) s in
        let s := if bool_decide (idempotencyKey ≠ ""
                                 ∧ default "" (ms_idempotency s !! idempotencyKey) = id)
                 then unbind idempotencyKey s else s in
        (set_ms_jobs (delete id (ms_jobs s)) s, Ok tt)
  end.

Definition ClaimResume (id : string) : MemM Submission := λ s,
  match ms_submissions s !! id with
  | None => (s, Err ErrResumeNotDeferred)
  | Some sub =>
      if bool_decide (Sub_Status sub ≠ SubmissionDeferred) then (s, Err ErrResumeNotDeferred)
      else
        let sub := set_Sub_Status SubmissionRunning sub in
        (set_ms_submissions (<[id := sub]> (ms_submissions s)) s, Ok (CloneJSON sub))
  end.

Definition ReleaseResume (id : string) : MemM unit := λ s,
  match ms_submissions s !! id with
  | None => (s, Ok tt)
  | Some sub =>
      if bool_decide (Sub_Status sub ≠ SubmissionRunning) then (s, Ok tt)
      else
        let sub := set_Sub_Status SubmissionDeferred sub in
        let sub := set_Sub_CompletionReason (Some CompletionDeferred) sub in
        let sub := set_Sub_CompletedAt None sub in
        (set_ms_submissions (<[id := sub]> (ms_submissions s)) s, Ok tt)
  end.

Definition GetSubmissionByIdempotencyKey (key : string) : MemM (option Submission) := λ s,
  if bool_decide (key = "") then (s, Ok None)
  else match ms_idempotency s !! key with
       | None => (s, Ok None)
       | Some id => (s, Ok (lookup_clone (ms_submissions s) id))
       end.

Definition PutResult (r : option ProviderResult) : MemM unit := λ s,
  match r with
  | None => (s, Ok tt)
  | Some r =>
      let cp := CloneJSON r in
      (set_ms_results (<[Res_ID cp := cp]> (ms_results s)) s, Ok tt)
  end.

Definition GetResult (id : string) : MemM (option ProviderResult) := λ s,
  (s, Ok (lookup_clone (ms_results s) id)).

Definition GetResultsForSubmission `{GoMaps} (subID : string) : MemM (list ProviderResult) := λ s,
  (s, Ok (map (λ kr, CloneJSON kr.2)
            (List.filter (λ kr, bool_decide (Res_SubmissionID kr.2 = subID)) (map_iter (ms_results s))))).

Definition PutMergedResult (r : option MergedResult) : MemM unit := λ s,
  match r with
  | None => (s, Ok tt)
  | Some r =>
      let cp := CloneJSON r in
      (set_ms_mergedResults (<[MR_SubmissionID cp := cp]> (ms_mergedResults s)) s, Ok tt)
  end.

Definition GetMergedResultForSubmission (subID : string) : MemM (option MergedResult) := λ s,
  (s, Ok (lookup_clone (ms_mergedResults s) subID)).

Definition PutDecision (d : option PolicyDecision) : MemM unit := λ s,
  match d with
  | None => (s, Ok tt)
  | Some d =>
      let cp := CloneJSON d in
      (set_ms_decisions (<[Dec_ID cp := cp]> (ms_decisions s)) s, Ok tt)
  end.

Definition GetDecision (id : string) : MemM (option PolicyDecision) := λ s,
  (s, Ok (lookup_clone (ms_decisions s) id)).

Definition AppendEvent (e : CloudEvent) : MemM unit := λ s,
  (set_ms_events (ms_events s ++ [CloneJSON e]) s, Ok tt).

Definition Events : MemM (list CloudEvent) := λ s, (s, Ok (map CloneJSON (ms_events s))).

Definition PutArtifact (digest content : string) : MemM unit := λ s,
  (set_ms_artifacts (<[digest := content]> (ms_artifacts s)) s, Ok tt).

Definition HasArtifact (digest : string) : MemM bool := λ s,
  (s, Ok (bool_decide (is_Some (ms_artifacts s !! digest)))).

Definition GetArtifact (digest : string) : MemM (option string) := λ s,
  (s, Ok (ms_artifacts s !! digest)).

(** Overwrite the first entry whose id is [p]'s. *)
Fixpoint replace_provider (p : ProviderEntry) (l : list ProviderEntry) : option (list ProviderEntry) :=
  match l with
  | [] => None
  | q :: l =>
      if bool_decide (PE_ID q = PE_ID p) then Some (p :: l)
      else cons q <$> replace_provider p l
  end.

Definition RegisterProvider (p : ProviderEntry) : MemM unit := λ s,
  let l := match replace_provider p (ms_providers s) with
           | Some l => l
           | None => ms_providers s ++ [p]
           end in
  (set_ms_capSnapshots (<[PE_ID p := PE_Capabilities p]> (ms_capSnapshots s)) (set_ms_providers l s),
   Ok tt).

Definition Providers : MemM (list ProviderEntry) := λ s, (s, Ok (ms_providers s)).

Definition GetCapabilities (providerID : string) : MemM (option ProviderCapabilities) := λ s,
  (s, Ok (ms_capSnapshots s !! providerID)).

(** Set the capabilities of the first entry with this id. *)
Fixpoint update_caps (id : string) (caps : ProviderCapabilities) (l : list ProviderEntry)
  : list ProviderEntry :=
  match l with
  | [] => []
  | q :: l =>
      if bool_decide (PE_ID q = id) then mkProviderEntry (PE_ID q) (PE_Name q) caps :: l
      else q :: update_caps id caps l
  end.

Definition SnapshotCapabilities (providerID : string) (caps : ProviderCapabilities) : MemM unit := λ s,
  (set_ms_providers (update_caps providerID caps (ms_providers s))
     (set_ms_capSnapshots (<[providerID := caps]> (ms_capSnapshots s)) s), Ok tt).

(** *** The job queue *)
Definition EnqueueJob (now : Time) (submissionID : string) : MemM unit := λ s,
  if bool_decide (submissionID = "") then (s, Err (ErrorString "empty submission id"))
  else
    let add :=
      (set_ms_jobs (<[submissionID := mkMemJob submissionID jobPending now "" zero_time 0]> (ms_jobs s)) s,
       Ok tt) in
    match ms_jobs s !! submissionID with
    | Some j =>
        if bool_decide (Job_Status j = jobPending) || bool_decide (Job_Status j = jobLeased)
        then (s, Ok tt) else add
    | None => add
    end.

Definition DeleteJob (submissionID : string) : MemM unit := λ s,
  (set_ms_jobs (delete submissionID (ms_jobs s)) s, Ok tt).

Definition lease_or_default (lease : Duration) : Duration :=
  if bool_decide (lease <= 0)%Z then (2 * Minute)%Z else lease.

(** The lease of [j] ran out before [now]. *)
Definition lease_expired (now : Time) (j : memJob) : bool :=
  bool_decide (Job_Status j = jobLeased) && bool_decide (Job_LeaseUntil j ≠ zero_time)
  && bool_decide (Job_LeaseUntil j < now)%Z.

Definition expire (now : Time) (j : memJob) : memJob :=
  if lease_expired now j
  then mkMemJob (Job_SubmissionID j) jobPending (Job_CreatedAt j) "" zero_time (Job_Attempts j)
  else j.

(** One iteration of the search for the oldest pending job. *)
Definition older (best : option (string * memJob)) (kj : string * memJob) : option (string * memJob) :=
  if bool_decide (Job_Status kj.2 ≠ jobPending) then best
  else match best with
       | None => Some kj
       | Some b => if bool_decide (Job_CreatedAt kj.2 < Job_CreatedAt b.2)%Z then Some kj else best
       end.

Definition lease_job (owner : string) (until : Time) (j : memJob) : memJob :=
  mkMemJob (Job_SubmissionID j) jobLeased (Job_CreatedAt j) owner until (wrap64 (Job_Attempts j + 1)).

Definition ClaimJob `{GoMaps} (now : Time) (owner : string) (lease : Duration)
  : MemM (option (string * Z)) := λ s,
  if bool_decide (owner = "") then (s, Err (ErrorString "empty lease owner"))
  else
    let until := (now + lease_or_default lease)%Z in
    let jobs := expire now <$> ms_jobs s in
    match fold_left older (map_iter jobs) None with
    | None => (set_ms_jobs jobs s, Ok None)
    | Some (k, best) =>
        let best := lease_job owner until best in
        (set_ms_jobs (<[k := best]> jobs) s, Ok (Some (Job_SubmissionID best, Job_Attempts best)))
    end.

Definition HeartbeatJob (now : Time) (submissionID owner : string) (lease : Duration) : MemM bool := λ s,
  match ms_jobs s !! submissionID with
  | None => (s, Ok false)
  | Some j =>
      if bool_decide (Job_Status j ≠ jobLeased) || bool_decide (Job_LeaseOwner j ≠ owner)
      then (s, Ok false)
      else
        let j := mkMemJob (Job_SubmissionID j) (Job_Status j) (Job_CreatedAt j) (Job_LeaseOwner j)
                   (now + lease_or_default lease)%Z (Job_Attempts j) in
        (set_ms_jobs (<[submissionID := j]> (ms_jobs s)) s, Ok true)
  end.

Definition CompleteJob (submissionID owner : string) : MemM unit := λ s,
  match ms_jobs s !! submissionID with
  | None => (s, Ok tt)
  | Some j =>
      if bool_decide (Job_Status j = jobLeased) && bool_decide (Job_LeaseOwner j ≠ owner)
         && bool_decide (owner ≠ "")
      then (s, Err (ErrorString "job leased by another owner"))
      else (set_ms_jobs (delete submissionID (ms_jobs s)) s, Ok tt)
  end.

Definition PendingJobCount : MemM Z := λ s,
  (s, Ok (Z.of_nat (length (List.filter
     (λ kj, bool_decide (Job_Status kj.2 = jobPending) || bool_decide (Job_Status kj.2 = jobLeased))
     (map_to_list (ms_jobs s)))))).
End Mem.

(** ** The [Store] interface ([store.go]) *)
Class Store (S : Type) := {
  PutSubmission : option Submission → StoreM S unit;
  GetSubmission : string → StoreM S (option Submission);
  PutSubmissionIdempotent : string → string → option Submission → StoreM S (option Submission * bool);
  GetSubmissionByIdempotencyKey : string → StoreM S (option Submission);
  RememberIdempotencyKey : string → string → StoreM S unit;
  AbandonSubmission : string → string → StoreM S unit;
  ClaimResume : string → StoreM S Submission;
  ReleaseResume : string → StoreM S unit;
  EnqueueJob : Time → string → StoreM S unit;
  DeleteJob : string → StoreM S unit;
  ClaimJob : Time → string → Duration → StoreM S (option (string * Z));
  HeartbeatJob : Time → string → string → Duration → StoreM S bool;
  CompleteJob : string → string → StoreM S unit;
  PendingJobCount : StoreM S Z;
  PutResult : option ProviderResult → StoreM S unit;
  GetResult : string → StoreM S (option ProviderResult);
  GetResultsForSubmission : string → StoreM S (list ProviderResult);
  PutMergedResult : option MergedResult → StoreM S unit;
  GetMergedResultForSubmission : string → StoreM S (option MergedResult);
  PutDecision : option PolicyDecision → StoreM S unit;
  GetDecision : string → StoreM S (option PolicyDecision);
  AppendEvent : CloudEvent → StoreM S unit;
  Events : StoreM S (list CloudEvent);
  PutArtifact : string → string → StoreM S unit;
  HasArtifact : string → StoreM S bool;
  GetArtifact : string → StoreM S (option string);
  RegisterProvider : ProviderEntry → StoreM S unit;
  Providers : StoreM S (list ProviderEntry);
  GetCapabilities : string → StoreM S (option ProviderCapabilities);
  SnapshotCapabilities : string → ProviderCapabilities → StoreM S unit;
}.

#[export] Instance Mem_Store `{GoMaps} : Store MemoryStore := {|
  PutSubmission := Mem.PutSubmission;
  GetSubmission := Mem.GetSubmission;
  PutSubmissionIdempotent := Mem.PutSubmissionIdempotent;
  GetSubmissionByIdempotencyKey := Mem.GetSubmissionByIdempotencyKey;
  RememberIdempotencyKey := Mem.RememberIdempotencyKey;
  AbandonSubmission := Mem.AbandonSubmission;
  ClaimResume := Mem.ClaimResume;
  ReleaseResume := Mem.ReleaseResume;
  EnqueueJob := Mem.EnqueueJob;
  DeleteJob := Mem.DeleteJob;
  ClaimJob := Mem.ClaimJob;
  HeartbeatJob := Mem.HeartbeatJob;
  CompleteJob := Mem.CompleteJob;
  PendingJobCount := Mem.PendingJobCount;
  PutResult := Mem.PutResult;
  GetResult := Mem.GetResult;
  GetResultsForSubmission := Mem.GetResultsForSubmission;
  PutMergedResult := Mem.PutMergedResult;
  GetMergedResultForSubmission := Mem.GetMergedResultForSubmission;
  PutDecision := Mem.PutDecision;
  GetDecision := Mem.GetDecision;
  AppendEvent := Mem.AppendEvent;
  Events := Mem.Events;
  PutArtifact := Mem.PutArtifact;
  HasArtifact := Mem.HasArtifact;
  GetArtifact := Mem.GetArtifact;
  RegisterProvider := Mem.RegisterProvider;
  Providers := Mem.Providers;
  GetCapabilities := Mem.GetCapabilities;
  SnapshotCapabilities := Mem.SnapshotCapabilities;
|}.

(** ** Histories: the calls that change a store, in the order the mutex admits them *)
Inductive StoreOp :=
| OpPutSubmission (sub : option Submission)
| OpPutSubmissionIdempotent (key hash : string) (sub : option Submission)
| OpRememberIdempotencyKey (key id : string)
| OpAbandonSubmission (id key : string)
| OpClaimResume (id : string)
| OpReleaseResume (id : string)
| OpEnqueueJob (now : Time) (id : string)
| OpDeleteJob (id : string)
| OpClaimJob (now : Time) (owner : string) (lease : Duration)
| OpHeartbeatJob (now : Time) (id owner : string) (lease : Duration)
| OpCompleteJob (id owner : string)
| OpPutResult (r : option ProviderResult)
| OpPutMergedResult (r : option MergedResult)
| OpPutDecision (d : option PolicyDecision)
| OpAppendEvent (e : CloudEvent)
| OpPutArtifact (digest content : string)
| OpRegisterProvider (p : ProviderEntry)
| OpSnapshotCapabilities (id : string) (caps : ProviderCapabilities).

Definition exec `{Store ST} (o : StoreOp) (s : ST) : ST :=
  match o with
  | OpPutSubmission sub => (PutSubmission sub s).1
  | OpPutSubmissionIdempotent k h sub => (PutSubmissionIdempotent k h sub s).1
  | OpRememberIdempotencyKey k id => (RememberIdempotencyKey k id s).1
  | OpAbandonSubmission id k => (AbandonSubmission id k s).1
  | OpClaimResume id => (ClaimResume id s).1
  | OpReleaseResume id => (ReleaseResume id s).1
  | OpEnqueueJob now id => (EnqueueJob now id s).1
  | OpDeleteJob id => (DeleteJob id s).1
  | OpClaimJob now owner lease => (ClaimJob now owner lease s).1
  | OpHeartbeatJob now id owner lease => (HeartbeatJob now id owner lease s).1
  | OpCompleteJob id owner => (CompleteJob id owner s).1
  | OpPutResult r => (PutResult r s).1
  | OpPutMergedResult r => (PutMergedResult r s).1
  | OpPutDecision d => (PutDecision d s).1
  | OpAppendEvent e => (AppendEvent e s).1
  | OpPutArtifact d c => (PutArtifact d c s).1
  | OpRegisterProvider p => (RegisterProvider p s).1
  | OpSnapshotCapabilities id caps => (SnapshotCapabilities id caps s).1
  end.

Definition exec_all `{Store ST} (ops : list StoreOp) (s : ST) : ST :=
  fold_left (λ s o, exec o s) ops s.

(** ** Clones are stable *)
Class JsonLaws (A : Type) `{Json A} := {
  json_ok_visible : ∀ v, json_ok v = true → json_ok (json_visible v) = true;
  json_visible_idem : ∀ v, json_visible (json_visible v) = json_visible v;
  json_ok_zero : json_ok json_zero = true;
  json_visible_zero : json_visible json_zero = json_zero;
}.

#[export] Instance JsonLaws_Submission : JsonLaws Submission.
Proof. split; try done. Qed.
#[export] Instance JsonLaws_ProviderResult : JsonLaws ProviderResult.
Proof. split; done. Qed.
#[export] Instance JsonLaws_MergedResult : JsonLaws MergedResult.
Proof. split; done. Qed.
#[export] Instance JsonLaws_PolicyDecision : JsonLaws PolicyDecision.
Proof. split; done. Qed.
#[export] Instance JsonLaws_CloudEvent : JsonLaws CloudEvent.
Proof. split; done. Qed.

(** A value that survives [CloneJSON] unchanged. *)
Definition stable `{Json A} (v : A) : Prop := json_ok v = true ∧ json_visible v = v.

Section clone.
Context `{JsonLaws A}.

Lemma stable_clone (v : A) : stable v → CloneJSON v = v.
Proof. intros [Hok Hv]. unfold CloneJSON. by rewrite Hok. Qed.

Lemma clone_stable (v : A) : stable (CloneJSON v).
Proof.
  unfold CloneJSON, stable. destruct (json_ok v) eqn:E.
  - split; [by apply json_ok_visible|by apply json_visible_idem].
  - split; [by apply json_ok_zero|by apply json_visible_zero].
Qed.

Lemma clone_idem (v : A) : CloneJSON (CloneJSON v) = CloneJSON v.
Proof. apply stable_clone, clone_stable. Qed.
End clone.
#[export] Hint Extern 1 (stable (CloneJSON _)) => apply clone_stable : scintx.

(** ** The invariant of the memory store *)

(** Every map is keyed by the identity of what it stores, everything stored is a
clone, a recorded hash belongs to a bound key, a job is pending and free or
leased to a named owner, provider ids are distinct and each provider's snapshot
is its current manifest. *)
Definition job_wf (k : string) (j : memJob) : Prop :=
  k ≠ "" ∧ Job_SubmissionID j = k ∧
  (Job_Status j = jobPending ∧ Job_LeaseOwner j = "" ∧ Job_LeaseUntil j = zero_time
   ∨ Job_Status j = jobLeased ∧ Job_LeaseOwner j ≠ "").

Record store_wf (s : MemoryStore) : Prop := {
  wf_submissions : map_Forall (λ k v, Sub_ID v = k ∧ stable v) (ms_submissions s);
  wf_results : map_Forall (λ k v, Res_ID v = k ∧ stable v) (ms_results s);
  wf_merged : map_Forall (λ k v, MR_SubmissionID v = k ∧ stable v) (ms_mergedResults s);
  wf_decisions : map_Forall (λ k v, Dec_ID v = k ∧ stable v) (ms_decisions s);
  wf_events : Forall stable (ms_events s);
  wf_hash : dom (ms_idemHash s) ⊆ dom (ms_idempotency s);
  wf_jobs : map_Forall job_wf (ms_jobs s);
  wf_providers : NoDup (PE_ID <$> ms_providers s);
  wf_caps : Forall (λ p, ms_capSnapshots s !! PE_ID p = Some (PE_Capabilities p)) (ms_providers s);
}.

Lemma map_Forall_fmap_impl {A} (P : string → A → Prop) (f : A → A) (m : gmap string A) :
  (∀ k v, P k v → P k (f v)) → map_Forall P m → map_Forall P (f <$> m).
Proof.
  intros Hf Hm k v Hk. apply lookup_fmap_Some in Hk as (w & <- & Hw). by apply Hf, Hm.
Qed.

Lemma stable_set_status st sub : stable sub → stable (set_Sub_Status st sub).
Proof. destruct sub. intros [Hok Hv]. split; [done|]. simpl in *.
  injection Hv as Hv. by rewrite Hv. Qed.

Lemma stable_set_release sub :
  stable sub →
  stable (set_Sub_CompletedAt None (set_Sub_CompletionReason (Some CompletionDeferred)
           (set_Sub_Status SubmissionDeferred sub))).
Proof. destruct sub. intros [Hok Hv]. split; [done|]. simpl in *.
  injection Hv as Hv. by rewrite Hv. Qed.

(** The search for the oldest pending job. *)
Lemma older_spec l b :
  (∀ kj, b = Some kj → Job_Status kj.2 = jobPending) →
  match fold_left Mem.older l b with
  | None => b = None ∧ Forall (λ kj, Job_Status kj.2 ≠ jobPending) l
  | Some kj =>
      (b = Some kj ∨ kj ∈ l) ∧ Job_Status kj.2 = jobPending
      ∧ (∀ kj', b = Some kj' → (Job_CreatedAt kj.2 <= Job_CreatedAt kj'.2)%Z)
      ∧ Forall (λ kj', Job_Status kj'.2 = jobPending → (Job_CreatedAt kj.2 <= Job_CreatedAt kj'.2)%Z) l
  end.
Proof.
  revert b. induction l as [|x l IH]; intros b Hb; simpl.
  { destruct b as [kj|]; [|by split]. split; [by left|]. split; [by apply Hb|].
    split; [|constructor]. intros kj' [= ->]. lia. }
  assert (Hb' : ∀ kj, Mem.older b x = Some kj → Job_Status kj.2 = jobPending).
  { intros kj. unfold Mem.older. case_bool_decide as Hs; [apply Hb|].
    destruct b as [b|]; [case_bool_decide|]; try (by intros [= <-]); apply Hb. }
  specialize (IH _ Hb').
  destruct (fold_left Mem.older l (Mem.older b x)) as [kj|] eqn:E.
  - destruct IH as (Hin & Hp & Hlb & Hall). split_and!; try done.
    + unfold Mem.older in Hin. go_cases; set_solver.
    + intros kj' ->. unfold Mem.older in Hlb. go_cases; try (by apply Hlb).
      specialize (Hlb _ eq_refl). lia.
    + constructor; [|done]. intros Hx. unfold Mem.older in Hlb.
      rewrite bool_decide_false in Hlb; [by intros ?|]. simpl in Hlb. go_cases; try (by apply Hlb).
      specialize (Hlb _ eq_refl). lia.
  - destruct IH as (Hn & Hall). unfold Mem.older in Hn. go_cases. split; [done|]. by constructor.
Qed.

(** ** Every operation preserves the invariant *)
Ltac wf_fields Hwf := destruct Hwf; constructor; simpl; try assumption.

Lemma wf_put_sub s k v :
  store_wf s → Sub_ID v = k → stable v →
  store_wf (set_ms_submissions (<[k := v]> (ms_submissions s)) s).
Proof. intros Hwf Hk Hv. wf_fields Hwf. by apply map_Forall_insert_2. Qed.

Lemma wf_unbind s k : store_wf s → store_wf (Mem.unbind k s).
Proof. intros Hwf. wf_fields Hwf. set_solver. Qed.

Lemma wf_bind s k i h : store_wf s → store_wf (Mem.bind k i h s).
Proof. intros Hwf. wf_fields Hwf. set_solver. Qed.

Lemma wf_set_jobs s m : store_wf s → map_Forall job_wf m → store_wf (set_ms_jobs m s).
Proof. intros Hwf Hm. by wf_fields Hwf. Qed.

Lemma wf_delete_job s k : store_wf s → store_wf (set_ms_jobs (delete k (ms_jobs s)) s).
Proof. intros Hwf. apply wf_set_jobs; [done|]. by apply map_Forall_delete, Hwf. Qed.

#[local] Hint Resolve wf_put_sub wf_unbind wf_bind wf_set_jobs wf_delete_job : scintx.

Lemma wf_create_submission s key h sub :
  store_wf s → store_wf (Mem.create_submission key h (CloneJSON sub) s).1.
Proof.
  intros Hwf. unfold Mem.create_submission. case_bool_decide; cbn [fst];
    apply wf_put_sub; auto with scintx.
Qed.

Lemma wf_PutSubmissionIdempotent s key h sub :
  store_wf s → store_wf (Mem.PutSubmissionIdempotent key h sub s).1.
Proof.
  intros Hwf. unfold Mem.PutSubmissionIdempotent. repeat case_match; try done;
    auto using wf_create_submission, wf_unbind.
Qed.

Lemma wf_AbandonSubmission s id key : store_wf s → store_wf (Mem.AbandonSubmission id key s).1.
Proof.
  intros Hwf. unfold Mem.AbandonSubmission.
  assert (store_wf (set_ms_submissions (delete id (ms_submissions s)) s)).
  { wf_fields Hwf. by apply map_Forall_delete. }
  destruct (ms_submissions s !! id); [|done]. case_bool_decide; [done|].
  cbv zeta. cbn [fst]. case_bool_decide; [|by apply wf_delete_job].
  by apply wf_delete_job, wf_unbind.
Qed.

Lemma wf_ClaimResume s id : store_wf s → store_wf (Mem.ClaimResume id s).1.
Proof.
  intros Hwf. unfold Mem.ClaimResume. go_cases.
  destruct (wf_submissions _ Hwf _ _ H). apply wf_put_sub; [done..|]. by apply stable_set_status.
Qed.

Lemma wf_ReleaseResume s id : store_wf s → store_wf (Mem.ReleaseResume id s).1.
Proof.
  intros Hwf. unfold Mem.ReleaseResume. go_cases.
  destruct (wf_submissions _ Hwf _ _ H). apply wf_put_sub; [done..|]. by apply stable_set_release.
Qed.

Lemma wf_EnqueueJob s now id : store_wf s → store_wf (Mem.EnqueueJob now id s).1.
Proof.
  intros Hwf. unfold Mem.EnqueueJob. case_bool_decide as Hid; [done|].
  assert (store_wf (set_ms_jobs (<[id := mkMemJob id jobPending now "" zero_time 0]> (ms_jobs s)) s)).
  { apply wf_set_jobs; [done|]. apply map_Forall_insert_2; [|apply Hwf]. unfold job_wf; simpl; auto 10. }
  by repeat case_match.
Qed.

Lemma job_wf_expire now k j : job_wf k j → job_wf k (Mem.expire now j).
Proof. unfold job_wf, Mem.expire. intros (?&?&?). case_match; simpl; auto 10. Qed.

Lemma wf_ClaimJob `{GoMaps} s now owner lease :
  store_wf s → store_wf (Mem.ClaimJob now owner lease s).1.
Proof.
  intros Hwf. unfold Mem.ClaimJob. case_bool_decide as Ho; [done|].
  assert (Hj : map_Forall job_wf (Mem.expire now <$> ms_jobs s)).
  { apply map_Forall_fmap_impl; [intros; by apply job_wf_expire|apply Hwf]. }
  pose proof (older_spec (map_iter (Mem.expire now <$> ms_jobs s)) None) as Hs.
  destruct (fold_left _ _ _) as [[k best]|]; simpl; [|by apply wf_set_jobs].
  destruct Hs as ([?|Hin] & Hp & _); [done..|].
  rewrite map_iter_perm elem_of_map_to_list in Hin.
  apply wf_set_jobs; [done|]. apply map_Forall_insert_2; [|done].
  destruct (Hj _ _ Hin) as (? & ? & _). unfold job_wf; simpl; auto 10.
Qed.

Lemma wf_HeartbeatJob s now id owner lease :
  store_wf s → store_wf (Mem.HeartbeatJob now id owner lease s).1.
Proof.
  intros Hwf. unfold Mem.HeartbeatJob. destruct (ms_jobs s !! id) as [j|] eqn:Ej; [|done].
  destruct (bool_decide _) eqn:Hl; [done|]. destruct (bool_decide (Job_LeaseOwner _ ≠ _)); [done|].
  apply bool_decide_eq_false in Hl. apply dec_stable in Hl. simpl.
  apply wf_set_jobs; [done|]. apply map_Forall_insert_2; [|apply Hwf].
  pose proof (wf_jobs _ Hwf _ _ Ej) as (? & ? & [(Hp & _)|[]]); [by rewrite Hl in Hp|].
  unfold job_wf; simpl; auto 10.
Qed.

Lemma replace_provider_spec p l l' :
  Mem.replace_provider p l = Some l' →
  ∃ l1 q l2, l = l1 ++ q :: l2 ∧ l' = l1 ++ p :: l2 ∧ PE_ID q = PE_ID p.
Proof.
  revert l'. induction l as [|q l IH]; intros l'; simpl; [done|]. case_bool_decide.
  - intros [= <-]. by exists [], q, l.
  - intros (k & Hk & ->)%fmap_Some. destruct (IH _ Hk) as (l1 & q' & l2 & -> & -> & ?).
    by exists (q :: l1), q', l2.
Qed.

Lemma replace_provider_None p l :
  Mem.replace_provider p l = None → PE_ID p ∉ PE_ID <$> l.
Proof.
  induction l as [|q l IH]; simpl; [set_solver|]. case_bool_decide; [done|].
  intros ?%fmap_None. set_solver.
Qed.

Lemma update_caps_ids id c l : PE_ID <$> Mem.update_caps id c l = PE_ID <$> l.
Proof. induction l; csimpl; [done|]. case_bool_decide; csimpl; congruence. Qed.

Lemma caps_insert_other (m : gmap string ProviderCapabilities) id c l :
  id ∉ PE_ID <$> l →
  Forall (λ p, m !! PE_ID p = Some (PE_Capabilities p)) l →
  Forall (λ p, <[id := c]> m !! PE_ID p = Some (PE_Capabilities p)) l.
Proof.
  intros Hid. rewrite !Forall_forall. intros Hl x Hx. rewrite lookup_insert_ne; [|by apply Hl].
  intros ->. by apply Hid, list_elem_of_fmap_2.
Qed.

Lemma wf_RegisterProvider s p : store_wf s → store_wf (Mem.RegisterProvider p s).1.
Proof.
  intros Hwf. unfold Mem.RegisterProvider. pose proof (wf_providers _ Hwf) as Hn.
  pose proof (wf_caps _ Hwf) as Hc.
  destruct (Mem.replace_provider p (ms_providers s)) as [l|] eqn:E.
  - apply replace_provider_spec in E as (l1 & q & l2 & El & -> & Hid).
    rewrite El in Hn Hc. rewrite fmap_app fmap_cons Hid in Hn. wf_fields Hwf; [by rewrite fmap_app|].
    apply NoDup_app in Hn as (_ & Hn1 & Hn2). apply NoDup_cons in Hn2 as [Hn2 _].
    apply Forall_app in Hc as [H1 H2]. apply Forall_cons in H2 as [_ H2].
    apply Forall_app; split; [|apply Forall_cons; split; [by rewrite lookup_insert_eq|]];
      apply caps_insert_other; try done. intros Hin. apply (Hn1 _ Hin). set_solver.
  - apply replace_provider_None in E. wf_fields Hwf.
    + rewrite fmap_app. apply NoDup_app; split; [done|split; [|apply NoDup_singleton]].
      intros x Hx ->%list_elem_of_singleton. done.
    + apply Forall_app; split; [by apply caps_insert_other|by rewrite Forall_singleton lookup_insert_eq].
Qed.

Lemma update_caps_snapshot (m : gmap string ProviderCapabilities) id c l :
  NoDup (PE_ID <$> l) →
  Forall (λ p, m !! PE_ID p = Some (PE_Capabilities p)) l →
  Forall (λ p, <[id := c]> m !! PE_ID p = Some (PE_Capabilities p)) (Mem.update_caps id c l).
Proof.
  induction l as [|q l IH]; simpl; [done|]. intros [Hn Hd]%NoDup_cons [Hq Hl]%Forall_cons.
  case_bool_decide as Hid.
  - constructor; simpl; [by rewrite -Hid lookup_insert_eq|]. apply caps_insert_other; [|done].
    by rewrite -Hid.
  - constructor; [by rewrite lookup_insert_ne|]. by apply IH.
Qed.

Section reachable.
Context `{GoMaps}.

Lemma exec_wf o s : store_wf s → store_wf (exec o s).
Proof.
  intros Hwf. destruct o; simpl;
    auto using wf_PutSubmissionIdempotent, wf_AbandonSubmission, wf_ClaimResume, wf_ReleaseResume,
      wf_EnqueueJob, wf_delete_job, wf_ClaimJob, wf_HeartbeatJob, wf_RegisterProvider.
  - destruct sub; simpl; auto with scintx.
  - unfold Mem.RememberIdempotencyKey. go_cases. wf_fields Hwf. set_solver.
  - unfold Mem.CompleteJob. repeat case_match; simpl; auto using wf_delete_job.
  - destruct r; simpl; [|done]. wf_fields Hwf. apply map_Forall_insert_2; auto with scintx.
  - destruct r; simpl; [|done]. wf_fields Hwf. apply map_Forall_insert_2; auto with scintx.
  - destruct d; simpl; [|done]. wf_fields Hwf. apply map_Forall_insert_2; auto with scintx.
  - wf_fields Hwf. apply Forall_app; split; [done|]. apply Forall_singleton. auto with scintx.
  - by wf_fields Hwf.
  - by apply wf_RegisterProvider.
  - wf_fields Hwf; [by rewrite update_caps_ids|by apply update_caps_snapshot].
Qed.

Lemma exec_all_wf ops s : store_wf s → store_wf (exec_all ops s).
Proof. revert s. induction ops; simpl; auto using exec_wf. Qed.

Lemma NewMemoryStore_wf : store_wf NewMemoryStore.
Proof. constructor; simpl; try done; try apply map_Forall_empty; constructor. Qed.

(** [C9] In every state the memory store can reach, through any history of its
eighteen state-changing methods (the order the mutex admits them), the maps are
keyed by the identity of their values, stored values are JSON-stable clones,
jobs are either pending and free or leased to a named owner, provider ids are
distinct and each provider's capability snapshot is its current manifest. *)
Theorem MemoryStore_invariant ops : store_wf (exec_all ops NewMemoryStore).
Proof. apply exec_all_wf, NewMemoryStore_wf. Qed.

(** ** Idempotency keys *)

(** [key] is bound to the stored submission [id] with request hash [h]. *)
Definition bound (key id h : string) (s : MemoryStore) : Prop :=
  ms_idempotency s !! key = Some id ∧ ms_idemHash s !! key = Some h
  ∧ is_Some (ms_submissions s !! id).

Definition keeps_submission (id : string) (o : StoreOp) : Prop :=
  match o with OpAbandonSubmission id' _ => id' ≠ id | _ => True end.

Lemma is_Some_insert_keep {A} (m : gmap string A) k k' v :
  is_Some (m !! k) → is_Some (<[k' := v]> m !! k).
Proof. intros Hk. apply lookup_insert_is_Some'. auto. Qed.
#[local] Hint Resolve is_Some_insert_keep : scintx.

Lemma bound_create key id h key' h' cp s :
  key ≠ key' → bound key id h s → bound key id h (Mem.create_submission key' h' cp s).1.
Proof.
  intros Hne (H1 & H2 & H3). unfold bound, Mem.create_submission.
  case_bool_decide; simpl; split_and!; auto with scintx; by rewrite lookup_insert_ne.
Qed.

Lemma bound_unbind key id h key' s : key ≠ key' → bound key id h s → bound key id h (Mem.unbind key' s).
Proof. intros Hne (H1 & H2 & H3). unfold bound. simpl. by rewrite !lookup_delete_ne. Qed.

Lemma bound_PutSubmissionIdempotent key id h key' h' sub s :
  key ≠ "" → bound key id h s → bound key id h (Mem.PutSubmissionIdempotent key' h' sub s).1.
Proof.
  intros Hk Hb. destruct (decide (key = key')) as [<-|Hne].
  - destruct sub as [sub|]; [|done]. unfold Mem.PutSubmissionIdempotent.
    rewrite bool_decide_true //. destruct Hb as (H1 & H2 & [v H3]).
    rewrite H1 H3. case_match; (split_and!; [done..|by exists v]).
  - unfold Mem.PutSubmissionIdempotent. repeat case_match; try done;
      auto using bound_create, bound_unbind.
Qed.

Lemma bound_AbandonSubmission key id h id' key' s :
  id' ≠ id → bound key id h s → bound key id h (Mem.AbandonSubmission id' key' s).1.
Proof.
  intros Hne Hb. unfold Mem.AbandonSubmission. destruct (ms_submissions s !! id'); [|done].
  case_bool_decide; [done|]. destruct Hb as (H1 & H2 & H3).
  assert (Hb : bound key id h (set_ms_submissions (delete id' (ms_submissions s)) s)).
  { unfold bound. simpl. by rewrite lookup_delete_ne. }
  cbv zeta. cbn [fst]. case_bool_decide as Hkey; [|apply Hb].
  destruct Hkey as [_ Hkey]. simpl in Hkey.
  assert (key ≠ key') by (intros <-; rewrite H1 in Hkey; simpl in Hkey; congruence).
  by apply (bound_unbind key id h key').
Qed.

Lemma bound_exec key id h o s :
  key ≠ "" → keeps_submission id o → bound key id h s → bound key id h (exec o s).
Proof.
  intros Hk Ho Hb. destruct o; simpl in *;
    auto using bound_PutSubmissionIdempotent, bound_AbandonSubmission.
  all: try (repeat case_match; apply Hb).
  - destruct Hb as (?&?&?). destruct sub; (split_and!; simpl; auto with scintx).
  - unfold Mem.RememberIdempotencyKey. destruct Hb as (H1&?&?). case_bool_decide; [done|].
    destruct (decide (key = key0)) as [<-|]; [by rewrite H1|].
    case_match; split_and!; simpl; rewrite ?lookup_insert_ne //.
  - unfold Mem.ClaimResume. repeat case_match; try done.
    destruct Hb as (?&?&?). split_and!; simpl; auto with scintx.
  - unfold Mem.ReleaseResume. repeat case_match; try done.
    destruct Hb as (?&?&?). split_and!; simpl; auto with scintx.
  - unfold Mem.EnqueueJob. repeat case_match; apply Hb.
  - unfold Mem.ClaimJob. repeat case_match; apply Hb.
  - unfold Mem.HeartbeatJob. repeat case_match; apply Hb.
  - unfold Mem.CompleteJob. repeat case_match; apply Hb.
  - destruct r; apply Hb.
  - destruct r; apply Hb.
  - destruct d; apply Hb.
Qed.

Lemma bound_exec_all key id h ops s :
  key ≠ "" → Forall (keeps_submission id) ops → bound key id h s → bound key id h (exec_all ops s).
Proof.
  intros Hk Hops. revert s. induction Hops; simpl; [done|]. intros s Hb. apply IHHops.
  by apply bound_exec.
Qed.

Lemma created_bound key h sub s s' stored :
  key ≠ "" → Mem.PutSubmissionIdempotent key h (Some sub) s = (s', Ok (stored, true)) →
  bound key (Sub_ID (CloneJSON sub)) h s' ∧ ms_submissions s' !! Sub_ID (CloneJSON sub) = Some (CloneJSON sub)
  ∧ stored = Some (CloneJSON sub).
Proof.
  intros Hk Hput.
  assert (∃ s0, Mem.create_submission key h (CloneJSON sub) s0 = (s', Ok (stored, true))) as [s0 Hc].
  { unfold Mem.PutSubmissionIdempotent in Hput. repeat case_match; simplify_eq; eauto. }
  unfold Mem.create_submission in Hc. rewrite bool_decide_true // in Hc. simplify_eq. simpl.
  rewrite clone_idem. unfold bound. simpl. by rewrite !lookup_insert_eq.
Qed.

(** [C15] Once a create with a non-empty [Idempotency-Key] went through, and after
any later history of store calls that does not abandon that submission, a replay
of the key changes nothing and returns the submission as it now stands, unless
both request hashes are known and differ: then it is the conflict error. *)
Theorem PutSubmissionIdempotent_replay key h sub s s' stored ops h' sub' :
  store_wf s → key ≠ "" →
  Mem.PutSubmissionIdempotent key h (Some sub) s = (s', Ok (stored, true)) →
  Forall (keeps_submission (Sub_ID (CloneJSON sub))) ops →
  let s2 := exec_all ops s' in
  Mem.PutSubmissionIdempotent key h' (Some sub') s2 =
    (s2, if decide (h ≠ "" ∧ h' ≠ "" ∧ h ≠ h') then Err ErrIdempotencyConflict
         else Ok (ms_submissions s2 !! Sub_ID (CloneJSON sub), false))
  ∧ is_Some (ms_submissions s2 !! Sub_ID (CloneJSON sub)).
Proof.
  intros Hwf Hk Hput Hops s2. destruct (created_bound _ _ _ _ _ _ Hk Hput) as (Hb & _ & _).
  assert (Hwf2 : store_wf s2).
  { apply exec_all_wf. pose proof (wf_PutSubmissionIdempotent s key h (Some sub) Hwf) as Hw.
    by rewrite Hput in Hw. }
  pose proof (bound_exec_all _ _ _ _ _ Hk Hops Hb) as (H1 & H2 & [v H3]). fold s2 in H1, H2, H3.
  split; [|by exists v]. unfold Mem.PutSubmissionIdempotent.
  rewrite bool_decide_true // H1 H3 H2 /=.
  rewrite (stable_clone v); [by apply (wf_submissions _ Hwf2 _ _ H3)|].
  by case_bool_decide; destruct (decide _).
Qed.

(** ** Resume is a compare-and-swap *)

(** The call does not write the submission [id] (other than by resuming it). *)
Definition leaves_submission (id : string) (o : StoreOp) : Prop :=
  match o with
  | OpPutSubmission (Some sub) | OpPutSubmissionIdempotent _ _ (Some sub) => Sub_ID (CloneJSON sub) ≠ id
  | OpReleaseResume id' => id' ≠ id
  | _ => True
  end.

Lemma submissions_create key h cp s :
  ms_submissions (Mem.create_submission key h cp s).1 = <[Sub_ID cp := cp]> (ms_submissions s).
Proof. unfold Mem.create_submission. by case_bool_decide. Qed.

Lemma submissions_PutSubmissionIdempotent_ne key h sub s id :
  Sub_ID (CloneJSON sub) ≠ id →
  ms_submissions (Mem.PutSubmissionIdempotent key h (Some sub) s).1 !! id = ms_submissions s !! id.
Proof.
  intros Hne. unfold Mem.PutSubmissionIdempotent.
  repeat case_match; rewrite ?submissions_create ?lookup_insert_ne //.
Qed.

Lemma running_exec id sub o s :
  leaves_submission id o → Sub_Status sub = SubmissionRunning →
  ms_submissions s !! id = Some sub → ms_submissions (exec o s) !! id = Some sub.
Proof.
  intros Ho Hst Hs. destruct o; simpl in *; try done.
  - destruct sub0; simpl; [by rewrite lookup_insert_ne|done].
  - destruct sub0; [by rewrite submissions_PutSubmissionIdempotent_ne|done].
  - unfold Mem.RememberIdempotencyKey. by repeat case_match.
  - unfold Mem.AbandonSubmission. destruct (decide (id = id0)) as [<-|Hne].
    + rewrite Hs. rewrite bool_decide_true ?Hst //.
    + repeat case_match; simpl; try done; by rewrite lookup_delete_ne.
  - unfold Mem.ClaimResume. destruct (decide (id = id0)) as [<-|Hne].
    + rewrite Hs. rewrite bool_decide_true ?Hst //.
    + repeat case_match; simpl; try done; by rewrite lookup_insert_ne.
  - unfold Mem.ReleaseResume. repeat case_match; simpl; try done; by rewrite lookup_insert_ne.
  - unfold Mem.EnqueueJob. by repeat case_match.
  - unfold Mem.ClaimJob. by repeat case_match.
  - unfold Mem.HeartbeatJob. by repeat case_match.
  - unfold Mem.CompleteJob. by repeat case_match.
  - by destruct r.
  - by destruct r.
  - by destruct d.
Qed.

(** [C16] A deferred submission is resumed by exactly one caller: the first
[ClaimResume] succeeds and marks it running, and after any history of calls that
neither rewrites nor releases that submission every other [ClaimResume] of it is
refused and changes nothing. *)
Theorem ClaimResume_exclusive id sub s ops :
  store_wf s → ms_submissions s !! id = Some sub → Sub_Status sub = SubmissionDeferred →
  Forall (leaves_submission id) ops →
  let s1 := (Mem.ClaimResume id s).1 in
  let s2 := exec_all ops s1 in
  (Mem.ClaimResume id s).2 = Ok (set_Sub_Status SubmissionRunning sub)
  ∧ ms_submissions s2 !! id = Some (set_Sub_Status SubmissionRunning sub)
  ∧ Mem.ClaimResume id s2 = (s2, Err ErrResumeNotDeferred).
Proof.
  intros Hwf Hs Hst Hops s1 s2.
  assert (Mem.ClaimResume id s
          = (s1, Ok (set_Sub_Status SubmissionRunning sub))
          ∧ ms_submissions s1 !! id = Some (set_Sub_Status SubmissionRunning sub)) as [-> Hr].
  { unfold s1, Mem.ClaimResume. rewrite Hs. rewrite bool_decide_false; [by intros Hn; apply Hn|]. simpl.
    rewrite stable_clone; [|by rewrite lookup_insert_eq].
    apply stable_set_status. by apply (wf_submissions _ Hwf _ _ Hs). }
  assert (Hr2 : ms_submissions s2 !! id = Some (set_Sub_Status SubmissionRunning sub)).
  { unfold s2. clearbody s1. clear s2. revert s1 Hr. induction Hops as [|o ops Ho _ IH]; intros s1 Hr; [done|].
    by apply IH, running_exec. }
  split_and!; [done..|]. unfold Mem.ClaimResume. by rewrite Hr2.
Qed.

(** ** Job leases *)
Definition claimable (now : Time) (j : memJob) : Prop :=
  Job_Status j = jobPending ∨ Mem.lease_expired now j = true.

Lemma expire_pending now j : Job_Status (Mem.expire now j) = jobPending ↔ claimable now j.
Proof.
  unfold claimable, Mem.expire. destruct (Mem.lease_expired now j); simpl; [by intuition|].
  split; [by left|]. by intros [?|?].
Qed.

Lemma expire_created now j : Job_CreatedAt (Mem.expire now j) = Job_CreatedAt j.
Proof. unfold Mem.expire. by case_match. Qed.
Lemma expire_attempts now j : Job_Attempts (Mem.expire now j) = Job_Attempts j.
Proof. unfold Mem.expire. by case_match. Qed.
Lemma expire_id now j : Job_SubmissionID (Mem.expire now j) = Job_SubmissionID j.
Proof. unfold Mem.expire. by case_match. Qed.

(** [ClaimJob] returns nothing exactly when no job is pending or past its
lease; otherwise it hands out a claimable job no younger than any other, leased
to the caller for the requested time (two minutes when none was given) with its
attempt counted, and leaves every other job as it was but for expired leases. *)
Theorem ClaimJob_oldest s now owner lease :
  store_wf s → owner ≠ "" →
  let r := Mem.ClaimJob now owner lease s in
  match r.2 with
  | Err _ => False
  | Ok None => ∀ id j, ms_jobs s !! id = Some j → ~ claimable now j
  | Ok (Some (id, attempts)) =>
      ∃ j, ms_jobs s !! id = Some j ∧ claimable now j
      ∧ (∀ id' j', ms_jobs s !! id' = Some j' → claimable now j' → (Job_CreatedAt j <= Job_CreatedAt j')%Z)
      ∧ attempts = wrap64 (Job_Attempts j + 1)
      ∧ ms_jobs r.1 !! id = Some (mkMemJob id jobLeased (Job_CreatedAt j) owner
                                    (now + (if decide (lease <= 0)%Z then 2 * Minute else lease))%Z attempts)
      ∧ ∀ id', id' ≠ id → ms_jobs r.1 !! id' = Mem.expire now <$> ms_jobs s !! id'
  end.
Proof.
  intros Hwf Ho r. subst r. unfold Mem.ClaimJob. rewrite bool_decide_false //.
  pose proof (older_spec (map_iter (Mem.expire now <$> ms_jobs s)) None) as Hs.
  destruct (fold_left _ _ _) as [[k best]|]; simpl.
  - destruct Hs as ([?|Hin] & Hp & _ & Hall); [done..|]. simpl in *.
    rewrite map_iter_perm elem_of_map_to_list in Hin. rewrite map_iter_perm in Hall.
    apply lookup_fmap_Some in Hin as (j & <- & Hj). apply expire_pending in Hp.
    destruct (wf_jobs _ Hwf _ _ Hj) as (_ & Hid & _).
    exists j. rewrite expire_id Hid. unfold Mem.lease_job, Mem.lease_or_default.
    rewrite expire_created expire_attempts expire_id Hid. split_and!; try done.
    + intros id' j' Hj' Hc. rewrite Forall_forall in Hall.
      specialize (Hall (id', Mem.expire now j')). simpl in Hall. rewrite !expire_created in Hall.
      apply Hall; [|by apply expire_pending]. rewrite elem_of_map_to_list lookup_fmap Hj'. done.
    + rewrite lookup_insert_eq. by case_bool_decide; destruct (decide _).
    + intros id' Hne. by rewrite lookup_insert_ne ?lookup_fmap.
  - destruct Hs as [_ Hs]; [done|]. rewrite map_iter_perm Forall_forall in Hs.
    intros id j Hj Hc. apply (Hs (id, Mem.expire now j)); [|by apply expire_pending].
    by rewrite elem_of_map_to_list lookup_fmap Hj.
Qed.

(** [owner] holds the lease of job [id] at least until [t]. *)
Definition holds (id owner : string) (t : Time) (s : MemoryStore) : Prop :=
  ∃ j, ms_jobs s !! id = Some j ∧ Job_Status j = jobLeased ∧ Job_LeaseOwner j = owner
       ∧ (t <= Job_LeaseUntil j)%Z.

(** A call other parties may make while [owner] works on job [id] until [t]: the
clock has not passed [t], the job is not deleted nor completed on behalf of
[owner], and a heartbeat of [owner] does not shorten its lease. *)
Definition within_lease (id owner : string) (t : Time) (o : StoreOp) : Prop :=
  match o with
  | OpAbandonSubmission id' _ | OpDeleteJob id' => id' ≠ id
  | OpCompleteJob id' owner' => id' ≠ id ∨ owner' ≠ owner ∧ owner' ≠ ""
  | OpClaimJob now _ _ => (now <= t)%Z
  | OpHeartbeatJob now id' owner' lease =>
      id' ≠ id ∨ owner' ≠ owner ∨ (t <= now + Mem.lease_or_default lease)%Z
  | _ => True
  end.

Lemma held_not_claimable now t j : (now <= t)%Z → Job_Status j = jobLeased → (t <= Job_LeaseUntil j)%Z →
  Mem.expire now j = j ∧ Job_Status (Mem.expire now j) ≠ jobPending.
Proof.
  intros Hn Hl Ht. unfold Mem.expire, Mem.lease_expired.
  rewrite (bool_decide_false (Job_LeaseUntil j < now)%Z); [lia|]. rewrite !andb_false_r.
  by rewrite Hl.
Qed.

Lemma held_ClaimJob id owner t s now o' lease :
  holds id owner t s → (now <= t)%Z →
  holds id owner t (Mem.ClaimJob now o' lease s).1
  ∧ ∀ k, (Mem.ClaimJob now o' lease s).2 = Ok (Some k) → store_wf s → k.1 ≠ id.
Proof.
  intros (j & Hj & Hl & Ho & Ht) Hn. destruct (held_not_claimable _ _ _ Hn Hl Ht) as [He Hp].
  unfold Mem.ClaimJob. case_bool_decide; [split; [by exists j|done]|].
  pose proof (older_spec (map_iter (Mem.expire now <$> ms_jobs s)) None) as Hs.
  destruct (fold_left _ _ _) as [[k best]|]; simpl.
  - destruct Hs as ([?|Hin] & Hpend & _ & _); [done..|]. simpl in *.
    rewrite map_iter_perm elem_of_map_to_list in Hin.
    apply lookup_fmap_Some in Hin as (j' & <- & Hj').
    assert (k ≠ id) as Hne by (intros ->; rewrite Hj in Hj'; simplify_eq; done).
    split.
    + exists j. by rewrite lookup_insert_ne // lookup_fmap Hj /= He.
    + intros k' [= <-] Hwf. simpl. rewrite expire_id. by destruct (wf_jobs _ Hwf _ _ Hj') as (_ & -> & _).
  - split; [|done]. exists j. by rewrite lookup_fmap Hj /= He.
Qed.

Lemma holds_exec id owner t o s :
  within_lease id owner t o → holds id owner t s → holds id owner t (exec o s).
Proof.
  intros Ho Hh. destruct o; simpl in *; try done.
  - destruct sub; apply Hh.
  - unfold Mem.PutSubmissionIdempotent, Mem.create_submission. repeat case_match; apply Hh.
  - unfold Mem.RememberIdempotencyKey. repeat case_match; apply Hh.
  - unfold Mem.AbandonSubmission. destruct Hh as (j & Hj & ?).
    repeat case_match; exists j; simpl; rewrite ?lookup_delete_ne //.
  - unfold Mem.ClaimResume. repeat case_match; apply Hh.
  - unfold Mem.ReleaseResume. repeat case_match; apply Hh.
  - unfold Mem.EnqueueJob. destruct Hh as (j & Hj & Hl & ?). case_bool_decide; [by exists j|].
    destruct (decide (id0 = id)) as [->|].
    + rewrite Hj Hl. by exists j.
    + repeat case_match; exists j; simpl; rewrite ?lookup_insert_ne //.
  - destruct Hh as (j & Hj & ?). exists j. simpl. by rewrite lookup_delete_ne.
  - by apply held_ClaimJob.
  - unfold Mem.HeartbeatJob. destruct Hh as (j & Hj & Hl & Hw & Ht).
    destruct (decide (id0 = id)) as [->|]; [rewrite Hj|];
      repeat case_match; try (by exists j).
    + exists (mkMemJob (Job_SubmissionID j) (Job_Status j) (Job_CreatedAt j) (Job_LeaseOwner j)
                (now + Mem.lease_or_default lease)%Z (Job_Attempts j)).
      simpl. rewrite lookup_insert_eq. apply orb_false_iff in H0 as [_ H0%bool_decide_eq_false].
      apply dec_stable in H0. split_and!; try done. destruct Ho as [?|[?|?]]; congruence || done.
    + exists j. simpl. by rewrite lookup_insert_ne.
  - unfold Mem.CompleteJob. destruct Hh as (j & Hj & Hl & Hw & Ht).
    destruct (decide (id0 = id)) as [->|]; [rewrite Hj|].
    + destruct Ho as [?|[Ho1 Ho2]]; [done|]. rewrite !bool_decide_true //; [congruence|]. by exists j.
    + repeat case_match; exists j; simpl; rewrite ?lookup_delete_ne //.
  - destruct r; apply Hh.
  - destruct r; apply Hh.
  - destruct d; apply Hh.
Qed.

(** [C10] Mutual exclusion of the memory store's queue: while the clock has not passed
the end of a lease, no history of calls by others -- claims, heartbeats and completions
under their own names, enqueues of the same job, anything on other jobs or tables --
takes the job from its owner, and no claim returns it.  The calls that take a job from
whoever holds it are excluded: deleting it, abandoning its submission, completing it
under an empty owner name, and the owner's own completion or a heartbeat of the owner
that shortens the lease.  (On the SQL store a claim may come earlier: a lease time
without fractional seconds sorts after one with them, lemma [sql_lease_lost_early] of
[Sql.v].) *)
Theorem lease_exclusive id owner t s ops now owner' lease k attempts :
  store_wf s → holds id owner t s → Forall (within_lease id owner t) ops → (now <= t)%Z →
  let s2 := exec_all ops s in
  holds id owner t s2
  ∧ ((Mem.ClaimJob now owner' lease s2).2 = Ok (Some (k, attempts)) → k ≠ id).
Proof.
  intros Hwf Hh Hops Hn s2.
  assert (Hh2 : holds id owner t s2).
  { unfold s2. clear Hwf s2. revert s Hh. induction Hops as [|o ops Ho _ IH]; intros s Hh; [done|].
    by apply IH, holds_exec. }
  split; [done|]. intros Hc.
  by apply (proj2 (held_ClaimJob _ _ _ _ _ owner' lease Hh2 Hn) _ Hc), exec_all_wf.
Qed.

End reachable.

(** ** Concrete stores *)
Definition sample_submission (id : string) (st : SubmissionStatus) : Submission :=
  mkSubmission id "1.0" (mkArtifact (Some "pkg:npm/left-pad@1.3.0") ∅ None [] [] ∅ None) ["vuln-scan"] ∅
    (Some "default") st None zero_time None [] None None ∅.

#[local] Existing Instance sorted_maps.

Lemma PutSubmissionIdempotent_replay_witness :
  let sub := sample_submission "a" SubmissionAccepted in
  let s1 := (Mem.PutSubmissionIdempotent "k" "h1" (Some sub) NewMemoryStore).1 in
  let s2 := exec_all [OpEnqueueJob 5 "a"] s1 in
  Mem.PutSubmissionIdempotent "k" "h2" (Some (sample_submission "b" SubmissionAccepted)) s2
  = (s2, Err ErrIdempotencyConflict).
Proof.
  intros sub s1 s2.
  refine (proj1 (PutSubmissionIdempotent_replay "k" "h1" sub NewMemoryStore s1 (Some sub)
    [OpEnqueueJob 5 "a"] "h2" (sample_submission "b" SubmissionAccepted) NewMemoryStore_wf _ _ _)).
  - discriminate.
  - reflexivity.
  - repeat constructor.
Defined.

Definition deferred_store : MemoryStore :=
  exec (OpPutSubmission (Some (sample_submission "a" SubmissionDeferred))) NewMemoryStore.

Lemma ClaimResume_exclusive_witness :
  (Mem.ClaimResume "a" (exec_all [OpEnqueueJob 5 "a"; OpReleaseResume "b"] (Mem.ClaimResume "a" deferred_store).1)).2
  = Err ErrResumeNotDeferred.
Proof.
  destruct (ClaimResume_exclusive "a" (sample_submission "a" SubmissionDeferred) deferred_store
              [OpEnqueueJob 5 "a"; OpReleaseResume "b"]) as (_ & _ & H).
  - apply exec_wf, NewMemoryStore_wf.
  - vm_compute. reflexivity.
  - reflexivity.
  - repeat constructor; discriminate.
  - by rewrite H.
Defined.

Definition queued_store : MemoryStore :=
  exec_all [OpEnqueueJob 7 "b"; OpEnqueueJob 5 "a"; OpEnqueueJob 9 "c"] NewMemoryStore.

Lemma ClaimJob_oldest_witness :
  let r := Mem.ClaimJob 10 "w1" 60 queued_store in
  r.2 = Ok (Some ("a", 1%Z)) ∧ ms_jobs r.1 !! "c" = Mem.expire 10 <$> ms_jobs queued_store !! "c".
Proof.
  intros r. assert (Hr : r.2 = Ok (Some ("a", 1%Z))) by (vm_compute; reflexivity). split; [done|].
  pose proof (ClaimJob_oldest queued_store 10 "w1" 60 (exec_all_wf _ _ NewMemoryStore_wf)
                ltac:(discriminate)) as H. cbv zeta in H. fold r in H. rewrite Hr in H.
  destruct H as (j & _ & _ & _ & _ & _ & H). by apply H.
Defined.

Lemma lease_exclusive_witness :
  let s := (Mem.ClaimJob 10 "w1" 60 queued_store).1 in
  let s2 := exec_all [OpHeartbeatJob 20 "a" "w2" 60; OpCompleteJob "a" "w2"; OpEnqueueJob 30 "a";
                      OpClaimJob 40 "w3" 60] s in
  holds "a" "w1" 70 s2 ∧ (Mem.ClaimJob 70 "w4" 60 s2).2 = Ok (Some ("c", 1%Z)).
Proof.
  intros s s2. split; [|vm_compute; reflexivity].
  refine (proj1 (lease_exclusive "a" "w1" 70 s [OpHeartbeatJob 20 "a" "w2" 60; OpCompleteJob "a" "w2";
    OpEnqueueJob 30 "a"; OpClaimJob 40 "w3" 60] 70 "w4" 60 "c" 1 _ _ _ _)).
  - apply (exec_wf (OpClaimJob 10 "w1" 60)), exec_all_wf, NewMemoryStore_wf.
  - eexists. split; [vm_compute; reflexivity|]. simpl. split_and!; [done..|lia].
  - repeat constructor; simpl; auto; try lia; by right; split.
  - lia.
Defined.
