(* ===== verification/StoreSpec.v ===== *)
(** * What a client of a store may rely on

[StoreView] is the abstract state of a store; [StoreLaws] relates every call of
the interface [Store] to an update of it, so that clients are verified against
the class and each implementation discharges it once.  The memory store does here
([Mem_StoreLaws]), the SQL store in [Sql].  [spec_exec] is the abstract machine
the laws describe, and every lawful store refines it on every history. *)
From S2P Require Import Prelude GoString GoFloat Types Store.

(** ** The abstract state *)
Record StoreView := mkStoreView {
  v_submissions : gmap string Submission;
  v_idem : gmap string (string * string);
  v_results : gmap string ProviderResult;
  v_merged : gmap string MergedResult;
  v_decisions : gmap string PolicyDecision;
  v_events : list CloudEvent;
  v_artifacts : gmap string string;
  v_providers : list ProviderEntry;
  v_jobs : gset string;
}.

Definition set_v_submissions (x : gmap string Submission) (v : StoreView) : StoreView :=
  mkStoreView x (v_idem v) (v_results v) (v_merged v) (v_decisions v) (v_events v) (v_artifacts v)
    (v_providers v) (v_jobs v).
Definition set_v_idem (x : gmap string (string * string)) (v : StoreView) : StoreView :=
  mkStoreView (v_submissions v) x (v_results v) (v_merged v) (v_decisions v) (v_events v) (v_artifacts v)
    (v_providers v) (v_jobs v).
Definition set_v_results (x : gmap string ProviderResult) (v : StoreView) : StoreView :=
  mkStoreView (v_submissions v) (v_idem v) x (v_merged v) (v_decisions v) (v_events v) (v_artifacts v)
    (v_providers v) (v_jobs v).
Definition set_v_merged (x : gmap string MergedResult) (v : StoreView) : StoreView :=
  mkStoreView (v_submissions v) (v_idem v) (v_results v) x (v_decisions v) (v_events v) (v_artifacts v)
    (v_providers v) (v_jobs v).
Definition set_v_decisions (x : gmap string PolicyDecision) (v : StoreView) : StoreView :=
  mkStoreView (v_submissions v) (v_idem v) (v_results v) (v_merged v) x (v_events v) (v_artifacts v)
    (v_providers v) (v_jobs v).
Definition set_v_events (x : list CloudEvent) (v : StoreView) : StoreView :=
  mkStoreView (v_submissions v) (v_idem v) (v_results v) (v_merged v) (v_decisions v) x (v_artifacts v)
    (v_providers v) (v_jobs v).
Definition set_v_artifacts (x : gmap string string) (v : StoreView) : StoreView :=
  mkStoreView (v_submissions v) (v_idem v) (v_results v) (v_merged v) (v_decisions v) (v_events v) x
    (v_providers v) (v_jobs v).
Definition set_v_providers (x : list ProviderEntry) (v : StoreView) : StoreView :=
  mkStoreView (v_submissions v) (v_idem v) (v_results v) (v_merged v) (v_decisions v) (v_events v)
    (v_artifacts v) x (v_jobs v).
Definition set_v_jobs (x : gset string) (v : StoreView) : StoreView :=
  mkStoreView (v_submissions v) (v_idem v) (v_results v) (v_merged v) (v_decisions v) (v_events v)
    (v_artifacts v) (v_providers v) x.

Lemma view_ext v v' :
  v_submissions v = v_submissions v' → v_idem v = v_idem v' → v_results v = v_results v' →
  v_merged v = v_merged v' → v_decisions v = v_decisions v' → v_events v = v_events v' →
  v_artifacts v = v_artifacts v' → v_providers v = v_providers v' → v_jobs v = v_jobs v' → v = v'.
Proof. destruct v, v'. simpl. by intros -> -> -> -> -> -> -> -> ->. Qed.

Definition empty_view : StoreView := mkStoreView ∅ ∅ ∅ ∅ ∅ [] ∅ [] ∅.

(** ** The abstract operations *)
Definition v_put_submission (sub : Submission) (v : StoreView) : StoreView :=
  set_v_submissions (<[Sub_ID sub := sub]> (v_submissions v)) v.
Definition v_put_result (r : ProviderResult) (v : StoreView) : StoreView :=
  set_v_results (<[Res_ID r := r]> (v_results v)) v.
Definition v_put_merged (r : MergedResult) (v : StoreView) : StoreView :=
  set_v_merged (<[MR_SubmissionID r := r]> (v_merged v)) v.
Definition v_put_decision (d : PolicyDecision) (v : StoreView) : StoreView :=
  set_v_decisions (<[Dec_ID d := d]> (v_decisions v)) v.
Definition v_append_event (e : CloudEvent) (v : StoreView) : StoreView :=
  set_v_events (v_events v ++ [e]) v.
Definition v_put_artifact (digest content : string) (v : StoreView) : StoreView :=
  set_v_artifacts (<[digest := content]> (v_artifacts v)) v.

(** Bind a non-empty key to a submission and the hash of its request. *)
Definition v_bind (key id hash : string) (v : StoreView) : StoreView :=
  if bool_decide (key = "") then v else set_v_idem (<[key := (id, hash)]> (v_idem v)) v.

(** The submission a non-empty key is bound to, with the hash. *)
Definition v_bound (key : string) (v : StoreView) : option (string * string) :=
  if bool_decide (key = "") then None else v_idem v !! key.

Definition v_abandon (id key : string) (v : StoreView) : StoreView :=
  set_v_jobs (v_jobs v ∖ {[id]})
    (set_v_idem (if bool_decide (fst <$> v_bound key v = Some id) then delete key (v_idem v) else v_idem v)
       (set_v_submissions (delete id (v_submissions v)) v)).

Definition v_status (id : string) (v : StoreView) : option SubmissionStatus :=
  Sub_Status <$> v_submissions v !! id.

Definition deferred_again (sub : Submission) : Submission :=
  set_Sub_CompletedAt None (set_Sub_CompletionReason (Some CompletionDeferred)
    (set_Sub_Status SubmissionDeferred sub)).

Definition v_register (p : ProviderEntry) (v : StoreView) : StoreView :=
  set_v_providers (default (v_providers v ++ [p]) (Mem.replace_provider p (v_providers v))) v.

(** The results of a submission, in any order. *)
Definition v_results_of (subID : string) (v : StoreView) : list ProviderResult :=
  List.filter (λ r, bool_decide (Res_SubmissionID r = subID)) (snd <$> map_to_list (v_results v)).

(** A value is stored as its clone; only one JSON cannot carry may be refused, and
then nothing changes. *)
Definition put_spec `{Json A} (put : A → StoreView → StoreView) (x : A) (v : StoreView)
    (r : res GoErr unit) (v' : StoreView) : Prop :=
  r = Ok tt ∧ v' = put (CloneJSON x) v ∨ json_ok x = false ∧ is_Ok r = false ∧ v' = v.

(** A create: under a bound key the stored submission or the conflict, otherwise a
new submission.  Nothing is promised for a key bound to a submission that is gone,
nor for a submission JSON cannot carry. *)
Definition idem_spec (key h : string) (sub : Submission) (v : StoreView)
    (r : res GoErr (option Submission * bool)) (v' : StoreView) : Prop :=
  match v_bound key v with
  | Some (id, h0) =>
      ∀ existing, v_submissions v !! id = Some existing →
        v' = v ∧ r = if decide (h0 ≠ "" ∧ h ≠ "" ∧ h0 ≠ h) then Err ErrIdempotencyConflict
                     else Ok (Some existing, false)
  | None =>
      json_ok sub = true →
        r = Ok (Some (CloneJSON sub), true)
        ∧ v' = v_bind key (Sub_ID sub) h (v_put_submission (CloneJSON sub) v)
  end.

Definition abandon_spec (id key : string) (v : StoreView) (r : res GoErr unit) (v' : StoreView) : Prop :=
  if decide (v_status id v = Some SubmissionAccepted) then r = Ok tt ∧ v' = v_abandon id key v
  else r = Err ErrAbandonRejected ∧ v' = v.

Definition claim_spec (id : string) (v : StoreView) (r : res GoErr Submission) (v' : StoreView) : Prop :=
  match v_submissions v !! id with
  | Some sub =>
      if decide (Sub_Status sub = SubmissionDeferred)
      then r = Ok (set_Sub_Status SubmissionRunning sub)
           ∧ v' = v_put_submission (set_Sub_Status SubmissionRunning sub) v
      else r = Err ErrResumeNotDeferred ∧ v' = v
  | None => r = Err ErrResumeNotDeferred ∧ v' = v
  end.

Definition v_release (id : string) (v : StoreView) : StoreView :=
  match v_submissions v !! id with
  | Some sub => if decide (Sub_Status sub = SubmissionRunning) then v_put_submission (deferred_again sub) v else v
  | None => v
  end.

Definition v_remember (key id : string) (v : StoreView) : StoreView :=
  if decide (key = "" ∨ is_Some (v_idem v !! key)) then v else v_bind key id "" v.

Definition v_snapshot (id : string) (caps : ProviderCapabilities) (v : StoreView) : StoreView :=
  set_v_providers (Mem.update_caps id caps (v_providers v)) v.

Definition registered (id : string) (v : StoreView) : Prop := id ∈ PE_ID <$> v_providers v.

(** ** The laws *)

(** What a valid store shows: submissions, results and decisions are stable clones
under their own ids, provider ids are distinct. *)
Record view_wf (v : StoreView) : Prop := {
  vw_submissions : map_Forall (λ k x, Sub_ID x = k ∧ stable x) (v_submissions v);
  vw_results : map_Forall (λ k x, Res_ID x = k ∧ stable x) (v_results v);
  vw_decisions : map_Forall (λ k x, Dec_ID x = k ∧ stable x) (v_decisions v);
  vw_providers : NoDup (PE_ID <$> v_providers v);
}.

Definition opt_put_spec `{Json A} (put : A → StoreView → StoreView) (x : option A) (v : StoreView)
    (r : res GoErr unit) (v' : StoreView) : Prop :=
  match x with Some x => put_spec put x v r v' | None => r = Ok tt ∧ v' = v end.

Class StoreLaws (ST : Type) `{Store ST} := {
  view : ST → StoreView;
  valid : ST → Prop;
  view_valid : ∀ s, valid s → view_wf (view s);
  PutSubmission_law : ∀ s x, valid s → let r := PutSubmission x s in
    valid r.1 ∧ opt_put_spec v_put_submission x (view s) r.2 (view r.1);
  PutResult_law : ∀ s x, valid s → let r := PutResult x s in
    valid r.1 ∧ opt_put_spec v_put_result x (view s) r.2 (view r.1);
  PutMergedResult_law : ∀ s x, valid s → let r := PutMergedResult x s in
    valid r.1 ∧ opt_put_spec v_put_merged x (view s) r.2 (view r.1);
  PutDecision_law : ∀ s x, valid s → let r := PutDecision x s in
    valid r.1 ∧ opt_put_spec v_put_decision x (view s) r.2 (view r.1);
  AppendEvent_law : ∀ s e, valid s → let r := AppendEvent e s in
    valid r.1 ∧ put_spec v_append_event e (view s) r.2 (view r.1);
  PutArtifact_law : ∀ s d c, valid s → let r := PutArtifact d c s in
    valid r.1 ∧ r.2 = Ok tt ∧ view r.1 = v_put_artifact d c (view s);
  PutSubmissionIdempotent_law : ∀ s key h x, valid s → let r := PutSubmissionIdempotent key h x s in
    valid r.1 ∧ match x with
                | Some sub => idem_spec key h sub (view s) r.2 (view r.1)
                | None => r.2 = Ok (None, false) ∧ view r.1 = view s
                end;
  RememberIdempotencyKey_law : ∀ s key id, valid s → let r := RememberIdempotencyKey key id s in
    valid r.1 ∧ r.2 = Ok tt ∧ view r.1 = v_remember key id (view s);
  AbandonSubmission_law : ∀ s id key, valid s → let r := AbandonSubmission id key s in
    valid r.1 ∧ abandon_spec id key (view s) r.2 (view r.1);
  ClaimResume_law : ∀ s id, valid s → let r := ClaimResume id s in
    valid r.1 ∧ claim_spec id (view s) r.2 (view r.1);
  ReleaseResume_law : ∀ s id, valid s → let r := ReleaseResume id s in
    valid r.1 ∧ r.2 = Ok tt ∧ view r.1 = v_release id (view s);
  RegisterProvider_law : ∀ s p, valid s → json_ok (PE_Capabilities p) = true → let r := RegisterProvider p s in
    valid r.1 ∧ r.2 = Ok tt ∧ view r.1 = v_register p (view s);
  SnapshotCapabilities_law : ∀ s id caps, valid s → registered id (view s) → json_ok caps = true →
    let r := SnapshotCapabilities id caps s in
    valid r.1 ∧ r.2 = Ok tt ∧ view r.1 = v_snapshot id caps (view s);
  EnqueueJob_law : ∀ s now id, valid s → let r := EnqueueJob now id s in
    valid r.1 ∧ is_Ok r.2 = bool_decide (id ≠ "")
    ∧ view r.1 = set_v_jobs (if bool_decide (id = "") then v_jobs (view s) else {[id]} ∪ v_jobs (view s)) (view s);
  DeleteJob_law : ∀ s id, valid s → let r := DeleteJob id s in
    valid r.1 ∧ r.2 = Ok tt ∧ view r.1 = set_v_jobs (v_jobs (view s) ∖ {[id]}) (view s);
  ClaimJob_law : ∀ s now owner lease, valid s → let r := ClaimJob now owner lease s in
    valid r.1 ∧ view r.1 = view s
    ∧ ∀ id n, r.2 = Ok (Some (id, n)) → id ∈ v_jobs (view s);
  HeartbeatJob_law : ∀ s now id owner lease, valid s → let r := HeartbeatJob now id owner lease s in
    valid r.1 ∧ view r.1 = view s ∧ is_Ok r.2 = true;
  CompleteJob_law : ∀ s id owner, valid s → let r := CompleteJob id owner s in
    valid r.1 ∧ (view r.1 = view s ∨ view r.1 = set_v_jobs (v_jobs (view s) ∖ {[id]}) (view s));
  GetSubmission_law : ∀ s id, valid s → GetSubmission id s = (s, Ok (v_submissions (view s) !! id));
  GetSubmissionByIdempotencyKey_law : ∀ s key, valid s →
    GetSubmissionByIdempotencyKey key s
    = (s, Ok (b ← v_bound key (view s); v_submissions (view s) !! b.1));
  GetResult_law : ∀ s id, valid s → GetResult id s = (s, Ok (v_results (view s) !! id));
  GetMergedResult_law : ∀ s id, valid s →
    GetMergedResultForSubmission id s = (s, Ok (v_merged (view s) !! id));
  GetDecision_law : ∀ s id, valid s → GetDecision id s = (s, Ok (v_decisions (view s) !! id));
  Events_law : ∀ s, valid s → Events s = (s, Ok (v_events (view s)));
  GetArtifact_law : ∀ s d, valid s → GetArtifact d s = (s, Ok (v_artifacts (view s) !! d));
  HasArtifact_law : ∀ s d, valid s →
    HasArtifact d s = (s, Ok (bool_decide (is_Some (v_artifacts (view s) !! d))));
  Providers_law : ∀ s, valid s → Providers s = (s, Ok (v_providers (view s)));
  GetCapabilities_law : ∀ s p, valid s → p ∈ v_providers (view s) →
    GetCapabilities (PE_ID p) s = (s, Ok (Some (PE_Capabilities p)));
  PendingJobCount_law : ∀ s, valid s → PendingJobCount s = (s, Ok (Z.of_nat (size (v_jobs (view s)))));
  GetResultsForSubmission_law : ∀ s id, valid s →
    ∃ l, GetResultsForSubmission id s = (s, Ok l) ∧ l ≡ₚ v_results_of id (view s);
}.

(** ** The memory store *)
Lemma lookup_clone_stable `{JsonLaws A} (m : gmap string A) (P : string → A → Prop) k :
  map_Forall (λ k v, P k v ∧ stable v) m → lookup_clone m k = m !! k.
Proof.
  intros Hm. unfold lookup_clone. destruct (m !! k) as [v|] eqn:E; simpl; [|done].
  by rewrite stable_clone; [apply (Hm _ _ E)|].
Qed.

Lemma filter_map_comm {A B} (f : A → B) (p : B → bool) l :
  List.filter p (f <$> l) = f <$> List.filter (λ x, p (f x)) l.
Proof. induction l as [|x l IH]; csimpl; [done|]. rewrite IH. by case_match. Qed.

Lemma map_stable {A} `{JsonLaws A} (l : list A) : Forall stable l → map CloneJSON l = l.
Proof. induction 1; simpl; [done|]. rewrite stable_clone //. congruence. Qed.

Lemma filter_perm {A} (p : A → bool) (l k : list A) : l ≡ₚ k → List.filter p l ≡ₚ List.filter p k.
Proof.
  induction 1; simpl; try done; repeat case_match; try constructor; auto; try done.
  by etrans.
Qed.

Definition mem_view (s : MemoryStore) : StoreView :=
  mkStoreView (ms_submissions s)
    (map_imap (λ k id, Some (id, default "" (ms_idemHash s !! k))) (ms_idempotency s))
    (ms_results s) (ms_mergedResults s) (ms_decisions s) (ms_events s) (ms_artifacts s) (ms_providers s)
    (dom (ms_jobs s)).

Lemma mem_idem_lookup s key :
  v_idem (mem_view s) !! key = (λ id, (id, default "" (ms_idemHash s !! key))) <$> ms_idempotency s !! key.
Proof. simpl. rewrite map_lookup_imap. by destruct (ms_idempotency s !! key). Qed.

Lemma mem_idem_ext s s' :
  (∀ k, v_idem (mem_view s') !! k = v_idem (mem_view s) !! k) → v_idem (mem_view s') = v_idem (mem_view s).
Proof. intros Hk. by apply map_eq. Qed.

Lemma mem_idem_bind s key id h :
  v_idem (mem_view (Mem.bind key id h s)) = <[key := (id, h)]> (v_idem (mem_view s)).
Proof.
  apply map_eq. intros k. rewrite mem_idem_lookup. simpl. destruct (decide (k = key)) as [->|Hne].
  - by rewrite !lookup_insert_eq.
  - rewrite !lookup_insert_ne //. by rewrite map_lookup_imap; destruct (ms_idempotency s !! k).
Qed.

Lemma mem_idem_unbind s key :
  v_idem (mem_view (Mem.unbind key s)) = delete key (v_idem (mem_view s)).
Proof.
  apply map_eq. intros k. rewrite mem_idem_lookup. simpl. destruct (decide (k = key)) as [->|Hne].
  - by rewrite !lookup_delete_eq.
  - rewrite !lookup_delete_ne //. by rewrite map_lookup_imap; destruct (ms_idempotency s !! k).
Qed.

Lemma mem_create_view key h cp s :
  mem_view (Mem.create_submission key h cp s).1 = v_bind key (Sub_ID cp) h (v_put_submission cp (mem_view s)).
Proof.
  unfold Mem.create_submission, v_bind. destruct (decide (key = "")) as [->|Hk].
  - done.
  - rewrite bool_decide_true // bool_decide_false //. simpl. unfold v_put_submission, set_v_idem. simpl.
    pose proof (mem_idem_bind s key (Sub_ID cp) h) as Hb. unfold mem_view in *. simpl in *. by rewrite Hb.
Qed.

Lemma Sub_ID_clone sub : json_ok sub = true → Sub_ID (CloneJSON sub) = Sub_ID sub.
Proof. intros Hok. unfold CloneJSON. by rewrite Hok. Qed.

Section mem_laws.
Context `{GoMaps}.
Implicit Types s : MemoryStore.

Lemma mem_view_wf s : store_wf s → view_wf (mem_view s).
Proof. intros []. by constructor. Qed.

Lemma mem_idempotent s key h sub :
  store_wf s →
  idem_spec key h sub (mem_view s) (Mem.PutSubmissionIdempotent key h (Some sub) s).2
    (mem_view (Mem.PutSubmissionIdempotent key h (Some sub) s).1).
Proof.
  intros Hwf. unfold idem_spec, Mem.PutSubmissionIdempotent, v_bound.
  destruct (decide (key = "")) as [->|Hk].
  - rewrite bool_decide_true //. rewrite bool_decide_false; [by intros []|]. intros Hok. rewrite mem_create_view Sub_ID_clone //.
    split; [|done]. simpl. by rewrite clone_idem.
  - rewrite (bool_decide_false (key = "")) // (bool_decide_true (key ≠ "")) // mem_idem_lookup.
    destruct (ms_idempotency s !! key) as [id|] eqn:Ek; simpl.
    + intros ex Hex. rewrite Hex. destruct (decide _) as [Hd|Hd]; case_bool_decide; try tauto; simpl.
      split; [done|]. rewrite stable_clone //. by apply (wf_submissions _ Hwf _ _ Hex).
    + intros Hok. rewrite mem_create_view Sub_ID_clone //. split; [|done]. simpl. by rewrite clone_idem.
Qed.

Lemma mem_abandon s id key :
  store_wf s →
  abandon_spec id key (mem_view s) (Mem.AbandonSubmission id key s).2 (mem_view (Mem.AbandonSubmission id key s).1).
Proof.
  intros Hwf. unfold abandon_spec, Mem.AbandonSubmission, v_status. simpl.
  destruct (ms_submissions s !! id) as [sub|] eqn:Es; simpl; [|done].
  destruct (decide (Sub_Status sub = SubmissionAccepted)) as [Ha|Ha].
  - rewrite decide_True; [by rewrite Ha|]. rewrite bool_decide_false; [by intros []|]. split; [done|].
    unfold v_abandon, v_bound. set (s0 := set_ms_submissions _ s).
    assert (Hi : v_idem (mem_view (if bool_decide (key ≠ "" ∧ default "" (ms_idempotency s0 !! key) = id)
               then Mem.unbind key s0 else s0)) =
             (if bool_decide (fst <$> (if bool_decide (key = "") then None else v_idem (mem_view s) !! key) = Some id)
              then delete key (v_idem (mem_view s)) else v_idem (mem_view s))).
    { rewrite mem_idem_lookup. simpl. destruct (decide (key = "")) as [->|Hk].
      - rewrite bool_decide_false; [by intros []|]. by rewrite (bool_decide_true (_ = "")).
      - rewrite (bool_decide_false (key = "")) //. destruct (ms_idempotency s !! key) as [i|] eqn:Ek; simpl.
        + destruct (decide (i = id)) as [->|Hi].
          * rewrite !bool_decide_true //. apply (mem_idem_unbind s0).
          * rewrite !bool_decide_false //; naive_solver.
        + destruct (bool_decide _); [|done]. etrans; [exact (mem_idem_unbind s0 key)|]. apply delete_id.
          by rewrite mem_idem_lookup /= Ek. }
    apply view_ext; [|exact Hi|..]; destruct (bool_decide (_ ∧ _)); try done; apply dom_delete_L.
  - rewrite decide_False; [naive_solver|]. by rewrite bool_decide_true.
Qed.

Lemma mem_claim s id :
  store_wf s → claim_spec id (mem_view s) (Mem.ClaimResume id s).2 (mem_view (Mem.ClaimResume id s).1).
Proof.
  intros Hwf. unfold claim_spec, Mem.ClaimResume. simpl. destruct (ms_submissions s !! id) as [sub|] eqn:Es; [|done].
  destruct (wf_submissions _ Hwf _ _ Es) as [Hid Hst]. case_decide as Hd.
  - rewrite bool_decide_false; [by intros []|]. rewrite stable_clone; [by apply stable_set_status|].
    split; [done|]. by rewrite -Hid.
  - by rewrite bool_decide_true.
Qed.

Lemma mem_release s id :
  store_wf s → mem_view (Mem.ReleaseResume id s).1 = v_release id (mem_view s).
Proof.
  intros Hwf. unfold v_release, Mem.ReleaseResume. simpl. destruct (ms_submissions s !! id) as [sub|] eqn:Es; [|done].
  destruct (wf_submissions _ Hwf _ _ Es) as [Hid Hst]. case_decide as Hd.
  - rewrite bool_decide_false; [by intros []|]. by rewrite -Hid.
  - by rewrite bool_decide_true.
Qed.

Lemma mem_remember s key id :
  store_wf s → mem_view (Mem.RememberIdempotencyKey key id s).1 = v_remember key id (mem_view s).
Proof.
  intros Hwf. unfold v_remember, Mem.RememberIdempotencyKey, v_bind. destruct (decide (key = "")) as [->|Hk].
  { by destruct (decide _) as [|[]]; [|left]. }
  rewrite (bool_decide_false (key = "")) // mem_idem_lookup.
  destruct (ms_idempotency s !! key) as [i|] eqn:Ei; [by destruct (decide _) as [|[]]; [|right; eauto]|].
  destruct (decide _) as [[?|[? ?]]|_]; [done..|].
  apply view_ext; try done. simpl. apply map_eq. intros k. rewrite map_lookup_imap.
  destruct (decide (k = key)) as [->|Hne].
  - rewrite !lookup_insert_eq /=. destruct (ms_idemHash s !! key) as [h|] eqn:Eh; [|done].
    assert (key ∈ dom (ms_idempotency s)) as [? ?]%elem_of_dom; [|congruence].
    apply (wf_hash _ Hwf). by eapply elem_of_dom_2.
  - rewrite !lookup_insert_ne // map_lookup_imap. by destruct (ms_idempotency s !! k).
Qed.

Lemma mem_enqueue s now id :
  store_wf s → is_Ok (Mem.EnqueueJob now id s).2 = bool_decide (id ≠ "")
  ∧ mem_view (Mem.EnqueueJob now id s).1
    = set_v_jobs (if bool_decide (id = "") then v_jobs (mem_view s) else {[id]} ∪ v_jobs (mem_view s)) (mem_view s).
Proof.
  intros Hwf. unfold Mem.EnqueueJob. destruct (decide (id = "")) as [->|Hid]; [done|].
  rewrite (bool_decide_false (id = "")) // (bool_decide_true (id ≠ "")) //.
  destruct (ms_jobs s !! id) as [j|] eqn:Ej.
  - assert (bool_decide (Job_Status j = jobPending) || bool_decide (Job_Status j = jobLeased) = true) as ->.
    { destruct (wf_jobs _ Hwf _ _ Ej) as (_ & _ & [(-> & _)|(-> & _)]); done. }
    split; [done|]. apply view_ext; try done. simpl. apply elem_of_dom_2 in Ej. set_solver.
  - split; [done|]. apply view_ext; try done. simpl. by rewrite dom_insert_L.
Qed.

Lemma mem_claimjob s now owner lease :
  store_wf s → mem_view (Mem.ClaimJob now owner lease s).1 = mem_view s
  ∧ ∀ id n, (Mem.ClaimJob now owner lease s).2 = Ok (Some (id, n)) → id ∈ dom (ms_jobs s).
Proof.
  intros Hwf. unfold Mem.ClaimJob. case_bool_decide; [done|].
  pose proof (older_spec (map_iter (Mem.expire now <$> ms_jobs s)) None ltac:(done)) as Ho.
  destruct (fold_left _ _ None) as [[k j]|]; simpl in *.
  - destruct Ho as ([|Hin] & _); [done|]. rewrite map_iter_perm in Hin.
    apply elem_of_map_to_list, lookup_fmap_Some in Hin as (j0 & <- & Hj). split.
    + apply view_ext; try done. simpl. rewrite dom_insert_L dom_fmap_L. apply elem_of_dom_2 in Hj. set_solver.
    + intros id n [= <- _]. rewrite expire_id. destruct (wf_jobs _ Hwf _ _ Hj) as (_ & -> & _). by eapply elem_of_dom_2.
  - split; [|done]. apply view_ext; try done. simpl. by rewrite dom_fmap_L.
Qed.

Lemma mem_results s id :
  store_wf s → ∃ l, Mem.GetResultsForSubmission id s = (s, Ok l) ∧ l ≡ₚ v_results_of id (mem_view s).
Proof.
  intros Hwf. eexists; split; [done|]. unfold v_results_of. rewrite filter_map_comm. simpl.
  rewrite -map_map map_stable.
  - rewrite Forall_forall. intros r (kr & -> & Hk)%list_elem_of_fmap.
    apply list_elem_of_In, filter_In in Hk as [Hk _].
    apply list_elem_of_In in Hk. rewrite map_iter_perm in Hk. destruct kr as [k r].
    apply elem_of_map_to_list in Hk. by apply (wf_results _ Hwf _ _ Hk).
  - apply Permutation_map, filter_perm, map_iter_perm.
Qed.

Lemma mem_pending s : store_wf s → Mem.PendingJobCount s = (s, Ok (Z.of_nat (size (dom (ms_jobs s))))).
Proof.
  intros Hwf. unfold Mem.PendingJobCount. do 3 f_equal. rewrite size_dom -length_map_to_list.
  f_equal. apply List.forallb_filter_id, forallb_true. intros [k j] Hk. apply elem_of_map_to_list in Hk. simpl.
  destruct (wf_jobs _ Hwf _ _ Hk) as (_ & _ & [(-> & _)|(-> & _)]); done.
Qed.
End mem_laws.

#[export] Instance Mem_StoreLaws `{GoMaps} : StoreLaws MemoryStore.
Proof.
  refine {| view := mem_view; valid := store_wf |}; cbv zeta.
  - apply mem_view_wf.
  - intros s x Hwf. split; [by apply (exec_wf (OpPutSubmission x))|]. destruct x; [by left|done].
  - intros s x Hwf. split; [by apply (exec_wf (OpPutResult x))|]. destruct x; [by left|done].
  - intros s x Hwf. split; [by apply (exec_wf (OpPutMergedResult x))|]. destruct x; [by left|done].
  - intros s x Hwf. split; [by apply (exec_wf (OpPutDecision x))|]. destruct x; [by left|done].
  - intros s e Hwf. split; [by apply (exec_wf (OpAppendEvent e))|]. by left.
  - intros s d c Hwf. split; [by apply (exec_wf (OpPutArtifact d c))|done].
  - intros s key h x Hwf. split; [by apply (exec_wf (OpPutSubmissionIdempotent key h x))|].
    destruct x; [by apply mem_idempotent|done].
  - intros s key id Hwf. split_and!; [by apply (exec_wf (OpRememberIdempotencyKey key id))| |by apply mem_remember].
    simpl. unfold Mem.RememberIdempotencyKey. by repeat case_match.
  - intros s id key Hwf. split; [by apply (exec_wf (OpAbandonSubmission id key))|by apply mem_abandon].
  - intros s id Hwf. split; [by apply (exec_wf (OpClaimResume id))|by apply mem_claim].
  - intros s id Hwf. split_and!; [by apply (exec_wf (OpReleaseResume id))| |by apply mem_release].
    simpl. unfold Mem.ReleaseResume. by repeat case_match.
  - intros s p Hwf _. split_and!; [by apply (exec_wf (OpRegisterProvider p))|done|].
    by apply view_ext.
  - intros s id caps Hwf _ _. split_and!; [by apply (exec_wf (OpSnapshotCapabilities id caps))|done|done].
  - intros s now id Hwf. split; [by apply (exec_wf (OpEnqueueJob now id))|by apply mem_enqueue].
  - intros s id Hwf. split_and!; [by apply (exec_wf (OpDeleteJob id))|done|].
    apply view_ext; try done. apply dom_delete_L.
  - intros s now owner lease Hwf. split; [by apply (exec_wf (OpClaimJob now owner lease))|by apply mem_claimjob].
  - intros s now id owner lease Hwf. split; [by apply (exec_wf (OpHeartbeatJob now id owner lease))|].
    simpl. unfold Mem.HeartbeatJob. destruct (ms_jobs s !! id) as [j|] eqn:Ej; [|done]. case_match; [done|].
    split; [|done]. apply view_ext; try done. simpl. apply elem_of_dom_2 in Ej. rewrite dom_insert_L. set_solver.
  - intros s id owner Hwf. split; [by apply (exec_wf (OpCompleteJob id owner))|].
    simpl. unfold Mem.CompleteJob. repeat case_match; auto. right. apply view_ext; try done. apply dom_delete_L.
  - intros s id Hwf. simpl. unfold Mem.GetSubmission. erewrite lookup_clone_stable; [done..|]. apply Hwf.
  - intros s key Hwf. simpl. unfold Mem.GetSubmissionByIdempotencyKey, v_bound. case_bool_decide; [done|].
    rewrite mem_idem_lookup. destruct (ms_idempotency s !! key) as [id|]; simpl; [|done].
    erewrite lookup_clone_stable; [done..|]. apply Hwf.
  - intros s id Hwf. simpl. unfold Mem.GetResult. erewrite lookup_clone_stable; [done..|]. apply Hwf.
  - intros s id Hwf. simpl. unfold Mem.GetMergedResultForSubmission. erewrite lookup_clone_stable; [done..|]. apply Hwf.
  - intros s id Hwf. simpl. unfold Mem.GetDecision. erewrite lookup_clone_stable; [done..|]. apply Hwf.
  - intros s Hwf. simpl. unfold Mem.Events. rewrite map_stable //. apply Hwf.
  - done.
  - done.
  - done.
  - intros s p Hwf Hp. simpl in *. unfold Mem.GetCapabilities.
    pose proof (wf_caps _ Hwf) as Hc. rewrite Forall_forall in Hc. by rewrite Hc.
  - intros s Hwf. by apply mem_pending.
  - intros s id Hwf. by apply mem_results.
Defined.

(** ** The abstract machine

[spec_exec] is what a call does to the abstract state, [allowed] when the laws
determine it: values JSON can carry, keys bound to live submissions, registered
providers.  Which jobs are in the queue also depends on who holds their leases, so
states are compared up to the job set ([without_jobs]). *)
Definition without_jobs (v : StoreView) : StoreView := set_v_jobs ∅ v.

Definition spec_exec (o : StoreOp) (v : StoreView) : StoreView :=
  match o with
  | OpPutSubmission (Some sub) => v_put_submission (CloneJSON sub) v
  | OpPutSubmissionIdempotent key h (Some sub) =>
      match v_bound key v with
      | Some _ => v
      | None => v_bind key (Sub_ID sub) h (v_put_submission (CloneJSON sub) v)
      end
  | OpRememberIdempotencyKey key id => v_remember key id v
  | OpAbandonSubmission id key =>
      if decide (v_status id v = Some SubmissionAccepted) then v_abandon id key v else v
  | OpClaimResume id =>
      match v_submissions v !! id with
      | Some sub => if decide (Sub_Status sub = SubmissionDeferred)
                    then v_put_submission (set_Sub_Status SubmissionRunning sub) v else v
      | None => v
      end
  | OpReleaseResume id => v_release id v
  | OpPutResult (Some r) => v_put_result (CloneJSON r) v
  | OpPutMergedResult (Some r) => v_put_merged (CloneJSON r) v
  | OpPutDecision (Some d) => v_put_decision (CloneJSON d) v
  | OpAppendEvent e => v_append_event (CloneJSON e) v
  | OpPutArtifact d c => v_put_artifact d c v
  | OpRegisterProvider p => v_register p v
  | OpSnapshotCapabilities id caps => v_snapshot id caps v
  | _ => v
  end.

Definition opt_json_ok `{Json A} (x : option A) : Prop := ∀ a, x = Some a → json_ok a = true.

Definition allowed (o : StoreOp) (v : StoreView) : Prop :=
  match o with
  | OpPutSubmission sub => opt_json_ok sub
  | OpPutSubmissionIdempotent key _ sub =>
      opt_json_ok sub ∧ ∀ id h, v_bound key v = Some (id, h) → is_Some (v_submissions v !! id)
  | OpPutResult r => opt_json_ok r
  | OpPutMergedResult r => opt_json_ok r
  | OpPutDecision d => opt_json_ok d
  | OpAppendEvent e => json_ok e = true
  | OpRegisterProvider p => json_ok (PE_Capabilities p) = true
  | OpSnapshotCapabilities id caps => registered id v ∧ json_ok caps = true
  | _ => True
  end.

Fixpoint spec_run (ops : list StoreOp) (v : StoreView) : StoreView :=
  match ops with [] => v | o :: ops => spec_run ops (spec_exec o v) end.

Fixpoint allowed_run (ops : list StoreOp) (v : StoreView) : Prop :=
  match ops with [] => True | o :: ops => allowed o v ∧ allowed_run ops (spec_exec o v) end.

(** The job set plays no part in the rest. *)
Lemma spec_exec_jobs o v j :
  without_jobs (spec_exec o (set_v_jobs j v)) = without_jobs (spec_exec o v).
Proof.
  destruct v; destruct o; try done; unfold without_jobs, spec_exec, v_remember, v_abandon, v_bound,
    v_bind, v_release, v_status, set_v_jobs; simpl; by repeat (case_match; simpl).
Qed.

Lemma allowed_jobs o v j : allowed o (set_v_jobs j v) ↔ allowed o v.
Proof. by destruct o. Qed.

Lemma without_jobs_eq v v' : without_jobs v = without_jobs v' → v = set_v_jobs (v_jobs v) v'.
Proof. destruct v, v'. unfold without_jobs, set_v_jobs. simpl. intros [=]. by subst. Qed.

Lemma put_spec_ok `{Json A} put (x : A) v r v' :
  put_spec put x v r v' → json_ok x = true → v' = put (CloneJSON x) v.
Proof. intros [[_ ?]|[? _]] ?; congruence. Qed.

Section refinement.
Context `{StoreLaws ST}.
Implicit Types s : ST.

Lemma exec_valid o s : valid s → allowed o (view s) → valid (exec o s).
Proof.
  intros Hv Ha. destruct o; simpl in *.
  - by apply PutSubmission_law.
  - by apply PutSubmissionIdempotent_law.
  - by apply RememberIdempotencyKey_law.
  - by apply AbandonSubmission_law.
  - by apply ClaimResume_law.
  - by apply ReleaseResume_law.
  - by apply EnqueueJob_law.
  - by apply DeleteJob_law.
  - by apply ClaimJob_law.
  - by apply HeartbeatJob_law.
  - by apply CompleteJob_law.
  - by apply PutResult_law.
  - by apply PutMergedResult_law.
  - by apply PutDecision_law.
  - by apply AppendEvent_law.
  - by apply PutArtifact_law.
  - by apply RegisterProvider_law.
  - by apply SnapshotCapabilities_law; destruct Ha.
Qed.

(** One call of a lawful store is one step of the abstract machine. *)
Lemma exec_refines o s :
  valid s → allowed o (view s) → without_jobs (view (exec o s)) = without_jobs (spec_exec o (view s)).
Proof.
  intros Hv Ha. destruct o; simpl in *.
  - destruct (PutSubmission_law s sub Hv) as [_ P]. destruct sub as [x|]; simpl in P; [|by destruct P as [_ ->]].
    by rewrite (put_spec_ok _ _ _ _ _ P (Ha _ eq_refl)).
  - destruct (PutSubmissionIdempotent_law s key hash sub Hv) as [_ P].
    destruct sub as [x|]; [|by destruct P as [_ ->]]. destruct Ha as [Ha Hb]. unfold idem_spec in P.
    destruct (v_bound key (view s)) as [[id h]|].
    + destruct (Hb _ _ eq_refl) as [e He]. by destruct (P e He) as [-> _].
    + by destruct (P (Ha _ eq_refl)) as [_ ->].
  - by destruct (RememberIdempotencyKey_law s key id Hv) as (_ & _ & ->).
  - destruct (AbandonSubmission_law s id key Hv) as [_ P]. unfold abandon_spec in P.
    case_decide; by destruct P as [_ ->].
  - destruct (ClaimResume_law s id Hv) as [_ P]. unfold claim_spec in P.
    destruct (v_submissions (view s) !! id); [case_decide|]; by destruct P as [_ ->].
  - by destruct (ReleaseResume_law s id Hv) as (_ & _ & ->).
  - by destruct (EnqueueJob_law s now id Hv) as (_ & _ & ->).
  - by destruct (DeleteJob_law s id Hv) as (_ & _ & ->).
  - by destruct (ClaimJob_law s now owner lease Hv) as (_ & -> & _).
  - by destruct (HeartbeatJob_law s now id owner lease Hv) as (_ & -> & _).
  - by destruct (CompleteJob_law s id owner Hv) as (_ & [->| ->]).
  - destruct (PutResult_law s r Hv) as [_ P]. destruct r as [x|]; simpl in P; [|by destruct P as [_ ->]].
    by rewrite (put_spec_ok _ _ _ _ _ P (Ha _ eq_refl)).
  - destruct (PutMergedResult_law s r Hv) as [_ P]. destruct r as [x|]; simpl in P; [|by destruct P as [_ ->]].
    by rewrite (put_spec_ok _ _ _ _ _ P (Ha _ eq_refl)).
  - destruct (PutDecision_law s d Hv) as [_ P]. destruct d as [x|]; simpl in P; [|by destruct P as [_ ->]].
    by rewrite (put_spec_ok _ _ _ _ _ P (Ha _ eq_refl)).
  - destruct (AppendEvent_law s e Hv) as [_ P]. by rewrite (put_spec_ok _ _ _ _ _ P Ha).
  - by destruct (PutArtifact_law s digest content Hv) as (_ & _ & ->).
  - by destruct (RegisterProvider_law s p Hv Ha) as (_ & _ & ->).
  - destruct Ha as [Hr Hok]. by destruct (SnapshotCapabilities_law s id caps Hv Hr Hok) as (_ & _ & ->).
Qed.

(** The diagram extends to histories. *)
Lemma run_refines ops s v :
  valid s → without_jobs (view s) = without_jobs v → allowed_run ops v →
  valid (exec_all ops s) ∧ without_jobs (view (exec_all ops s)) = without_jobs (spec_run ops v).
Proof.
  revert s v. induction ops as [|o ops IH]; intros s v Hv Heq Ha; simpl in *; [done|].
  destruct Ha as [Ha Hr]. pose proof (without_jobs_eq _ _ Heq) as Hj.
  assert (allowed o (view s)) as Has by (by rewrite Hj allowed_jobs).
  apply IH; [by apply exec_valid| |done]. rewrite exec_refines // Hj. apply spec_exec_jobs.
Qed.
End refinement.

(** Two stores, of whatever implementations, that show the same state answer the
same. *)
Lemma answers_agree `{StoreLaws S1} `{StoreLaws S2} (m : S1) (d : S2) :
  valid m → valid d → without_jobs (view m) = without_jobs (view d) →
  (∀ id, (GetSubmission id m).2 = (GetSubmission id d).2)
  ∧ (∀ key, (GetSubmissionByIdempotencyKey key m).2 = (GetSubmissionByIdempotencyKey key d).2)
  ∧ (∀ id, (GetResult id m).2 = (GetResult id d).2)
  ∧ (∀ id, (GetMergedResultForSubmission id m).2 = (GetMergedResultForSubmission id d).2)
  ∧ (∀ id, (GetDecision id m).2 = (GetDecision id d).2)
  ∧ (∀ dg, (GetArtifact dg m).2 = (GetArtifact dg d).2)
  ∧ (Events m).2 = (Events d).2 ∧ (Providers m).2 = (Providers d).2.
Proof.
  intros Hm Hd E. apply without_jobs_eq in E. split_and!; intros.
  - by rewrite (GetSubmission_law m) // (GetSubmission_law d) // E.
  - by rewrite (GetSubmissionByIdempotencyKey_law m) // (GetSubmissionByIdempotencyKey_law d) // E.
  - by rewrite (GetResult_law m) // (GetResult_law d) // E.
  - by rewrite (GetMergedResult_law m) // (GetMergedResult_law d) // E.
  - by rewrite (GetDecision_law m) // (GetDecision_law d) // E.
  - by rewrite (GetArtifact_law m) // (GetArtifact_law d) // E.
  - by rewrite (Events_law m) // (Events_law d) // E.
  - by rewrite (Providers_law m) // (Providers_law d) // E.
Qed.
