(* ===== verification/Sql.v ===== *)
(** * The SQL store: [internal/store/sql_ops.go], [job_queue.go], [sql.go], [open.go]

A database is its tables.  A column of JSON text is represented by the value it
decodes to: [json.Marshal] fails on a value JSON cannot carry, and what
[json.Unmarshal] reads back is the clone.  Statements of one transaction take
effect together; a transaction that returns an error is rolled back.  Text is
compared byte by byte (SQLite's BINARY collation).  Faults of the database itself
are not modelled. *)
From S2P Require Import Prelude GoString GoFloat GoTime Types Store StoreSpec.

(** ** The tables *)
Record ProviderRow := mkProviderRow {
  row_name : string;
  row_capabilities : ProviderCapabilities;
  row_sort_order : Z;
}.

Record ResultRow := mkResultRow {
  row_submission_id : string;
  row_body : ProviderResult;
}.

Record JobRow := mkJobRow {
  row_status : string;
  row_created_at : string;
  row_lease_owner : option string;
  row_lease_until : option string;
  row_attempts : Z;
}.

Record SqlDB := mkSqlDB {
  db_submissions : gmap string Submission;
  db_idempotency : gmap string (string * string);
  db_results : gmap string ResultRow;
  db_decisions : gmap string PolicyDecision;
  db_events : list CloudEvent;
  db_artifacts : gmap string string;
  db_providers : gmap string ProviderRow;
  db_jobs : gmap string JobRow;
  db_merged_results : gmap string MergedResult;
}.

Definition set_db_submissions (x : gmap string Submission) (d : SqlDB) : SqlDB :=
  mkSqlDB x (db_idempotency d) (db_results d) (db_decisions d) (db_events d) (db_artifacts d) (db_providers d)
    (db_jobs d) (db_merged_results d).
Definition set_db_idempotency (x : gmap string (string * string)) (d : SqlDB) : SqlDB :=
  mkSqlDB (db_submissions d) x (db_results d) (db_decisions d) (db_events d) (db_artifacts d) (db_providers d)
    (db_jobs d) (db_merged_results d).
Definition set_db_results (x : gmap string ResultRow) (d : SqlDB) : SqlDB :=
  mkSqlDB (db_submissions d) (db_idempotency d) x (db_decisions d) (db_events d) (db_artifacts d) (db_providers d)
    (db_jobs d) (db_merged_results d).
Definition set_db_decisions (x : gmap string PolicyDecision) (d : SqlDB) : SqlDB :=
  mkSqlDB (db_submissions d) (db_idempotency d) (db_results d) x (db_events d) (db_artifacts d) (db_providers d)
    (db_jobs d) (db_merged_results d).
Definition set_db_events (x : list CloudEvent) (d : SqlDB) : SqlDB :=
  mkSqlDB (db_submissions d) (db_idempotency d) (db_results d) (db_decisions d) x (db_artifacts d) (db_providers d)
    (db_jobs d) (db_merged_results d).
Definition set_db_artifacts (x : gmap string string) (d : SqlDB) : SqlDB :=
  mkSqlDB (db_submissions d) (db_idempotency d) (db_results d) (db_decisions d) (db_events d) x (db_providers d)
    (db_jobs d) (db_merged_results d).
Definition set_db_providers (x : gmap string ProviderRow) (d : SqlDB) : SqlDB :=
  mkSqlDB (db_submissions d) (db_idempotency d) (db_results d) (db_decisions d) (db_events d) (db_artifacts d) x
    (db_jobs d) (db_merged_results d).
Definition set_db_jobs (x : gmap string JobRow) (d : SqlDB) : SqlDB :=
  mkSqlDB (db_submissions d) (db_idempotency d) (db_results d) (db_decisions d) (db_events d) (db_artifacts d)
    (db_providers d) x (db_merged_results d).
Definition set_db_merged_results (x : gmap string MergedResult) (d : SqlDB) : SqlDB :=
  mkSqlDB (db_submissions d) (db_idempotency d) (db_results d) (db_decisions d) (db_events d) (db_artifacts d)
    (db_providers d) (db_jobs d) x.

(** A database just migrated. *)
Definition fresh_db : SqlDB := mkSqlDB ∅ ∅ ∅ ∅ [] ∅ ∅ ∅ ∅.

Abbreviation SqlM A := (StoreM SqlDB A).

(** ** Opening a store *)
Inductive dialect := dialectSQLite | dialectPostgres.

(** [q]: the placeholders of a query, numbered for Postgres. *)
Fixpoint rebind (n : Z) (query : string) : string :=
  match query with
  | "" => ""
  | String c query =>
      if bool_decide (c = "?"%char) then "$" +:+ fmt_d (n + 1) +:+ rebind (n + 1) query
      else String c (rebind n query)
  end.

Definition q (dl : dialect) (query : string) : string :=
  match dl with dialectSQLite => query | dialectPostgres => rebind 0 query end.

Definition DriverMemory : string := "memory".
Definition DriverSQLite : string := "sqlite".
Definition DriverPostgres : string := "postgres".

Record Config := mkConfig {
  Cfg_Driver : string;
  Cfg_SQLitePath : string;
  Cfg_DatabaseURL : string;
}.

Definition ConfigFromEnv `{Unicode} (getenv : string → string) : Config :=
  let driver := ToLower (TrimSpace (getenv "SCINTX_STORE")) in
  let driver := if bool_decide (driver = "") then DriverMemory else driver in
  let path := getenv "SCINTX_SQLITE_PATH" in
  let path := if bool_decide (path = "") then "data/scintx.db" else path in
  mkConfig driver path (getenv "SCINTX_DATABASE_URL").

(** What [Open] goes on to open. *)
Inductive Backend :=
| OpenMemory
| OpenSQLite (path : string)
| OpenPostgres (url : string).

Definition Open `{Unicode} (cfg : Config) : res string Backend :=
  let d := ToLower (Cfg_Driver cfg) in
  if bool_decide (d = DriverMemory ∨ d = "") then Ok OpenMemory
  else if bool_decide (d = DriverSQLite ∨ d = "sqlite3") then Ok (OpenSQLite (Cfg_SQLitePath cfg))
  else if bool_decide (d = DriverPostgres ∨ d = "postgresql" ∨ d = "pg") then
    if bool_decide (Cfg_DatabaseURL cfg = "") then Err "SCINTX_DATABASE_URL is required for postgres store"
    else Ok (OpenPostgres (Cfg_DatabaseURL cfg))
  else Err ("unknown SCINTX_STORE " +:+ quoted (Cfg_Driver cfg) +:+ " (want memory|sqlite|postgres)").

(** The part of [path] before its last separator. *)
Fixpoint last_sep (path : string) : option string :=
  match path with
  | "" => None
  | String c path =>
      match last_sep path with
      | Some d => Some (String c d)
      | None => if bool_decide (c = "/"%char ∨ c = chr 92) then Some "" else None
      end
  end.

Definition dirOf (path : string) : string := default "." (last_sep path).

(** ** The operations *)
Module Sql.

Definition Marshal `{Json A} (x : A) : res GoErr A :=
  if json_ok x then Ok (json_visible x) else Err (ErrorString "json: unsupported value").

Definition PutSubmission (sub : option Submission) : SqlM unit := λ d,
  match sub with
  | None => (d, Ok tt)
  | Some sub =>
      match Marshal sub with
      | Err e => (d, Err e)
      | Ok body => (set_db_submissions (<[Sub_ID sub := body]> (db_submissions d)) d, Ok tt)
      end
  end.

Definition GetSubmission (id : string) : SqlM (option Submission) := λ d, (d, Ok (db_submissions d !! id)).

Definition hash_conflict (existing request : string) : bool :=
  bool_decide (existing ≠ "") && bool_decide (request ≠ "") && bool_decide (existing ≠ request).

(** The replay of a key: the bound submission, or an error. *)
Definition replay (key requestHash : string) (bound : string * string) (d : SqlDB)
  : res GoErr (option Submission * bool) :=
  if hash_conflict bound.2 requestHash then Err ErrIdempotencyConflict
  else match db_submissions d !! bound.1 with
       | None => Err (ErrorString ("idempotency key " +:+ quoted key +:+ " points to missing submission"))
       | Some out => Ok (Some out, false)
       end.

(** [others] is what other transactions commit between the first look at the key
and the insertion of it, which waits for them.  An error rolls back our own
statements, not theirs. *)
Definition PutSubmissionIdempotent_racing (others : SqlDB → SqlDB) (key requestHash : string)
    (sub : option Submission) : SqlM (option Submission * bool) := λ d,
  match sub with
  | None => (d, Ok (None, false))
  | Some sub =>
      match (if bool_decide (key = "") then None else db_idempotency d !! key) with
      | Some bound => (d, replay key requestHash bound d)
      | None =>
          match Marshal sub with
          | Err e => (d, Err e)
          | Ok body =>
              let d := others d in
              let d' := set_db_submissions (<[Sub_ID sub := body]> (db_submissions d)) d in
              if bool_decide (key = "") then (d', Ok (Some (CloneJSON sub), true))
              else match db_idempotency d' !! key with
                   | None =>
                       (set_db_idempotency (<[key := (Sub_ID sub, requestHash)]> (db_idempotency d')) d',
                        Ok (Some (CloneJSON sub), true))
                   | Some (existingID, existingHash) =>
                       if hash_conflict existingHash requestHash then (d, Err ErrIdempotencyConflict)
                       else
                         let d'' := set_db_submissions (delete (Sub_ID sub) (db_submissions d')) d' in
                         match db_submissions d'' !! existingID with
                         | None => (d, Err (ErrorString "sql: no rows in result set"))
                         | Some out => (d'', Ok (Some out, false))
                         end
                   end
          end
      end
  end.

Definition PutSubmissionIdempotent : string → string → option Submission → SqlM (option Submission * bool) :=
  PutSubmissionIdempotent_racing id.

Definition RememberIdempotencyKey (key submissionID : string) : SqlM unit := λ d,
  if bool_decide (key = "") then (d, Ok tt)
  else match db_idempotency d !! key with
       | Some _ => (d, Ok tt)
       | None => (set_db_idempotency (<[key := (submissionID, "")]> (db_idempotency d)) d, Ok tt)
       end.

Definition AbandonSubmission (id idempotencyKey : string) : SqlM unit := λ d,
  match db_submissions d !! id with
  | None => (d, Err ErrAbandonRejected)
  | Some sub =>
      if bool_decide (Sub_Status sub ≠ SubmissionAccepted) then (d, Err ErrAbandonRejected)
      else
        let d := set_db_submissions (delete id (db_submissions d)) d in
        let d := if bool_decide (idempotencyKey = "") then d
                 else match db_idempotency d !! idempotencyKey with
                      | Some (i, _) =>
                          if bool_decide (i = id)
                          then set_db_idempotency (delete idempotencyKey (db_idempotency d)) d else d
                      | None => d
                      end in
        (set_db_jobs (delete id (db_jobs d)) d, Ok tt)
  end.

Definition ClaimResume (id : string) : SqlM Submission := λ d,
  match db_submissions d !! id with
  | None => (d, Err ErrResumeNotDeferred)
  | Some sub =>
      if bool_decide (Sub_Status sub ≠ SubmissionDeferred) then (d, Err ErrResumeNotDeferred)
      else
        let sub := set_Sub_Status SubmissionRunning sub in
        match Marshal sub with
        | Err e => (d, Err e)
        | Ok raw => (set_db_submissions (<[id := raw]> (db_submissions d)) d, Ok sub)
        end
  end.

Definition ReleaseResume (id : string) : SqlM unit := λ d,
  match db_submissions d !! id with
  | None => (d, Ok tt)
  | Some sub =>
      if bool_decide (Sub_Status sub ≠ SubmissionRunning) then (d, Ok tt)
      else
        let sub := set_Sub_Status SubmissionDeferred sub in
        let sub := set_Sub_CompletionReason (Some CompletionDeferred) sub in
        let sub := set_Sub_CompletedAt None sub in
        match Marshal sub with
        | Err e => (d, Err e)
        | Ok raw => (set_db_submissions (<[id := raw]> (db_submissions d)) d, Ok tt)
        end
  end.

Definition GetSubmissionByIdempotencyKey (key : string) : SqlM (option Submission) := λ d,
  if bool_decide (key = "") then (d, Ok None)
  else match db_idempotency d !! key with
       | None => (d, Ok None)
       | Some (id, _) => GetSubmission id d
       end.

Definition PutResult (r : option ProviderResult) : SqlM unit := λ d,
  match r with
  | None => (d, Ok tt)
  | Some r =>
      match Marshal r with
      | Err e => (d, Err e)
      | Ok body => (set_db_results (<[Res_ID r := mkResultRow (Res_SubmissionID r) body]> (db_results d)) d, Ok tt)
      end
  end.

Definition GetResult (id : string) : SqlM (option ProviderResult) := λ d,
  (d, Ok (row_body <$> db_results d !! id)).

(** The rows in the order the database happens to return them. *)
Definition GetResultsForSubmission `{GoMaps} (subID : string) : SqlM (list ProviderResult) := λ d,
  (d, Ok (map (λ kr, row_body kr.2)
            (List.filter (λ kr, bool_decide (row_submission_id kr.2 = subID)) (map_iter (db_results d))))).

Definition PutMergedResult (r : option MergedResult) : SqlM unit := λ d,
  match r with
  | None => (d, Ok tt)
  | Some r =>
      match Marshal r with
      | Err e => (d, Err e)
      | Ok body => (set_db_merged_results (<[MR_SubmissionID r := body]> (db_merged_results d)) d, Ok tt)
      end
  end.

Definition GetMergedResultForSubmission (subID : string) : SqlM (option MergedResult) := λ d,
  (d, Ok (db_merged_results d !! subID)).

Definition PutDecision (x : option PolicyDecision) : SqlM unit := λ d,
  match x with
  | None => (d, Ok tt)
  | Some x =>
      match Marshal x with
      | Err e => (d, Err e)
      | Ok body => (set_db_decisions (<[Dec_ID x := body]> (db_decisions d)) d, Ok tt)
      end
  end.

Definition GetDecision (id : string) : SqlM (option PolicyDecision) := λ d, (d, Ok (db_decisions d !! id)).

Definition AppendEvent (e : CloudEvent) : SqlM unit := λ d,
  match Marshal e with
  | Err e => (d, Err e)
  | Ok body => (set_db_events (db_events d ++ [body]) d, Ok tt)
  end.

Definition Events : SqlM (list CloudEvent) := λ d, (d, Ok (db_events d)).

Definition PutArtifact (digest content : string) : SqlM unit := λ d,
  (set_db_artifacts (<[digest := content]> (db_artifacts d)) d, Ok tt).

Definition HasArtifact (digest : string) : SqlM bool := λ d,
  (d, Ok (match db_artifacts d !! digest with Some _ => true | None => false end)).

Definition GetArtifact (digest : string) : SqlM (option string) := λ d, (d, Ok (db_artifacts d !! digest)).

(** *** Providers *)

(** [SELECT COALESCE(MAX(sort_order), 0)]. *)
Definition max_order (m : gmap string ProviderRow) : Z :=
  match row_sort_order ∘ snd <$> map_to_list m with [] => 0 | o :: l => foldr Z.max o l end.

Definition RegisterProvider (p : ProviderEntry) : SqlM unit := λ d,
  match Marshal (PE_Capabilities p) with
  | Err e => (d, Err e)
  | Ok body =>
      let next := (max_order (db_providers d) + 1)%Z in
      let row := match db_providers d !! PE_ID p with
                 | Some old => mkProviderRow (PE_Name p) body (row_sort_order old)
                 | None => mkProviderRow (PE_Name p) body next
                 end in
      (set_db_providers (<[PE_ID p := row]> (db_providers d)) d, Ok tt)
  end.

(** [ORDER BY sort_order ASC, id ASC]: the sorted keys, then their rows. *)
Definition key_le (a b : Z * string) : Prop := (a.1 < b.1)%Z ∨ a.1 = b.1 ∧ String.le a.2 b.2.

#[export] Instance key_le_dec : RelDecision key_le.
Proof. intros a b. unfold key_le. apply _. Defined.

Definition provider_keys (m : gmap string ProviderRow) : list (Z * string) :=
  merge_sort key_le ((λ kr, (row_sort_order kr.2, kr.1)) <$> map_to_list m).

Definition provider_entry (m : gmap string ProviderRow) (k : Z * string) : option ProviderEntry :=
  (λ r, mkProviderEntry k.2 (row_name r) (row_capabilities r)) <$> m !! k.2.

Definition provider_list (m : gmap string ProviderRow) : list ProviderEntry :=
  omap (provider_entry m) (provider_keys m).

Definition Providers : SqlM (list ProviderEntry) := λ d, (d, Ok (provider_list (db_providers d))).

Definition GetCapabilities (providerID : string) : SqlM (option ProviderCapabilities) := λ d,
  (d, Ok (row_capabilities <$> db_providers d !! providerID)).

Definition SnapshotCapabilities (providerID : string) (caps : ProviderCapabilities) : SqlM unit := λ d,
  match Marshal caps with
  | Err e => (d, Err e)
  | Ok body =>
      match db_providers d !! providerID with
      | None => (d, Err (ErrorString ("provider " +:+ quoted providerID +:+ " not registered")))
      | Some r =>
          (set_db_providers (<[providerID := mkProviderRow (row_name r) body (row_sort_order r)]> (db_providers d)) d,
           Ok tt)
      end
  end.

(** *** The job queue ([job_queue.go]) *)
Definition EnqueueJob (now : Time) (submissionID : string) : SqlM unit := λ d,
  if bool_decide (submissionID = "") then (d, Err (ErrorString "empty submission id"))
  else match db_jobs d !! submissionID with
       | Some _ => (d, Ok tt)
       | None =>
           (set_db_jobs (<[submissionID := mkJobRow jobPending (RFC3339Nano now) None None 0]> (db_jobs d)) d, Ok tt)
       end.

Definition DeleteJob (submissionID : string) : SqlM unit := λ d,
  (set_db_jobs (delete submissionID (db_jobs d)) d, Ok tt).

(** The first [UPDATE] of [ClaimJob]: text before text. *)
Definition expire_row (nowStr : string) (j : JobRow) : JobRow :=
  if bool_decide (row_status j = jobLeased)
     && match row_lease_until j with Some u => String.ltb u nowStr | None => false end
  then mkJobRow jobPending (row_created_at j) None None (row_attempts j)
  else j.

(** [WHERE status = 'pending' ORDER BY created_at ASC LIMIT 1]. *)
Definition older_row (best : option (string * JobRow)) (kj : string * JobRow) : option (string * JobRow) :=
  if bool_decide (row_status kj.2 ≠ jobPending) then best
  else match best with
       | None => Some kj
       | Some b => if String.ltb (row_created_at kj.2) (row_created_at b.2) then Some kj else best
       end.

Definition lease_row (owner until : string) (j : JobRow) : JobRow :=
  mkJobRow jobLeased (row_created_at j) (Some owner) (Some until) (row_attempts j + 1).

Definition ClaimJob `{GoMaps} (now : Time) (owner : string) (lease : Duration) : SqlM (option (string * Z)) := λ d,
  if bool_decide (owner = "") then (d, Err (ErrorString "empty lease owner"))
  else
    let until := RFC3339Nano (now + Mem.lease_or_default lease)%Z in
    let jobs := expire_row (RFC3339Nano now) <$> db_jobs d in
    match fold_left older_row (map_iter jobs) None with
    | None => (set_db_jobs jobs d, Ok None)
    | Some (id, j) =>
        let j := lease_row owner until j in
        (set_db_jobs (<[id := j]> jobs) d, Ok (Some (id, row_attempts j)))
    end.

Definition HeartbeatJob (now : Time) (submissionID owner : string) (lease : Duration) : SqlM bool := λ d,
  let until := RFC3339Nano (now + Mem.lease_or_default lease)%Z in
  match db_jobs d !! submissionID with
  | None => (d, Ok false)
  | Some j =>
      if bool_decide (row_status j = jobLeased) && bool_decide (row_lease_owner j = Some owner)
      then (set_db_jobs (<[submissionID := mkJobRow (row_status j) (row_created_at j) (row_lease_owner j)
                                              (Some until) (row_attempts j)]> (db_jobs d)) d, Ok true)
      else (d, Ok false)
  end.

Definition CompleteJob (submissionID owner : string) : SqlM unit := λ d,
  if bool_decide (owner = "") then (set_db_jobs (delete submissionID (db_jobs d)) d, Ok tt)
  else match db_jobs d !! submissionID with
       | None => (d, Ok tt)
       | Some j =>
           if bool_decide (row_lease_owner j = Some owner) || bool_decide (row_status j = jobPending)
           then (set_db_jobs (delete submissionID (db_jobs d)) d, Ok tt)
           else (d, Ok tt)
       end.

Definition PendingJobCount : SqlM Z := λ d,
  (d, Ok (Z.of_nat (length (List.filter
     (λ kj, bool_decide (row_status kj.2 = jobPending) || bool_decide (row_status kj.2 = jobLeased))
     (map_to_list (db_jobs d)))))).
End Sql.

#[export] Instance Sql_Store `{GoMaps} : Store SqlDB := {|
  PutSubmission := Sql.PutSubmission;
  GetSubmission := Sql.GetSubmission;
  PutSubmissionIdempotent := Sql.PutSubmissionIdempotent;
  GetSubmissionByIdempotencyKey := Sql.GetSubmissionByIdempotencyKey;
  RememberIdempotencyKey := Sql.RememberIdempotencyKey;
  AbandonSubmission := Sql.AbandonSubmission;
  ClaimResume := Sql.ClaimResume;
  ReleaseResume := Sql.ReleaseResume;
  EnqueueJob := Sql.EnqueueJob;
  DeleteJob := Sql.DeleteJob;
  ClaimJob := Sql.ClaimJob;
  HeartbeatJob := Sql.HeartbeatJob;
  CompleteJob := Sql.CompleteJob;
  PendingJobCount := Sql.PendingJobCount;
  PutResult := Sql.PutResult;
  GetResult := Sql.GetResult;
  GetResultsForSubmission := Sql.GetResultsForSubmission;
  PutMergedResult := Sql.PutMergedResult;
  GetMergedResultForSubmission := Sql.GetMergedResultForSubmission;
  PutDecision := Sql.PutDecision;
  GetDecision := Sql.GetDecision;
  AppendEvent := Sql.AppendEvent;
  Events := Sql.Events;
  PutArtifact := Sql.PutArtifact;
  HasArtifact := Sql.HasArtifact;
  GetArtifact := Sql.GetArtifact;
  RegisterProvider := Sql.RegisterProvider;
  Providers := Sql.Providers;
  GetCapabilities := Sql.GetCapabilities;
  SnapshotCapabilities := Sql.SnapshotCapabilities;
|}.

(** ** The invariant *)
Record sql_wf (d : SqlDB) : Prop := {
  sw_submissions : map_Forall (λ k x, Sub_ID x = k ∧ stable x) (db_submissions d);
  sw_results : map_Forall (λ k r, Res_ID (row_body r) = k ∧ stable (row_body r)
                                   ∧ row_submission_id r = Res_SubmissionID (row_body r)) (db_results d);
  sw_decisions : map_Forall (λ k x, Dec_ID x = k ∧ stable x) (db_decisions d);
  sw_jobs : map_Forall (λ k j, k ≠ "" ∧ (row_status j = jobPending ∧ row_lease_owner j = None
                                ∨ row_status j = jobLeased ∧ is_Some (row_lease_owner j) ∧ is_Some (row_lease_until j)))
              (db_jobs d);
}.

Definition sql_view (d : SqlDB) : StoreView :=
  mkStoreView (db_submissions d) (db_idempotency d) (row_body <$> db_results d) (db_merged_results d)
    (db_decisions d) (db_events d) (db_artifacts d) (Sql.provider_list (db_providers d)) (dom (db_jobs d)).

Lemma Marshal_ok `{JsonLaws A} (x : A) :
  Sql.Marshal x = (if json_ok x then Ok (CloneJSON x) else Err (ErrorString "json: unsupported value")).
Proof. unfold Sql.Marshal, CloneJSON. by destruct (json_ok x). Qed.

(** ** The listing of providers *)
Section providers.
Implicit Types (m : gmap string ProviderRow).
Import Sql.

#[local] Instance key_le_total : Total key_le.
Proof.
  intros [o k] [o' k']. unfold key_le. simpl. destruct (Z.lt_trichotomy o o') as [?|[->|?]]; auto.
  destruct (total String.le k k'); auto.
Qed.

#[local] Instance key_le_trans : Transitive key_le.
Proof.
  intros [o k] [o' k'] [o'' k'']. unfold key_le. simpl. intros [?|[-> ?]] [?|[-> ?]]; auto.
  - left. lia.
  - right. split; [done|]. by etrans.
Qed.

#[local] Instance key_le_antisymm : AntiSymm (=) key_le.
Proof.
  intros [o k] [o' k']. unfold key_le. simpl. intros [?|[-> ?]] [?|[? ?]]; try lia. f_equal. by apply (anti_symm String.le).
Qed.

Definition raw_keys m : list (Z * string) := (λ kr : string * ProviderRow, (row_sort_order kr.2, kr.1)) <$> map_to_list m.

Lemma provider_keys_perm m : provider_keys m ≡ₚ raw_keys m.
Proof. apply merge_sort_Permutation. Qed.

Lemma provider_keys_sorted m : StronglySorted key_le (provider_keys m).
Proof. apply (StronglySorted_merge_sort key_le). Qed.

Lemma raw_keys_elem m o k : (o, k) ∈ raw_keys m ↔ ∃ r, m !! k = Some r ∧ row_sort_order r = o.
Proof.
  unfold raw_keys. rewrite list_elem_of_fmap. split.
  - intros ([k' r] & [= -> ->] & Hk%elem_of_map_to_list). eauto.
  - intros (r & Hk & <-). exists (k, r). by rewrite elem_of_map_to_list.
Qed.

Lemma keys_unique m l : StronglySorted key_le l → l ≡ₚ raw_keys m → provider_keys m = l.
Proof.
  intros Hl Hp. apply (StronglySorted_unique key_le); [apply provider_keys_sorted|done|].
  by rewrite provider_keys_perm.
Qed.

(** A row that keeps its place leaves the order as it was. *)
Lemma provider_keys_update m k r r' :
  m !! k = Some r → row_sort_order r' = row_sort_order r → provider_keys (<[k := r']> m) = provider_keys m.
Proof.
  intros Hk Ho. apply keys_unique; [apply provider_keys_sorted|]. rewrite provider_keys_perm. unfold raw_keys.
  rewrite -(insert_delete_id m k r Hk) insert_insert_eq.
  rewrite !map_to_list_insert ?lookup_delete_eq //. simpl. by rewrite Ho.
Qed.

Lemma max_order_ge m k r : m !! k = Some r → (row_sort_order r <= max_order m)%Z.
Proof.
  intros Hk%elem_of_map_to_list. unfold max_order.
  assert (row_sort_order r ∈ row_sort_order ∘ snd <$> map_to_list m) as Hin
    by (apply list_elem_of_fmap; exists (k, r); done).
  destruct (row_sort_order ∘ snd <$> map_to_list m) as [|o l]; [by apply elem_of_nil in Hin|].
  apply elem_of_cons in Hin as [->|Hin].
  - clear. induction l as [|x l IH]; simpl; lia.
  - induction l as [|x l IH]; [by apply elem_of_nil in Hin|]. apply elem_of_cons in Hin as [->|Hin]; simpl; [lia|].
    specialize (IH Hin). lia.
Qed.

Lemma sorted_snoc (l : list (Z * string)) x :
  StronglySorted key_le l → (∀ y, y ∈ l → key_le y x) → StronglySorted key_le (l ++ [x]).
Proof.
  induction 1 as [|y l Hl IH Hy]; intros Hx; simpl; [repeat constructor|]. constructor.
  - apply IH. intros z Hz. apply Hx. by right.
  - apply Forall_app. split; [done|]. apply Forall_singleton, Hx. by left.
Qed.

(** A new row goes last. *)
Lemma provider_keys_new m k r :
  m !! k = None → (max_order m < row_sort_order r)%Z →
  provider_keys (<[k := r]> m) = provider_keys m ++ [(row_sort_order r, k)].
Proof.
  intros Hk Ho. apply keys_unique.
  - apply sorted_snoc; [apply provider_keys_sorted|]. intros [o k'] Hin. left. simpl.
    rewrite provider_keys_perm raw_keys_elem in Hin. destruct Hin as (r' & Hr & <-). apply max_order_ge in Hr. lia.
  - rewrite provider_keys_perm. unfold raw_keys. rewrite map_to_list_insert //. simpl. by rewrite Permutation_app_comm.
Qed.

Lemma provider_keys_nodup m : NoDup (snd <$> provider_keys m).
Proof.
  rewrite provider_keys_perm. unfold raw_keys. rewrite -list_fmap_compose.
  erewrite list_fmap_ext; [apply (NoDup_fst_map_to_list m)|done].
Qed.

Lemma provider_keys_elem m k : k ∈ snd <$> provider_keys m ↔ is_Some (m !! k).
Proof.
  rewrite provider_keys_perm list_elem_of_fmap. split.
  - intros ([o k'] & -> & (r & Hr & _)%raw_keys_elem). eauto.
  - intros [r Hr]. exists (row_sort_order r, k). rewrite raw_keys_elem. eauto.
Qed.

(** The listing along [keys], for any keys of the table. *)
Lemma entries_ids m (keys : list (Z * string)) :
  (∀ k, k ∈ snd <$> keys → is_Some (m !! k)) → PE_ID <$> omap (provider_entry m) keys = snd <$> keys.
Proof.
  induction keys as [|[o k] keys IH]; intros Hk; csimpl; [done|].
  destruct (Hk k) as [r Hr]; [by left|]. unfold provider_entry at 1. simpl. rewrite Hr. csimpl. rewrite IH //.
  intros k' Hk'. apply Hk. by right.
Qed.

Lemma provider_ids m : PE_ID <$> provider_list m = snd <$> provider_keys m.
Proof. apply entries_ids. intros k. by rewrite provider_keys_elem. Qed.

Lemma entry_other m k r o k' : k' ≠ k → provider_entry (<[k := r]> m) (o, k') = provider_entry m (o, k').
Proof. intros Hne. unfold provider_entry. simpl. by rewrite lookup_insert_ne. Qed.

Lemma entry_row m o k r :
  m !! k = Some r → provider_entry m (o, k) = Some (mkProviderEntry k (row_name r) (row_capabilities r)).
Proof. intros Hr. unfold provider_entry. simpl. by rewrite Hr. Qed.

Lemma entries_other m (keys : list (Z * string)) k r :
  k ∉ snd <$> keys → omap (provider_entry (<[k := r]> m)) keys = omap (provider_entry m) keys.
Proof.
  induction keys as [|[o k'] keys IH]; intros Hk; csimpl in *; [done|]. rewrite IH; [set_solver|].
  unfold provider_entry. simpl. rewrite lookup_insert_ne //. set_solver.
Qed.

Lemma entries_replace m (keys : list (Z * string)) p r :
  NoDup (snd <$> keys) → (∀ k, k ∈ snd <$> keys → is_Some (m !! k)) → PE_ID p ∈ snd <$> keys →
  PE_Name p = row_name r → PE_Capabilities p = row_capabilities r →
  Mem.replace_provider p (omap (provider_entry m) keys)
  = Some (omap (provider_entry (<[PE_ID p := r]> m)) keys).
Proof.
  intros Hnd Hk Hp Hn Hc. induction keys as [|[o k] keys IH]; csimpl in *; [by apply elem_of_nil in Hp|].
  apply NoDup_cons in Hnd as [Hni Hnd]. destruct (Hk k) as [r0 Hr0]; [by left|].
  rewrite (entry_row m o k r0 Hr0). simpl.
  destruct (decide (k = PE_ID p)) as [->|Hne].
  - rewrite bool_decide_true // entries_other // (entry_row _ _ _ r) ?lookup_insert_eq // -Hn -Hc. by destruct p.
  - rewrite bool_decide_false // entry_other // (entry_row m o k r0 Hr0) IH //.
    + intros k' Hk'. apply Hk. by right.
    + by apply elem_of_cons in Hp as [?|?].
Qed.

Lemma entries_caps m (keys : list (Z * string)) id r caps :
  NoDup (snd <$> keys) → (∀ k, k ∈ snd <$> keys → is_Some (m !! k)) → m !! id = Some r →
  Mem.update_caps id caps (omap (provider_entry m) keys)
  = omap (provider_entry (<[id := mkProviderRow (row_name r) caps (row_sort_order r)]> m)) keys.
Proof.
  intros Hnd Hk Hr. induction keys as [|[o k] keys IH]; csimpl in *; [done|].
  apply NoDup_cons in Hnd as [Hni Hnd]. destruct (Hk k) as [r0 Hr0]; [by left|].
  rewrite (entry_row m o k r0 Hr0). simpl.
  destruct (decide (k = id)) as [->|Hne].
  - rewrite bool_decide_true // entries_other //. erewrite entry_row; [|by rewrite lookup_insert_eq]. simpl. congruence.
  - rewrite bool_decide_false // entry_other // (entry_row m o k r0 Hr0) IH //.
    intros k' Hk'. apply Hk. by right.
Qed.

Lemma replace_absent p (l : list ProviderEntry) : PE_ID p ∉ PE_ID <$> l → Mem.replace_provider p l = None.
Proof.
  induction l as [|e l IH]; csimpl; [done|]. intros Hp. rewrite bool_decide_false; [set_solver|].
  rewrite IH //. set_solver.
Qed.

(** The listing of a registration and of a snapshot. *)
Lemma register_list d p :
  json_ok (PE_Capabilities p) = true →
  provider_list (db_providers (RegisterProvider p d).1)
  = default (provider_list (db_providers d) ++ [p]) (Mem.replace_provider p (provider_list (db_providers d))).
Proof.
  intros Hok. unfold RegisterProvider, Marshal. rewrite Hok. set (m := db_providers d). simpl.
  assert (Hk : ∀ k, k ∈ snd <$> provider_keys m → is_Some (m !! k)) by (intros k; by rewrite provider_keys_elem).
  destruct (m !! PE_ID p) as [old|] eqn:Ep; unfold provider_list.
  - rewrite (provider_keys_update m (PE_ID p) old) //.
    rewrite (entries_replace m _ p (mkProviderRow (PE_Name p) (PE_Capabilities p) (row_sort_order old))) //.
    + apply provider_keys_nodup.
    + rewrite provider_keys_elem Ep. eauto.
  - rewrite (provider_keys_new m) //; [simpl; lia|]. simpl. rewrite omap_app entries_other.
    { rewrite provider_keys_elem Ep. by intros []. }
    assert (Mem.replace_provider p (omap (provider_entry m) (provider_keys m)) = None) as ->.
    { apply replace_absent. rewrite entries_ids // provider_keys_elem Ep. by intros []. }
    simpl. f_equal. unfold provider_entry. simpl. rewrite lookup_insert_eq /=. by destruct p.
Qed.

Lemma snapshot_list d id caps :
  json_ok caps = true → is_Some (db_providers d !! id) →
  provider_list (db_providers (SnapshotCapabilities id caps d).1)
  = Mem.update_caps id caps (provider_list (db_providers d)).
Proof.
  intros Hok [r Hr]. unfold SnapshotCapabilities, Marshal. rewrite Hok Hr. simpl. unfold provider_list.
  rewrite (provider_keys_update (db_providers d) id r) // (entries_caps (db_providers d) _ id r) //.
  - apply provider_keys_nodup.
  - intros k. by rewrite provider_keys_elem.
Qed.
End providers.

(** ** The SQL store is lawful *)
Section sql_laws.
#[local] Arguments json_ok : simpl never.
Context `{GoMaps}.
Implicit Types d : SqlDB.

Lemma sql_view_wf d : sql_wf d → view_wf (sql_view d).
Proof.
  intros [Hs Hr Hd _]. constructor; simpl; [done| |done|].
  - intros k r (row & <- & Hk)%lookup_fmap_Some. by destruct (Hr _ _ Hk) as (? & ? & _).
  - rewrite provider_ids. apply provider_keys_nodup.
Qed.

Lemma wf_put d k x : sql_wf d → Sub_ID x = k → stable x → sql_wf (set_db_submissions (<[k := x]> (db_submissions d)) d).
Proof. intros [] <- ?. constructor; try done. by apply map_Forall_insert_2. Qed.

Lemma wf_remove d k : sql_wf d → sql_wf (set_db_submissions (delete k (db_submissions d)) d).
Proof. intros []. constructor; try done. by apply map_Forall_delete. Qed.

Lemma wf_idem d m : sql_wf d → sql_wf (set_db_idempotency m d).
Proof. by intros []. Qed.

Lemma wf_providers d m : sql_wf d → sql_wf (set_db_providers m d).
Proof. by intros []. Qed.

Lemma wf_deljob d k m : sql_wf d → m = db_jobs d → sql_wf (set_db_jobs (delete k m) d).
Proof. intros [] ->. constructor; try done. by apply map_Forall_delete. Qed.

Lemma sql_idempotent d key h x :
  sql_wf d → let r := Sql.PutSubmissionIdempotent key h (Some x) d in
  sql_wf r.1 ∧ idem_spec key h x (sql_view d) r.2 (sql_view r.1).
Proof.
  intros Hwf. cbv zeta. unfold Sql.PutSubmissionIdempotent, Sql.PutSubmissionIdempotent_racing, idem_spec, v_bound. simpl.
  destruct (if bool_decide (key = "") then None else db_idempotency d !! key) as [[i h0]|] eqn:Ek.
  - split; [done|]. intros ex Hex. split; [done|]. unfold Sql.replay, Sql.hash_conflict. simpl. rewrite Hex.
    destruct (decide _) as [(? & ? & ?)|Hd]; [by rewrite !bool_decide_true|].
    destruct (bool_decide_reflect (h0 ≠ "")), (bool_decide_reflect (h ≠ "")), (bool_decide_reflect (h0 ≠ h)); try done.
    exfalso. by apply Hd.
  - rewrite Marshal_ok. destruct (json_ok x) eqn:Hok; [|split; [done|congruence]].
    assert (Hw : sql_wf (set_db_submissions (<[Sub_ID x := CloneJSON x]> (db_submissions d)) d))
      by (apply wf_put; [done|by apply Sub_ID_clone|apply clone_stable]).
    unfold v_bind, v_put_submission. rewrite Sub_ID_clone //. simpl. destruct (bool_decide (key = "")) eqn:Hk; [done|].
    rewrite Ek. split; [by apply wf_idem|done].
Qed.

Lemma sql_abandon d id key :
  sql_wf d → let r := Sql.AbandonSubmission id key d in
  sql_wf r.1 ∧ abandon_spec id key (sql_view d) r.2 (sql_view r.1).
Proof.
  intros Hwf. cbv zeta. unfold abandon_spec, Sql.AbandonSubmission, v_status, v_abandon, v_bound. simpl.
  destruct (db_submissions d !! id) as [sub|] eqn:Es; simpl; [|done].
  destruct (decide (Sub_Status sub = SubmissionAccepted)) as [Ha|Ha].
  2: { rewrite decide_False; [naive_solver|]. by rewrite bool_decide_true. }
  rewrite decide_True; [by rewrite Ha|]. rewrite bool_decide_false; [by intros []|].
  destruct (bool_decide (key = "")) eqn:Hk; simpl.
  - split; [by apply wf_deljob; [apply wf_remove|]|]. split; [done|]. apply view_ext; try done. apply dom_delete_L.
  - destruct (db_idempotency d !! key) as [[i h]|] eqn:Ek; simpl.
    + destruct (decide (i = id)) as [->|Hi].
      * rewrite !bool_decide_true //. split; [by apply wf_deljob; [apply wf_idem, wf_remove|]|].
        split; [done|]. apply view_ext; try done. apply dom_delete_L.
      * rewrite !bool_decide_false //; [congruence|]. split; [by apply wf_deljob; [apply wf_remove|]|].
        split; [done|]. apply view_ext; try done. apply dom_delete_L.
    + split; [by apply wf_deljob; [apply wf_remove|]|]. split; [done|]. apply view_ext; try done. apply dom_delete_L.
Qed.

Lemma sql_claim d id :
  sql_wf d → let r := Sql.ClaimResume id d in
  sql_wf r.1 ∧ claim_spec id (sql_view d) r.2 (sql_view r.1).
Proof.
  intros Hwf. cbv zeta. unfold claim_spec, Sql.ClaimResume. simpl.
  destruct (db_submissions d !! id) as [sub|] eqn:Es; [|done].
  destruct (sw_submissions _ Hwf _ _ Es) as [Hid Hst]. case_decide as Hd; [|by rewrite bool_decide_true].
  rewrite bool_decide_false; [by intros []|]. apply (stable_set_status SubmissionRunning) in Hst as Hst'.
  rewrite Marshal_ok (proj1 Hst') stable_clone //. simpl. split; [by apply wf_put|].
  split; [done|]. unfold v_put_submission. simpl. by rewrite Hid.
Qed.

Lemma sql_release d id :
  sql_wf d → let r := Sql.ReleaseResume id d in
  sql_wf r.1 ∧ r.2 = Ok tt ∧ sql_view r.1 = v_release id (sql_view d).
Proof.
  intros Hwf. cbv zeta. unfold v_release, Sql.ReleaseResume. simpl.
  destruct (db_submissions d !! id) as [sub|] eqn:Es; [|done].
  destruct (sw_submissions _ Hwf _ _ Es) as [Hid Hst]. case_decide as Hd; [|by rewrite bool_decide_true].
  rewrite bool_decide_false; [by intros []|]. apply stable_set_release in Hst as Hst'.
  rewrite Marshal_ok (proj1 Hst') stable_clone //. simpl. split; [by apply wf_put|].
  split; [done|]. unfold v_put_submission, deferred_again. simpl. by rewrite Hid.
Qed.

Lemma sql_remember d key id :
  sql_wf d → let r := Sql.RememberIdempotencyKey key id d in
  sql_wf r.1 ∧ r.2 = Ok tt ∧ sql_view r.1 = v_remember key id (sql_view d).
Proof.
  intros Hwf. cbv zeta. unfold v_remember, Sql.RememberIdempotencyKey, v_bind. simpl.
  destruct (decide (key = "")) as [->|Hk]; [by destruct (decide _) as [|[]]; [|left]|].
  rewrite (bool_decide_false (key = "")) //.
  destruct (db_idempotency d !! key) as [b|] eqn:Ek; simpl.
  - by destruct (decide _) as [|[]]; [|right; eauto].
  - destruct (decide _) as [[?|[? ?]]|_]; [done..|]. split; [by apply wf_idem|done].
Qed.

(** A put of one of the tables of bodies. *)
Lemma sql_put_spec `{JsonLaws A} (x : A) d (put : A → StoreView → StoreView) (f : A → SqlDB → SqlDB) (m : SqlM ()) :
  sql_wf d → m d = match Sql.Marshal x with Err e => (d, Err e) | Ok body => (f body d, Ok tt) end →
  (json_ok x = true → sql_wf (f (CloneJSON x) d) ∧ sql_view (f (CloneJSON x) d) = put (CloneJSON x) (sql_view d)) →
  sql_wf (m d).1 ∧ put_spec put x (sql_view d) (m d).2 (sql_view (m d).1).
Proof.
  intros Hwf -> Hf. rewrite Marshal_ok. destruct (json_ok x) eqn:E; simpl.
  - destruct (Hf eq_refl) as [? ->]. split; [done|]. by left.
  - split; [done|]. by right.
Qed.

Lemma job_expire nowStr k j :
  k ≠ "" ∧ (row_status j = jobPending ∧ row_lease_owner j = None
    ∨ row_status j = jobLeased ∧ is_Some (row_lease_owner j) ∧ is_Some (row_lease_until j)) →
  let j := Sql.expire_row nowStr j in
  k ≠ "" ∧ (row_status j = jobPending ∧ row_lease_owner j = None
    ∨ row_status j = jobLeased ∧ is_Some (row_lease_owner j) ∧ is_Some (row_lease_until j)).
Proof. intros [Hk Hj]. unfold Sql.expire_row. cbv zeta. destruct (_ && _); simpl; auto. Qed.

Lemma older_row_in l b :
  match fold_left Sql.older_row l b with
  | None => b = None
  | Some kj => b = Some kj ∨ kj ∈ l
  end.
Proof.
  revert b. induction l as [|x l IH]; intros b; simpl; [destruct b; auto|]. specialize (IH (Sql.older_row b x)).
  destruct (fold_left _ _ _) as [kj|].
  - destruct IH as [Ho|Hin]; [|by right; right]. unfold Sql.older_row in Ho.
    case_bool_decide; [by left|]. destruct b as [b|]; [destruct (String.ltb _ _)|]; simplify_eq; auto; right; by left.
  - unfold Sql.older_row in IH. case_bool_decide; [done|]. by destruct b as [b|]; [destruct (String.ltb _ _)|].
Qed.

Lemma sql_claimjob d now owner lease :
  sql_wf d → let r := Sql.ClaimJob now owner lease d in
  sql_wf r.1 ∧ sql_view r.1 = sql_view d ∧ ∀ id n, r.2 = Ok (Some (id, n)) → id ∈ dom (db_jobs d).
Proof.
  intros Hwf. cbv zeta. unfold Sql.ClaimJob. case_bool_decide; [done|]. set (f := Sql.expire_row (RFC3339Nano now)).
  pose proof (sw_jobs _ Hwf) as Hj.
  assert (Hj' : map_Forall (λ k j, k ≠ "" ∧ (row_status j = jobPending ∧ row_lease_owner j = None
            ∨ row_status j = jobLeased ∧ is_Some (row_lease_owner j) ∧ is_Some (row_lease_until j))) (f <$> db_jobs d)).
  { intros k j (j0 & <- & Hk)%lookup_fmap_Some. apply job_expire. by apply (Hj k). }
  pose proof (older_row_in (map_iter (f <$> db_jobs d)) None) as Ho.
  destruct (fold_left _ _ None) as [[k j]|]; simpl in *.
  - destruct Ho as [|Hin]; [done|]. rewrite map_iter_perm in Hin. apply elem_of_map_to_list in Hin.
    assert (k ∈ dom (db_jobs d)) as Hk by (rewrite -(dom_fmap_L f); by eapply elem_of_dom_2).
    split_and!.
    + destruct Hwf. constructor; try done. simpl. apply map_Forall_insert_2; [|done].
      split; [by apply (Hj' _ _ Hin)|]. right. simpl. eauto.
    + apply view_ext; try done. simpl. rewrite dom_insert_L dom_fmap_L. set_solver.
    + by intros id n [= <- _].
  - split_and!; [by destruct Hwf| |done]. apply view_ext; try done. simpl. by rewrite dom_fmap_L.
Qed.

Lemma sql_results d subID :
  sql_wf d → ∃ l, Sql.GetResultsForSubmission subID d = (d, Ok l) ∧ l ≡ₚ v_results_of subID (sql_view d).
Proof.
  intros Hwf. eexists; split; [done|]. unfold v_results_of. simpl.
  rewrite map_to_list_fmap -list_fmap_compose filter_map_comm.
  etrans; [|apply Permutation_map, filter_perm, map_iter_perm]. match goal with |- map _ ?a ≡ₚ map _ ?b => cut (a = b); [by intros ->|] end.
  assert (Hin : ∀ kr, kr ∈ map_iter (db_results d) → row_submission_id kr.2 = Res_SubmissionID (row_body kr.2)).
  { intros [k r]. rewrite map_iter_perm elem_of_map_to_list. intros Hk. by apply (sw_results _ Hwf _ _ Hk). }
  induction (map_iter (db_results d)) as [|kr l IH]; simpl; [done|]. rewrite (Hin kr); [by left|].
  rewrite IH //. intros kr' ?. apply Hin. by right.
Qed.

Lemma sql_pending d : sql_wf d → Sql.PendingJobCount d = (d, Ok (Z.of_nat (size (dom (db_jobs d))))).
Proof.
  intros Hwf. unfold Sql.PendingJobCount. do 3 f_equal. rewrite size_dom -length_map_to_list.
  f_equal. apply List.forallb_filter_id, forallb_true. intros [k j] Hk. apply elem_of_map_to_list in Hk. simpl.
  destruct (sw_jobs _ Hwf _ _ Hk) as (_ & [(-> & _)|(-> & _)]); done.
Qed.
End sql_laws.

#[export] Instance Sql_StoreLaws `{GoMaps} : StoreLaws SqlDB.
Proof.
  refine {| view := sql_view; valid := sql_wf |}; cbv zeta.
  - apply sql_view_wf.
  - intros d [x|] Hwf; [|done]. apply (sql_put_spec x d _ (λ b d, set_db_submissions (<[Sub_ID x := b]> (db_submissions d)) d)); [done..|].
    intros Hok. split; [apply wf_put; [done|by apply Sub_ID_clone|apply clone_stable]|].
    unfold v_put_submission. by rewrite Sub_ID_clone.
  - intros d [x|] Hwf; [|done].
    apply (sql_put_spec x d _ (λ b d, set_db_results (<[Res_ID x := mkResultRow (Res_SubmissionID x) b]> (db_results d)) d)); [done..|].
    intros Hok. rewrite stable_clone //. split; [destruct Hwf; constructor; try done; by apply map_Forall_insert_2|].
    apply view_ext; try done. simpl. by rewrite fmap_insert.
  - intros d [x|] Hwf; [|done].
    apply (sql_put_spec x d _ (λ b d, set_db_merged_results (<[MR_SubmissionID x := b]> (db_merged_results d)) d)); [done..|].
    intros Hok. rewrite stable_clone //. by destruct Hwf.
  - intros d [x|] Hwf; [|done]. apply (sql_put_spec x d _ (λ b d, set_db_decisions (<[Dec_ID x := b]> (db_decisions d)) d)); [done..|].
    intros Hok. rewrite stable_clone //. split; [|done]. destruct Hwf; constructor; try done. by apply map_Forall_insert_2.
  - intros d e Hwf. apply (sql_put_spec e d _ (λ b d, set_db_events (db_events d ++ [b]) d)); [done..|].
    intros Hok. by destruct Hwf.
  - intros d dg c []. by split.
  - intros d key h [x|] Hwf; [by apply sql_idempotent|done].
  - intros. by apply sql_remember.
  - intros. by apply sql_abandon.
  - intros. by apply sql_claim.
  - intros. by apply sql_release.
  - intros d p Hwf Hok. pose proof (register_list d p Hok) as Hl. revert Hl. simpl. unfold Sql.RegisterProvider, Sql.Marshal.
    rewrite Hok. simpl. intros Hl. split; [by apply wf_providers|]. split; [done|]. unfold v_register. by apply view_ext.
  - intros d id caps Hwf Hr Hok.
    assert (Hs : is_Some (db_providers d !! id)).
    { unfold registered in Hr. simpl in Hr. by rewrite provider_ids provider_keys_elem in Hr. }
    pose proof (snapshot_list d id caps Hok Hs) as Hl. revert Hl. destruct Hs as [r Hs]. simpl.
    unfold Sql.SnapshotCapabilities, Sql.Marshal. rewrite Hok Hs. simpl. intros Hl.
    split; [by apply wf_providers|]. split; [done|]. by apply view_ext.
  - intros d now id Hwf. simpl. unfold Sql.EnqueueJob. destruct (decide (id = "")) as [->|Hid]; [done|].
    rewrite (bool_decide_false (id = "")) // (bool_decide_true (id ≠ "")) //.
    destruct (db_jobs d !! id) as [j|] eqn:Ej.
    + split_and!; [done..|]. apply view_ext; try done. simpl. apply elem_of_dom_2 in Ej. set_solver.
    + split_and!; [|done|apply view_ext; try done; simpl; by rewrite dom_insert_L].
      destruct Hwf; constructor; try done. apply map_Forall_insert_2; auto.
  - intros d id Hwf. split; [by apply wf_deljob|]. split; [done|]. apply view_ext; try done. apply dom_delete_L.
  - intros. by apply sql_claimjob.
  - intros d now id owner lease Hwf. simpl. unfold Sql.HeartbeatJob. destruct (db_jobs d !! id) as [j|] eqn:Ej; [|done].
    destruct (bool_decide_reflect (row_status j = jobLeased)) as [Hs|]; [|done].
    destruct (bool_decide_reflect (row_lease_owner j = Some owner)) as [Ho|]; [|done]. simpl. split_and!; [|apply view_ext; try done|done].
    + destruct (sw_jobs _ Hwf _ _ Ej) as [Hid _]. destruct Hwf; constructor; try done. apply map_Forall_insert_2; [|done]. simpl.
      split; [done|]. right. rewrite Hs Ho. eauto.
    + simpl. apply elem_of_dom_2 in Ej. rewrite dom_insert_L. set_solver.
  - intros d id owner Hwf. simpl. unfold Sql.CompleteJob.
    assert (sql_wf (set_db_jobs (delete id (db_jobs d)) d)
      ∧ sql_view (set_db_jobs (delete id (db_jobs d)) d) = set_v_jobs (v_jobs (sql_view d) ∖ {[id]}) (sql_view d)) as [? ?].
    { split; [by apply wf_deljob|]. apply view_ext; try done. apply dom_delete_L. }
    repeat case_match; auto.
  - done.
  - intros d key Hwf. simpl. unfold Sql.GetSubmissionByIdempotencyKey, v_bound. case_bool_decide; [done|]. simpl.
    by destruct (db_idempotency d !! key) as [[i h]|].
  - intros d id Hwf. simpl. unfold Sql.GetResult. by rewrite lookup_fmap.
  - done.
  - done.
  - done.
  - done.
  - intros d dg Hwf. simpl. unfold Sql.HasArtifact. destruct (db_artifacts d !! dg) eqn:E; [by rewrite bool_decide_true; eauto|].
    rewrite bool_decide_false //.
  - done.
  - intros d p Hwf Hp. simpl in *. unfold Sql.GetCapabilities, Sql.provider_list in *. apply list_elem_of_omap in Hp as ([o k] & _ & Hp).
    unfold Sql.provider_entry in Hp. simpl in Hp. apply fmap_Some in Hp as (r & Hr & ->). simpl. by rewrite Hr.
  - intros. by apply sql_pending.
  - intros. by apply sql_results.
Defined.

Lemma fresh_db_wf : sql_wf fresh_db.
Proof. constructor; apply map_Forall_empty. Qed.

(** ** One behaviour for both stores *)
Section agreement.
Context `{GoMaps}.

(** [C4] The SQL store and the memory store are interchangeable: on every history of
calls the interface determines (values JSON can carry, keys bound to submissions
that exist, snapshots of registered providers), both, started empty, keep their
invariants and reach the state the abstract store machine reaches, leases aside;
so every submission, key, result, merged result, decision, event, artifact and
provider reads the same from either. *)
Theorem stores_agree ops :
  allowed_run ops empty_view →
  let m := exec_all ops NewMemoryStore in
  let d := exec_all ops fresh_db in
  store_wf m ∧ sql_wf d
  ∧ without_jobs (mem_view m) = without_jobs (spec_run ops empty_view)
  ∧ without_jobs (sql_view d) = without_jobs (spec_run ops empty_view)
  ∧ (∀ id, (GetSubmission id m).2 = (GetSubmission id d).2)
  ∧ (∀ key, (GetSubmissionByIdempotencyKey key m).2 = (GetSubmissionByIdempotencyKey key d).2)
  ∧ (∀ id, (GetResult id m).2 = (GetResult id d).2)
  ∧ (∀ id, (GetMergedResultForSubmission id m).2 = (GetMergedResultForSubmission id d).2)
  ∧ (∀ id, (GetDecision id m).2 = (GetDecision id d).2)
  ∧ (∀ dg, (GetArtifact dg m).2 = (GetArtifact dg d).2)
  ∧ (Events m).2 = (Events d).2 ∧ (Providers m).2 = (Providers d).2.
Proof.
  intros Ha m d.
  destruct (run_refines ops NewMemoryStore empty_view) as [Hm Em]; [exact NewMemoryStore_wf|done|done|].
  destruct (run_refines ops fresh_db empty_view) as [Hd Ed]; [exact fresh_db_wf| |done|].
  { by apply view_ext. }
  split; [exact Hm|]. split; [exact Hd|]. split; [exact Em|]. split; [exact Ed|].
  apply (answers_agree m d Hm Hd). by etrans.
Qed.

(** [C5] Of two concurrent creates under one key exactly one submission is stored.  The
transaction that loses the race to insert the key leaves no trace: it answers
with the winner's submission, or with the conflict when the requests differ. *)
Theorem racing_create_once key h h' sub sub' d :
  key ≠ "" → db_idempotency d !! key = None → json_ok sub = true → json_ok sub' = true →
  Sub_ID sub ≠ Sub_ID sub' → db_submissions d !! Sub_ID sub = None →
  let winner := Sql.PutSubmissionIdempotent key h' (Some sub') in
  let r := Sql.PutSubmissionIdempotent_racing (λ d, (winner d).1) key h (Some sub) d in
  (winner d).2 = Ok (Some (CloneJSON sub'), true) ∧ r.1 = (winner d).1
  ∧ r.2 = if Sql.hash_conflict h' h then Err ErrIdempotencyConflict else Ok (Some (CloneJSON sub'), false).
Proof.
  intros Hk Hn Hok Hok' Hne Hfresh. cbv zeta.
  unfold Sql.PutSubmissionIdempotent, Sql.PutSubmissionIdempotent_racing. rewrite !Marshal_ok Hok Hok' (bool_decide_false (key = "")) //.
  rewrite Hn. simpl. split; [done|]. rewrite !lookup_insert_eq.
  destruct (Sql.hash_conflict h' h); [done|]. rewrite lookup_delete_ne // lookup_insert_ne // lookup_insert_eq. simpl. split; [|done].
  rewrite delete_insert_id //. by rewrite lookup_insert_ne.
Qed.
End agreement.

Section runs.
#[local] Existing Instance sorted_maps.
#[local] Existing Instance ascii_unicode.

Definition sample_history : list StoreOp :=
  [OpPutSubmissionIdempotent "k" "h" (Some (sample_submission "a" SubmissionAccepted));
   OpRegisterProvider (mkProviderEntry "osv" "OSV" zero_ProviderCapabilities);
   OpRegisterProvider (mkProviderEntry "alpha" "Alpha" zero_ProviderCapabilities);
   OpRegisterProvider (mkProviderEntry "osv" "OSV 2" zero_ProviderCapabilities);
   OpPutArtifact "sha256:0" "content"; OpAbandonSubmission "a" "k"].

Lemma stores_agree_witness :
  (GetSubmissionByIdempotencyKey "k" (exec_all sample_history NewMemoryStore)).2
  = (GetSubmissionByIdempotencyKey "k" (exec_all sample_history fresh_db)).2
  ∧ PE_Name <$> Sql.provider_list (db_providers (exec_all sample_history fresh_db)) = ["OSV 2"; "Alpha"].
Proof.
  split; [|vm_compute; reflexivity]. destruct (stores_agree sample_history) as (_ & _ & _ & _ & _ & Hk & _); [|apply Hk].
  split.
  { split; [intros a [= <-]; vm_compute; reflexivity|intros id h; vm_compute; discriminate]. }
  split_and!; vm_compute; done.
Defined.

Lemma racing_create_once_witness :
  let winner := Sql.PutSubmissionIdempotent "k" "h" (Some (sample_submission "b" SubmissionAccepted)) in
  let r := Sql.PutSubmissionIdempotent_racing (λ d, (winner d).1) "k" "h" (Some (sample_submission "a" SubmissionAccepted)) fresh_db in
  r.2 = Ok (Some (CloneJSON (sample_submission "b" SubmissionAccepted)), false).
Proof.
  intros winner r. destruct (racing_create_once "k" "h" "h" (sample_submission "a" SubmissionAccepted)
    (sample_submission "b" SubmissionAccepted) fresh_db) as (_ & _ & Hr); [vm_compute; congruence..|]. exact Hr.
Defined.

(** The leases of the SQL store are compared as RFC 3339 text, whose order is not
that of time within a second: a worker that claims a job for a second and a half
loses it to another claim half a second early, which the memory store refuses. *)
Theorem sql_lease_lost_early :
  let ops := [OpEnqueueJob 0 "a"; OpClaimJob 0 "w1" (3 * Second / 2)] in
  let claim {ST} `{Store ST} (s : ST) := (ClaimJob Second "w2" Minute s).2 in
  claim (exec_all ops NewMemoryStore) = Ok None
  ∧ claim (exec_all ops fresh_db) = Ok (Some ("a", 2%Z))
  ∧ String.ltb (RFC3339Nano (3 * Second / 2)) (RFC3339Nano Second) = true.
Proof. vm_compute. split_and!; reflexivity. Qed.

(** Configuration: empty and unknown drivers, the data directory. *)
Example Open_examples :
  Open (ConfigFromEnv (λ k, if bool_decide (k = "SCINTX_STORE") then " SQLite3 " else ""))
    = Ok (OpenSQLite "data/scintx.db")
  ∧ Open (ConfigFromEnv (λ _, "")) = Ok OpenMemory
  ∧ is_Ok (Open (mkConfig "pg" "" "")) = false ∧ is_Ok (Open (mkConfig "mysql" "" "")) = false
  ∧ dirOf "data/scintx.db" = "data" ∧ dirOf "scintx.db" = "." ∧ dirOf "/scintx.db" = ""
  ∧ q dialectPostgres "SELECT a FROM t WHERE x = ? AND y = ?" = "SELECT a FROM t WHERE x = $1 AND y = $2".
Proof. vm_compute. split_and!; reflexivity. Qed.
End runs.

(** The placeholders of a query are numbered from left to right: the texts between
them are kept, and the [i]-th question mark becomes [$i]. *)
Fixpoint numbered (n : Z) (segments : list string) : string :=
  match segments with
  | [] => ""
  | s :: rest => "$" +:+ fmt_d (n + 1) +:+ s +:+ numbered (n + 1) rest
  end.

Lemma rebind_numbered query n :
  rebind n query = match Split query "?"%char with s :: rest => s +:+ numbered n rest | [] => "" end.
Proof.
  revert n. induction query as [|c query IH]; intros n; [done|]. simpl rebind. simpl Split.
  destruct (decide ("?"%char = c)) as [<-|Hc].
  - rewrite bool_decide_true // IH. pose proof (Split_nonempty query "?"%char).
    destruct (Split query "?"%char) as [|s rest]; [done|]. done.
  - rewrite bool_decide_false; [congruence|]. rewrite IH. pose proof (Split_nonempty query "?"%char). by destruct (Split query "?"%char).
Qed.
