(* ===== verification/Schema.v ===== *)
(** * Opening the SQL store: [internal/store/sql.go] (schemas, [migrate]) and
[openSQLite], [openPostgres] of [open.go]

A database is what its schema is: the tables with their columns and the names of the
indexes.  A statement fails as the database documents: an index on a missing table or
column, a column that is there already.  Other faults of the database are not
modelled. *)
From S2P Require Import Prelude GoString GoTime Types Store Sql.

Record Column := mkColumn { Col_Name : string; Col_Decl : string }.

#[export] Instance Column_eq_dec : EqDecision Column.
Proof. solve_decision. Defined.

(** [CREATE TABLE IF NOT EXISTS] and [CREATE INDEX IF NOT EXISTS]. *)
Inductive Stmt :=
| CreateTable (table : string) (cols : list Column)
| CreateIndex (name table : string) (cols : list string).

Definition sqliteSchema : list Stmt := [
  CreateTable "submissions" [mkColumn "id" "TEXT PRIMARY KEY"; mkColumn "body" "TEXT NOT NULL"];
  CreateTable "idempotency" [mkColumn "key" "TEXT PRIMARY KEY"; mkColumn "submission_id" "TEXT NOT NULL";
    mkColumn "request_hash" "TEXT NOT NULL DEFAULT ''"];
  CreateTable "results" [mkColumn "id" "TEXT PRIMARY KEY"; mkColumn "submission_id" "TEXT NOT NULL"; mkColumn "body" "TEXT NOT NULL"];
  CreateIndex "idx_results_submission" "results" ["submission_id"];
  CreateTable "decisions" [mkColumn "id" "TEXT PRIMARY KEY"; mkColumn "body" "TEXT NOT NULL"];
  CreateTable "events" [mkColumn "id" "INTEGER PRIMARY KEY AUTOINCREMENT"; mkColumn "body" "TEXT NOT NULL"];
  CreateTable "artifacts" [mkColumn "digest" "TEXT PRIMARY KEY"; mkColumn "content" "BLOB NOT NULL"];
  CreateTable "providers" [mkColumn "id" "TEXT PRIMARY KEY"; mkColumn "name" "TEXT NOT NULL"; mkColumn "capabilities" "TEXT NOT NULL";
    mkColumn "sort_order" "INTEGER NOT NULL DEFAULT 0"];
  CreateTable "jobs" [mkColumn "submission_id" "TEXT PRIMARY KEY"; mkColumn "status" "TEXT NOT NULL"; mkColumn "created_at" "TEXT NOT NULL";
    mkColumn "lease_owner" "TEXT"; mkColumn "lease_until" "TEXT"; mkColumn "attempts" "INTEGER NOT NULL DEFAULT 0"];
  CreateIndex "idx_jobs_pending" "jobs" ["status"; "created_at"];
  CreateTable "merged_results" [mkColumn "submission_id" "TEXT PRIMARY KEY"; mkColumn "body" "TEXT NOT NULL"]].

Definition postgresSchema : list Stmt := [
  CreateTable "submissions" [mkColumn "id" "TEXT PRIMARY KEY"; mkColumn "body" "TEXT NOT NULL"];
  CreateTable "idempotency" [mkColumn "key" "TEXT PRIMARY KEY"; mkColumn "submission_id" "TEXT NOT NULL";
    mkColumn "request_hash" "TEXT NOT NULL DEFAULT ''"];
  CreateTable "results" [mkColumn "id" "TEXT PRIMARY KEY"; mkColumn "submission_id" "TEXT NOT NULL"; mkColumn "body" "TEXT NOT NULL"];
  CreateIndex "idx_results_submission" "results" ["submission_id"];
  CreateTable "decisions" [mkColumn "id" "TEXT PRIMARY KEY"; mkColumn "body" "TEXT NOT NULL"];
  CreateTable "events" [mkColumn "id" "BIGSERIAL PRIMARY KEY"; mkColumn "body" "TEXT NOT NULL"];
  CreateTable "artifacts" [mkColumn "digest" "TEXT PRIMARY KEY"; mkColumn "content" "BYTEA NOT NULL"];
  CreateTable "providers" [mkColumn "id" "TEXT PRIMARY KEY"; mkColumn "name" "TEXT NOT NULL"; mkColumn "capabilities" "TEXT NOT NULL";
    mkColumn "sort_order" "INTEGER NOT NULL DEFAULT 0"];
  CreateTable "jobs" [mkColumn "submission_id" "TEXT PRIMARY KEY"; mkColumn "status" "TEXT NOT NULL"; mkColumn "created_at" "TEXT NOT NULL";
    mkColumn "lease_owner" "TEXT"; mkColumn "lease_until" "TEXT"; mkColumn "attempts" "INTEGER NOT NULL DEFAULT 0"];
  CreateIndex "idx_jobs_pending" "jobs" ["status"; "created_at"];
  CreateTable "merged_results" [mkColumn "submission_id" "TEXT PRIMARY KEY"; mkColumn "body" "TEXT NOT NULL"]].

Definition schema_of (dl : dialect) : list Stmt :=
  match dl with dialectSQLite => sqliteSchema | dialectPostgres => postgresSchema end.

(** ** A database and its statements *)
Record Database := mkDatabase {
  dbs_tables : gmap string (list Column);
  dbs_indexes : gset string;
}.

Definition names (cols : list Column) : list string := Col_Name <$> cols.

Definition exec_stmt (st : Stmt) (db : Database) : res string Database :=
  match st with
  | CreateTable t cols =>
      match dbs_tables db !! t with
      | Some _ => Ok db
      | None => Ok (mkDatabase (<[t := cols]> (dbs_tables db)) (dbs_indexes db))
      end
  | CreateIndex n t cols =>
      if bool_decide (n ∈ dbs_indexes db) then Ok db
      else match dbs_tables db !! t with
           | None => Err ("no such table: " +:+ t)
           | Some tc =>
               if bool_decide (Forall (λ c, c ∈ names tc) cols)
               then Ok (mkDatabase (dbs_tables db) ({[n]} ∪ dbs_indexes db)) else Err "no such column"
           end
  end.

(** [ALTER TABLE t ADD COLUMN]. *)
Definition add_column (t : string) (c : Column) (db : Database) : res string Database :=
  match dbs_tables db !! t with
  | None => Err ("no such table: " +:+ t)
  | Some tc =>
      if bool_decide (Col_Name c ∈ names tc) then Err ("duplicate column name: " +:+ Col_Name c)
      else Ok (mkDatabase (<[t := tc ++ [c]]> (dbs_tables db)) (dbs_indexes db))
  end.

(** The loop of [migrate]; the statement itself, which ends the message, is left out. *)
Fixpoint exec_stmts (l : list Stmt) (db : Database) : res string Database :=
  match l with
  | [] => Ok db
  | st :: l => match exec_stmt st db with Err e => Err ("migrate: " +:+ e) | Ok db => exec_stmts l db end
  end.

Definition hash_column : Column := mkColumn "request_hash" "TEXT NOT NULL DEFAULT ''".

(** [migrate]: the error of the last statement is ignored. *)
Definition migrate (dl : dialect) (db : Database) : res string Database :=
  let? db := exec_stmts (schema_of dl) db in
  match add_column "idempotency" hash_column db with Ok db' => Ok db' | Err _ => Ok db end.

(** [openSQLite]: [mkdir] is [os.MkdirAll], [seq] the value of [memorySeq], [disk] the
database a name stands for. *)
Definition sqlite_dsn (seq : Z) (path : string) : string :=
  if bool_decide (path = ":memory:") then "file:scintx_mem_" +:+ fmt_d seq +:+ "?mode=memory&cache=shared" else path.

Definition openSQLite (mkdir : string → res string ()) (disk : string → Database) (seq : Z) (path : string)
  : Z * res string (string * Database) :=
  let made := if bool_decide (path = ":memory:") then Ok () else mkdir (dirOf path) in
  match made with
  | Err e => (seq, Err ("sqlite mkdir: " +:+ e))
  | Ok _ =>
      let seq' := if bool_decide (path = ":memory:") then (seq + 1)%Z else seq in
      let dsn := sqlite_dsn seq' path in
      (seq', let? db := migrate dialectSQLite (disk dsn) in Ok (dsn, db))
  end.

Definition openPostgres (disk : string → Database) (url : string) : res string (string * Database) :=
  let? db := migrate dialectPostgres (disk url) in Ok (url, db).

(** ** Migration *)

(** A table of the schema may lack only the column that was added later. *)
Definition lacks_only_hash (t : string) (cols have : list Column) : Prop :=
  ∀ c, c ∈ names cols → c ∈ names have ∨ t = "idempotency" ∧ c = "request_hash".

Definition compatible (l : list Stmt) (db : Database) : Prop :=
  ∀ t cols have, CreateTable t cols ∈ l → dbs_tables db !! t = Some have → lacks_only_hash t cols have.

(** Every index is on columns of a table created before it, and the later column is
indexed nowhere; every table is created once. *)
Fixpoint schema_ok (seen : list (string * list Column)) (l : list Stmt) : bool :=
  match l with
  | [] => true
  | CreateTable t cols :: l => bool_decide (t ∉ seen.*1) && schema_ok ((t, cols) :: seen) l
  | CreateIndex n t ics :: l =>
      existsb (λ d, bool_decide (d.1 = t) && bool_decide (Forall (λ c, c ∈ names d.2 ∧ c ≠ "request_hash") ics)) seen
      && schema_ok seen l
  end.

Definition covers (seen : list (string * list Column)) (db : Database) : Prop :=
  ∀ t cols, (t, cols) ∈ seen → ∃ have, dbs_tables db !! t = Some have ∧ lacks_only_hash t cols have.

Fixpoint tables_of (l : list Stmt) : list (string * list Column) :=
  match l with [] => [] | CreateTable t cols :: l => (t, cols) :: tables_of l | _ :: l => tables_of l end.

Fixpoint indexes_of (l : list Stmt) : list string :=
  match l with [] => [] | CreateIndex n _ _ :: l => n :: indexes_of l | _ :: l => indexes_of l end.

(** What was there stays. *)
Definition extends (db db' : Database) : Prop :=
  dbs_tables db ⊆ dbs_tables db' ∧ dbs_indexes db ⊆ dbs_indexes db'.

Lemma schema_ok_fresh l seen t cols : schema_ok seen l = true → CreateTable t cols ∈ l → t ∉ seen.*1.
Proof.
  revert seen. induction l as [|[t' cols'|n t' ics] l IH]; intros seen; simpl; [by intros _ ?%elem_of_nil|..];
    intros [Hh Ht]%andb_true_iff [He|Hin]%elem_of_cons; simplify_eq.
  - by apply bool_decide_eq_true in Hh.
  - specialize (IH _ Ht Hin). simpl in IH. set_solver.
  - by apply IH.
Qed.

Lemma exec_table t cols l seen db :
  schema_ok ((t, cols) :: seen) l = true → covers seen db → compatible (CreateTable t cols :: l) db →
  ∃ db1, exec_stmt (CreateTable t cols) db = Ok db1 ∧ extends db db1
    ∧ covers ((t, cols) :: seen) db1 ∧ compatible l db1.
Proof.
  intros Hok Hcov Hcomp. simpl. destruct (dbs_tables db !! t) as [have|] eqn:Ht.
  - exists db. split_and!; try done.
    + intros t' cols' [[= -> ->]|Hin]%elem_of_cons; [|by apply Hcov]. exists have. split; [done|]. eapply Hcomp; [by left|done].
    + intros t' cols' have' Hin. apply Hcomp. by right.
  - eexists. split; [done|]. split; [split; simpl; [by apply insert_subseteq|done]|]. split.
    + intros t' cols' [[= -> ->]|Hin]%elem_of_cons; simpl.
      * exists cols. rewrite lookup_insert_eq. split; [done|]. by left.
      * destruct (Hcov _ _ Hin) as (have & Hh & Hl). exists have. split; [|done]. rewrite lookup_insert_ne //. congruence.
    + intros t' cols' have' Hin. simpl. intros [[<- _]|[Hne Hl]]%lookup_insert_Some; [|by eapply Hcomp; [right|]].
      apply (schema_ok_fresh _ _ _ _ Hok) in Hin. simpl in Hin. set_solver.
Qed.

Lemma exec_index n t ics seen db :
  existsb (λ d, bool_decide (d.1 = t) && bool_decide (Forall (λ c, c ∈ names d.2 ∧ c ≠ "request_hash") ics)) seen = true →
  covers seen db →
  ∃ db1, exec_stmt (CreateIndex n t ics) db = Ok db1 ∧ dbs_tables db1 = dbs_tables db ∧ extends db db1 ∧ n ∈ dbs_indexes db1.
Proof.
  intros Hex Hcov. simpl. case_bool_decide as Hn; [by exists db|].
  apply existsb_exists in Hex as ([t' cols] & Hin%list_elem_of_In & [<-%bool_decide_eq_true Hf%bool_decide_eq_true]%andb_true_iff).
  simpl. destruct (Hcov _ _ Hin) as (have & -> & Hl). simpl in *. rewrite bool_decide_true.
  { eapply Forall_impl; [exact Hf|]. intros c [Hc Hne]. destruct (Hl c Hc) as [?|[_ ?]]; done. }
  eexists. split; [done|]. split_and!; simpl; [done|split; simpl; [done|set_solver]|set_solver].
Qed.

Lemma exec_stmts_ok l : ∀ seen db, schema_ok seen l = true → covers seen db → compatible l db →
  ∃ db', exec_stmts l db = Ok db' ∧ extends db db' ∧ covers seen db' ∧ covers (tables_of l) db'
    ∧ ∀ n, n ∈ indexes_of l → n ∈ dbs_indexes db'.
Proof.
  assert (Htrans : ∀ a b c, extends a b → extends b c → extends a c) by (intros a b c [] []; split; by etrans).
  induction l as [|[t cols|n t ics] l IH]; intros seen db Hok Hcov Hcomp; simpl in Hok.
  - exists db. split_and!; try done; [by intros ? ? ?%elem_of_nil|by intros n Hn%elem_of_nil].
  - apply andb_true_iff in Hok as [_ Hok]. destruct (exec_table t cols l seen db Hok Hcov Hcomp) as (db1 & He & Hx1 & Hc1 & Hp1).
    destruct (IH _ db1 Hok Hc1 Hp1) as (db' & He' & Hx & Hs & Ht & Hi). exists db'. cbn [exec_stmts tables_of indexes_of]. rewrite He.
    split_and!; [done|by eapply Htrans|by intros ? ? ?; apply Hs; right| |done].
    intros t' cols' [Heq|Hin]%elem_of_cons; [apply Hs; rewrite Heq; by left|by apply Ht].
  - apply andb_true_iff in Hok as [Hex Hok]. destruct (exec_index n t ics seen db Hex Hcov) as (db1 & He & Ht1 & Hx1 & Hn).
    destruct (IH seen db1 Hok) as (db' & He' & Hx & Hs & Ht & Hi).
    { intros t' c' Hin. rewrite Ht1. by apply Hcov. }
    { intros t' c' h' Hin. rewrite Ht1. apply Hcomp. by right. }
    exists db'. cbn [exec_stmts tables_of indexes_of]. rewrite He. split_and!; [done|by eapply Htrans|done|done|].
    intros m [->|Hm]%elem_of_cons; [by apply Hx|by apply Hi].
Qed.

(** On a database that has everything the statements do nothing. *)
Lemma exec_stmts_again l db :
  covers (tables_of l) db → (∀ n, n ∈ indexes_of l → n ∈ dbs_indexes db) → exec_stmts l db = Ok db.
Proof.
  induction l as [|[t cols|n t ics] l IH]; intros Hc Hi; simpl; [done|..].
  - destruct (Hc t cols) as (have & -> & _); [by left|]. apply IH; [|done]. intros t' c' Hin. apply Hc. by right.
  - rewrite bool_decide_true; [apply Hi; by left|]. apply IH; [done|]. intros m Hm. apply Hi. by right.
Qed.

Lemma schema_known dl : schema_ok [] (schema_of dl) = true ∧ ("idempotency", [mkColumn "key" "TEXT PRIMARY KEY";
  mkColumn "submission_id" "TEXT NOT NULL"; hash_column]) ∈ tables_of (schema_of dl).
Proof. destruct dl; (split; [vm_compute; reflexivity|apply (bool_decide_unpack _); vm_compute; exact I]). Qed.

(** Opening migrates: from a new database, or one of an earlier version (whose tables
may lack [request_hash]), [migrate] succeeds, afterwards every table of the schema has
all its columns and every index exists, no table or column that was there is lost, and
migrating again changes nothing. *)
Theorem migrate_ready dl db :
  compatible (schema_of dl) db →
  ∃ db', migrate dl db = Ok db' ∧ migrate dl db' = Ok db'
    ∧ (∀ t cols, (t, cols) ∈ tables_of (schema_of dl) → ∃ have, dbs_tables db' !! t = Some have ∧ names cols ⊆ names have)
    ∧ (∀ n, n ∈ indexes_of (schema_of dl) → n ∈ dbs_indexes db')
    ∧ (∀ t cols, dbs_tables db !! t = Some cols → ∃ extra, dbs_tables db' !! t = Some (cols ++ extra)).
Proof.
  intros Hcomp. destruct (schema_known dl) as [Hok Hidem]. set (l := schema_of dl) in *.
  destruct (exec_stmts_ok l [] db Hok) as (db1 & He & [Hx Hxi] & _ & Hcov & Hind); [by intros ? ? ?%elem_of_nil|done|].
  destruct (Hcov _ _ Hidem) as (have & Hh & Hl).
  assert (Hdone : ∀ db', (∀ t cols, (t, cols) ∈ tables_of l → ∃ have, dbs_tables db' !! t = Some have ∧ names cols ⊆ names have) →
    (∀ n, n ∈ indexes_of l → n ∈ dbs_indexes db') → migrate dl db' = Ok db').
  { intros db' Hall Hi. unfold migrate. fold l. rewrite (exec_stmts_again l db'); [|done|simpl].
    - intros t cols Hin. destruct (Hall _ _ Hin) as (h & ? & Hs). exists h. split; [done|]. intros c Hc. left. by apply Hs.
    - destruct (Hall _ _ Hidem) as (h & Hh' & Hs). unfold add_column. rewrite Hh' bool_decide_true; [|done].
      apply Hs. simpl. set_solver. }
  assert (∃ db', migrate dl db = Ok db' ∧ dbs_indexes db' = dbs_indexes db1
    ∧ (∀ t cols, dbs_tables db1 !! t = Some cols → ∃ extra, dbs_tables db' !! t = Some (cols ++ extra))
    ∧ ∃ h, dbs_tables db' !! "idempotency" = Some h ∧ "request_hash" ∈ names h) as (db' & Hm & Hi' & Hsame & h & Hh' & Hhash).
  { unfold migrate. fold l. rewrite He. simpl. unfold add_column. rewrite Hh. case_bool_decide as Hin; simpl.
    - exists db1. split_and!; try done; [|by exists have]. intros t cols Ht. exists []. by rewrite List.app_nil_r.
    - eexists. split_and!; try done; simpl.
      + intros t cols Ht. destruct (decide (t = "idempotency")) as [->|Hne]; [|rewrite lookup_insert_ne //; exists []; by rewrite List.app_nil_r].
        rewrite lookup_insert_eq. rewrite Hh in Ht. injection Ht as <-. by eexists.
      + rewrite lookup_insert_eq. eexists. split; [done|]. unfold names. rewrite fmap_app. set_solver. }
  assert (Hall : ∀ t cols, (t, cols) ∈ tables_of l → ∃ have, dbs_tables db' !! t = Some have ∧ names cols ⊆ names have).
  { intros t cols Hin. destruct (Hcov _ _ Hin) as (h1 & Ht1 & Hl1). destruct (Hsame _ _ Ht1) as (ex & Ht').
    exists (h1 ++ ex). split; [done|]. intros c Hc. destruct (Hl1 c Hc) as [Hc1|[-> ->]].
    - unfold names in *. rewrite fmap_app. set_solver.
    - rewrite Hh' in Ht'. by injection Ht' as <-. }
  exists db'. split_and!; [done|apply Hdone; [done|]|done| |]; try (intros n Hn; rewrite Hi'; by apply Hind).
  intros t cols Ht. apply Hsame. by eapply lookup_weaken.
Qed.

(** ** Runs *)
Definition old_database : Database :=
  mkDatabase {["idempotency" := [mkColumn "key" "TEXT PRIMARY KEY"; mkColumn "submission_id" "TEXT NOT NULL"]]} ∅.

Lemma migrate_ready_witness :
  ∃ db', migrate dialectSQLite old_database = Ok db' ∧ migrate dialectSQLite db' = Ok db'
    ∧ names <$> dbs_tables db' !! "idempotency" = Some ["key"; "submission_id"; "request_hash"].
Proof.
  destruct (migrate_ready dialectSQLite old_database) as (db' & Hm & Hagain & _).
  - intros t cols have Hin Ht c Hc. unfold old_database in Ht. simpl in Ht. apply lookup_singleton_Some in Ht as [<- <-]. change (CreateTable "idempotency" cols ∈ sqliteSchema) in Hin.
    unfold sqliteSchema in Hin. repeat (apply elem_of_cons in Hin as [Hin|Hin]; [try discriminate Hin; try injection Hin as ->|]).
    + simpl in *. set_solver.
    + by apply elem_of_nil in Hin.
  - exists db'. split; [exact Hm|]. split; [exact Hagain|].
    assert (match migrate dialectSQLite old_database with
            | Ok d => names <$> dbs_tables d !! "idempotency" | Err _ => None end = Some ["key"; "submission_id"; "request_hash"]) as He
      by (vm_compute; reflexivity).
    rewrite Hm in He. exact He.
Defined.

(** Both dialects have the same tables, columns and indexes; each in-memory database
is its own; a database file in the root directory cannot be opened, as its directory
is the empty path. *)
Example opening :
  map (λ d, (d.1, names d.2)) (tables_of sqliteSchema) = map (λ d, (d.1, names d.2)) (tables_of postgresSchema)
  ∧ indexes_of sqliteSchema = indexes_of postgresSchema
  ∧ let disk (_ : string) := mkDatabase ∅ ∅ in
    let mkdir d := if bool_decide (d = "") then Err "mkdir: no such file or directory" else Ok () in
    let r1 := openSQLite mkdir disk 0 ":memory:" in
    let r2 := openSQLite mkdir disk r1.1 ":memory:" in
    is_Ok r1.2 = true ∧ is_Ok r2.2 = true ∧ sqlite_dsn r1.1 ":memory:" ≠ sqlite_dsn r2.1 ":memory:"
    ∧ (openSQLite mkdir disk 0 "/scintx.db").2 = Err "sqlite mkdir: mkdir: no such file or directory"
    ∧ is_Ok (openPostgres disk "postgres://db") = true.
Proof. vm_compute. split_and!; try reflexivity. discriminate. Qed.
