(* ===== verification/Credentials.v ===== *)
(** * Provider credentials: [credentials/{spec,paths,file,keyring,resolve}.go]

Where the secrets of the outbound providers come from: the environment, the
keyring of the operating system, a file.  The keyring and the file system are the
state [Vault]; which of their operations fail is part of the [Host], and the file
is kept as the document [yaml.v3] reads from it. *)
From S2P Require Import Prelude GoString.

(** ** Specifications ([spec.go]) *)
Record Spec := mkSpec {
  Spec_ID : string;
  Spec_TokenEnv : string;
  Spec_UserEnv : string;
  Spec_HelpURL : string;
  Spec_Summary : string;
}.

Definition set_Spec_ID (id : string) (s : Spec) : Spec :=
  mkSpec id (Spec_TokenEnv s) (Spec_UserEnv s) (Spec_HelpURL s) (Spec_Summary s).

(** [None] is the panic on an empty id. *)
Definition Register (s : Spec) (specs : gmap string Spec) : option (gmap string Spec) :=
  let s := set_Spec_ID (TrimSpace (Spec_ID s)) s in
  if bool_decide (Spec_ID s = "") then None else Some (<[Spec_ID s := s]> specs).

Definition Lookup (id : string) (specs : gmap string Spec) : option Spec := specs !! TrimSpace id.

Definition spec_le (a b : Spec) : Prop := String.le (Spec_ID a) (Spec_ID b).
#[export] Instance spec_le_dec : RelDecision spec_le.
Proof. unfold spec_le. solve_decision. Defined.

Definition Specs (specs : gmap string Spec) : list Spec := merge_sort spec_le (snd <$> map_to_list specs).

Definition Known (id : string) (specs : gmap string Spec) : bool := bool_decide (is_Some (Lookup id specs)).

(** ** The host and what it stores *)
Record ProviderCreds := mkProviderCreds { PC_Token : string; PC_User : string }.

#[export] Instance ProviderCreds_eq_dec : EqDecision ProviderCreds.
Proof. solve_decision. Defined.

(** The environment, [os.UserConfigDir], [filepath.Join], the errors of the keyring's
and the file system's operations ([None]: they succeed). *)
Record Host := mkHost {
  h_getenv : string → string;
  h_config_dir : res string string;
  h_join : string → string → string;
  h_get_err : option string;
  h_set_err : option string;
  h_delete_err : option string;
  h_write_err : option string;
  h_remove_ok : bool;
}.

Inductive FileState :=
| FileDoc (providers : gmap string ProviderCreds)
| FileBad (err : string).

Record Vault := mkVault {
  vt_keyring : gmap string string;
  vt_files : gmap string FileState;
}.

Definition set_keyring (k : gmap string string) (v : Vault) : Vault := mkVault k (vt_files v).
Definition set_files (f : gmap string FileState) (v : Vault) : Vault := mkVault (vt_keyring v) f.

Section store.
Context (h : Host) (specs : gmap string Spec).

(** ** Paths ([paths.go]) *)
Definition ConfigDir : res string string :=
  let v := h_getenv h "SCINTX_CONFIG_DIR" in
  if bool_decide (v ≠ "") then Ok v
  else let? base := h_config_dir h in Ok (h_join h base "scintx").

Definition CredentialsPath : res string string :=
  let? dir := ConfigDir in Ok (h_join h dir "credentials").

(** ** The file ([file.go]) *)
Definition loadFile (path : string) (v : Vault) : res string (gmap string ProviderCreds) :=
  match vt_files v !! path with
  | None => Ok ∅
  | Some (FileDoc m) => Ok m
  | Some (FileBad e) => Err e
  end.

Definition saveFile (path : string) (doc : gmap string ProviderCreds) : GoM string Vault () := λ v,
  match h_write_err h with
  | Some e => (v, Err e)
  | None => (set_files (<[path := FileDoc doc]> (vt_files v)) v, Ok ())
  end.

Definition getFromFile (provider : string) (v : Vault) : res string (option ProviderCreds) :=
  let? path := CredentialsPath in
  let? doc := loadFile path v in
  match doc !! provider with
  | None => Ok None
  | Some c => if bool_decide (PC_Token c = "" ∧ PC_User c = "") then Ok None else Ok (Some c)
  end.

Definition setInFile (provider : string) (c : ProviderCreds) : GoM string Vault () := λ v,
  match (let? path := CredentialsPath in let? doc := loadFile path v in Ok (path, doc)) with
  | Err e => (v, Err e)
  | Ok (path, doc) => saveFile path (<[provider := c]> doc) v
  end.

Definition deleteFromFile (provider : string) : GoM string Vault () := λ v,
  match (let? path := CredentialsPath in let? doc := loadFile path v in Ok (path, doc)) with
  | Err e => (v, Err e)
  | Ok (path, doc) =>
      match doc !! provider with
      | None => (v, Ok ())
      | Some _ =>
          let doc := delete provider doc in
          if bool_decide (doc = ∅)
          then (if h_remove_ok h then set_files (delete path (vt_files v)) v else v, Ok ())
          else saveFile path doc v
      end
  end.

(** ** The keyring ([keyring.go]) *)
Definition getFromKeyring (provider : string) (v : Vault) : res string (option string) :=
  match h_get_err h with
  | Some e => Err e
  | None => match vt_keyring v !! provider with
            | None => Ok None
            | Some secret => if bool_decide (secret = "") then Ok None else Ok (Some secret)
            end
  end.

Definition setInKeyring (provider token : string) : GoM string Vault () := λ v,
  match h_set_err h with
  | Some e => (v, Err e)
  | None => (set_keyring (<[provider := token]> (vt_keyring v)) v, Ok ())
  end.

(** A missing entry is not an error. *)
Definition deleteFromKeyring (provider : string) : GoM string Vault () := λ v,
  match h_delete_err h with
  | Some e => (v, Err e)
  | None => (set_keyring (delete provider (vt_keyring v)) v, Ok ())
  end.

(** ** Resolution ([resolve.go]) *)
Inductive Source := SourceNone | SourceEnv | SourceKeyring | SourceFile.

Record Resolved := mkResolved { Rv_Creds : ProviderCreds; Rv_Source : Source }.

Definition no_creds : ProviderCreds := mkProviderCreds "" "".

(** What the environment gives for a provider with a registered specification. *)
Definition env_creds (provider : string) : option ProviderCreds :=
  match Lookup provider specs with
  | Some spec =>
      if bool_decide (Spec_TokenEnv spec = "") then None
      else
        let token := TrimSpace (h_getenv h (Spec_TokenEnv spec)) in
        let user := if bool_decide (Spec_UserEnv spec = "") then "" else TrimSpace (h_getenv h (Spec_UserEnv spec)) in
        if bool_decide (token = "") then None else Some (mkProviderCreds token user)
  | None => None
  end.

Definition userFromFileOnly (provider : string) (v : Vault) : string :=
  match getFromFile provider v with Ok (Some c) => PC_User c | _ => "" end.

Definition Get (provider : string) (v : Vault) : res string Resolved :=
  let provider := TrimSpace provider in
  if bool_decide (provider = "") then Err "provider id required"
  else match env_creds provider with
  | Some c => Ok (mkResolved c SourceEnv)
  | None =>
      match getFromKeyring provider v with
      | Ok (Some token) => Ok (mkResolved (mkProviderCreds token (userFromFileOnly provider v)) SourceKeyring)
      | _ =>
          match getFromFile provider v with
          | Err e => Err e
          | Ok (Some c) => if bool_decide (PC_Token c ≠ "") then Ok (mkResolved c SourceFile)
                           else Ok (mkResolved no_creds SourceNone)
          | Ok None => Ok (mkResolved no_creds SourceNone)
          end
      end
  end.

Definition Set_ (provider : string) (c : ProviderCreds) : GoM string Vault Source := λ v,
  let provider := TrimSpace provider in
  let c := mkProviderCreds (TrimSpace (PC_Token c)) (TrimSpace (PC_User c)) in
  if bool_decide (provider = "") then (v, Err "provider id required")
  else if bool_decide (PC_Token c = "") then (v, Err "token required")
  else
    let k := setInKeyring provider (PC_Token c) v in
    match k.2 with
    | Ok _ =>
        let v := (deleteFromFile provider k.1).1 in
        if bool_decide (PC_User c = "") then (v, Ok SourceKeyring)
        else let f := setInFile provider (mkProviderCreds "" (PC_User c)) v in
             (f.1, match f.2 with
                   | Ok _ => Ok SourceKeyring
                   | Err e => Err ("token in keyring, but failed to save user: " +:+ e)
                   end)
    | Err _ =>
        let f := setInFile provider c k.1 in
        (f.1, match f.2 with
              | Ok _ => Ok SourceFile
              | Err e => Err ("keyring unavailable and file store failed: " +:+ e)
              end)
    end.

(** The first of the two errors. *)
Definition Clear_ (provider : string) : GoM string Vault () := λ v,
  let provider := TrimSpace provider in
  if bool_decide (provider = "") then (v, Err "provider id required")
  else
    let k := deleteFromKeyring provider v in
    let f := deleteFromFile provider k.1 in
    (f.1, match k.2 with Err e => Err e | Ok _ => f.2 end).

Definition Status : string → Vault → res string Resolved := Get.
End store.

(** ** Properties *)

Lemma Specs_sorted specs : Sorted spec_le (Specs specs) ∧ Specs specs ≡ₚ snd <$> map_to_list specs.
Proof.
  split; [|apply merge_sort_Permutation]. apply Sorted_merge_sort. intros a b. unfold spec_le. apply (total String.le).
Qed.

Section props.
Context (h : Host) (specs : gmap string Spec).
Implicit Types v : Vault.

(** What the file holds for a provider, when it can be read. *)
Definition on_disk (provider : string) (v : Vault) : option ProviderCreds :=
  match (let? path := CredentialsPath h in loadFile path v) with
  | Ok doc => doc !! provider
  | Err _ => None
  end.

Lemma getFromFile_on_disk provider v :
  getFromFile h provider v = Ok (on_disk provider v ≫= λ c, if bool_decide (PC_Token c = "" ∧ PC_User c = "") then None else Some c)
  ∨ ∃ e, getFromFile h provider v = Err e ∧ on_disk provider v = None.
Proof.
  unfold getFromFile, on_disk. destruct (CredentialsPath h) as [path|e]; simpl; [|eauto].
  destruct (loadFile path v) as [doc|e]; simpl; [left|eauto]. destruct (doc !! provider); simpl; [by case_bool_decide|done].
Qed.

Lemma setInFile_ok provider c v v' : setInFile h provider c v = (v', Ok ()) →
  vt_keyring v' = vt_keyring v ∧ getFromFile h provider v' = Ok (if bool_decide (PC_Token c = "" ∧ PC_User c = "") then None else Some c)
  ∧ on_disk provider v' = Some c.
Proof.
  unfold setInFile, getFromFile, on_disk. destruct (CredentialsPath h) as [path|e]; simpl; [|done].
  destruct (loadFile path v) as [doc|e]; simpl; [|done]. unfold saveFile. destruct (h_write_err h); [done|]. intros [= <-]. simpl.
  unfold loadFile. simpl. rewrite lookup_insert_eq. simpl. rewrite lookup_insert_eq. by case_bool_decide.
Qed.

(** Deleting an entry, on a host whose file operations work, leaves none, and the
keyring alone. *)
Lemma deleteFromFile_gone provider v :
  h_write_err h = None → h_remove_ok h = true →
  vt_keyring (deleteFromFile h provider v).1 = vt_keyring v ∧ on_disk provider (deleteFromFile h provider v).1 = None.
Proof.
  intros Hw Hr. unfold deleteFromFile, on_disk. destruct (CredentialsPath h) as [path|e]; simpl; [|done].
  destruct (loadFile path v) as [doc|e] eqn:El; simpl; [|by rewrite El].
  destruct (doc !! provider) eqn:Ed; simpl; [|by rewrite El].
  case_bool_decide as He; rewrite ?Hr /=.
  - unfold loadFile. simpl. rewrite lookup_delete_eq. done.
  - unfold saveFile. rewrite Hw. simpl. unfold loadFile. simpl. rewrite lookup_insert_eq. simpl. by rewrite lookup_delete_eq.
Qed.

Lemma userFromFileOnly_none provider v : on_disk provider v = None → userFromFileOnly h provider v = "".
Proof. intros Hd. unfold userFromFileOnly. destruct (getFromFile_on_disk provider v) as [->|(e & -> & _)]; [by rewrite Hd|done]. Qed.

(** [C36] Stored credentials are found again: on a host whose keyring can be read and
whose file operations work, [Get] after [Set] gives the trimmed token and user,
from where [Set] reports to have put them - unless the environment overrides them
or, when they went to the file, the keyring holds an older token. *)
Theorem Set_then_Get provider c v v' src :
  Set_ h provider c v = (v', Ok src) →
  env_creds h specs (TrimSpace provider) = None → h_get_err h = None → h_write_err h = None → h_remove_ok h = true →
  (src = SourceFile → vt_keyring v !! TrimSpace provider = None) →
  Get h specs provider v' = Ok (mkResolved (mkProviderCreds (TrimSpace (PC_Token c)) (TrimSpace (PC_User c))) src)
  ∧ (src = SourceKeyring → ∀ c', on_disk (TrimSpace provider) v' = Some c' → PC_Token c' = "").
Proof.
  intros Hset Henv Hget Hw Hr Hfile. unfold Set_ in Hset. unfold Get. set (p := TrimSpace provider) in *.
  case_bool_decide as Hp; [done|]. simpl in Hset. case_bool_decide as Ht; [done|]. rewrite Henv. unfold getFromKeyring. rewrite Hget.
  unfold setInKeyring in Hset. destruct (h_set_err h) as [e|]; simpl in Hset.
  - destruct (setInFile h p _ v) as [w [[]|e']] eqn:Es; simpl in Hset; [|done]. simplify_eq.
    destruct (setInFile_ok _ _ _ _ Es) as (Hk & Hf & _). rewrite Hk Hfile // Hf. simpl.
    rewrite (bool_decide_false (_ ∧ _)); [naive_solver|]. simpl. by rewrite bool_decide_true.
  - set (w := deleteFromFile h p _) in Hset. pose proof (deleteFromFile_gone p (set_keyring (<[p := TrimSpace (PC_Token c)]> (vt_keyring v)) v) Hw Hr) as [Hk Hd].
    fold w in Hk, Hd. simpl in Hk. case_bool_decide as Hu; simpl in Hset.
    + simplify_eq. rewrite Hk lookup_insert_eq bool_decide_false //. rewrite userFromFileOnly_none // Hu.
      split; [done|]. intros _ c' Hc. by rewrite Hd in Hc.
    + destruct (setInFile h p _ w.1) as [w' [[]|e']] eqn:Es; simpl in Hset; [|done]. simplify_eq.
      destruct (setInFile_ok _ _ _ _ Es) as (Hk' & Hf & Hod). rewrite Hk' Hk lookup_insert_eq bool_decide_false //.
      unfold userFromFileOnly. rewrite Hf (bool_decide_false (_ ∧ _)); [simpl; naive_solver|].
      split; [done|]. intros _ c' Hc. rewrite Hod in Hc. by simplify_eq.
Qed.

(** After a successful [Clear] nothing stored is left: only the environment can still
give credentials. *)
Lemma Clear_forgets provider v v' :
  Clear_ h provider v = (v', Ok ()) → h_get_err h = None → h_write_err h = None → h_remove_ok h = true →
  env_creds h specs (TrimSpace provider) = None →
  Get h specs provider v' = Ok (mkResolved no_creds SourceNone).
Proof.
  unfold Clear_, Get. set (p := TrimSpace provider). case_bool_decide; [done|]. intros Hc Hg Hw Hr ->.
  unfold deleteFromKeyring in Hc. destruct (h_delete_err h); simpl in Hc; [by simplify_eq|].
  set (w := set_keyring (delete p (vt_keyring v)) v) in *.
  destruct (deleteFromFile_gone p w Hw Hr) as [Hk Hd].
  destruct (deleteFromFile h p w) as [w' [[]|e]] eqn:Ed; simpl in Hc; [|done]. simplify_eq. simpl in Hk, Hd.
  unfold getFromKeyring. rewrite Hg Hk lookup_delete_eq. unfold deleteFromFile in Ed. unfold getFromFile.
  unfold on_disk in Hd.
  destruct (CredentialsPath h) as [path|e]; simpl in *; [|done].
  destruct (loadFile path w) as [doc|e] eqn:El; simpl in Ed; [|done].
  destruct (loadFile path v') as [doc'|e] eqn:El'; simpl in *; [by rewrite Hd|]. exfalso.
  destruct (doc !! p); [|simplify_eq; congruence]. case_bool_decide.
  - rewrite Hr in Ed. simplify_eq. unfold loadFile in El'. simpl in El'. by rewrite lookup_delete_eq in El'.
  - unfold saveFile in Ed. rewrite Hw in Ed. simplify_eq. unfold loadFile in El'. simpl in El'. by rewrite lookup_insert_eq in El'.
Qed.
End props.

(** ** Runs *)
Section runs.
Definition plain_host : Host :=
  mkHost (λ _, "") (Ok "/home/u/.config") (λ a b, a +:+ "/" +:+ b) None None None None true.
Definition locked_host : Host :=
  mkHost (λ _, "") (Ok "/home/u/.config") (λ a b, a +:+ "/" +:+ b) None (Some "keyring is locked") None None true.

Lemma Set_then_Get_witness :
  let r := Set_ plain_host " ossindex " (mkProviderCreds "tok " "me") (mkVault ∅ ∅) in
  Get plain_host ∅ "ossindex" r.1 = Ok (mkResolved (mkProviderCreds "tok" "me") SourceKeyring).
Proof.
  intros r. destruct (Set_then_Get plain_host ∅ " ossindex " (mkProviderCreds "tok " "me") (mkVault ∅ ∅) r.1 SourceKeyring) as [Hg _];
    [vm_compute; reflexivity..|discriminate|]. exact Hg.
Defined.

(** A new token that the keyring refuses goes to the file, and the old one in the
keyring keeps being used. *)
Example refused_token_shadowed :
  let v := (Set_ plain_host "osv" (mkProviderCreds "old" "") (mkVault ∅ ∅)).1 in
  let r := Set_ locked_host "osv" (mkProviderCreds "new" "") v in
  r.2 = Ok SourceFile ∧ Get locked_host ∅ "osv" r.1 = Ok (mkResolved (mkProviderCreds "old" "") SourceKeyring).
Proof. vm_compute. split; reflexivity. Qed.
End runs.
