(* ===== verification/Gateway.v ===== *)
(** * Shared services of the gateway

Local blob URIs ([api/blob.go]), the provider and policy registries
([api/registry.go], [api/sortkeys.go]), random ids ([api/id.go]), the event
emitter ([internal/scintx/events.go]) and the provider-result cache
([cache.go], [cache_key.go]).  Random bytes, the clock and the environment
variables are arguments. *)
From S2P Require Import Prelude GoString GoFloat Sha256 Types Purl Store.

(** ** Local blobs *)
Definition BlobURNPrefix : string := "urn:scintx:blob:".

Definition BlobURN (digest : string) : string := BlobURNPrefix +:+ digest.

Definition LocalBlobDigest (uri : string) : option string :=
  let uri := TrimSpace uri in
  if negb (HasPrefix uri BlobURNPrefix) then None
  else
    let digest := TrimPrefix uri BlobURNPrefix in
    if bool_decide (digest = "") then None else Some digest.

(** A stored digest survives the URI: for any non-empty digest of graphic
ASCII characters ([sha256:] and hex digits are), the local-blob lookup of its URN
is the digest. *)
Theorem LocalBlobDigest_BlobURN digest :
  digest ≠ "" → all_chars is_graphic digest = true → LocalBlobDigest (BlobURN digest) = Some digest.
Proof.
  intros Hne Hg. unfold LocalBlobDigest, BlobURN.
  rewrite TrimSpace_graphic; [by rewrite all_chars_app Hg|]. rewrite HasPrefix_app /=.
  unfold TrimPrefix. rewrite HasPrefix_app drop_str_app. by rewrite bool_decide_false.
Qed.

Lemma hex_digit_graphic z : (0 <= z < 16)%Z → is_graphic (hex_digit z) = true.
Proof.
  intros Hz. unfold is_graphic, hex_digit, byte_of. apply bool_decide_eq_true.
  case_bool_decide; rewrite N_ascii_embedding; lia.
Qed.

Lemma hex_encode_graphic l : Forall (λ b, 0 <= b < 256)%Z l → all_chars is_graphic (hex_encode l) = true.
Proof.
  induction 1 as [|b l Hb _ IH]; simpl; [done|]. rewrite IH andb_true_r !hex_digit_graphic //.
  - rewrite Z.shiftr_div_pow2 //. split; [apply Z.div_pos; lia|apply Z.div_lt_upper_bound; lia].
  - change 15%Z with (Z.ones 4). rewrite Z.land_ones //. by apply Z.mod_pos_bound.
Qed.

(** The digests of the gateway qualify. *)
Lemma sha256_digest_graphic s : all_chars is_graphic ("sha256:" +:+ sha256_hex s) = true.
Proof. rewrite all_chars_app. unfold sha256_hex. by rewrite (hex_encode_graphic _ (Sum256_range s)). Qed.

Lemma LocalBlobDigest_BlobURN_witness :
  LocalBlobDigest (BlobURN ("sha256:" +:+ sha256_hex "x")) = Some ("sha256:" +:+ sha256_hex "x").
Proof. apply LocalBlobDigest_BlobURN; [discriminate|vm_compute; reflexivity]. Defined.

(** ** Registries *)
Definition sortedKeys {V} (m : gmap string V) : list string := sort_strings (map_to_list m).*1.

Inductive FactoryErr :=
| ErrProviderSkipped (reason : string)
| FactoryFailed (msg : string).

Definition SkipProvider (reason : string) : FactoryErr :=
  ErrProviderSkipped (if bool_decide (reason = "") then "provider skipped" else reason).

Section registry.
Context {P : Type}.
Implicit Types factories : gmap string (res FactoryErr P).

(** A factory is what calling it at startup returns.  [None] is the panic on a
duplicate id. *)
Definition RegisterProviderFactory (id : string) (f : res FactoryErr P) factories
  : option (gmap string (res FactoryErr P)) :=
  match factories !! id with Some _ => None | None => Some (<[id := f]> factories) end.

(** The allowlist of a comma-separated variable ([SCINTX_PROVIDERS]); [None] is
"load everything". *)
Definition providerAllowlist (env : string) : option (gset string) :=
  let raw := TrimSpace env in
  if bool_decide (raw = "") then None
  else
    let out := fold_left (λ out part, let id := TrimSpace part in
                 if bool_decide (id ≠ "") then {[id]} ∪ out else out) (Split raw ","%char) ∅ in
    if bool_decide (out = ∅) then None else Some out.

Definition allowed (allow : option (gset string)) (id : string) : bool :=
  match allow with Some a => bool_decide (id ∈ a) | None => true end.

Fixpoint load_loop factories (allow : option (gset string)) (ids : list string) (acc : list P)
  : res string (list P) :=
  match ids with
  | [] => Ok acc
  | id :: ids =>
      if negb (allowed allow id) then load_loop factories allow ids acc
      else match factories !! id with
           | Some (Ok p) => load_loop factories allow ids (acc ++ [p])
           | Some (Err (ErrProviderSkipped _)) => load_loop factories allow ids acc
           | Some (Err (FactoryFailed m)) => Err ("provider factory " +:+ quoted id +:+ ": " +:+ m)
           | None => load_loop factories allow ids acc
           end
  end.

Definition LoadProviders factories (env : string) : res string (list P) :=
  let allow := providerAllowlist env in
  let? providers := load_loop factories allow (sortedKeys factories) [] in
  match allow, providers with
  | Some _, [] => Err "SCINTX_PROVIDERS matched no registered providers"
  | _, _ => Ok providers
  end.

Definition RegisteredProviderIDs factories : list string := sortedKeys factories.

(** The policy-engine registry has the same shape. *)
Definition RegisterPolicyEngineFactory (id : string) (f : res string P) (factories : gmap string (res string P))
  : option (gmap string (res string P)) :=
  match factories !! id with Some _ => None | None => Some (<[id := f]> factories) end.

Definition RegisteredPolicyEngineIDs (factories : gmap string (res string P)) : list string := sortedKeys factories.

Definition LoadPolicyEngine (factories : gmap string (res string P)) (id : string) : res string P :=
  match factories !! id with
  | None => Err ("policy engine not registered: " +:+ id)
  | Some f => f
  end.

Definition factory_provider factories (id : string) : option P :=
  match factories !! id with Some (Ok p) => Some p | _ => None end.

Definition factory_broken factories (id : string) : bool :=
  match factories !! id with Some (Err (FactoryFailed _)) => true | _ => false end.

Lemma load_loop_spec factories allow ids acc :
  let sel := List.filter (allowed allow) ids in
  if existsb (factory_broken factories) sel
  then is_Ok (load_loop factories allow ids acc) = false
  else load_loop factories allow ids acc = Ok (acc ++ omap (factory_provider factories) sel).
Proof.
  revert acc. induction ids as [|id ids IH]; intros acc; simpl; [by rewrite List.app_nil_r|].
  destruct (allowed allow id); simpl; [|apply IH].
  unfold factory_broken at 1, factory_provider at 1.
  destruct (factories !! id) as [[p|[]]|]; simpl; try apply IH; [|done].
  specialize (IH (acc ++ [p])). simpl in IH. case_match; [done|]. by rewrite IH -(assoc_L (++)).
Qed.

Lemma LoadProviders_from factories env l p :
  LoadProviders factories env = Ok l → p ∈ l → ∃ id, factories !! id = Some (Ok p).
Proof.
  unfold LoadProviders. intros (ps & Hl & Hps)%res_bind_Ok Hp.
  pose proof (load_loop_spec factories (providerAllowlist env) (sortedKeys factories) []) as Hs. cbv zeta in Hs.
  destruct (existsb _ _); rewrite Hl in Hs; [done|]. injection Hs as ->.
  assert (p ∈ omap (factory_provider factories) (List.filter (allowed (providerAllowlist env)) (sortedKeys factories))) as Hin.
  { destruct (providerAllowlist env); [destruct (omap _ _)|]; by simplify_eq. }
  apply list_elem_of_omap in Hin as (id & _ & Hid). exists id. unfold factory_provider in Hid.
  destruct (factories !! id) as [[q|]|]; by simplify_eq.
Qed.

(** Startup loads providers deterministically: unless an allowed factory is
broken (then startup fails) the providers are those of the allowed factories that
did not skip, in the order of their ids, each factory once; an allowlist that
leaves none is an error. *)
Theorem LoadProviders_correct factories env :
  let allow := providerAllowlist env in
  let sel := List.filter (allowed allow) (sortedKeys factories) in
  StronglySorted String.le sel ∧ NoDup sel
  ∧ (∀ id, id ∈ sel ↔ is_Some (factories !! id) ∧ allowed allow id = true)
  ∧ match LoadProviders factories env with
    | Ok ps => existsb (factory_broken factories) sel = false ∧ ps = omap (factory_provider factories) sel
    | Err _ => existsb (factory_broken factories) sel = true
               ∨ is_Some allow ∧ omap (factory_provider factories) sel = []
    end.
Proof.
  intros allow sel.
  assert (Hsorted : ∀ l, StronglySorted String.le l → StronglySorted String.le (List.filter (allowed allow) l)).
  { induction 1 as [|x l Hl IH Hx]; simpl; [constructor|]. destruct (allowed allow x); [|done].
    constructor; [done|]. apply Forall_forall. intros y Hy. rewrite Forall_forall in Hx. apply Hx.
    apply list_elem_of_In, filter_In in Hy as [Hy _]. by apply list_elem_of_In. }
  assert (Hkeys : NoDup (sortedKeys factories)).
  { unfold sortedKeys. rewrite sort_strings_perm. apply NoDup_fst_map_to_list. }
  split_and!.
  - apply Hsorted, sort_strings_sorted.
  - apply NoDup_ListNoDup, List.NoDup_filter, NoDup_ListNoDup, Hkeys.
  - intros id. unfold sel. rewrite list_elem_of_In filter_In -list_elem_of_In.
    unfold sortedKeys. rewrite sort_strings_perm. f_equiv. split.
    + intros ([k v] & -> & Hk%elem_of_map_to_list)%list_elem_of_fmap. by exists v.
    + intros [v Hv%elem_of_map_to_list]. by apply (list_elem_of_fmap_2 fst) in Hv.
  - unfold LoadProviders. fold allow. pose proof (load_loop_spec factories allow (sortedKeys factories) []) as Hl.
    cbv zeta in Hl. fold sel in Hl. destruct (existsb (factory_broken factories) sel).
    + destruct (load_loop _ _ _ _); [done|]. simpl. by left.
    + rewrite Hl. simpl. destruct allow; [|done]. destruct (omap _ sel) eqn:E; [|done].
      right. split; [by eexists|done].
Qed.
End registry.

(** ** Ids *)

(** [RandHex] from its eight random bytes and the nanosecond clock; [None] bytes
are a failing random source. *)
Definition RandHex (random : option (list Z)) (unix_nano : Z) : string :=
  match random with
  | None => "0000000000000000-" +:+ fmt_d unix_nano
  | Some b => hex_encode b +:+ "-" +:+ fmt_d (Z.rem unix_nano 100000)
  end.

(** ** Events *)
Definition MaxInt32 : Z := 2147483647.

Record EventEmitter := mkEventEmitter {
  Em_Source : string;
  Em_seq : Z;
}.

(** The sequence number of the next event and the counter after it; the counter is
a [uint64]. *)
Definition next_seq (seq : Z) : Z * Z :=
  let s := ((seq + 1) `mod` 2^64)%Z in
  if bool_decide (MaxInt32 < s)%Z then (1, 1)%Z else (s, s).

Definition Emit `{Store ST} (rand : string) (now : Time) (eventType subject : string) (data : anymap)
    (em : EventEmitter) (s : ST) : EventEmitter * CloudEvent * ST :=
  let '(sq, seq') := next_seq (Em_seq em) in
  let evt := mkCloudEvent "1.0" ("evt_" +:+ rand) (Em_Source em) eventType subject now
               "application/json" "" data (Some sq) in
  (mkEventEmitter (Em_Source em) seq', evt, (AppendEvent evt s).1).

(** [n] sequence numbers in a row. *)
Fixpoint seqs (n : nat) (seq : Z) : list Z :=
  match n with
  | 0 => []
  | S n => (next_seq seq).1 :: seqs n (next_seq seq).2
  end.

(** Event sequence numbers are 1, 2, 3, ... and restart at 1 after [2^31 - 1]:
the [k]-th event since startup has number [k mod (2^31 - 1) + 1], always a
positive 32-bit integer. *)
Theorem Emit_sequence n k :
  k < n → seqs n 0 !! k = Some (Z.of_nat k `mod` MaxInt32 + 1)%Z.
Proof.
  assert (Hgen : ∀ n seq k, (0 <= seq <= MaxInt32)%Z → k < n →
            seqs n seq !! k = Some ((seq + Z.of_nat k) `mod` MaxInt32 + 1)%Z); last by apply (Hgen n 0%Z k).
  clear n k. induction n as [|n IH]; intros seq k Hs Hk; [lia|].
  assert (Hn : next_seq seq = (seq `mod` MaxInt32 + 1, seq `mod` MaxInt32 + 1)%Z).
  { unfold next_seq, MaxInt32 in *. rewrite (Z.mod_small (seq + 1) (2^64)); [lia|].
    case_bool_decide as Hb.
    - assert (seq = 2147483647)%Z as -> by lia. done.
    - rewrite Z.mod_small; [lia|done]. }
  simpl. rewrite Hn. destruct k as [|k]; simpl.
  - by rewrite Z.add_0_r.
  - rewrite IH; [|lia|].
    + unfold MaxInt32. pose proof (Z.mod_pos_bound seq 2147483647). lia.
    + f_equal. f_equal. replace (seq `mod` MaxInt32 + 1 + Z.of_nat k)%Z
        with (seq `mod` MaxInt32 + Z.of_nat (S k))%Z by lia.
      by rewrite Zplus_mod_idemp_l.
Qed.

Lemma Emit_sequence_witness : seqs 3 0 !! 2 = Some 3%Z.
Proof. apply (Emit_sequence 3 2). lia. Defined.

(** ** The provider-result cache *)
Section cache_key.
Context `{Unicode}.

Definition artifactFingerprint (a : Artifact) : string :=
  let purl :=
    match Art_PURL a with
    | Some p => if bool_decide (p ≠ "") then
                  match CanonicalPurl p with
                  | Ok cp => ["purl=" +:+ cp]
                  | Err _ => ["purl=" +:+ p]
                  end
                else []
    | None => []
    end in
  let digests :=
    map (λ k, "digest." +:+ k +:+ "=" +:+ default "" (Art_Digests a !! k)) (sortedKeys (Art_Digests a)) in
  let content :=
    match Art_ContentRef a with
    | Some r => if bool_decide (Ref_URI r ≠ "") then ["content=" +:+ Ref_URI r] else []
    | None => []
    end in
  let parts := purl ++ digests ++ content in
  if bool_decide (parts = []) then "empty" else Join parts ";".

Definition ResultCacheKey (providerID capabilityID : string) (a : Artifact) : string :=
  let raw := Join [providerID; capabilityID; artifactFingerprint a] "|" in
  "scintx:result:v1:" +:+ sha256_hex raw.
End cache_key.

Definition MaterializeCachedResult (rand : string) (now : Time) (cached : ProviderResult)
    (submissionID : string) (ttl : Duration) : ProviderResult :=
  let out := CloneJSON cached in
  let originalID := Res_ID out in
  set_Res_Cache (Some (mkCacheInfo true originalID (Some (now + ttl)%Z) "provider_result_cache"))
    (set_Res_SubmissionID submissionID (set_Res_ID ("res_" +:+ rand) out)).

(** The template a backend stores: [MarshalResult] up to the JSON encoding. *)
Definition cache_template (r : ProviderResult) : ProviderResult :=
  set_Res_Cache None (set_Res_SubmissionID "" (CloneJSON r)).

(** The [ResultCache] interface, on the state of a backend.  [Get] returns the
entry, a miss or the error the code logs. *)
Class ResultCache (C : Type) := {
  cache_get : string → C → res string (option ProviderResult);
  cache_set : string → ProviderResult → Duration → C → C * res string ();
}.

(** What a backend promises: an entry it returns is the template of a result
stored under that key; it may evict, expire or refuse at any time. *)
Class ResultCacheLaws (C : Type) `{ResultCache C} := {
  cached_at : C → string → ProviderResult → Prop;
  cache_get_law : ∀ c k r, cache_get k c = Ok (Some r) → cached_at c k r;
  cache_set_law : ∀ c k r ttl k' r', cached_at (cache_set k r ttl c).1 k' r' →
    cached_at c k' r' ∨ k' = k ∧ r' = cache_template r;
}.

(** [NopCache]. *)
#[export] Instance NopCache : ResultCache () := {|
  cache_get _ _ := Ok None;
  cache_set _ _ _ c := (c, Ok ());
|}.

#[export] Instance NopCache_laws : ResultCacheLaws ().
Proof. refine {| cached_at _ _ _ := False |}; [done|]. by left. Defined.

(** A map backend, as the bundled ones are apart from eviction and transport. *)
#[export] Instance MapCache : ResultCache (gmap string ProviderResult) := {|
  cache_get k c := Ok (c !! k);
  cache_set k r _ c := (<[k := cache_template r]> c, Ok ());
|}.

#[export] Instance MapCache_laws : ResultCacheLaws (gmap string ProviderResult).
Proof.
  refine {| cached_at c k r := c !! k = Some r |}.
  - intros c k r [= Hk]. done.
  - intros c k r ttl k' r' Hk. simpl in Hk. destruct (decide (k' = k)) as [->|].
    + rewrite lookup_insert_eq in Hk. simplify_eq. by right.
    + rewrite lookup_insert_ne in Hk; [done|]. by left.
Defined.

(** The cache key of an assessment is a function of provider, capability,
canonical PURL, digests and content URI: artifacts that agree on those share an
entry even when their SBOM and provenance references differ, although a
capability may require them. *)
Theorem ResultCacheKey_inputs `{Unicode} p c a a' :
  (Art_PURL a = Art_PURL a'
   ∨ ∃ x y cp, Art_PURL a = Some x ∧ Art_PURL a' = Some y ∧ x ≠ "" ∧ y ≠ ""
       ∧ CanonicalPurl x = Ok cp ∧ CanonicalPurl y = Ok cp) →
  Art_Digests a = Art_Digests a' →
  Ref_URI <$> Art_ContentRef a = Ref_URI <$> Art_ContentRef a' →
  ResultCacheKey p c a = ResultCacheKey p c a'.
Proof.
  intros Hp Hd Hc. unfold ResultCacheKey. do 4 f_equal. unfold artifactFingerprint. rewrite Hd.
  assert ((match Art_ContentRef a with
     | Some r => if bool_decide (Ref_URI r ≠ "") then ["content=" +:+ Ref_URI r] else [] | None => [] end)
   = match Art_ContentRef a' with
     | Some r => if bool_decide (Ref_URI r ≠ "") then ["content=" +:+ Ref_URI r] else [] | None => [] end) as ->.
  { destruct (Art_ContentRef a) as [r|], (Art_ContentRef a') as [r'|]; try done.
    injection Hc as Hc. by rewrite Hc. }
  destruct Hp as [->|(x & y & cp & -> & -> & Hx & Hy & Ex & Ey)]; [done|].
  by rewrite (bool_decide_true (x ≠ "")) // (bool_decide_true (y ≠ "")) // Ex Ey.
Qed.

Lemma ResultCacheKey_inputs_witness :
  let _ := ascii_unicode in
  let a sbom := mkArtifact (Some "pkg:npm/left-pad@1.3.0") ∅ None sbom [] ∅ None in
  ResultCacheKey "osv" "vuln-scan" (a [])
  = ResultCacheKey "osv" "vuln-scan" (a [mkResourceReference "https://sbom" "" ∅ "cyclonedx" "1.5" "" ∅]).
Proof. intros u a. apply ResultCacheKey_inputs; [left|..]; reflexivity. Defined.
