(* ===== verification/Cache.v ===== *)
(** * Cache backends: [internal/cache/{open,redis,ristretto}.go]

The choice of a backend and the two adapters, which store the bytes
[MarshalResult] makes ([internal/scintx/cache_key.go]) in a Redis server or an
in-process Ristretto cache.  Both of those, and the bytes of [encoding/json], are
parameters with the laws the adapters rely on; the adapters discharge the laws of
the cache interface that the orchestrator is proved against. *)
From S2P Require Import Prelude GoString GoTime Types Store Gateway.

(** ** Configuration ([open.go]) *)
Record CacheConfig := mkCacheConfig {
  CC_Backend : string;
  CC_TTL : Duration;
  CC_RedisURL : string;
}.

Definition CacheFromEnv `{Unicode} (getenv : string → string) : res string CacheConfig :=
  let backend := ToLower (TrimSpace (getenv "SCINTX_CACHE")) in
  let backend := if bool_decide (backend = "") then "none" else backend in
  let raw := getenv "SCINTX_CACHE_TTL" in
  let? ttl := if bool_decide (raw = "") then Ok Hour
              else match ParseDuration raw with Ok d => Ok d | Err e => Err ("SCINTX_CACHE_TTL: " +:+ e) end in
  Ok (mkCacheConfig backend ttl (getenv "SCINTX_REDIS_URL")).

(** Which constructor [Open] calls. *)
Inductive CacheBackend := UseNop | UseRistretto | UseRedis (url : string).

Definition OpenCache `{Unicode} (cfg : CacheConfig) : res string CacheBackend :=
  let b := ToLower (CC_Backend cfg) in
  if bool_decide (b ∈ ["none"; ""; "off"; "disabled"]) then Ok UseNop
  else if bool_decide (b ∈ ["ristretto"; "memory"; "local"]) then Ok UseRistretto
  else if bool_decide (b = "redis") then
    if bool_decide (CC_RedisURL cfg = "") then Err "SCINTX_REDIS_URL is required for redis cache"
    else Ok (UseRedis (CC_RedisURL cfg))
  else Err ("unknown SCINTX_CACHE " +:+ quoted (CC_Backend cfg) +:+ " (want none|ristretto|redis)").

Definition DefaultTTL (cfg : CacheConfig) : Duration :=
  if bool_decide (0 < CC_TTL cfg)%Z then CC_TTL cfg else Hour.

(** ** Bytes of a result ([cache_key.go]) *)

(** [json.Marshal] and [json.Unmarshal] of a result, on byte slices [B] with their
length; what they do together is what [CloneJSON], which is written with them,
does. *)
Class ResultCodec (B : Type) := {
  encode_result : ProviderResult → B;
  decode_result : B → res string ProviderResult;
  byte_length : B → Z;
  decode_encode : ∀ r, json_ok r = true → decode_result (encode_result r) = Ok (CloneJSON r);
}.

Definition MarshalResult `{ResultCodec B} (r : ProviderResult) : res string B :=
  let cp := cache_template r in
  if json_ok cp then Ok (encode_result cp) else Err "json: unsupported value".

Definition UnmarshalResult `{ResultCodec B} (b : B) : res string ProviderResult := decode_result b.

Lemma template_stable r : stable (cache_template r).
Proof. destruct (clone_stable r) as [Hok _]. split; [exact Hok|done]. Qed.

Lemma marshal_unmarshal `{ResultCodec B} r (b : B) : MarshalResult r = Ok b → UnmarshalResult b = Ok (cache_template r).
Proof.
  unfold MarshalResult, UnmarshalResult. destruct (template_stable r) as [Hok Hv]. rewrite Hok. intros [= <-].
  rewrite decode_encode //. by rewrite (stable_clone _ (template_stable r)).
Qed.

(** ** Redis ([redis.go]) *)

(** The client: [Get] with [redis.Nil] as a miss, [Set].  A server only returns what
was stored under the key; it may expire, evict or lose entries. *)
Class RedisClient (K B : Type) := {
  redis_get : string → K → res string (option B);
  redis_set : string → B → Duration → K → K * res string ();
  redis_holds : K → string → B → Prop;
  redis_get_law : ∀ s k b, redis_get k s = Ok (Some b) → redis_holds s k b;
  redis_set_law : ∀ s k b ttl k' b', redis_holds (redis_set k b ttl s).1 k' b' → redis_holds s k' b' ∨ k' = k ∧ b' = b;
}.

(** [B] only tells which bytes the client carries. *)
Record redisCache (K B : Type) := mkRedisCache { rc_client : K }.
#[global] Arguments mkRedisCache {K} B.
#[global] Arguments rc_client {K B}.

#[export] Instance redis_cache `{ResultCodec B} `{!RedisClient K B} : ResultCache (redisCache K B) := {|
  cache_get k c :=
    match redis_get k (rc_client c) with
    | Err e => Err e
    | Ok None => Ok None
    | Ok (Some b) => let? r := UnmarshalResult b in Ok (Some r)
    end;
  cache_set k r ttl c :=
    match MarshalResult r with
    | Err e => (c, Err e)
    | Ok b => let x := redis_set k b ttl (rc_client c) in (mkRedisCache B x.1, x.2)
    end;
|}.

(** ** Ristretto ([ristretto.go]) *)

(** The cache: [Get], and [SetWithTTL] followed by [Wait], which may reject. *)
Class RistrettoCache (K B : Type) := {
  rist_get : string → K → option B;
  rist_set : string → B → Z → Duration → K → K * bool;
  rist_holds : K → string → B → Prop;
  rist_get_law : ∀ s k b, rist_get k s = Some b → rist_holds s k b;
  rist_set_law : ∀ s k b cost ttl k' b',
    rist_holds (rist_set k b cost ttl s).1 k' b' → rist_holds s k' b' ∨ k' = k ∧ b' = b;
}.

Record ristrettoCache (K B : Type) := mkRistrettoCache { ri_cache : K }.
#[global] Arguments mkRistrettoCache {K} B.
#[global] Arguments ri_cache {K B}.

Definition cost_of `{ResultCodec B} (b : B) : Z := if bool_decide (byte_length b < 1)%Z then 1%Z else byte_length b.

#[export] Instance ristretto_cache `{ResultCodec B} `{!RistrettoCache K B} : ResultCache (ristrettoCache K B) := {|
  cache_get k c :=
    match rist_get k (ri_cache c) with
    | None => Ok None
    | Some b => let? r := UnmarshalResult b in Ok (Some r)
    end;
  cache_set k r ttl c :=
    match MarshalResult r with
    | Err e => (c, Err e)
    | Ok b =>
        let x := rist_set k b (cost_of b) ttl (ri_cache c) in
        (mkRistrettoCache B x.1, if x.2 then Ok () else Err ("ristretto rejected set for key " +:+ quoted k))
    end;
|}.

(** ** The laws of the cache interface *)
#[export] Instance redis_laws `{ResultCodec B} `{!RedisClient K B} : ResultCacheLaws (redisCache K B).
Proof.
  refine {| cached_at c k r := ∃ b, redis_holds (rc_client c) k b ∧ UnmarshalResult b = Ok r |}.
  - intros c k r. simpl. destruct (redis_get k (rc_client c)) as [[b|]|e] eqn:E; try done.
    destruct (UnmarshalResult b) as [r'|e] eqn:Eu; simpl; [|done]. intros [= <-]. exists b. split; [by apply redis_get_law|done].
  - intros c k r ttl k' r' (b & Hb & Hu). simpl in Hb. destruct (MarshalResult r) as [b0|e] eqn:Em; simpl in Hb; [|left; eauto].
    apply redis_set_law in Hb as [Hb|[-> ->]]; [left; eauto|right]. split; [done|].
    rewrite (marshal_unmarshal _ _ Em) in Hu. by injection Hu.
Defined.

#[export] Instance ristretto_laws `{ResultCodec B} `{!RistrettoCache K B} : ResultCacheLaws (ristrettoCache K B).
Proof.
  refine {| cached_at c k r := ∃ b, rist_holds (ri_cache c) k b ∧ UnmarshalResult b = Ok r |}.
  - intros c k r. simpl. destruct (rist_get k (ri_cache c)) as [b|] eqn:E; [|done].
    destruct (UnmarshalResult b) as [r'|e] eqn:Eu; simpl; [|done]. intros [= <-]. exists b. split; [by apply rist_get_law|done].
  - intros c k r ttl k' r' (b & Hb & Hu). simpl in Hb. destruct (MarshalResult r) as [b0|e] eqn:Em; simpl in Hb; [|left; eauto].
    apply rist_set_law in Hb as [Hb|[-> ->]]; [left; eauto|right]. split; [done|].
    rewrite (marshal_unmarshal _ _ Em) in Hu. by injection Hu.
Defined.

(** ** Properties *)

(** The state after a history of stores. *)
Definition cache_run `{ResultCache C} (sets : list (string * ProviderResult * Duration)) (c : C) : C :=
  fold_left (λ c s, (cache_set s.1.1 s.1.2 s.2 c).1) sets c.

Lemma cache_run_law `{ResultCacheLaws C} sets c k r :
  cached_at (cache_run sets c) k r → cached_at c k r ∨ ∃ r0 ttl, (k, r0, ttl) ∈ sets ∧ r = cache_template r0.
Proof.
  revert c. induction sets as [|[[k0 r0] ttl] sets IH]; intros c; simpl; [by left|]. intros [Hc|(r1 & t & Hin & ->)]%IH.
  - apply cache_set_law in Hc as [Hc|[-> ->]]; [by left|right]. exists r0, ttl. split; [by left|done].
  - right. exists r1, t. split; [by right|done].
Qed.

(** [C37] A hit is never another artifact's result nor another submission's: from an empty
Redis or Ristretto cache, whatever was stored, evicted, rejected or expired, a hit
on a key is a result stored under that key, without its submission and cache
marks - also when it went through the bytes of the backend. *)
Theorem cache_hits_genuine `{ResultCodec B} `{!RedisClient K B} `{!RistrettoCache K' B} sets k r (rs : K) (ri : K') :
  (∀ k (b : B), ¬ redis_holds rs k b) → (∀ k (b : B), ¬ rist_holds ri k b) →
  cache_get k (cache_run sets (mkRedisCache B rs)) = Ok (Some r) ∨ cache_get k (cache_run sets (mkRistrettoCache B ri)) = Ok (Some r) →
  ∃ r0 ttl, (k, r0, ttl) ∈ sets ∧ r = cache_template r0 ∧ Res_SubmissionID r = "" ∧ Res_Cache r = None.
Proof.
  intros H1 H2 Hg. assert (∃ r0 ttl, (k, r0, ttl) ∈ sets ∧ r = cache_template r0) as (r0 & ttl & Hin & ->).
  { destruct Hg as [Hg|Hg]; apply cache_get_law, cache_run_law in Hg as [(b & Hb & _)|?]; try done; exfalso; [by eapply H1|by eapply H2]. }
  by exists r0, ttl.
Qed.

(** ** Runs: an instance that never evicts *)
Section runs.
#[local] Instance value_codec : ResultCodec ProviderResult.
Proof. refine {| encode_result r := r; decode_result r := Ok (CloneJSON r); byte_length _ := 1%Z |}. done. Defined.

#[local] Instance map_redis {B} : RedisClient (gmap string B) B.
Proof.
  refine {| redis_get k s := Ok (s !! k); redis_set k b _ s := (<[k := b]> s, Ok ()); redis_holds s k b := s !! k = Some b |}.
  - by intros s k b [=].
  - intros s k b _ k' b'. simpl. destruct (decide (k' = k)) as [->|]; [rewrite lookup_insert_eq; intros [= <-]; by right|].
    rewrite lookup_insert_ne //. by left.
Defined.

#[local] Instance map_ristretto {B} : RistrettoCache (gmap string B) B.
Proof.
  refine {| rist_get k s := s !! k; rist_set k b _ _ s := (<[k := b]> s, true); rist_holds s k b := s !! k = Some b |}.
  - done.
  - intros s k b _ _ k' b'. simpl. destruct (decide (k' = k)) as [->|]; [rewrite lookup_insert_eq; intros [= <-]; by right|].
    rewrite lookup_insert_ne //. by left.
Defined.

Definition cached_sample : ProviderResult :=
  mkProviderResult "r1" "1.0.0" "sub_1" (mkProviderRef "osv" "1") [] "" (mkExecution ExecutionCompleted 0 1 None) None [] None None ∅.

Lemma cache_hits_genuine_witness :
  ∃ r0 ttl, ("k", r0, ttl) ∈ [("k", cached_sample, Hour)] ∧ cache_template cached_sample = cache_template r0.
Proof.
  destruct (cache_hits_genuine (B := ProviderResult) [("k", cached_sample, Hour)] "k" (cache_template cached_sample)
    (∅ : gmap string ProviderResult) (∅ : gmap string ProviderResult)) as (r0 & ttl & Hin & Hr & _).
  - intros k b. by rewrite /= lookup_empty.
  - intros k b. by rewrite /= lookup_empty.
  - left. vm_compute. reflexivity.
  - exists r0, ttl. split; [exact Hin|exact Hr].
Defined.

Example cache_configuration `{Unicode} :
  CC_TTL <$> (match CacheFromEnv (λ _, "") with Ok c => Some c | Err _ => None end) = Some Hour
  ∧ OpenCache (mkCacheConfig "Off" 0 "") = Ok UseNop ∧ is_Ok (OpenCache (mkCacheConfig "redis" 0 "")) = false
  ∧ DefaultTTL (mkCacheConfig "" (-1) "") = Hour.
Proof. split_and!; reflexivity. Qed.
End runs.
