(* ===== verification/Fingerprint.v ===== *)
(** * Request fingerprints: [internal/scintx/fingerprint.go]

The JSON text [encoding/json] gives a request payload (keys of maps sorted, fields
of structs in order, empty optional fields left out, strings escaped for HTML) and
its SHA-256.  The decimal text of a number is a parameter: it only occurs inside
extensions. *)
From S2P Require Import Prelude GoString GoFloat Sha256 Types Store Gateway.

(** [strconv.FormatFloat] as [encoding/json] uses it. *)
Class JsonNumbers := { fmt_float : float64 → string }.

(** ** JSON text *)
Definition hex2 (n : N) : string :=
  String (hex_digit (Z.of_N n / 16)) (str1 (hex_digit (Z.of_N n mod 16))).

(** One byte of a string literal. *)
Definition escape_char (c : ascii) : string :=
  let n := byte_of c in
  if bool_decide (n = 34)%N then bytes [92; 34]
  else if bool_decide (n = 92)%N then bytes [92; 92]
  else if bool_decide (n = 8)%N then bytes [92] +:+ "b"
  else if bool_decide (n = 12)%N then bytes [92] +:+ "f"
  else if bool_decide (n = 10)%N then bytes [92] +:+ "n"
  else if bool_decide (n = 13)%N then bytes [92] +:+ "r"
  else if bool_decide (n = 9)%N then bytes [92] +:+ "t"
  else if bool_decide (n < 32)%N || bool_decide (n = 60)%N || bool_decide (n = 62)%N || bool_decide (n = 38)%N
  then bytes [92] +:+ "u00" +:+ hex2 n
  else str1 c.

(** A literal of valid UTF-8; U+2028 and U+2029 (bytes 226 128 168 and 169) are
escaped too. *)
Fixpoint escape_string (s : string) : string :=
  match s with
  | "" => ""
  | String a rest =>
      match rest with
      | String b (String c rest') =>
          if bool_decide (byte_of a = 226 ∧ byte_of b = 128 ∧ (byte_of c = 168 ∨ byte_of c = 169))%N
          then bytes [92] +:+ "u202" +:+ str1 (hex_digit (Z.of_N (byte_of c) - 160)) +:+ escape_string rest'
          else escape_char a +:+ escape_string rest
      | _ => escape_char a +:+ escape_string rest
      end
  end.

Definition json_string (s : string) : string := quoted (escape_string s).

Definition json_array (l : list string) : string := "[" +:+ Join l "," +:+ "]".

(** Members in the order given. *)
Definition json_object (l : list (string * string)) : string :=
  "{" +:+ Join (map (λ kv, json_string kv.1 +:+ ":" +:+ kv.2) l) "," +:+ "}".

(** Members of a Go map: sorted by key. *)
Definition member_le (a b : string * string) : Prop := String.le a.1 b.1.
#[export] Instance member_le_dec : RelDecision member_le.
Proof. intros a b. unfold member_le. apply _. Defined.

Definition json_members (l : list (string * string)) : string := json_object (merge_sort member_le l).

Section marshal.
Context `{JsonNumbers}.

Fixpoint json_any (v : any) : string :=
  match v with
  | VNil => "null"
  | VBool b => if b then "true" else "false"
  | VNum x => fmt_float x
  | VStr s => json_string s
  | VArr l => json_array (map json_any l)
  | VObj m => json_members (map (λ kv, (kv.1, json_any kv.2)) m)
  end.

Definition json_anymap (m : anymap) : string := json_members (map (λ kv, (kv.1, json_any kv.2)) (map_to_list m)).
Definition json_strmap (m : strmap) : string := json_members (map (λ kv, (kv.1, json_string kv.2)) (map_to_list m)).

(** [omitempty]. *)
Definition opt_member (name : string) (keep : bool) (text : string) : list (string * string) :=
  if keep then [(name, text)] else [].
Definition is_full {A} (m : gmap string A) : bool := bool_decide (m ≠ ∅).
Definition is_given {A} (x : option A) : bool := match x with Some _ => true | None => false end.
Definition is_cons {A} (l : list A) : bool := match l with [] => false | _ => true end.

Definition json_ref (r : ResourceReference) : string :=
  json_object ([("uri", json_string (Ref_URI r)); ("media_type", json_string (Ref_MediaType r))]
    ++ opt_member "digests" (is_full (Ref_Digests r)) (json_strmap (Ref_Digests r))
    ++ opt_member "format" (bool_decide (Ref_Format r ≠ "")) (json_string (Ref_Format r))
    ++ opt_member "format_version" (bool_decide (Ref_FormatVersion r ≠ "")) (json_string (Ref_FormatVersion r))
    ++ opt_member "expires_at" (bool_decide (Ref_ExpiresAt r ≠ "")) (json_string (Ref_ExpiresAt r))
    ++ opt_member "extensions" (is_full (Ref_Extensions r)) (json_anymap (Ref_Extensions r))).

Definition json_artifact (a : Artifact) : string :=
  json_object (opt_member "purl" (is_given (Art_PURL a)) (from_option json_string "" (Art_PURL a))
    ++ opt_member "digests" (is_full (Art_Digests a)) (json_strmap (Art_Digests a))
    ++ opt_member "content_ref" (is_given (Art_ContentRef a)) (from_option json_ref "" (Art_ContentRef a))
    ++ opt_member "sbom_refs" (is_cons (Art_SBOMRefs a)) (json_array (map json_ref (Art_SBOMRefs a)))
    ++ opt_member "provenance_refs" (is_cons (Art_ProvenanceRefs a)) (json_array (map json_ref (Art_ProvenanceRefs a)))
    ++ opt_member "extensions" (is_full (Art_Extensions a)) (json_anymap (Art_Extensions a))).

(** ** The fingerprint *)
Record idempotencyPayload := mkIdempotencyPayload {
  Idem_SchemaVersion : string;
  Idem_Artifact : Artifact;
  Idem_RequestedCapabilities : list string;
  Idem_PolicyRef : option string;
}.

Definition json_payload (p : idempotencyPayload) : string :=
  json_object ([("schema_version", json_string (Idem_SchemaVersion p)); ("artifact", json_artifact (Idem_Artifact p))]
    ++ opt_member "requested_capabilities" (is_cons (Idem_RequestedCapabilities p))
         (json_array (map json_string (Idem_RequestedCapabilities p)))
    ++ opt_member "policy_ref" (is_given (Idem_PolicyRef p)) (from_option json_string "" (Idem_PolicyRef p))).

Definition RequestFingerprint (schemaVersion : string) (artifact : Artifact) (caps : list string)
    (policyRef : option string) : string :=
  let payload := mkIdempotencyPayload schemaVersion artifact (sort_strings caps) policyRef in
  let raw := if artifact_ok artifact then json_payload payload else "{}" in
  sha256_hex raw.

(** The fingerprint of a request does not depend on the order in which it lists
the capabilities, nor on content attached to the artifact, so a retry that only
differs in those replays instead of conflicting; and it is never empty, so it
always takes part in the conflict check. *)
Theorem RequestFingerprint_stable v a caps caps' p content :
  caps ≡ₚ caps' →
  RequestFingerprint v (set_Art_Content content a) caps p = RequestFingerprint v a caps' p
  ∧ RequestFingerprint v a caps p ≠ "".
Proof.
  intros Hp. unfold RequestFingerprint. rewrite (sort_strings_ext caps caps' Hp). split; [done|]. apply sha256_nonempty.
Qed.
End marshal.

Section runs.
#[local] Instance no_numbers : JsonNumbers := {| fmt_float _ := "0" |}.

Definition sample_artifact : Artifact :=
  mkArtifact (Some "pkg:npm/a@1?x=1&y=2") {["sha256" := "ab"; "md5" := "cd"]} None [] [] {["n" := VArr [VBool true; VNil]]} None.

Example json_payload_example :
  json_payload (mkIdempotencyPayload "1.0.0" sample_artifact ["a"; "b"] None)
  = let q := str1 (chr 34) in
    "{" +:+ q +:+ "schema_version" +:+ q +:+ ":" +:+ q +:+ "1.0.0" +:+ q +:+ "," +:+ q +:+ "artifact" +:+ q +:+ ":{"
    +:+ q +:+ "purl" +:+ q +:+ ":" +:+ q +:+ "pkg:npm/a@1?x=1\u0026y=2" +:+ q +:+ ","
    +:+ q +:+ "digests" +:+ q +:+ ":{" +:+ q +:+ "md5" +:+ q +:+ ":" +:+ q +:+ "cd" +:+ q +:+ ","
    +:+ q +:+ "sha256" +:+ q +:+ ":" +:+ q +:+ "ab" +:+ q +:+ "}," +:+ q +:+ "extensions" +:+ q +:+ ":{"
    +:+ q +:+ "n" +:+ q +:+ ":[true,null]}}," +:+ q +:+ "requested_capabilities" +:+ q +:+ ":["
    +:+ q +:+ "a" +:+ q +:+ "," +:+ q +:+ "b" +:+ q +:+ "]}".
Proof. vm_compute. reflexivity. Qed.

Lemma RequestFingerprint_stable_witness :
  RequestFingerprint "1.0.0" sample_artifact ["b"; "a"] None = RequestFingerprint "1.0.0" sample_artifact ["a"; "b"] None
  ∧ RequestFingerprint "1.0.0" sample_artifact ["a"] None ≠ RequestFingerprint "1.0.0" sample_artifact ["a"; "b"] None.
Proof.
  split; [|vm_compute; discriminate].
  refine (proj1 (RequestFingerprint_stable "1.0.0" sample_artifact ["b"; "a"] ["a"; "b"] None None _)). constructor.
Defined.
End runs.
