(* ===== verification/Aggregator.v ===== *)
(** * Cross-provider aggregation: [internal/scintx/aggregator.go]

[Aggregate] groups the findings of completed results by correlation key and
merges each group: VEX reconciliation of assessments, severity consensus,
identifier union, attribution.  The two "map plus key order" loops of the code
are the same [group_add] on two key types.  [RandHex] and the clock are read once
each by [Aggregate] and are its arguments. *)
From S2P Require Import Prelude GoString GoFloat Sha256 Types.

(** ** Grouping with a map and the order of first occurrence *)
Section grouping.
Context {K A : Type} `{Countable K}.

Definition groups : Type := (list K * gmap K (list A))%type.

Definition group_add (k : K) (x : A) (g : groups) : groups :=
  (match g.2 !! k with None => g.1 ++ [k] | Some _ => g.1 end,
   <[k := default [] (g.2 !! k) ++ [x]]> g.2).

Definition group_by (key : A → K) (l : list A) : groups :=
  fold_left (λ g x, group_add (key x) x g) l ([], ∅).
End grouping.
Arguments groups K A {_ _}.

Record sourcePair := mkSourcePair {
  sp_result : ProviderResult;
  sp_finding : Finding;
}.

Record scoredObservation := mkScoredObservation {
  so_obs : SeverityObservation;
  so_weight : float64;
}.

Record DefaultAggregator := mkDefaultAggregator {
  Agg_Strategy : string;
  Agg_ProviderWeights : gmap string float64;
}.

Definition NewDefaultAggregator : DefaultAggregator := mkDefaultAggregator "max" ∅.

Section aggregator.
Context `{Unicode}.

(** ** Correlation keys *)
Definition norm_id (i : TypedIdentifier) : string := ToUpper (TrimSpace (Id_Value i)).

(** The loop shared by [anchorIdentifiers] and [canonicalIdentifiers]: the
values seen, the CVEs and the other identifiers, in order of appearance. *)
Definition classify_step (st : gset string * list string * list string) (i : TypedIdentifier)
  : gset string * list string * list string :=
  let '(seen, cves, others) := st in
  let norm := norm_id i in
  if bool_decide (norm = "") || bool_decide (norm ∈ seen) then st
  else if HasPrefix norm "CVE-" then ({[norm]} ∪ seen, cves ++ [norm], others)
  else ({[norm]} ∪ seen, cves, others ++ [norm]).

Definition classify (ids : list TypedIdentifier) : gset string * list string * list string :=
  fold_left classify_step ids (∅, [], []).

Definition anchorIdentifiers (ids : list TypedIdentifier) : list string :=
  let '(_, cves, others) := classify ids in
  let cves := sort_strings cves in
  if bool_decide (cves = []) then sort_strings others else cves.

Definition canonicalIdentifiers (ids : list TypedIdentifier) : list string :=
  let '(_, cves, others) := classify ids in
  sort_strings cves ++ sort_strings others.

Fixpoint first_purl (l : list ArtifactRef) : string :=
  match l with
  | [] => ""
  | s :: l =>
      match ARef_PURL s with
      | Some p => if bool_decide (p ≠ "") then p else first_purl l
      | None => first_purl l
      end
  end.

Definition firstSubjectPURL (f : Finding) : string := first_purl (Find_Subjects f).

Definition hashStr (s : string) : string := sha256_hex s.

Definition correlationKey (r : ProviderResult) (f : Finding) : string :=
  let subjectPURL := firstSubjectPURL f in
  match Find_Identifiers f with
  | _ :: _ =>
      let ids := anchorIdentifiers (Find_Identifiers f) in
      hashStr ("sca/v1|" +:+ subjectPURL +:+ "|" +:+ Join ids ",")
  | [] =>
      if bool_decide (Find_Type f = "secret")
      then hashStr ("secret/v1|" +:+ Find_Type f +:+ "|" +:+ subjectPURL)
      else hashStr (PRef_ID (Res_Provider r) +:+ "|" +:+ Find_ID f)
  end.

(** ** Assessments *)

(** The observed statuses, with the result they come from. *)
Definition assessment_obs (pairs : list sourcePair) : list (string * AssessmentStatus) :=
  omap (λ p, (λ a, (Res_ID (sp_result p), As_Status a)) <$> Find_Assessment (sp_finding p)) pairs.

(** [(hasAffected, hasUnderInvestigation, allNotAffected)]. *)
Definition status_flags (st : bool * bool * bool) (o : string * AssessmentStatus) : bool * bool * bool :=
  let '(aff, inv, alln) := st in
  if bool_decide (o.2 = AssessAffected) then (true, inv, false)
  else if bool_decide (o.2 = AssessUnderInvestigation) then (aff, true, false)
  else if bool_decide (o.2 ≠ AssessNotAffected) then (aff, inv, false)
  else st.

(** The first assessment whose status satisfies [p]. *)
Fixpoint first_assessment (p : AssessmentStatus → bool) (pairs : list sourcePair) : option Assessment :=
  match pairs with
  | [] => None
  | x :: pairs =>
      match Find_Assessment (sp_finding x) with
      | Some a => if p (As_Status a) then Some a else first_assessment p pairs
      | None => first_assessment p pairs
      end
  end.

Definition just_detail (a : option Assessment) (dflt : string * string) : string * string :=
  match a with Some a => (As_Justification a, As_Detail a) | None => dflt end.

Definition reconcileAssessment (pairs : list sourcePair) : option Assessment * list string :=
  let obs := assessment_obs pairs in
  match obs with
  | [] => (None, [])
  | _ :: _ =>
      let '(hasAffected, hasUnderInvestigation, allNotAffected) :=
        fold_left status_flags obs (false, false, true) in
      let jd := just_detail (first_assessment (λ s, bool_decide (s = AssessAffected)
                               || bool_decide (s = AssessUnderInvestigation)) pairs) ("", "") in
      let '(finalStatus, jd, conflicts) :=
        if hasAffected && allNotAffected then (AssessAffected, jd, [])
        else if hasAffected then
          (AssessAffected, jd, map fst (List.filter (λ o, bool_decide (o.2 = AssessNotAffected)) obs))
        else if hasUnderInvestigation then (AssessUnderInvestigation, jd, [])
        else if allNotAffected then
          (AssessNotAffected,
           just_detail (first_assessment (λ s, bool_decide (s = AssessNotAffected)) pairs) jd, [])
        else (AssessUnderInvestigation, jd, []) in
      (Some (mkAssessment finalStatus jd.1 jd.2), conflicts)
  end.

(** ** Severity *)
Definition zero_observation : SeverityObservation := mkSeverityObservation "" "" None "" "" "" None.

(** The scored entries, each with its score. *)
Definition scored (entries : list scoredObservation) : list (float64 * scoredObservation) :=
  omap (λ e, (λ s, (s, e)) <$> Sev_Score (so_obs e)) entries.

Definition max_score (first : float64) (rest : list (float64 * scoredObservation)) : float64 :=
  fold_left (λ m e, if f_gt e.1 m then e.1 else m) rest first.

Fixpoint first_reaching (m : float64) (l : list (float64 * scoredObservation)) : SeverityObservation :=
  match l with
  | [] => zero_observation
  | e :: l => if f_ge e.1 m then so_obs e.2 else first_reaching m l
  end.

Definition mean_score (l : list (float64 * scoredObservation)) : float64 :=
  f_div (fold_left (λ s e, f_add s e.1) l f_zero) (f_of_Z (Z.of_nat (length l))).

Definition weighted_score (l : list (float64 * scoredObservation)) : float64 :=
  let '(wScore, weightSum) :=
    fold_left (λ acc e, (f_add acc.1 (f_mul e.1 (so_weight e.2)), f_add acc.2 (so_weight e.2)))
      l (f_zero, f_zero) in
  if f_gt weightSum f_zero then f_div wScore weightSum else f_zero.

Definition aggregated_observation (base : SeverityObservation) (score : float64) (strategy : string)
  : SeverityObservation :=
  mkSeverityObservation (Sev_Scheme base) (Sev_Version base) (Some score) (Sev_Level base) ""
    "aggregated" (Some (mkDerivationInfo strategy)).

Definition mergeSchemeObservations (entries : list scoredObservation) (strategy : string)
  : SeverityObservation :=
  match scored entries with
  | [] => match entries with e :: _ => so_obs e | [] => zero_observation end
  | ((s0, e0) :: rest) as scoredEntries =>
      if bool_decide (strategy = "mean") then
        aggregated_observation (so_obs e0) (mean_score scoredEntries) strategy
      else if bool_decide (strategy = "trust_weighted") then
        aggregated_observation (so_obs e0) (weighted_score scoredEntries) strategy
      else first_reaching (max_score s0 rest) scoredEntries
  end.

Definition set_scheme (k : string * string) (o : SeverityObservation) : SeverityObservation :=
  mkSeverityObservation k.1 k.2 (Sev_Score o) (Sev_Level o) (Sev_Vector o) (Sev_Source o)
    (Sev_Derivation o).

Definition scheme_key (o : SeverityObservation) : string * string := (Sev_Scheme o, Sev_Version o).

Definition provider_weight (weights : gmap string float64) (p : sourcePair) : float64 :=
  default (f_of_Z 1) (weights !! PRef_ID (Res_Provider (sp_result p))).

Definition computeSeverity (pairs : list sourcePair) (strategy : string) (weights : gmap string float64)
  : list SeverityObservation :=
  let g := fold_left (λ g p,
             let w := provider_weight weights p in
             fold_left (λ g sev, group_add (scheme_key sev) (mkScoredObservation sev w) g)
               (Find_Severity (sp_finding p)) g) pairs (([], ∅) : groups (string * string) scoredObservation) in
  map (λ k, set_scheme k (mergeSchemeObservations (default [] (g.2 !! k)) strategy)) g.1.

(** ** Identifiers *)
Definition all_identifiers (pairs : list sourcePair) : list TypedIdentifier :=
  concat (map (λ p, Find_Identifiers (sp_finding p)) pairs).

Definition norm_table (all : list TypedIdentifier) : gmap string TypedIdentifier :=
  fold_left (λ m i, match m !! norm_id i with None => <[norm_id i := i]> m | Some _ => m end) all ∅.

Definition mergeIdentifiers (pairs : list sourcePair) : list TypedIdentifier :=
  let all := all_identifiers pairs in
  let normToID := norm_table all in
  map (λ norm, default (mkTypedIdentifier "" "" "") (normToID !! norm)) (canonicalIdentifiers all).

(** ** Merged findings *)
Definition source_of (p : sourcePair) : FindingSource :=
  mkFindingSource (PRef_ID (Res_Provider (sp_result p))) (Res_ID (sp_result p)) (Find_ID (sp_finding p)).

Definition longest_title (first : string) (rest : list sourcePair) : string :=
  fold_left (λ t p, if bool_decide (String.length t < String.length (Find_Title (sp_finding p)))
                    then Find_Title (sp_finding p) else t) rest first.

(** [pairs[0]] panics on an empty group; [Aggregate] never passes one. *)
Definition buildMergedFinding (key : string) (pairs : list sourcePair) (strategy : string)
    (weights : gmap string float64) : option MergedFinding :=
  match pairs with
  | [] => None
  | p0 :: rest =>
      let '(assessment, conflicts) := reconcileAssessment pairs in
      Some (mkMergedFinding key (Find_Type (sp_finding p0))
              (longest_title (Find_Title (sp_finding p0)) rest)
              (mergeIdentifiers pairs) (map source_of pairs)
              (computeSeverity pairs strategy weights) assessment
              (mkSeverityConsensus strategy (Z.of_nat (length pairs)) conflicts))
  end.

Fixpoint submissionIDFrom (results : list ProviderResult) : string :=
  match results with
  | [] => ""
  | r :: results => if bool_decide (Res_SubmissionID r ≠ "") then Res_SubmissionID r
                    else submissionIDFrom results
  end.

Definition group_results (results : list ProviderResult) : groups string sourcePair :=
  fold_left (λ g r,
    if bool_decide (Exec_Status (Res_Execution r) ≠ ExecutionCompleted) then g
    else fold_left (λ g f, group_add (correlationKey r f) (mkSourcePair r f) g) (Res_Findings r) g)
    results ([], ∅).

Definition Aggregate (a : DefaultAggregator) (rand : string) (now : Time) (results : list ProviderResult)
  : MergedResult :=
  let g := group_results results in
  let strategy := if bool_decide (Agg_Strategy a = "") then "max" else Agg_Strategy a in
  mkMergedResult ("mgd_" +:+ rand) (submissionIDFrom results) (map Res_ID results)
    (omap (λ key, buildMergedFinding key (default [] (g.2 !! key)) strategy (Agg_ProviderWeights a)) g.1)
    now.
End aggregator.

(** ** Lemmas: grouping *)
Section grouping_lemmas.
Context {K A : Type} `{Countable K}.
Implicit Types (key : A → K) (l : list A).

(** The members of group [k]. *)
Definition group_of key (k : K) l : list A := List.filter (λ x, bool_decide (key x = k)) l.

Lemma group_by_snoc key l x : group_by key (l ++ [x]) = group_add (key x) x (group_by key l).
Proof. unfold group_by. by rewrite fold_left_app. Qed.

Lemma group_of_snoc key k l x :
  group_of key k (l ++ [x]) = group_of key k l ++ if bool_decide (key x = k) then [x] else [].
Proof. unfold group_of. rewrite List.filter_app. simpl. by case_bool_decide. Qed.

Lemma group_of_nil key k l : group_of key k l = [] ↔ k ∉ key <$> l.
Proof.
  induction l as [|x l IH]; csimpl; [set_solver|]. case_bool_decide; [set_solver|].
  unfold group_of in IH. rewrite IH. set_solver.
Qed.

Lemma group_by_lookup key l k :
  (group_by key l).2 !! k = match group_of key k l with [] => None | g => Some g end.
Proof.
  induction l as [|x l IH] using rev_ind; [done|].
  rewrite group_by_snoc group_of_snoc. unfold group_add. simpl. case_bool_decide as Hk.
  - rewrite Hk lookup_insert_eq IH. by destruct (group_of key k l).
  - rewrite lookup_insert_ne // IH List.app_nil_r. done.
Qed.

Lemma group_by_default key l k : default [] ((group_by key l).2 !! k) = group_of key k l.
Proof. rewrite group_by_lookup. by destruct (group_of key k l). Qed.

Lemma group_by_order key l :
  NoDup (group_by key l).1 ∧ ∀ k, k ∈ (group_by key l).1 ↔ k ∈ key <$> l.
Proof.
  induction l as [|x l [IHn IHe]] using rev_ind; [split; [constructor|done]|].
  rewrite group_by_snoc fmap_app. unfold group_add. simpl. rewrite group_by_lookup.
  destruct (group_of key (key x) l) eqn:E.
  - apply group_of_nil in E. rewrite -IHe in E. split; [|set_solver].
    apply NoDup_app; split; [done|split; [set_solver|apply NoDup_singleton]].
  - assert (key x ∈ key <$> l).
    { destruct (decide (key x ∈ key <$> l)) as [|Hn]; [done|]. apply group_of_nil in Hn. congruence. }
    split; [done|]. set_solver.
Qed.

Lemma group_of_other key k k' l :
  k' ≠ k → group_of key k' (List.filter (λ x, negb (bool_decide (key x = k))) l) = group_of key k' l.
Proof.
  intros Hne. unfold group_of. induction l as [|x l IH]; simpl; [done|].
  case_bool_decide as Hx; simpl; [rewrite bool_decide_false; [congruence|done]|].
  by rewrite IH.
Qed.

Lemma partition_perm (p : A → bool) l : l ≡ₚ List.filter p l ++ List.filter (λ x, negb (p x)) l.
Proof.
  induction l as [|x l IH]; simpl; [done|]. destruct (p x); simpl; [by constructor|].
  rewrite {1}IH. by rewrite Permutation_middle.
Qed.

(** The groups of any duplicate-free list of keys that covers [l] partition it. *)
Lemma groups_concat key ks l :
  NoDup ks → (∀ x, x ∈ l → key x ∈ ks) → concat (map (λ k, group_of key k l) ks) ≡ₚ l.
Proof.
  intros Hn. revert l. induction Hn as [|k ks Hk Hn IH]; intros l Hl; simpl.
  - destruct l as [|x l]; [done|]. specialize (Hl x). set_solver.
  - etrans; [|symmetry; apply (partition_perm (λ x, bool_decide (key x = k)) l)].
    apply Permutation_app_head.
    etrans; [|apply IH].
    + apply reflexive_eq. f_equal. apply map_ext_in. intros k' Hk'%list_elem_of_In.
      symmetry. apply group_of_other. set_solver.
    + intros x Hx%list_elem_of_In%filter_In. destruct Hx as [Hx%list_elem_of_In Hne].
      apply negb_true_iff, bool_decide_eq_false in Hne. apply Hl in Hx. set_solver.
Qed.
End grouping_lemmas.

Lemma group_of_perm {K A} `{EqDecision K} (key : A → K) k l l' :
  l ≡ₚ l' → List.filter (λ x, bool_decide (key x = k)) l ≡ₚ List.filter (λ x, bool_decide (key x = k)) l'.
Proof. induction 1; simpl; repeat case_bool_decide; try done; try by constructor. by etrans. Qed.

(** A nested loop is a loop over the concatenation. *)
Lemma fold_left_nested {A B C G} (f : G → C → G) (inner : A → list B) (pair : A → B → C) l g :
  fold_left (λ g a, fold_left (λ g b, f g (pair a b)) (inner a) g) l g
  = fold_left f (concat (map (λ a, map (pair a) (inner a)) l)) g.
Proof.
  revert g. induction l as [|a l IH]; intros g; simpl; [done|]. rewrite fold_left_app IH. f_equal.
  generalize (inner a). intros bs. revert g. induction bs as [|b bs IHb]; intros g; simpl; [done|].
  by rewrite IHb.
Qed.

Section aggregator_lemmas.
Context `{Unicode}.

(** ** What is aggregated: every finding of every completed result *)
Definition observations (results : list ProviderResult) : list sourcePair :=
  concat (map (λ r, map (mkSourcePair r)
                      (if decide (Exec_Status (Res_Execution r) = ExecutionCompleted)
                       then Res_Findings r else [])) results).

Definition pair_key (p : sourcePair) : string := correlationKey (sp_result p) (sp_finding p).

Lemma group_results_eq results : group_results results = group_by pair_key (observations results).
Proof.
  unfold group_results, group_by, observations.
  rewrite -(fold_left_nested (λ g p, group_add (pair_key p) p g)
              (λ r, if decide (Exec_Status (Res_Execution r) = ExecutionCompleted)
                    then Res_Findings r else []) mkSourcePair).
  generalize (([], ∅) : groups string sourcePair). induction results as [|r rs IH]; intros g; simpl; [done|].
  rewrite IH. f_equal. case_bool_decide; destruct (decide _); done.
Qed.

(** The merged finding of key [k]. *)
Definition merged_spec (strategy : string) (w : gmap string float64) (obs : list sourcePair) (k : string)
  (mf : MergedFinding) : Prop :=
  buildMergedFinding k (group_of pair_key k obs) strategy w = Some mf.

Definition agg_strategy (a : DefaultAggregator) : string :=
  if bool_decide (Agg_Strategy a = "") then "max" else Agg_Strategy a.

Lemma Forall2_omap_total {A B} (f : A → option B) l :
  (∀ x, x ∈ l → is_Some (f x)) → Forall2 (λ x y, f x = Some y) l (omap f l).
Proof.
  induction l as [|x l IH]; intros Hl; csimpl; [constructor|].
  destruct (Hl x) as [y Hy]; [set_solver|]. rewrite Hy. constructor; [done|]. apply IH. set_solver.
Qed.

Lemma Aggregate_groups a rand now results :
  Forall2 (merged_spec (agg_strategy a) (Agg_ProviderWeights a) (observations results))
    (group_by pair_key (observations results)).1 (MR_Findings (Aggregate a rand now results)).
Proof.
  unfold Aggregate. simpl. rewrite group_results_eq. fold (agg_strategy a).
  eapply Forall2_impl.
  - apply Forall2_omap_total. intros k Hk. rewrite group_by_default.
    apply group_by_order in Hk. destruct (group_of pair_key k (observations results)) eqn:E.
    + by apply group_of_nil in E.
    + unfold buildMergedFinding. case_match. done.
  - intros k mf. simpl. by rewrite group_by_default.
Qed.

Lemma build_fields k pairs st w mf :
  buildMergedFinding k pairs st w = Some mf →
  pairs ≠ [] ∧ MF_CorrelationKey mf = k ∧ MF_Sources mf = map source_of pairs
  ∧ Con_SourceCount (MF_Consensus mf) = Z.of_nat (length pairs)
  ∧ MF_Assessment mf = (reconcileAssessment pairs).1
  ∧ Con_Conflicts (MF_Consensus mf) = (reconcileAssessment pairs).2
  ∧ MF_Identifiers mf = mergeIdentifiers pairs
  ∧ MF_Severity mf = computeSeverity pairs st w.
Proof.
  destruct pairs as [|p0 rest]; simpl; [done|].
  destruct (reconcileAssessment (p0 :: rest)) as [asm c] eqn:E. by intros [= <-].
Qed.

Lemma merged_keys st w obs ks mfs :
  Forall2 (merged_spec st w obs) ks mfs → MF_CorrelationKey <$> mfs = ks.
Proof.
  induction 1 as [|k mf ks mfs Hk _ IH]; csimpl; [done|].
  apply build_fields in Hk as (_ & -> & _). by rewrite IH.
Qed.

Lemma merged_sources st w obs ks mfs :
  Forall2 (merged_spec st w obs) ks mfs →
  concat (MF_Sources <$> mfs) = map source_of (concat (map (λ k, group_of pair_key k obs) ks)).
Proof.
  induction 1 as [|k mf ks mfs Hk _ IH]; csimpl; [done|].
  apply build_fields in Hk as (_ & _ & -> & _). by rewrite IH map_app.
Qed.

(** [C14] Aggregation neither loses nor duplicates a finding: the sources of the
merged findings are, up to order, exactly the findings of the completed results;
merged findings have distinct correlation keys, and each one is backed by all the
observations with its key, in input order, at least one. *)
Theorem Aggregate_partition a rand now results :
  let m := Aggregate a rand now results in
  NoDup (MF_CorrelationKey <$> MR_Findings m)
  ∧ concat (MF_Sources <$> MR_Findings m) ≡ₚ map source_of (observations results)
  ∧ ∀ mf, mf ∈ MR_Findings m →
      MF_Sources mf = map source_of (group_of pair_key (MF_CorrelationKey mf) (observations results))
      ∧ MF_Sources mf ≠ []
      ∧ Con_SourceCount (MF_Consensus mf) = Z.of_nat (length (MF_Sources mf)).
Proof.
  intros m. pose proof (Aggregate_groups a rand now results) as Hg. fold m in Hg.
  destruct (group_by_order pair_key (observations results)) as [Hn He].
  split_and!.
  - by rewrite (merged_keys _ _ _ _ _ Hg).
  - rewrite (merged_sources _ _ _ _ _ Hg). apply Permutation_map, groups_concat; [done|].
    intros x Hx. apply He. by apply list_elem_of_fmap_2.
  - intros mf Hmf. apply list_elem_of_lookup in Hmf as [i Hi].
    destruct (Forall2_lookup_r _ _ _ _ _ Hg Hi) as (k & _ & Hk).
    apply build_fields in Hk as (Hne & -> & -> & -> & _). rewrite length_map. split_and!; try done.
    by destruct (group_of pair_key k (observations results)).
Qed.

(** ** VEX reconciliation *)
Definition statuses (pairs : list sourcePair) : list AssessmentStatus :=
  snd <$> assessment_obs pairs.

Lemma status_flags_fold obs aff inv alln :
  fold_left status_flags obs (aff, inv, alln)
  = (aff || existsb (λ o, bool_decide (o.2 = AssessAffected)) obs,
     inv || existsb (λ o, bool_decide (o.2 = AssessUnderInvestigation)) obs,
     alln && forallb (λ o, bool_decide (o.2 = AssessNotAffected)) obs).
Proof.
  revert aff inv alln. induction obs as [|[i st] obs IH]; intros aff inv alln; simpl.
  - by rewrite !orb_false_r andb_true_r.
  - destruct (decide (st = AssessAffected)) as [->|H1]; [by rewrite /= IH orb_true_r andb_false_r|].
    destruct (decide (st = AssessUnderInvestigation)) as [->|H2];
      [by rewrite /= IH orb_true_r andb_false_r|].
    rewrite !(bool_decide_false (st = AssessAffected)) // !(bool_decide_false (st = AssessUnderInvestigation)) //.
    destruct (decide (st = AssessNotAffected)) as [->|H3]; [by rewrite /= IH|].
    rewrite (bool_decide_true (st ≠ _)) // (bool_decide_false (st = AssessNotAffected)) //.
    by rewrite IH /= andb_false_r.
Qed.

(** The reconciled status by the rules in the comment of [reconcileAssessment]: any
"affected" wins.  Section 9.3 of docs/ARCHITECTURE.md has these rules too, but its last
row and the comment in api/merged.go give "under_investigation" for "affected" against
"not_affected", which is not what the code does. *)
Definition vex_status (l : list AssessmentStatus) : option AssessmentStatus :=
  if decide (l = []) then None
  else if decide (AssessAffected ∈ l) then Some AssessAffected
  else if decide (Forall (eq AssessNotAffected) l) then Some AssessNotAffected
  else Some AssessUnderInvestigation.

Lemma existsb_status obs st :
  existsb (λ o : string * AssessmentStatus, bool_decide (o.2 = st)) obs = bool_decide (st ∈ obs.*2).
Proof.
  induction obs as [|o obs IH]; csimpl; [done|]. rewrite IH.
  rewrite -bool_decide_or. apply bool_decide_ext. set_solver.
Qed.

Lemma forallb_status obs st :
  forallb (λ o : string * AssessmentStatus, bool_decide (o.2 = st)) obs = bool_decide (Forall (eq st) obs.*2).
Proof.
  induction obs as [|o obs IH]; csimpl; [done|]. rewrite IH.
  rewrite -bool_decide_and. apply bool_decide_ext. rewrite Forall_cons. naive_solver.
Qed.

Lemma reconcile_status pairs : As_Status <$> (reconcileAssessment pairs).1 = vex_status (statuses pairs).
Proof.
  unfold reconcileAssessment, vex_status, statuses. destruct (assessment_obs pairs) as [|o obs] eqn:E; [done|].
  rewrite status_flags_fold existsb_status existsb_status forallb_status. cbn [orb andb].
  destruct (decide ((o :: obs).*2 = [])); [done|].
  destruct (decide (AssessAffected ∈ (o :: obs).*2)) as [Ha|Ha].
  - rewrite (bool_decide_true (AssessAffected ∈ _)) //. by case_bool_decide.
  - rewrite (bool_decide_false (AssessAffected ∈ _)) //=.
    destruct (decide (Forall (eq AssessNotAffected) _)) as [Hn|Hn].
    + rewrite (bool_decide_true (Forall _ _)) // bool_decide_false //.
      intros Hi. eapply Forall_forall in Hi; [|exact Hn]. done.
    + rewrite (bool_decide_false (Forall _ _)) //. by case_bool_decide.
Qed.

Lemma reconcile_conflicts pairs :
  (reconcileAssessment pairs).2
  = if decide (AssessAffected ∈ statuses pairs)
    then map fst (List.filter (λ o, bool_decide (o.2 = AssessNotAffected)) (assessment_obs pairs)) else [].
Proof.
  unfold reconcileAssessment, statuses. destruct (assessment_obs pairs) as [|o obs] eqn:E.
  { destruct (decide _); set_solver. }
  rewrite status_flags_fold existsb_status existsb_status forallb_status. cbn [orb andb].
  destruct (decide (AssessAffected ∈ (o :: obs).*2)) as [Ha|Ha].
  - rewrite (bool_decide_true (AssessAffected ∈ _)) // bool_decide_false //.
    intros Hi. eapply Forall_forall in Ha; [|exact Hi]. done.
  - rewrite (bool_decide_false (AssessAffected ∈ _)) //=. repeat case_bool_decide; done.
Qed.

Lemma assessment_obs_perm pairs pairs' :
  pairs ≡ₚ pairs' → assessment_obs pairs ≡ₚ assessment_obs pairs'.
Proof. intros Hp. unfold assessment_obs. by rewrite Hp. Qed.

#[local] Instance statuses_proper : Proper ((≡ₚ) ==> (≡ₚ)) statuses.
Proof. intros p q Hp. unfold statuses. by rewrite (assessment_obs_perm _ _ Hp). Qed.

#[local] Instance vex_status_proper : Proper ((≡ₚ) ==> (=)) vex_status.
Proof.
  intros l k Hp. unfold vex_status.
  assert (l = [] ↔ k = []) by (split; intros ->; [by apply Permutation_nil|by apply Permutation_nil; symmetry]).
  assert (AssessAffected ∈ l ↔ AssessAffected ∈ k) by (by rewrite Hp).
  assert (Forall (eq AssessNotAffected) l ↔ Forall (eq AssessNotAffected) k) by (by rewrite Hp).
  repeat destruct (decide _); naive_solver.
Qed.

Lemma conflicts_perm pairs pairs' :
  pairs ≡ₚ pairs' → (reconcileAssessment pairs').2 ≡ₚ (reconcileAssessment pairs).2.
Proof.
  intros Hp. rewrite !reconcile_conflicts.
  assert (AssessAffected ∈ statuses pairs ↔ AssessAffected ∈ statuses pairs') as Heq by (by rewrite Hp).
  destruct (decide _), (decide _); try tauto; try done.
  by apply Permutation_map, (group_of_perm snd), assessment_obs_perm.
Qed.

Lemma status_perm pairs pairs' :
  pairs ≡ₚ pairs' →
  As_Status <$> (reconcileAssessment pairs').1 = As_Status <$> (reconcileAssessment pairs).1.
Proof. intros Hp. by rewrite !reconcile_status Hp. Qed.

(** [C18] The VEX lattice of the code: no assessment gives none, any "affected" wins,
also against a "not_affected" (where docs/ARCHITECTURE.md 9.3 asks for
"under_investigation" in its last row), unanimous "not_affected" is kept, everything
else is "under_investigation"; the conflicts are exactly the results that said
"not_affected" against an "affected"; and neither depends on the order in which the
sources are visited. *)
Theorem reconcileAssessment_lattice pairs :
  As_Status <$> (reconcileAssessment pairs).1 = vex_status (statuses pairs)
  ∧ (∀ id, id ∈ (reconcileAssessment pairs).2 ↔
      AssessAffected ∈ statuses pairs ∧ (id, AssessNotAffected) ∈ assessment_obs pairs)
  ∧ ∀ pairs', pairs ≡ₚ pairs' →
      As_Status <$> (reconcileAssessment pairs').1 = As_Status <$> (reconcileAssessment pairs).1
      ∧ (reconcileAssessment pairs').2 ≡ₚ (reconcileAssessment pairs).2.
Proof.
  split; [apply reconcile_status|]. split; [|eauto using status_perm, conflicts_perm].
  intros id. rewrite reconcile_conflicts. destruct (decide _) as [Ha|Ha]; [|set_solver].
  split.
  - intros ([i st] & -> & Hin)%list_elem_of_fmap. split; [done|].
    apply list_elem_of_In, filter_In in Hin as [Hin%list_elem_of_In Hst]. simpl in *.
    by apply bool_decide_eq_true in Hst as ->.
  - intros [_ Hin]. apply list_elem_of_fmap. exists (id, AssessNotAffected). split; [done|].
    by apply list_elem_of_In, filter_In; split; [apply list_elem_of_In|].
Qed.

(** ** Severity consensus *)
Definition scores (entries : list scoredObservation) : list float64 := (scored entries).*1.

Lemma max_score_ub rest m0 :
  is_nan m0 = false → Forall (λ e, is_nan e.1 = false) rest →
  is_nan (max_score m0 rest) = false ∧ f_le m0 (max_score m0 rest) = true
  ∧ Forall (λ e, f_le e.1 (max_score m0 rest) = true) rest
  ∧ (max_score m0 rest = m0 ∨ max_score m0 rest ∈ rest.*1).
Proof.
  unfold max_score. intros Hm Hr. revert m0 Hm. induction Hr as [|e rest He Hr IH]; intros m0 Hm; simpl.
  - split_and!; auto using f_le_refl.
  - destruct (f_gt e.1 m0) eqn:E.
    + destruct (IH e.1 He) as (H1 & H2 & H3 & H4). split_and!; try done.
      * eapply f_le_trans; [|exact H2]. by apply f_lt_le.
      * by constructor.
      * set_solver.
    + destruct (IH m0 Hm) as (H1 & H2 & H3 & H4). split_and!; try done.
      * constructor; [|done]. eapply f_le_trans; [|exact H2]. by apply f_not_lt_le.
      * set_solver.
Qed.

Lemma first_reaching_spec m l :
  (∃ e, e ∈ l ∧ f_le m e.1 = true) → ∃ e, e ∈ l ∧ f_le m e.1 = true ∧ first_reaching m l = so_obs e.2.
Proof.
  induction l as [|e l IH]; [set_solver|]. intros (x & Hx & Hm). simpl. unfold f_ge.
  destruct (SFleb m e.1) eqn:E; [exists e; set_solver|].
  destruct IH as (y & ? & ? & ?); [|exists y; set_solver].
  exists x. split; [|done]. apply elem_of_cons in Hx as [->|]; [|done]. unfold f_le in Hm. congruence.
Qed.

Lemma scored_elem s e entries :
  (s, e) ∈ scored entries ↔ e ∈ entries ∧ Sev_Score (so_obs e) = Some s.
Proof.
  unfold scored. rewrite list_elem_of_omap. split.
  - intros (x & Hx & (y & Hy & [= -> ->])%fmap_Some). done.
  - intros [He Hs]. exists e. by rewrite Hs.
Qed.

(** With the default strategy the merged observation of a scheme is one of the
provider's own observations and its score is the maximum: no other scored
observation exceeds it. *)
Theorem mergeSchemeObservations_max entries strategy s0 :
  strategy ≠ "mean" → strategy ≠ "trust_weighted" →
  s0 ∈ scores entries → Forall (λ s, is_nan s = false) (scores entries) →
  ∃ e s, e ∈ entries ∧ mergeSchemeObservations entries strategy = so_obs e
    ∧ Sev_Score (so_obs e) = Some s ∧ ∀ s', s' ∈ scores entries → f_le s' s = true.
Proof.
  intros Hm Ht Hs Hnan. unfold mergeSchemeObservations, scores in *.
  destruct (scored entries) as [|[s1 e1] rest] eqn:E; [set_solver|].
  rewrite (bool_decide_false (strategy = "mean")) // (bool_decide_false (strategy = _)) //.
  rewrite fmap_cons Forall_cons Forall_fmap in Hnan.
  destruct Hnan as [Hn1 Hn]. destruct (max_score_ub rest s1 Hn1 Hn) as (Hmn & H1 & H2 & H3).
  set (m := max_score s1 rest) in *.
  destruct (first_reaching_spec m ((s1, e1) :: rest)) as ([s e] & Hin & Hge & Heq).
  { destruct H3 as [->|([s e] & -> & Hin)%list_elem_of_fmap].
    - exists (s1, e1). split; [set_solver|by apply f_le_refl].
    - exists (s, e). split; [set_solver|by apply f_le_refl]. }
  assert (He : e ∈ entries ∧ Sev_Score (so_obs e) = Some s) by (apply scored_elem; by rewrite E).
  exists e, s. split_and!; [apply He|exact Heq|apply He|]. intros s' Hs'. apply f_le_trans with m; [|done].
  apply elem_of_cons in Hs' as [->|([? x] & -> & Hx)%list_elem_of_fmap]; [done|].
  rewrite Forall_forall in H2. by apply (H2 _ Hx).
Qed.

(** Every severity observation of the group, with the weight of its provider. *)
Definition weighted_observations (weights : gmap string float64) (pairs : list sourcePair)
  : list scoredObservation :=
  concat (map (λ p, map (λ sev, mkScoredObservation sev (provider_weight weights p))
                      (Find_Severity (sp_finding p))) pairs).

Lemma computeSeverity_eq pairs strategy weights :
  computeSeverity pairs strategy weights
  = let l := weighted_observations weights pairs in
    let key e := scheme_key (so_obs e) in
    map (λ k, set_scheme k (mergeSchemeObservations (group_of key k l) strategy)) (group_by key l).1.
Proof.
  unfold computeSeverity, weighted_observations. cbv zeta.
  rewrite (fold_left_nested (λ g e, group_add (scheme_key (so_obs e)) e g)
             (λ p, Find_Severity (sp_finding p))
             (λ p sev, mkScoredObservation sev (provider_weight weights p))).
  apply map_ext. intros k. do 2 f_equal. apply group_by_default.
Qed.

(** A merged finding carries exactly one severity observation per
(scheme, version) pair its sources report, merged from all of their observations
of that scheme and only those. *)
Theorem computeSeverity_schemes pairs strategy weights :
  let l := weighted_observations weights pairs in
  let out := computeSeverity pairs strategy weights in
  NoDup (scheme_key <$> out)
  ∧ (∀ k, k ∈ scheme_key <$> out ↔ k ∈ (λ e, scheme_key (so_obs e)) <$> l)
  ∧ ∀ o, o ∈ out → o = set_scheme (scheme_key o)
      (mergeSchemeObservations (group_of (λ e, scheme_key (so_obs e)) (scheme_key o) l) strategy).
Proof.
  intros l out. unfold out. rewrite computeSeverity_eq. cbv zeta. fold l.
  destruct (group_by_order (λ e, scheme_key (so_obs e)) l) as [Hn He].
  assert (Hk : ∀ f ks, scheme_key <$> map (λ k, set_scheme k (f k)) ks = ks).
  { intros f ks. induction ks as [|[] ks IH]; [done|]. rewrite map_cons fmap_cons IH. done. }
  rewrite Hk. split_and!; try done.
  intros o (k & -> & _)%list_elem_of_fmap. by destruct k.
Qed.

(** ** Identifiers *)
Definition norms (ids : list TypedIdentifier) : list string := norm_id <$> ids.

Lemma classify_spec ids :
  let '(seen, cves, others) := classify ids in
  NoDup cves ∧ NoDup others
  ∧ (∀ n, n ∈ seen ↔ n ≠ "" ∧ n ∈ norms ids)
  ∧ (∀ n, n ∈ cves ↔ n ≠ "" ∧ n ∈ norms ids ∧ HasPrefix n "CVE-" = true)
  ∧ (∀ n, n ∈ others ↔ n ≠ "" ∧ n ∈ norms ids ∧ HasPrefix n "CVE-" = false).
Proof.
  unfold norms. induction ids as [|i ids IH] using rev_ind.
  { simpl. split_and!; try constructor; set_solver. }
  unfold classify in *. rewrite fold_left_app fmap_app. simpl.
  destruct (fold_left classify_step ids _) as [[seen cves] others]. simpl.
  destruct IH as (Hc & Ho & Hs & HC & HO).
  destruct (decide (norm_id i = "")) as [He|He].
  { rewrite He /=. split_and!; try done; intros n; rewrite elem_of_app list_elem_of_singleton;
      rewrite ?Hs ?HC ?HO; intuition congruence. }
  rewrite (bool_decide_false _ He) /=. destruct (decide (norm_id i ∈ seen)) as [Hi|Hi].
  { rewrite (bool_decide_true _ Hi). apply Hs in Hi.
    split_and!; try done; intros n; rewrite elem_of_app list_elem_of_singleton;
      rewrite ?Hs ?HC ?HO; (destruct (decide (n = norm_id i)) as [->|Hn]; [tauto|]); intuition. }
  rewrite (bool_decide_false _ Hi). rewrite Hs in Hi.
  assert (∀ (l : list string) x, NoDup l → x ∉ l → NoDup (l ++ [x])) as Hsnoc.
  { intros l x Hl Hx. apply NoDup_app; split; [done|split; [set_solver|apply NoDup_singleton]]. }
  destruct (HasPrefix (norm_id i) "CVE-") eqn:Hp; split_and!; try done;
    try (apply Hsnoc; [done|]; rewrite ?HC ?HO; tauto);
    intros n; rewrite ?elem_of_union ?elem_of_app ?elem_of_singleton ?list_elem_of_singleton ?Hs ?HC ?HO;
    (destruct (decide (n = norm_id i)) as [->|Hn]; [rewrite ?Hp|]); intuition congruence.
Qed.

(** Two identifier lists with the same normalized CVEs have the same sorted CVEs. *)
Lemma sorted_cves_ext ids ids' :
  (∀ n, HasPrefix n "CVE-" = true → n ∈ norms ids ↔ n ∈ norms ids') →
  sort_strings (classify ids).1.2 = sort_strings (classify ids').1.2.
Proof.
  intros He. apply sort_strings_ext. pose proof (classify_spec ids) as H1.
  pose proof (classify_spec ids') as H2. destruct (classify ids) as [[? c] ?], (classify ids') as [[? c'] ?].
  simpl. apply NoDup_Permutation; [apply H1|apply H2|]. intros n.
  destruct H1 as (_ & _ & _ & -> & _), H2 as (_ & _ & _ & -> & _). naive_solver.
Qed.

Lemma sorted_others_ext ids ids' :
  (∀ n, n ∈ norms ids ↔ n ∈ norms ids') →
  sort_strings (classify ids).2 = sort_strings (classify ids').2.
Proof.
  intros He. apply sort_strings_ext. pose proof (classify_spec ids) as H1.
  pose proof (classify_spec ids') as H2. destruct (classify ids) as [[? ?] c], (classify ids') as [[? ?] c'].
  simpl. apply NoDup_Permutation; [apply H1|apply H2|]. intros n.
  destruct H1 as (_ & _ & _ & _ & ->), H2 as (_ & _ & _ & _ & ->). naive_solver.
Qed.

Lemma canonicalIdentifiers_eq ids :
  canonicalIdentifiers ids = sort_strings (classify ids).1.2 ++ sort_strings (classify ids).2.
Proof. unfold canonicalIdentifiers. by destruct (classify ids) as [[] ]. Qed.

Lemma canonicalIdentifiers_ext ids ids' :
  (∀ n, n ∈ norms ids ↔ n ∈ norms ids') → canonicalIdentifiers ids = canonicalIdentifiers ids'.
Proof.
  intros He. rewrite !canonicalIdentifiers_eq.
  by rewrite (sorted_cves_ext ids ids') ?(sorted_others_ext ids ids').
Qed.

Lemma canonicalIdentifiers_elem ids n : n ∈ canonicalIdentifiers ids ↔ n ≠ "" ∧ n ∈ norms ids.
Proof.
  rewrite canonicalIdentifiers_eq. pose proof (classify_spec ids) as H1.
  destruct (classify ids) as [[s c] o]. simpl. destruct H1 as (_ & _ & _ & HC & HO).
  rewrite elem_of_app !sort_strings_perm HC HO. destruct (HasPrefix n "CVE-"); naive_solver.
Qed.

Lemma canonicalIdentifiers_NoDup ids : NoDup (canonicalIdentifiers ids).
Proof.
  rewrite canonicalIdentifiers_eq. pose proof (classify_spec ids) as H1.
  destruct (classify ids) as [[s c] o]. simpl. destruct H1 as (Hc & Ho & _ & HC & HO).
  rewrite !sort_strings_perm. apply NoDup_app; split_and!; try done.
  intros n (_ & _ & H1)%HC (_ & _ & H2)%HO. congruence.
Qed.

Lemma norm_table_spec ids n :
  match norm_table ids !! n with
  | Some i => i ∈ ids ∧ norm_id i = n
  | None => n ∉ norms ids
  end.
Proof.
  unfold norm_table, norms. induction ids as [|i ids IH] using rev_ind; [rewrite lookup_empty; set_solver|].
  rewrite fold_left_app fmap_app /=.
  set (m := fold_left _ ids ∅) in *.
  destruct (decide (norm_id i = n)) as [<-|Hne].
  - destruct (m !! norm_id i) eqn:E.
    + rewrite E. destruct IH. split; [set_solver|done].
    + rewrite lookup_insert_eq. set_solver.
  - assert (Hm : (match m !! norm_id i with None => <[norm_id i := i]> m | Some _ => m end) !! n = m !! n).
    { destruct (m !! norm_id i); [done|]. by rewrite lookup_insert_ne. }
    rewrite Hm. destruct (m !! n); set_solver.
Qed.

Lemma mergeIdentifiers_norms pairs :
  norm_id <$> mergeIdentifiers pairs = canonicalIdentifiers (all_identifiers pairs)
  ∧ ∀ i, i ∈ mergeIdentifiers pairs → i ∈ all_identifiers pairs.
Proof.
  unfold mergeIdentifiers. set (all := all_identifiers pairs).
  assert (Hall : ∀ n, n ∈ canonicalIdentifiers all →
            ∃ i, norm_table all !! n = Some i ∧ i ∈ all ∧ norm_id i = n).
  { intros n (_ & Hn)%canonicalIdentifiers_elem. pose proof (norm_table_spec all n) as Ht.
    destruct (norm_table all !! n) as [i|]; [|done]. by exists i. }
  split.
  - rewrite -list_fmap_compose. rewrite -{2}(list_fmap_id (canonicalIdentifiers all)).
    apply list_fmap_ext. intros k n Hk. simpl.
    apply list_elem_of_lookup_2, Hall in Hk as (i & -> & _ & <-). done.
  - intros i (n & -> & (j & -> & ? & _)%Hall)%list_elem_of_fmap. done.
Qed.

(** The identifiers of a merged finding are the union of its sources'
identifiers up to case and surrounding space: each normalized value appears once,
in the canonical order (sorted CVEs, then the others sorted), represented by an
identifier of one of the sources. *)
Theorem mergeIdentifiers_union pairs :
  let all := all_identifiers pairs in
  norm_id <$> mergeIdentifiers pairs = canonicalIdentifiers all
  ∧ NoDup (norm_id <$> mergeIdentifiers pairs)
  ∧ (∀ n, n ∈ norm_id <$> mergeIdentifiers pairs ↔ n ≠ "" ∧ n ∈ norm_id <$> all)
  ∧ (∀ i, i ∈ mergeIdentifiers pairs → i ∈ all)
  ∧ ∃ cves others, norm_id <$> mergeIdentifiers pairs = cves ++ others
      ∧ StronglySorted String.le cves ∧ StronglySorted String.le others
      ∧ Forall (λ n, HasPrefix n "CVE-" = true) cves ∧ Forall (λ n, HasPrefix n "CVE-" = false) others.
Proof.
  intros all.
  destruct (mergeIdentifiers_norms pairs) as [-> Hin]. fold all in Hin. fold all.
  split_and!; [done|apply canonicalIdentifiers_NoDup|apply canonicalIdentifiers_elem|done|].
  rewrite canonicalIdentifiers_eq. pose proof (classify_spec all) as H1.
  destruct (classify all) as [[s c] o]. simpl. destruct H1 as (_ & _ & _ & HC & HO).
  eexists _, _. split; [done|]. split_and!; try apply sort_strings_sorted; rewrite sort_strings_perm Forall_forall.
  - intros n ?%HC. naive_solver.
  - intros n ?%HO. naive_solver.
Qed.

Lemma anchorIdentifiers_eq ids :
  anchorIdentifiers ids
  = if bool_decide (sort_strings (classify ids).1.2 = []) then sort_strings (classify ids).2
    else sort_strings (classify ids).1.2.
Proof. unfold anchorIdentifiers. by destruct (classify ids) as [[] ]. Qed.

Lemma anchor_cve_ext ids ids' c :
  c ∈ norms ids → HasPrefix c "CVE-" = true →
  (∀ n, HasPrefix n "CVE-" = true → n ∈ norms ids ↔ n ∈ norms ids') →
  anchorIdentifiers ids = anchorIdentifiers ids'.
Proof.
  intros Hc Hp He. rewrite !anchorIdentifiers_eq -(sorted_cves_ext ids ids' He).
  rewrite bool_decide_false //. intros Hn. apply (f_equal (λ l, c ∈ l)) in Hn.
  assert (c ∈ sort_strings (classify ids).1.2) as Hin; [|rewrite Hn in Hin; set_solver].
  rewrite sort_strings_perm. pose proof (classify_spec ids) as H1.
  destruct (classify ids) as [[s cs] o]. simpl. apply H1. split_and!; try done. intros ->. done.
Qed.

(** Findings with a CVE correlate on the subject and the set of CVEs alone:
two findings about the same PURL that cite the same CVEs have the same key, in
whatever order, spelling (case, surrounding space) and multiplicity, whatever
other identifiers (GHSA, OSV, ...) they carry and whichever provider reports
them. *)
Theorem correlationKey_cve r f r' f' c :
  firstSubjectPURL f = firstSubjectPURL f' →
  c ∈ norms (Find_Identifiers f) → HasPrefix c "CVE-" = true →
  (∀ n, HasPrefix n "CVE-" = true → n ∈ norms (Find_Identifiers f) ↔ n ∈ norms (Find_Identifiers f')) →
  correlationKey r f = correlationKey r' f'.
Proof.
  intros Hs Hc Hp He. unfold correlationKey. rewrite Hs (anchor_cve_ext _ _ _ Hc Hp He).
  assert (c ∈ norms (Find_Identifiers f')) as Hc' by (by apply He).
  destruct (Find_Identifiers f); [by apply elem_of_nil in Hc|].
  by destruct (Find_Identifiers f'); [apply elem_of_nil in Hc'|].
Qed.

(** ** The order of the provider results *)
Lemma concat_perm {A} (l k : list (list A)) : l ≡ₚ k → concat l ≡ₚ concat k.
Proof.
  induction 1; simpl; try done; [by apply Permutation_app_head| |by etrans].
  rewrite !(assoc_L (++)). apply Permutation_app_tail, Permutation_app_comm.
Qed.

Lemma observations_perm results results' :
  results ≡ₚ results' → observations results ≡ₚ observations results'.
Proof. intros Hp. unfold observations. by apply concat_perm, Permutation_map. Qed.

Lemma merged_ids_perm pairs pairs' :
  pairs ≡ₚ pairs' → norm_id <$> mergeIdentifiers pairs = norm_id <$> mergeIdentifiers pairs'.
Proof.
  intros Hp. rewrite !(proj1 (mergeIdentifiers_norms _)).
  apply canonicalIdentifiers_ext. intros n. unfold norms, all_identifiers.
  by rewrite (concat_perm _ _ (Permutation_map _ Hp)).
Qed.

(** Two merged findings that may differ only in the order of what they list. *)
Definition same_merged (mf mf' : MergedFinding) : Prop :=
  MF_CorrelationKey mf = MF_CorrelationKey mf'
  ∧ MF_Sources mf ≡ₚ MF_Sources mf'
  ∧ norm_id <$> MF_Identifiers mf = norm_id <$> MF_Identifiers mf'
  ∧ scheme_key <$> MF_Severity mf ≡ₚ scheme_key <$> MF_Severity mf'
  ∧ As_Status <$> MF_Assessment mf = As_Status <$> MF_Assessment mf'
  ∧ Con_Conflicts (MF_Consensus mf) ≡ₚ Con_Conflicts (MF_Consensus mf')
  ∧ Con_SourceCount (MF_Consensus mf) = Con_SourceCount (MF_Consensus mf').

Lemma severity_perm st w pairs pairs' :
  pairs ≡ₚ pairs' → scheme_key <$> computeSeverity pairs st w ≡ₚ scheme_key <$> computeSeverity pairs' st w.
Proof.
  intros Hp. destruct (computeSeverity_schemes pairs st w) as (Hn & He & _).
  destruct (computeSeverity_schemes pairs' st w) as (Hn' & He' & _).
  apply NoDup_Permutation; [done..|]. intros k. rewrite He He'. unfold weighted_observations.
  by rewrite (concat_perm _ _ (Permutation_map _ Hp)).
Qed.

Lemma merged_perm st w k obs obs' mf mf' :
  obs ≡ₚ obs' → merged_spec st w obs k mf → merged_spec st w obs' k mf' → same_merged mf mf'.
Proof.
  intros Hp (_ & E1 & E2 & E3 & E4 & E5 & E6 & E7)%build_fields
    (_ & F1 & F2 & F3 & F4 & F5 & F6 & F7)%build_fields.
  unfold same_merged. rewrite E1 E2 E3 E4 E5 E6 E7 F1 F2 F3 F4 F5 F6 F7.
  pose proof (group_of_perm pair_key k _ _ Hp) as Hg.
  fold (group_of pair_key k obs) (group_of pair_key k obs') in Hg.
  split_and!; try done.
  - by apply Permutation_map.
  - by apply merged_ids_perm.
  - by apply severity_perm.
  - by rewrite (status_perm _ _ Hg).
  - by rewrite (conflicts_perm _ _ Hg).
  - by rewrite (Permutation_length Hg).
Qed.

(** [C22] What does not depend on the order in which provider results come back (the
store hands them out in map order): the merged findings have the same keys and, key by
key, the same sources, the same identifiers up to case and surrounding space (their
normalised values, in the same order), the same severity schemes, reconciled status,
conflicts and source count.  The type, the spelling of an identifier and the title are
the first source's and do depend on it: [merged_type_of_first]. *)
Theorem Aggregate_order a rand now results results' :
  results ≡ₚ results' →
  let m := Aggregate a rand now results in
  let m' := Aggregate a rand now results' in
  MF_CorrelationKey <$> MR_Findings m ≡ₚ MF_CorrelationKey <$> MR_Findings m'
  ∧ ∀ mf, mf ∈ MR_Findings m → ∃ mf', mf' ∈ MR_Findings m' ∧ same_merged mf mf'.
Proof.
  intros Hp m m'. apply observations_perm in Hp.
  pose proof (Aggregate_groups a rand now results) as Hg. fold m in Hg.
  pose proof (Aggregate_groups a rand now results') as Hg'. fold m' in Hg'.
  destruct (group_by_order pair_key (observations results)) as [Hn He].
  destruct (group_by_order pair_key (observations results')) as [Hn' He'].
  assert (Hk : (group_by pair_key (observations results)).1 ≡ₚ (group_by pair_key (observations results')).1).
  { apply NoDup_Permutation; [done..|]. intros k. by rewrite He He' Hp. }
  split; [by rewrite (merged_keys _ _ _ _ _ Hg) (merged_keys _ _ _ _ _ Hg')|].
  intros mf Hmf. apply list_elem_of_lookup in Hmf as [i Hi].
  destruct (Forall2_lookup_r _ _ _ _ _ Hg Hi) as (k & Hki & Hspec).
  apply list_elem_of_lookup_2 in Hki. rewrite Hk in Hki. apply list_elem_of_lookup in Hki as [j Hj].
  destruct (Forall2_lookup_l _ _ _ _ _ Hg' Hj) as (mf' & Hmf' & Hspec').
  exists mf'. split; [by eapply list_elem_of_lookup_2|by eapply merged_perm].
Qed.

(** ** Finite scores

With the strategy the gateway is built with (max), the merged scores are scores of the
results, so a merge of results JSON can carry is one too. *)
Lemma first_reaching_cases m l : first_reaching m l = zero_observation ∨ ∃ e, e ∈ l ∧ first_reaching m l = so_obs e.2.
Proof.
  induction l as [|e l IH]; simpl; [by left|]. destruct (f_ge _ _); [right; exists e; by split; [left|]|].
  destruct IH as [?|(x & ? & ?)]; [by left|right; exists x; by split; [right|]].
Qed.

Lemma merge_scheme_ok entries strategy :
  strategy ≠ "mean" → strategy ≠ "trust_weighted" →
  (∀ e, e ∈ entries → score_ok (Sev_Score (so_obs e)) = true) →
  score_ok (Sev_Score (mergeSchemeObservations entries strategy)) = true.
Proof.
  intros Hm Ht Hok. unfold mergeSchemeObservations. destruct (scored entries) as [|[s0 e0] rest] eqn:E.
  { destruct entries as [|e l]; [done|]. apply Hok. by left. }
  rewrite (bool_decide_false (strategy = "mean")) // (bool_decide_false (strategy = _)) //.
  destruct (first_reaching_cases (max_score s0 rest) ((s0, e0) :: rest)) as [->|([s e] & Hin & ->)]; [done|].
  rewrite -E in Hin. apply scored_elem in Hin as [Hin _]. by apply Hok.
Qed.

Lemma computeSeverity_ok pairs strategy weights :
  strategy ≠ "mean" → strategy ≠ "trust_weighted" →
  (∀ p, p ∈ pairs → finding_ok (sp_finding p) = true) →
  forallb (λ s, score_ok (Sev_Score s)) (computeSeverity pairs strategy weights) = true.
Proof.
  intros Hm Ht Hok. apply forallb_true. intros x Hx.
  destruct (computeSeverity_schemes pairs strategy weights) as (_ & _ & Hs). rewrite (Hs x Hx). simpl.
  apply merge_scheme_ok; [done..|]. intros e He.
  assert (e ∈ weighted_observations weights pairs) as Hin.
  { unfold group_of in He. by apply list_elem_of_In, filter_In in He as [He%list_elem_of_In _]. }
  unfold weighted_observations in Hin. apply list_elem_of_In, in_concat in Hin as (l & Hl%list_elem_of_In & Hin%list_elem_of_In).
  apply list_elem_of_fmap in Hl as (p & -> & Hp). apply list_elem_of_fmap in Hin as (sev & -> & Hsev). simpl.
  specialize (Hok p Hp). unfold finding_ok in Hok. rewrite !andb_true_iff in Hok. destruct Hok as [[[[_ Hok] _] _] _].
  by apply (proj1 (forallb_true _ _) Hok).
Qed.

Lemma observations_ok results p : all_json results → p ∈ observations results → finding_ok (sp_finding p) = true.
Proof.
  unfold observations. intros Hr Hp.
  apply list_elem_of_In, in_concat in Hp as (l & Hl%list_elem_of_In & Hin%list_elem_of_In).
  apply list_elem_of_fmap in Hl as (r & -> & Hl). apply list_elem_of_fmap in Hin as (f & -> & Hf). simpl.
  destruct (decide _); [|by apply elem_of_nil in Hf]. apply (proj1 (Forall_forall _ _) Hr) in Hl.
  simpl in Hl. rewrite !andb_true_iff in Hl. destruct Hl as [[[Hl _] _] _]. by apply (proj1 (forallb_true _ _) Hl).
Qed.

Lemma Aggregate_json a rand now results :
  Agg_Strategy a ≠ "mean" → Agg_Strategy a ≠ "trust_weighted" →
  all_json results → json_ok (Aggregate a rand now results) = true.
Proof.
  intros Hm Ht Hr. apply forallb_true. intros mf Hmf. apply list_elem_of_lookup in Hmf as [i Hi].
  destruct (Forall2_lookup_r _ _ _ _ _ (Aggregate_groups a rand now results) Hi) as (k & _ & Hk).
  apply build_fields in Hk as (_ & _ & _ & _ & _ & _ & _ & ->).
  apply computeSeverity_ok; try (unfold agg_strategy; by case_bool_decide).
  intros p Hp. apply (observations_ok results); [done|].
  unfold group_of in Hp. by apply list_elem_of_In, filter_In in Hp as [Hp%list_elem_of_In _].
Qed.

End aggregator_lemmas.

(** ** Concrete findings *)
Section examples.
#[local] Existing Instance ascii_unicode.

Definition sample_severity (score : option float64) : SeverityObservation :=
  mkSeverityObservation "cvss" "3.1" score "" "" "src" None.

Definition sample_finding (id : string) (ids : list string) (asm : option AssessmentStatus)
    (score : option float64) : Finding :=
  mkFinding id "vulnerability" "t" "" (map (λ v, mkTypedIdentifier "cve" v RelNone) ids)
    [mkArtifactRef (Some "pkg:npm/left-pad@1.3.0") ∅ None] "" [] [sample_severity score] []
    ((λ s, mkAssessment s "" "") <$> asm) [] [] None ∅ [] ∅.

Definition sample_result (id prov : string) (fs : list Finding) : ProviderResult :=
  mkProviderResult id "1.0" "sub_1" (mkProviderRef prov "1") ["vuln-scan"] ""
    (mkExecution ExecutionCompleted 1 2 None) None fs None None ∅.

Lemma correlationKey_cve_witness :
  let f := sample_finding "f1" ["CVE-2024-1"; "GHSA-x"] None None in
  let f' := sample_finding "f2" ["OSV-9"; " cve-2024-1 "; "CVE-2024-1"] None None in
  correlationKey (sample_result "r1" "osv" [f]) f = correlationKey (sample_result "r2" "oss" [f']) f'.
Proof.
  intros f f'. apply (correlationKey_cve _ f _ f' "CVE-2024-1").
  - reflexivity.
  - vm_compute. left.
  - reflexivity.
  - assert (norms (Find_Identifiers f) = ["CVE-2024-1"; "GHSA-X"]) as -> by (vm_compute; reflexivity).
    assert (norms (Find_Identifiers f') = ["OSV-9"; "CVE-2024-1"; "CVE-2024-1"]) as ->
      by (vm_compute; reflexivity).
    intros n Hn. rewrite !elem_of_cons. split.
    + intros [->|[->|Hx]]; [auto|done|by apply elem_of_nil in Hx].
    + intros [->|[->|[->|Hx]]]; [done|auto..|by apply elem_of_nil in Hx].
Defined.

(** Sharing a CVE is not enough: a finding that cites CVE-2024-1 and one that
cites CVE-2024-1 and CVE-2024-2, about the same package, have different
correlation keys and stay two merged findings. *)
Theorem shared_cve_not_correlated :
  let f := sample_finding "f1" ["CVE-2024-1"] None None in
  let f' := sample_finding "f2" ["CVE-2024-1"; "CVE-2024-2"] None None in
  let m := Aggregate NewDefaultAggregator "0" 0 [sample_result "r1" "osv" [f]; sample_result "r2" "oss" [f']] in
  correlationKey (sample_result "r1" "osv" [f]) f ≠ correlationKey (sample_result "r2" "oss" [f']) f'
  ∧ length (MR_Findings m) = 2.
Proof. vm_compute. split; [discriminate|reflexivity]. Qed.

Lemma mergeSchemeObservations_max_witness :
  let e x := mkScoredObservation (sample_severity x) (f_of_Z 1) in
  ∃ x s, x ∈ [e (Some (f_dec 75 1)); e None; e (Some (f_dec 98 1))]
  ∧ mergeSchemeObservations [e (Some (f_dec 75 1)); e None; e (Some (f_dec 98 1))] "max" = so_obs x
  ∧ Sev_Score (so_obs x) = Some s ∧ s = f_dec 98 1.
Proof.
  intros e.
  destruct (mergeSchemeObservations_max [e (Some (f_dec 75 1)); e None; e (Some (f_dec 98 1))] "max"
              (f_dec 75 1)) as (x & s & Hx & Hm & Hs & Hle).
  - discriminate.
  - discriminate.
  - vm_compute. left.
  - vm_compute. repeat constructor.
  - exists x, s. split_and!; try done. rewrite -Hm in Hs. vm_compute in Hs. injection Hs as <-. vm_compute. reflexivity.
Defined.

Lemma Aggregate_order_witness :
  let r1 := sample_result "r1" "osv" [sample_finding "f1" ["CVE-1"] (Some AssessAffected) None] in
  let r2 := sample_result "r2" "oss" [sample_finding "f2" ["CVE-1"] (Some AssessNotAffected) None] in
  MF_CorrelationKey <$> MR_Findings (Aggregate NewDefaultAggregator "0" 0 [r1; r2])
  ≡ₚ MF_CorrelationKey <$> MR_Findings (Aggregate NewDefaultAggregator "0" 0 [r2; r1]).
Proof.
  intros r1 r2. refine (proj1 (Aggregate_order NewDefaultAggregator "0" 0 [r1; r2] [r2; r1] _)).
  constructor.
Defined.
(** The type of a merged finding and the spelling of its identifiers are those of the
source that comes first; policy rules match the type. *)
Example merged_type_of_first :
  let f := sample_finding "f1" ["CVE-2024-1"] None None in
  let g := mkFinding "f2" "malware" "t" "" [mkTypedIdentifier "CVE" "cve-2024-1" RelNone]
             [mkArtifactRef (Some "pkg:npm/left-pad@1.3.0") ∅ None] "" [] [] [] None [] [] None ∅ [] ∅ in
  let m rs := MR_Findings (Aggregate NewDefaultAggregator "0" 0 rs) in
  let r1 := sample_result "r1" "osv" [f] in
  let r2 := sample_result "r2" "oss" [g] in
  MF_Type <$> m [r1; r2] = ["vulnerability"] ∧ MF_Type <$> m [r2; r1] = ["malware"]
  ∧ map Id_Value ∘ MF_Identifiers <$> m [r1; r2] = [["CVE-2024-1"]]
  ∧ map Id_Value ∘ MF_Identifiers <$> m [r2; r1] = [["cve-2024-1"]].
Proof. vm_compute. split_and!; reflexivity. Qed.

(** The other strategies compute: the mean of two finite scores can be infinite, which
JSON cannot carry. *)
Example mean_overflows :
  let f id := sample_finding id ["CVE-2024-1"] None (Some (f_of_Z (2 ^ 1023))) in
  let rs := [sample_result "r1" "osv" [f "f1"]; sample_result "r2" "oss" [f "f2"]] in
  forallb json_ok rs = true ∧ json_ok (Aggregate (mkDefaultAggregator "mean" ∅) "0" 0 rs) = false.
Proof. vm_compute. split; reflexivity. Qed.
End examples.
