(* ===== verification/Policy.v ===== *)
(** * Policy evaluation: [extensions/policies/yaml]

Documents and their validation ([document.go]), lookup and the engine
([engine.go]) and the evaluation of raw and merged results ([evaluate.go]).
[yaml.Unmarshal] is a parameter of [Parse], the directory listing and the file
contents are arguments of [LoadDir].  [RandHex] and the two clock readings of an
evaluation are its arguments. *)
From S2P Require Import Prelude GoString GoFloat GoTime Types Store Aggregator.

(** ** Documents *)
Record FindingWhen := mkFindingWhen {
  When_Assessment : string;
  When_SeverityScheme : string;
  When_MinScore : option float64;
  When_FindingType : string;
}.

Record FindingRule := mkFindingRule {
  Rule_When : FindingWhen;
  Rule_Decision : string;
  Rule_ReasonCode : string;
  Rule_Message : string;
}.

Record DeferSpec := mkDeferSpec { Defer_ResumeAfter : string }.

Record Spec := mkSpec {
  Spec_OnTimeout : string;
  Spec_OnError : string;
  Spec_OnMissingVerdict : string;
  Spec_Verdicts : strmap;
  Spec_Findings : list FindingRule;
  Spec_Defer : option DeferSpec;
  Spec_SeverityConsensus : string;
  Spec_ProviderPriority : list string;
  Spec_MergeConflicts : string;
}.

Record Metadata := mkMetadata {
  Meta_ID : string;
  Meta_Version : string;
  Meta_Description : string;
}.

Record Document := mkDocument {
  Doc_APIVersion : string;
  Doc_Kind : string;
  Doc_Metadata : Metadata;
  Doc_Spec : Spec;
}.

Definition validDecision (s : string) : bool :=
  bool_decide (s = DecisionAllow) || bool_decide (s = DecisionReview)
  || bool_decide (s = DecisionDeny) || bool_decide (s = DecisionDefer).

Fixpoint first_error {A} (f : A → option string) (l : list A) : res string () :=
  match l with
  | [] => Ok ()
  | x :: l => match f x with Some e => Err e | None => first_error f l end
  end.

Definition check (ok : bool) (msg : string) : res string () := if ok then Ok () else Err msg.

Definition validate_rule (ir : nat * FindingRule) : option string :=
  let p := "spec.findings[" +:+ fmt_d (Z.of_nat ir.1) +:+ "]" in
  if negb (validDecision (Rule_Decision ir.2)) then
    Some (p +:+ ".decision: invalid " +:+ quoted (Rule_Decision ir.2))
  else if bool_decide (Rule_ReasonCode ir.2 = "") then Some (p +:+ ".reason_code is required")
  else None.

Definition Validate `{GoMaps} (d : Document) : res string () :=
  let sp := Doc_Spec d in
  let? _ := check (bool_decide (Doc_APIVersion d = "scintx.policy/v1"))
              ("unsupported apiVersion " +:+ quoted (Doc_APIVersion d) +:+ " (want scintx.policy/v1)") in
  let? _ := check (bool_decide (Doc_Kind d = "Policy"))
              ("unsupported kind " +:+ quoted (Doc_Kind d) +:+ " (want Policy)") in
  let? _ := check (bool_decide (Meta_ID (Doc_Metadata d) ≠ "")) "metadata.id is required" in
  let? _ := check (bool_decide (Meta_Version (Doc_Metadata d) ≠ "")) "metadata.version is required" in
  let? _ := first_error (λ nv : string * string,
              if bool_decide (nv.2 = "") then None
              else if validDecision nv.2 then None
              else Some ("spec." +:+ nv.1 +:+ ": invalid decision " +:+ quoted nv.2))
              [("on_timeout", Spec_OnTimeout sp); ("on_error", Spec_OnError sp);
               ("on_missing_verdict", Spec_OnMissingVerdict sp)] in
  let? _ := first_error (λ kv : string * string,
              if validDecision kv.2 then None
              else Some ("spec.verdicts." +:+ kv.1 +:+ ": invalid decision " +:+ quoted kv.2))
              (map_iter (Spec_Verdicts sp)) in
  let? _ := first_error validate_rule (imap pair (Spec_Findings sp)) in
  let? _ := match Spec_Defer sp with
            | Some df =>
                if bool_decide (Defer_ResumeAfter df = "") then Ok ()
                else match ParseDuration (Defer_ResumeAfter df) with
                     | Ok _ => Ok ()
                     | Err e => Err ("spec.defer.resume_after: " +:+ e)
                     end
            | None => Ok ()
            end in
  let sc := Spec_SeverityConsensus sp in
  let? _ := check (bool_decide (sc = "") || bool_decide (sc = "max") || bool_decide (sc = "mean")
                   || bool_decide (sc = "trust_weighted"))
              ("spec.severity_consensus: invalid value " +:+ quoted sc
               +:+ " (want max, mean, or trust_weighted)") in
  let mc := Spec_MergeConflicts sp in
  check (bool_decide (mc = "") || validDecision mc)
    ("spec.merge_conflicts: invalid decision " +:+ quoted mc).

(** ** Loading *)
Section loading.
Context `{GoMaps} `{Unicode} (Unmarshal : string → res string Document).

Definition Parse (b : string) : res string Document :=
  match Unmarshal b with
  | Err e => Err ("yaml: " +:+ e)
  | Ok doc => let? _ := Validate doc in Ok doc
  end.

(** An entry of [os.ReadDir]; [DE_Content] is what [os.ReadFile] of it returns. *)
Record DirEntry := mkDirEntry {
  DE_Name : string;
  DE_IsDir : bool;
  DE_Content : res string string;
}.

Definition LoadFile (path : string) (content : res string string) : res string Document :=
  match content with
  | Err e => Err ("read " +:+ path +:+ ": " +:+ e)
  | Ok b => match Parse b with Err e => Err (path +:+ ": " +:+ e) | Ok doc => Ok doc end
  end.

(** [filepath.Ext] of a file name without separators: from its last dot on. *)
Fixpoint Ext (name : string) : string :=
  match name with
  | "" => ""
  | String c rest =>
      let e := Ext rest in
      if bool_decide (e ≠ "") then e else if bool_decide (c = "."%char) then name else ""
  end.

Definition is_policy_file (e : DirEntry) : bool :=
  let ext := ToLower (Ext (DE_Name e)) in
  negb (DE_IsDir e) && (bool_decide (ext = ".yaml") || bool_decide (ext = ".yml")).

(** The loop of [LoadDir].  The path only shows in error texts; [dir] is a clean path,
so [filepath.Join] puts one separator. *)
Fixpoint load_entries (dir : string) (entries : list DirEntry) (out : gmap string Document)
  : res string (gmap string Document) :=
  match entries with
  | [] => Ok out
  | e :: entries =>
      if negb (is_policy_file e) then load_entries dir entries out
      else
        let path := dir +:+ "/" +:+ DE_Name e in
        let? doc := LoadFile path (DE_Content e) in
        let id := Meta_ID (Doc_Metadata doc) in
        match out !! id with
        | Some _ => Err ("duplicate policy id " +:+ quoted id +:+ " in " +:+ path)
        | None => load_entries dir entries (<[id := doc]> out)
        end
  end.

Definition LoadDir (dir : string) (listing : res string (list DirEntry)) : res string (gmap string Document) :=
  match listing with
  | Err e => Err ("read policies dir " +:+ quoted dir +:+ ": " +:+ e)
  | Ok entries =>
      let? out := load_entries dir entries ∅ in
      if bool_decide (out = ∅) then Err ("no policy YAML files found in " +:+ quoted dir) else Ok out
  end.

Record Engine := mkEngine {
  Eng_policies : gmap string Document;
  Eng_dir : string;
}.

Definition LoadEngine (dir : string) (listing : res string (list DirEntry)) : res string Engine :=
  let? docs := LoadDir dir listing in Ok (mkEngine docs dir).
End loading.

Definition lookup_doc (e : Engine) (sub : Submission) : res string Document :=
  match Sub_PolicyRef sub with
  | None => Err "yaml policy engine requires submission.policy_ref"
  | Some ref =>
      if bool_decide (TrimSpace ref = "") then Err "yaml policy engine requires submission.policy_ref"
      else match Eng_policies e !! TrimSpace ref with
           | None => Err ("unknown policy_ref " +:+ quoted (TrimSpace ref) +:+ " (loaded from " +:+ Eng_dir e +:+ ")")
           | Some doc => Ok doc
           end
  end.

(** ** Evaluation *)
Definition rank (d : PolicyDecisionValue) : Z :=
  if bool_decide (d = DecisionDefer) then 1%Z
  else if bool_decide (d = DecisionReview) then 2%Z
  else if bool_decide (d = DecisionDeny) then 3%Z
  else 0%Z.

Definition escalate (current next : PolicyDecisionValue) : PolicyDecisionValue :=
  if bool_decide (rank current < rank next)%Z then next else current.

Definition decisionOr (raw : string) (fallback : PolicyDecisionValue) : PolicyDecisionValue :=
  if bool_decide (raw = "") then fallback else raw.

Definition renderMessage (tmpl findingID resultID : string) (score : float64) : string :=
  let msg := ReplaceAll tmpl "{{finding_id}}" findingID in
  let msg := ReplaceAll msg "{{result_id}}" resultID in
  ReplaceAll msg "{{score}}" (fmt_1f score).

Section evaluate.
Context `{Unicode}.

Definition top_step (scheme : string) (acc : float64 * option SeverityObservation) (s : SeverityObservation)
  : float64 * option SeverityObservation :=
  if bool_decide (scheme ≠ "") && negb (EqualFold (Sev_Scheme s) scheme) then acc
  else match Sev_Score s with
       | None => acc
       | Some x => if f_ge x acc.1 then (x, Some s) else acc
       end.

Definition topSeverity (f : Finding) (scheme : string) : float64 * option SeverityObservation :=
  fold_left (top_step scheme) (Find_Severity f) (f_zero, None).

Definition whenMatches (w : FindingWhen) (f : Finding) : bool :=
  if bool_decide (When_FindingType w ≠ "") && bool_decide (Find_Type f ≠ When_FindingType w) then false
  else if bool_decide (When_Assessment w ≠ "")
          && negb (match Find_Assessment f with
                   | Some a => bool_decide (As_Status a = When_Assessment w)
                   | None => false end) then false
  else
    let '(score, sev) := topSeverity f (When_SeverityScheme w) in
    if bool_decide (When_SeverityScheme w ≠ "") && match sev with None => true | Some _ => false end then false
    else match When_MinScore w with
         | None => true
         | Some m =>
             match sev with
             | Some s => match Sev_Score s with Some _ => negb (f_lt score m) | None => false end
             | None => false
             end
         end.

Record matchedRule := mkMatchedRule {
  Match_Decision : string;
  Match_Reason : DecisionReason;
}.

Definition rule_match (rule : FindingRule) (resultID : string) (f : Finding) : matchedRule :=
  let '(score, sev) := topSeverity f (When_SeverityScheme (Rule_When rule)) in
  let sevref := match sev with
                | Some s => match Sev_Score s with
                            | Some _ => Some (mkSeverityRef (Sev_Scheme s) (Sev_Version s) (Sev_Score s))
                            | None => None end
                | None => None end in
  mkMatchedRule (Rule_Decision rule)
    (mkDecisionReason (Rule_ReasonCode rule) resultID (Find_ID f) sevref
       (renderMessage (Rule_Message rule) (Find_ID f) resultID score)).

Fixpoint matchFinding (rules : list FindingRule) (resultID : string) (f : Finding) : option matchedRule :=
  match rules with
  | [] => None
  | rule :: rules =>
      if negb (whenMatches (Rule_When rule) f) then matchFinding rules resultID f
      else Some (rule_match rule resultID f)
  end.

(** The running decision and its reasons. *)
Definition EvalState : Type := (PolicyDecisionValue * list DecisionReason)%type.

Definition raise_to (d : PolicyDecisionValue) (reasons : list DecisionReason) (st : EvalState) : EvalState :=
  (escalate st.1 d, st.2 ++ reasons).

Definition error_message (r : ProviderResult) : string :=
  match Exec_Error (Res_Execution r) with
  | Some e => if bool_decide (PErr_Message e ≠ "")
              then "Provider execution error: " +:+ PErr_Message e else "Provider execution error"
  | None => "Provider execution error"
  end.

(** The branch of both evaluations for a result that did not complete. *)
Definition eval_incomplete (spec : Spec) (r : ProviderResult) (st : EvalState) : EvalState :=
  if bool_decide (Exec_Status (Res_Execution r) = ExecutionTimeout) then
    raise_to (decisionOr (Spec_OnTimeout spec) DecisionReview)
      [mkDecisionReason "required_provider_timeout" (Res_ID r) "" None
         "Provider invocation timed out; required by policy"] st
  else
    raise_to (decisionOr (Spec_OnError spec) DecisionReview)
      [mkDecisionReason "provider_error" (Res_ID r) "" None (error_message r)] st.

Definition eval_missing_verdict (spec : Spec) (r : ProviderResult) (st : EvalState) : EvalState :=
  raise_to (decisionOr (Spec_OnMissingVerdict spec) DecisionReview)
    [mkDecisionReason "missing_verdict" (Res_ID r) "" None "Provider completed but returned no verdict"] st.

Definition eval_verdict (spec : Spec) (v : Verdict) (st : EvalState) : EvalState :=
  match Spec_Verdicts spec !! Vd_Value v with
  | Some mapped => raise_to mapped [] st
  | None => st
  end.

Definition eval_finding (spec : Spec) (rid : string) (st : EvalState) (f : Finding) : EvalState :=
  match matchFinding (Spec_Findings spec) rid f with
  | None => st
  | Some m => raise_to (Match_Decision m) [Match_Reason m] st
  end.

(** One iteration of [evaluateDoc]. *)
Definition eval_result (spec : Spec) (st : EvalState) (r : ProviderResult) : EvalState :=
  if bool_decide (Exec_Status (Res_Execution r) ≠ ExecutionCompleted) then eval_incomplete spec r st
  else match Res_Verdict r with
       | None => eval_missing_verdict spec r st
       | Some v =>
           let st := eval_verdict spec v st in
           if bool_decide (Vd_Value v = VerdictWarn) || bool_decide (Vd_Value v = VerdictFail)
           then fold_left (eval_finding spec (Res_ID r)) (Res_Findings r) st
           else st
       end.

Definition resume_after (spec : Spec) : Duration :=
  match Spec_Defer spec with
  | Some df =>
      if bool_decide (Defer_ResumeAfter df ≠ "")
      then match ParseDuration (Defer_ResumeAfter df) with Ok d => d | Err _ => Hour end
      else Hour
  | None => Hour
  end.

(** The decision record both evaluations end with. *)
Definition mk_decision (doc : Document) (sub : Submission) (results : list ProviderResult)
    (rand : string) (now now' : Time) (st : EvalState) : PolicyDecision :=
  let defer := bool_decide (st.1 = DecisionDefer) in
  mkPolicyDecision ("dec_" +:+ rand) (Sub_ID sub) st.1
    (mkPolicyRef (Meta_ID (Doc_Metadata doc)) (Meta_Version (Doc_Metadata doc)) "") now
    (map Res_ID results) st.2
    (if defer then Some (now' + resume_after (Doc_Spec doc))%Z else None)
    (if defer then "org.eclipse.scintx.submission.resume" else "") ∅.

Definition evaluateDoc (doc : Document) (sub : Submission) (results : list ProviderResult)
    (rand : string) (now now' : Time) : PolicyDecision :=
  mk_decision doc sub results rand now now'
    (fold_left (eval_result (Doc_Spec doc)) results (DecisionAllow, [])).

Definition primarySource (mf : MergedFinding) : string * string :=
  match MF_Sources mf with
  | [] => ("none", "none")
  | s :: _ => (Src_ResultID s, Src_FindingID s)
  end.

(** Phase 1 of [evaluateMergedDoc]. *)
Definition merged_phase1 (spec : Spec) (st : EvalState) (r : ProviderResult) : EvalState :=
  if bool_decide (Exec_Status (Res_Execution r) = ExecutionCompleted) then
    match Res_Verdict r with None => eval_missing_verdict spec r st | Some _ => st end
  else eval_incomplete spec r st.

(** Phase 2. *)
Definition merged_phase2 (spec : Spec) (st : EvalState) (r : ProviderResult) : EvalState :=
  if bool_decide (Exec_Status (Res_Execution r) ≠ ExecutionCompleted) then st
  else match Res_Verdict r with None => st | Some v => eval_verdict spec v st end.

Definition synthetic (mf : MergedFinding) : Finding :=
  mkFinding (primarySource mf).2 (MF_Type mf) "" "" (MF_Identifiers mf) [] "" [] (MF_Severity mf) []
    (MF_Assessment mf) [] [] None ∅ [] ∅.

Definition conflict_reason (mf : MergedFinding) : DecisionReason :=
  let '(rid, fid) := primarySource mf in
  mkDecisionReason "assessment_conflict" rid fid None
    ("Providers disagreed on assessment for finding " +:+ fid +:+ " (conflicting result_ids: "
     +:+ Join (Con_Conflicts (MF_Consensus mf)) ", " +:+ ")").

(** Phase 3. *)
Definition merged_phase3 (spec : Spec) (st : EvalState) (mf : MergedFinding) : EvalState :=
  let '(rid, fid) := primarySource mf in
  let st := match Con_Conflicts (MF_Consensus mf) with
            | [] => st
            | _ :: _ => raise_to (decisionOr (Spec_MergeConflicts spec) DecisionReview) [conflict_reason mf] st
            end in
  match matchFinding (Spec_Findings spec) rid (synthetic mf) with
  | None => st
  | Some m =>
      let r := Match_Reason m in
      raise_to (Match_Decision m)
        [mkDecisionReason (Why_Code r) rid fid (Why_SeverityRef r) (Why_Message r)] st
  end.

Definition evaluateMergedDoc (doc : Document) (sub : Submission) (results : list ProviderResult)
    (merged : MergedResult) (rand : string) (now now' : Time) : PolicyDecision :=
  let spec := Doc_Spec doc in
  let st := fold_left (merged_phase1 spec) results (DecisionAllow, []) in
  let st := fold_left (merged_phase2 spec) results st in
  let st := fold_left (merged_phase3 spec) (MR_Findings merged) st in
  mk_decision doc sub results rand now now' st.

Definition Evaluate (e : Engine) (sub : Submission) (results : list ProviderResult)
    (rand : string) (now now' : Time) : res string PolicyDecision :=
  let? doc := lookup_doc e sub in Ok (evaluateDoc doc sub results rand now now').

Definition EvaluateMerged (e : Engine) (sub : Submission) (results : list ProviderResult)
    (merged : MergedResult) (rand : string) (now now' : Time) : res string PolicyDecision :=
  let? doc := lookup_doc e sub in Ok (evaluateMergedDoc doc sub results merged rand now now').
End evaluate.

(** ** The engine interface ([api/interfaces.go])

[PolicyEngine] with its optional [MergeAwarePolicyEngine] extension, as a record
of operations; the two clock readings and the random id are arguments. *)
Record PolicyEngine := mkPolicyEngine {
  PEng_ID : string;
  PEng_Evaluate : Submission → list ProviderResult → string → Time → Time → res string PolicyDecision;
  PEng_EvaluateMerged :
    option (Submission → list ProviderResult → MergedResult → string → Time → Time → res string PolicyDecision);
}.

Definition yaml_engine `{Unicode} (e : Engine) : PolicyEngine :=
  mkPolicyEngine "yaml" (Evaluate e) (Some (EvaluateMerged e)).

(** What the orchestrator relies on: a decision is about its submission, under a
fresh id, and carries a resume time exactly when it defers. *)
Definition decision_for (sub : Submission) (rand : string) (d : PolicyDecision) : Prop :=
  Dec_SubmissionID d = Sub_ID sub ∧ Dec_ID d = "dec_" +:+ rand
  ∧ (is_Some (Dec_ResumeAt d) ↔ Dec_Decision d = DecisionDefer).

(** And it says nothing JSON cannot carry, when its inputs do not. *)
Class PolicyLaws (pe : PolicyEngine) := {
  Evaluate_law : ∀ sub results rand now now' d,
    PEng_Evaluate pe sub results rand now now' = Ok d → decision_for sub rand d;
  EvaluateMerged_law : ∀ f sub results m rand now now' d,
    PEng_EvaluateMerged pe = Some f → f sub results m rand now now' = Ok d → decision_for sub rand d;
  Evaluate_json : ∀ sub results rand now now' d,
    all_json results → PEng_Evaluate pe sub results rand now now' = Ok d → json_ok d = true;
  EvaluateMerged_json : ∀ f sub results m rand now now' d,
    PEng_EvaluateMerged pe = Some f → all_json results → json_ok m = true →
    f sub results m rand now now' = Ok d → json_ok d = true;
}.

Lemma mk_decision_for doc sub results rand now now' st :
  decision_for sub rand (mk_decision doc sub results rand now now' st).
Proof. unfold decision_for. simpl. split_and!; try done. case_bool_decide; split; done || by intros []. Qed.

(** *** The reasons quote scores of the findings *)
Section reasons.
Context `{Unicode}.

Definition scores_ok (l : list SeverityObservation) : bool := forallb (λ s, score_ok (Sev_Score s)) l.
Definition reasons_ok (st : EvalState) : Prop := Forall (λ w, reason_ok w = true) st.2.

Lemma raise_reasons d ws st : reasons_ok st → Forall (λ w, reason_ok w = true) ws → reasons_ok (raise_to d ws st).
Proof. intros Hst Hws. by apply Forall_app. Qed.

Lemma topSeverity_ok f scheme s :
  scores_ok (Find_Severity f) = true → (topSeverity f scheme).2 = Some s → score_ok (Sev_Score s) = true.
Proof.
  unfold topSeverity. intros Hok. revert s.
  cut (∀ acc, (∀ s, acc.2 = Some s → score_ok (Sev_Score s) = true) →
         ∀ s, (fold_left (top_step scheme) (Find_Severity f) acc).2 = Some s → score_ok (Sev_Score s) = true).
  { intros Hc. by apply Hc. }
  revert Hok. induction (Find_Severity f) as [|x l IH]; simpl; [done|]. intros [Hx Hl]%andb_prop acc Hacc.
  apply IH; [done|]. unfold top_step. destruct (_ && _); [done|].
  destruct (Sev_Score x) as [y|] eqn:Ex; [|done]. destruct (f_ge _ _); [|done]. intros s [= <-]. by rewrite Ex.
Qed.

Lemma matchFinding_ok rules rid f m :
  scores_ok (Find_Severity f) = true → matchFinding rules rid f = Some m → reason_ok (Match_Reason m) = true.
Proof.
  intros Hok. induction rules as [|rule rules IH]; simpl; [done|]. destruct (negb _); [done|]. intros [= <-].
  pose proof (topSeverity_ok f (When_SeverityScheme (Rule_When rule))) as Ht. unfold rule_match.
  destruct (topSeverity _ _) as [score [s|]]; [|done]. specialize (Ht s Hok eq_refl).
  unfold reason_ok. simpl. by destruct (Sev_Score s).
Qed.

Lemma fold_reasons {A} (step : EvalState → A → EvalState) l st :
  (∀ x st, x ∈ l → reasons_ok st → reasons_ok (step st x)) → reasons_ok st → reasons_ok (fold_left step l st).
Proof.
  revert st. induction l as [|x l IH]; intros st Hstep Hst; [done|]. simpl.
  apply IH; [intros; apply Hstep; [by right|done]|apply Hstep; [by left|done]].
Qed.

Lemma finding_scores f : finding_ok f = true → scores_ok (Find_Severity f) = true.
Proof. unfold finding_ok. rewrite !andb_true_iff. tauto. Qed.

Lemma result_scores r f : json_ok r = true → f ∈ Res_Findings r → scores_ok (Find_Severity f) = true.
Proof. simpl. rewrite !andb_true_iff. intros [[[Hf _] _] _] Hin. apply finding_scores. by eapply forallb_true in Hf. Qed.

Lemma eval_incomplete_reasons spec r st : reasons_ok st → reasons_ok (eval_incomplete spec r st).
Proof. intros Hst. unfold eval_incomplete. case_bool_decide; apply raise_reasons; by repeat constructor. Qed.

Lemma eval_missing_reasons spec r st : reasons_ok st → reasons_ok (eval_missing_verdict spec r st).
Proof. intros Hst. apply raise_reasons; by repeat constructor. Qed.

Lemma eval_verdict_reasons spec v st : reasons_ok st → reasons_ok (eval_verdict spec v st).
Proof. intros Hst. unfold eval_verdict. case_match; [|done]. by apply raise_reasons. Qed.

Lemma eval_result_reasons spec r st : json_ok r = true → reasons_ok st → reasons_ok (eval_result spec st r).
Proof.
  intros Hr Hst. unfold eval_result. case_bool_decide; [by apply eval_incomplete_reasons|].
  destruct (Res_Verdict r) as [v|]; [|by apply eval_missing_reasons].
  cbv zeta. destruct (_ || _); [|by apply eval_verdict_reasons].
  apply fold_reasons; [|by apply eval_verdict_reasons]. intros f st' Hf Hst'. unfold eval_finding.
  destruct (matchFinding _ _ _) as [m|] eqn:Hm; [|done]. apply raise_reasons; [done|]. constructor; [|done].
  eapply matchFinding_ok; [|done]. by eapply result_scores.
Qed.

Lemma merged_phase3_reasons spec mf st :
  scores_ok (MF_Severity mf) = true → reasons_ok st → reasons_ok (merged_phase3 spec st mf).
Proof.
  intros Hmf Hst. unfold merged_phase3, conflict_reason. destruct (primarySource mf) as [rid fid].
  set (st' := match Con_Conflicts _ with [] => st | _ :: _ => _ end).
  assert (reasons_ok st') as Hst' by (unfold st'; case_match; [done|apply raise_reasons; by repeat constructor]).
  destruct (matchFinding _ _ _) as [m|] eqn:Hm; [|done]. apply raise_reasons; [done|]. constructor; [|done].
  by apply matchFinding_ok in Hm.
Qed.

Lemma evaluateDoc_json doc sub results rand now now' :
  all_json results → json_ok (evaluateDoc doc sub results rand now now') = true.
Proof.
  intros Hr. simpl. rewrite andb_true_r. apply forallb_true. apply Forall_forall.
  apply fold_reasons; [|by constructor].
  intros r st Hin Hst. apply eval_result_reasons; [|done]. by eapply Forall_forall in Hr.
Qed.

Lemma evaluateMergedDoc_json doc sub results m rand now now' :
  json_ok m = true → json_ok (evaluateMergedDoc doc sub results m rand now now') = true.
Proof.
  intros Hm. simpl. rewrite andb_true_r. apply forallb_true. apply Forall_forall.
  apply fold_reasons; [|apply fold_reasons; [|apply fold_reasons; [|by constructor]]].
  - intros mf st Hin Hst. apply merged_phase3_reasons; [|done]. by eapply forallb_true in Hm.
  - intros r st _ Hst. unfold merged_phase2. repeat case_match; try done. by apply eval_verdict_reasons.
  - intros r st _ Hst. unfold merged_phase1.
    repeat case_match; first [done|by apply eval_missing_reasons|by apply eval_incomplete_reasons].
Qed.
End reasons.

#[export] Instance yaml_engine_laws `{Unicode} (e : Engine) : PolicyLaws (yaml_engine e).
Proof.
  split.
  - intros sub results rand now now' d Hd. simpl in Hd. unfold Evaluate in Hd.
    destruct (lookup_doc e sub); res_simpl. apply mk_decision_for.
  - intros f sub results m rand now now' d [= <-] Hd. unfold EvaluateMerged in Hd.
    destruct (lookup_doc e sub); res_simpl. apply mk_decision_for.
  - intros sub results rand now now' d Hr Hd. simpl in Hd. unfold Evaluate in Hd.
    destruct (lookup_doc e sub) as [doc|]; res_simpl. exact (evaluateDoc_json doc sub results rand now now' Hr).
  - intros f sub results m rand now now' d [= <-] _ Hm Hd. unfold EvaluateMerged in Hd.
    destruct (lookup_doc e sub) as [doc|]; res_simpl. exact (evaluateMergedDoc_json doc sub results m rand now now' Hm).
Qed.

(** ** The strongest contribution *)
Definition strongest (d : PolicyDecisionValue) (l : list PolicyDecisionValue) : Prop :=
  d ∈ l ∧ ∀ x, x ∈ l → (rank x <= rank d)%Z.

Lemma escalate_ub d x : (rank d <= rank (escalate d x))%Z ∧ (rank x <= rank (escalate d x))%Z.
Proof. unfold escalate. case_bool_decide; lia. Qed.

Lemma escalate_all_strongest l d : strongest (fold_left escalate l d) (d :: l).
Proof.
  revert d. induction l as [|x l IH]; intros d; simpl.
  - split; [set_solver|]. intros x ->%list_elem_of_singleton. lia.
  - destruct (IH (escalate d x)) as [Hin Hub]. destruct (escalate_ub d x) as [Hd Hx].
    assert (Hle : (rank (escalate d x) <= rank (fold_left escalate l (escalate d x)))%Z) by (apply Hub; set_solver).
    split.
    + apply elem_of_cons in Hin as [->|Hin]; [|set_solver]. unfold escalate. case_bool_decide; set_solver.
    + intros y [->|[->|Hy]%elem_of_cons]%elem_of_cons; [lia..|]. apply Hub. set_solver.
Qed.

Lemma strongest_unique d d' l l' :
  l ≡ₚ l' → Forall (λ x, validDecision x = true) l → strongest d l → strongest d' l' → d = d'.
Proof.
  intros Hp Hv [Hin Hub] [Hin' Hub']. rewrite -Hp in Hin'.
  assert (rank d = rank d') as Hr.
  { apply Z.le_antisymm; [apply Hub'; by rewrite -Hp|by apply Hub]. }
  rewrite Forall_forall in Hv. pose proof (Hv _ Hin) as Hd. pose proof (Hv _ Hin') as Hd'.
  unfold validDecision in *. rewrite !orb_true_iff !bool_decide_eq_true in Hd Hd'. clear -Hr Hd Hd'.
  naive_solver.
Qed.

(** ** What each part of the input asks for *)
Section contributions.
Context `{Unicode}.

Definition incomplete_asks (spec : Spec) (r : ProviderResult) : PolicyDecisionValue :=
  if decide (Exec_Status (Res_Execution r) = ExecutionTimeout)
  then decisionOr (Spec_OnTimeout spec) DecisionReview
  else decisionOr (Spec_OnError spec) DecisionReview.

Definition verdict_asks (spec : Spec) (v : Verdict) : list PolicyDecisionValue :=
  option_list (Spec_Verdicts spec !! Vd_Value v).

Definition finding_asks (spec : Spec) (f : Finding) : option PolicyDecisionValue :=
  Rule_Decision <$> List.find (λ rule, whenMatches (Rule_When rule) f) (Spec_Findings spec).

(** A raw result: the timeout or error decision; or the missing-verdict one; or
what the verdict maps to and, for [warn] and [fail], the first matching rule of
each finding. *)
Definition result_asks (spec : Spec) (r : ProviderResult) : list PolicyDecisionValue :=
  if decide (Exec_Status (Res_Execution r) = ExecutionCompleted) then
    match Res_Verdict r with
    | None => [decisionOr (Spec_OnMissingVerdict spec) DecisionReview]
    | Some v => verdict_asks spec v ++
        (if decide (Vd_Value v = VerdictWarn ∨ Vd_Value v = VerdictFail)
         then omap (finding_asks spec) (Res_Findings r) else [])
    end
  else [incomplete_asks spec r].

Definition asks (spec : Spec) (results : list ProviderResult) : list PolicyDecisionValue :=
  DecisionAllow :: concat (map (result_asks spec) results).

Lemma matchFinding_decision spec rid f :
  Match_Decision <$> matchFinding (Spec_Findings spec) rid f = finding_asks spec f.
Proof.
  unfold finding_asks. induction (Spec_Findings spec) as [|rule rules IH]; simpl; [done|].
  destruct (whenMatches _ _); simpl; [|done]. unfold rule_match. by destruct (topSeverity _ _).
Qed.

Lemma eval_findings_decision spec rid fs st :
  (fold_left (eval_finding spec rid) fs st).1 = fold_left escalate (omap (finding_asks spec) fs) st.1.
Proof.
  revert st. induction fs as [|f fs IH]; intros st; csimpl; [done|]. rewrite IH. unfold eval_finding.
  pose proof (matchFinding_decision spec rid f) as Hm.
  destruct (matchFinding _ _ _), (finding_asks spec f); simplify_eq/=; done.
Qed.

Lemma eval_verdict_decision spec v st :
  (eval_verdict spec v st).1 = fold_left escalate (verdict_asks spec v) st.1.
Proof. unfold eval_verdict, verdict_asks. by destruct (_ !! _). Qed.

Lemma eval_incomplete_decision spec r st :
  (eval_incomplete spec r st).1 = escalate st.1 (incomplete_asks spec r).
Proof. unfold eval_incomplete, incomplete_asks. case_bool_decide; by destruct (decide _). Qed.

Lemma eval_result_decision spec st r :
  (eval_result spec st r).1 = fold_left escalate (result_asks spec r) st.1.
Proof.
  unfold eval_result, result_asks. case_bool_decide as Hc.
  - destruct (decide _); [done|]. apply eval_incomplete_decision.
  - destruct (decide _); [|done]. destruct (Res_Verdict r) as [v|]; [|done].
    rewrite fold_left_app -eval_verdict_decision.
    destruct (decide (Vd_Value v = VerdictWarn ∨ Vd_Value v = VerdictFail)) as [Hv|Hv].
    + assert (bool_decide (Vd_Value v = VerdictWarn) || bool_decide (Vd_Value v = VerdictFail) = true) as ->.
      { by rewrite orb_true_iff !bool_decide_eq_true. }
      apply eval_findings_decision.
    + by rewrite !bool_decide_false; [naive_solver..|].
Qed.

(** A loop whose every step raises the decision to its contributions. *)
Lemma fold_decision {A} (step : EvalState → A → EvalState) (contrib : A → list PolicyDecisionValue) l st :
  (∀ st x, (step st x).1 = fold_left escalate (contrib x) st.1) →
  (fold_left step l st).1 = fold_left escalate (concat (map contrib l)) st.1.
Proof.
  intros Hs. revert st. induction l as [|x l IH]; intros st; simpl; [done|].
  by rewrite IH Hs fold_left_app.
Qed.

Lemma evaluateDoc_decision doc sub results rand now now' :
  Dec_Decision (evaluateDoc doc sub results rand now now')
  = fold_left escalate (concat (map (result_asks (Doc_Spec doc)) results)) DecisionAllow.
Proof.
  unfold evaluateDoc, mk_decision. simpl. by rewrite (fold_decision _ _ _ _ (eval_result_decision _)).
Qed.

(** The decision of a YAML policy on raw results is the strongest of "allow"
and what the results ask for (deny over review over defer over allow): it is one
of those values and none of them outranks it. *)
Theorem evaluateDoc_strongest doc sub results rand now now' :
  strongest (Dec_Decision (evaluateDoc doc sub results rand now now')) (asks (Doc_Spec doc) results).
Proof. rewrite evaluateDoc_decision. apply escalate_all_strongest. Qed.

(** ** Merged results *)
Definition merged_asks (spec : Spec) (mf : MergedFinding) : list PolicyDecisionValue :=
  (if decide (Con_Conflicts (MF_Consensus mf) = []) then []
   else [decisionOr (Spec_MergeConflicts spec) DecisionReview])
  ++ option_list (finding_asks spec (synthetic mf)).

Definition execution_asks (spec : Spec) (r : ProviderResult) : list PolicyDecisionValue :=
  if decide (Exec_Status (Res_Execution r) = ExecutionCompleted) then
    match Res_Verdict r with
    | None => [decisionOr (Spec_OnMissingVerdict spec) DecisionReview]
    | Some _ => []
    end
  else [incomplete_asks spec r].

Definition baseline_asks (spec : Spec) (r : ProviderResult) : list PolicyDecisionValue :=
  if decide (Exec_Status (Res_Execution r) = ExecutionCompleted) then
    match Res_Verdict r with None => [] | Some v => verdict_asks spec v end
  else [].

Definition asks_merged (spec : Spec) (results : list ProviderResult) (merged : MergedResult)
  : list PolicyDecisionValue :=
  DecisionAllow :: concat (map (execution_asks spec) results)
  ++ concat (map (baseline_asks spec) results) ++ concat (map (merged_asks spec) (MR_Findings merged)).

Lemma merged_phase1_decision spec st r :
  (merged_phase1 spec st r).1 = fold_left escalate (execution_asks spec r) st.1.
Proof.
  unfold merged_phase1, execution_asks. case_bool_decide; destruct (decide _); try done.
  - by destruct (Res_Verdict r).
  - apply eval_incomplete_decision.
Qed.

Lemma merged_phase2_decision spec st r :
  (merged_phase2 spec st r).1 = fold_left escalate (baseline_asks spec r) st.1.
Proof.
  unfold merged_phase2, baseline_asks. case_bool_decide; destruct (decide _); try done.
  destruct (Res_Verdict r); [apply eval_verdict_decision|done].
Qed.

Lemma merged_phase3_decision spec st mf :
  (merged_phase3 spec st mf).1 = fold_left escalate (merged_asks spec mf) st.1.
Proof.
  unfold merged_phase3, merged_asks. destruct (primarySource mf) as [rid fid].
  pose proof (matchFinding_decision spec rid (synthetic mf)) as Hm. rewrite fold_left_app.
  destruct (Con_Conflicts (MF_Consensus mf)), (decide _); try done;
    destruct (matchFinding _ _ _), (finding_asks _ _); simplify_eq/=; done.
Qed.

Lemma evaluateMergedDoc_decision doc sub results merged rand now now' :
  Dec_Decision (evaluateMergedDoc doc sub results merged rand now now')
  = fold_left escalate
      (concat (map (execution_asks (Doc_Spec doc)) results)
       ++ concat (map (baseline_asks (Doc_Spec doc)) results)
       ++ concat (map (merged_asks (Doc_Spec doc)) (MR_Findings merged))) DecisionAllow.
Proof.
  unfold evaluateMergedDoc, mk_decision. simpl.
  rewrite (fold_decision _ _ _ _ (merged_phase3_decision _)) (fold_decision _ _ _ _ (merged_phase2_decision _)).
  by rewrite (fold_decision _ _ _ _ (merged_phase1_decision _)) !fold_left_app.
Qed.

(** [C12] The decision of a YAML policy on a merged result is the strongest of
"allow", what the executions and missing verdicts ask for, what the verdicts map
to, and what the merged findings ask for: the conflict decision for a finding
the providers disagree on and the first rule that matches it. *)
Theorem evaluateMergedDoc_strongest doc sub results merged rand now now' :
  strongest (Dec_Decision (evaluateMergedDoc doc sub results merged rand now now'))
    (asks_merged (Doc_Spec doc) results merged).
Proof. rewrite evaluateMergedDoc_decision. apply escalate_all_strongest. Qed.
End contributions.

(** ** Validation *)
Definition valid_or_empty (s : string) : Prop := s = "" ∨ validDecision s = true.

(** What a document must satisfy to be loaded. *)
Record doc_valid (d : Document) : Prop := {
  dv_api : Doc_APIVersion d = "scintx.policy/v1";
  dv_kind : Doc_Kind d = "Policy";
  dv_id : Meta_ID (Doc_Metadata d) ≠ "";
  dv_version : Meta_Version (Doc_Metadata d) ≠ "";
  dv_timeout : valid_or_empty (Spec_OnTimeout (Doc_Spec d));
  dv_error : valid_or_empty (Spec_OnError (Doc_Spec d));
  dv_missing : valid_or_empty (Spec_OnMissingVerdict (Doc_Spec d));
  dv_verdicts : map_Forall (λ _ v, validDecision v = true) (Spec_Verdicts (Doc_Spec d));
  dv_rules : Forall (λ r, validDecision (Rule_Decision r) = true ∧ Rule_ReasonCode r ≠ "")
               (Spec_Findings (Doc_Spec d));
  dv_defer : ∀ df, Spec_Defer (Doc_Spec d) = Some df →
    Defer_ResumeAfter df = "" ∨ is_Ok (ParseDuration (Defer_ResumeAfter df)) = true;
  dv_consensus : Spec_SeverityConsensus (Doc_Spec d) ∈ [""; "max"; "mean"; "trust_weighted"];
  dv_conflicts : valid_or_empty (Spec_MergeConflicts (Doc_Spec d));
}.

Lemma first_error_Ok {A} (f : A → option string) l : first_error f l = Ok () ↔ Forall (λ x, f x = None) l.
Proof.
  induction l as [|x l IH]; simpl; [by split|]. rewrite Forall_cons -IH. destruct (f x); naive_solver.
Qed.

Lemma bind_Ok {A B} (m : res string A) (k : A → res string B) b :
  res_bind m k = Ok b ↔ ∃ a, m = Ok a ∧ k a = Ok b.
Proof. destruct m; simpl; naive_solver. Qed.

Lemma check_Ok b msg : check b msg = Ok () ↔ b = true.
Proof. by destruct b. Qed.

Lemma unit_bind_Ok {B} (m : res string ()) (k : () → res string B) b :
  res_bind m k = Ok b ↔ m = Ok () ∧ k () = Ok b.
Proof. rewrite bind_Ok. split; [intros ([] & ? & ?)|intros []; eexists]; eauto. Qed.

Lemma validate_rules_ok n rules :
  Forall (λ x, validate_rule x = None) (imap (λ i r, (n + i, r)) rules)
  ↔ Forall (λ r, validDecision (Rule_Decision r) = true ∧ Rule_ReasonCode r ≠ "") rules.
Proof.
  revert n. induction rules as [|r rules IH]; intros n; csimpl; [by rewrite !Forall_nil|].
  rewrite !Forall_cons. assert (validate_rule (n + 0, r) = None
    ↔ validDecision (Rule_Decision r) = true ∧ Rule_ReasonCode r ≠ "") as ->.
  { unfold validate_rule. simpl. destruct (validDecision _); simpl; [|naive_solver].
    case_bool_decide; naive_solver. }
  rewrite -(IH (S n)). 
  assert (imap ((λ i r, (n + i, r)) ∘ S) rules = imap (λ i r, (S n + i, r)) rules) as ->; [|done].
  apply imap_ext. intros i x _. simpl. f_equal. lia.
Qed.

Section validate.
Context `{GoMaps}.

Lemma Validate_doc_valid d : Validate d = Ok () ↔ doc_valid d.
Proof.
  unfold Validate. cbv zeta.
  rewrite !unit_bind_Ok !check_Ok !first_error_Ok !orb_true_iff !bool_decide_eq_true.
  rewrite map_iter_perm. pose proof (validate_rules_ok 0 (Spec_Findings (Doc_Spec d))) as Hr.
  simpl in Hr. rewrite Hr.
  rewrite !Forall_cons. simpl.
  assert (Hv : ∀ s n, (if bool_decide (s = "") then None else if validDecision s then None
            else Some ("spec." +:+ n +:+ ": invalid decision " +:+ quoted s)) = None ↔ valid_or_empty s).
  { intros s n. unfold valid_or_empty. case_bool_decide; [naive_solver|]. destruct (validDecision s); naive_solver. }
  rewrite !Hv. fold (valid_or_empty (Spec_MergeConflicts (Doc_Spec d))).
  assert (Hm : Forall (λ kv : string * string, (if validDecision kv.2 then None
             else Some ("spec.verdicts." +:+ kv.1 +:+ ": invalid decision " +:+ quoted kv.2)) = None)
             (map_to_list (Spec_Verdicts (Doc_Spec d)))
           ↔ map_Forall (λ _ v, validDecision v = true) (Spec_Verdicts (Doc_Spec d))).
  { rewrite map_Forall_to_list. apply Forall_proper; [|done]. intros [k v]. simpl. by destruct (validDecision v). }
  rewrite Hm.
  assert (Hd : (match Spec_Defer (Doc_Spec d) with
             | Some df =>
                if bool_decide (Defer_ResumeAfter df = "") then Ok ()
                else match ParseDuration (Defer_ResumeAfter df) with
                     | Ok _ => Ok ()
                     | Err e => Err ("spec.defer.resume_after: " +:+ e)
                     end
             | None => Ok () end) = Ok ()
           ↔ ∀ df, Spec_Defer (Doc_Spec d) = Some df →
               Defer_ResumeAfter df = "" ∨ is_Ok (ParseDuration (Defer_ResumeAfter df)) = true).
  { destruct (Spec_Defer _) as [df|]; [|naive_solver].
    case_bool_decide as He; [split; [intros _ ? [= <-]; by left|done]|].
    assert (Hx : (∀ df', Some df = Some df' → Defer_ResumeAfter df' = "" ∨ is_Ok (ParseDuration (Defer_ResumeAfter df')) = true)
              ↔ is_Ok (ParseDuration (Defer_ResumeAfter df)) = true)
      by (split; [intros H'; by destruct (H' df eq_refl)|by intros ? ? [= <-]; right]).
    rewrite Hx. by destruct (ParseDuration _). }
  rewrite Hd. split.
  - intros (?&?&?&?&(?&?&?&_)&?&?&?&Hc&?). constructor; try done.
    + rewrite !elem_of_cons. tauto.
    + unfold valid_or_empty, validDecision. rewrite !orb_true_iff !bool_decide_eq_true. tauto.
  - intros []. rewrite !elem_of_cons elem_of_nil in dv_consensus0. split_and!; try done; [tauto|].
    unfold valid_or_empty, validDecision in dv_conflicts0.
    rewrite !orb_true_iff !bool_decide_eq_true in dv_conflicts0. done.
Qed.

(** Validation accepts exactly the documents with the supported version and
kind, a named and versioned policy, decisions that are each one of the four
values, a reason code on every rule, a duration [time.ParseDuration] reads, and a
known consensus strategy; in whatever order the verdict map is visited. *)
Theorem Validate_correct d : Validate d = Ok () ↔ doc_valid d.
Proof. apply Validate_doc_valid. Qed.

(** ** Loading a directory *)
Context `{Unicode} (Unmarshal : string → res string Document).

(** The policies of [dir]: each policy file parsed and validated. *)
Definition loads (e : DirEntry) (doc : Document) : Prop :=
  is_policy_file e = true ∧ ∃ b, DE_Content e = Ok b ∧ Unmarshal b = Ok doc ∧ doc_valid doc.

Lemma LoadFile_Ok path c doc :
  LoadFile Unmarshal path c = Ok doc ↔ ∃ b, c = Ok b ∧ Unmarshal b = Ok doc ∧ doc_valid doc.
Proof.
  unfold LoadFile, Parse. destruct c as [b|e]; [|split; [done|by intros (? & ? & _)]].
  destruct (Unmarshal b) as [doc'|] eqn:Eb; [|split; [done|intros (b' & [= <-] & Hb & _); congruence]].
  pose proof (Validate_doc_valid doc') as Hv. destruct (Validate doc') as [[]|e]; simpl; split.
  - intros [= <-]. exists b. split_and!; try done. by apply Hv.
  - intros (b' & [= <-] & Hb & _). congruence.
  - done.
  - intros (b' & [= <-] & Hb & Hd). rewrite Eb in Hb. simplify_eq. by apply Hv in Hd.
Qed.

Lemma load_entries_spec dir entries out m :
  load_entries Unmarshal dir entries out = Ok m →
  (∀ id doc, m !! id = Some doc ↔
     out !! id = Some doc ∨ Meta_ID (Doc_Metadata doc) = id ∧ ∃ e, e ∈ entries ∧ loads e doc)
  ∧ ∀ e, e ∈ entries → is_policy_file e = true → ∃ doc, loads e doc.
Proof.
  revert out. induction entries as [|e entries IH]; intros out; simpl.
  { intros [= <-]. split; [set_solver|]. set_solver. }
  destruct (is_policy_file e) eqn:Ef; simpl.
  - intros (doc & Hf & Hm)%bind_Ok. apply LoadFile_Ok in Hf.
    destruct (out !! Meta_ID (Doc_Metadata doc)) eqn:Eo; [done|].
    destruct (IH _ Hm) as [H1 H2]. assert (Hl : loads e doc) by (by split). split.
    + intros id doc'. rewrite H1. destruct (decide (Meta_ID (Doc_Metadata doc) = id)) as [<-|Hne].
      * rewrite lookup_insert_eq Eo. split.
        -- intros [[= <-]|(? & x & ? & ?)]; right; set_solver.
        -- intros [?|(Hid & x & [->|Hx]%elem_of_cons & Hl')]; [done| |right; eauto].
           left. destruct Hl as [_ (b & E1 & E2 & _)], Hl' as [_ (b' & E1' & E2' & _)]. congruence.
      * rewrite lookup_insert_ne //. split.
        -- intros [?|(? & x & ? & ?)]; [by left|right; set_solver].
        -- intros [?|(Hid & x & [->|Hx]%elem_of_cons & Hl')]; [by left| |right; eauto].
           destruct Hl as [_ (b & E1 & E2 & _)], Hl' as [_ (b' & E1' & E2' & _)]. congruence.
    + intros x [->|Hx]%elem_of_cons Hp; [by exists doc|eauto].
  - intros Hm. destruct (IH _ Hm) as [H1 H2]. split.
    + intros id doc. rewrite H1. split; [set_solver|].
      intros [?|(Hid & x & [->|Hx]%elem_of_cons & Hl')]; [by left| |right; eauto].
      destruct Hl' as [Hf _]. congruence.
    + intros x [->|Hx]%elem_of_cons Hp; [congruence|eauto].
Qed.

(** [C23] A policy directory loads completely or not at all: on success the engine
holds, under its own id, exactly the validated document of every [.yaml]/[.yml]
file, there is at least one, and no policy file was skipped. *)
Theorem LoadDir_correct dir entries m :
  LoadDir Unmarshal dir (Ok entries) = Ok m →
  m ≠ ∅
  ∧ (∀ id doc, m !! id = Some doc ↔ Meta_ID (Doc_Metadata doc) = id ∧ ∃ e, e ∈ entries ∧ loads e doc)
  ∧ ∀ e, e ∈ entries → is_policy_file e = true → ∃ doc, loads e doc ∧ m !! Meta_ID (Doc_Metadata doc) = Some doc.
Proof.
  unfold LoadDir. intros (out & Hl & Hm)%bind_Ok. case_bool_decide as He; [done|].
  injection Hm as ->. apply load_entries_spec in Hl as [H1 H2]. split; [done|].
  assert (H3 : ∀ id doc, m !! id = Some doc ↔ Meta_ID (Doc_Metadata doc) = id ∧ ∃ e, e ∈ entries ∧ loads e doc).
  { intros id doc. rewrite H1 lookup_empty. naive_solver. }
  split; [done|]. intros e Hin Hp. destruct (H2 e Hin Hp) as [doc Hd]. exists doc. split; [done|].
  apply H3. eauto.
Qed.
End validate.

(** ** Decisions of validated policies *)
Section decisions.
Context `{Unicode}.

Definition all_valid (l : list PolicyDecisionValue) : Prop := Forall (λ x, validDecision x = true) l.

Lemma decisionOr_valid s : valid_or_empty s → validDecision (decisionOr s DecisionReview) = true.
Proof. unfold decisionOr. intros [->|Hs]; [done|]. by case_bool_decide. Qed.

Lemma incomplete_valid doc r : doc_valid doc → validDecision (incomplete_asks (Doc_Spec doc) r) = true.
Proof.
  intros Hd. unfold incomplete_asks. destruct (decide _); apply decisionOr_valid; apply Hd.
Qed.

Lemma verdict_valid doc v : doc_valid doc → all_valid (verdict_asks (Doc_Spec doc) v).
Proof.
  intros Hd. unfold verdict_asks. destruct (_ !! _) eqn:E; simpl; [|constructor].
  constructor; [|constructor]. by apply (dv_verdicts _ Hd _ _ E).
Qed.

Lemma finding_valid doc f d : doc_valid doc → finding_asks (Doc_Spec doc) f = Some d → validDecision d = true.
Proof.
  intros Hd (rule & Hf & ->)%fmap_Some. apply List.find_some in Hf as [Hin%list_elem_of_In _].
  pose proof (dv_rules _ Hd) as Hr. rewrite Forall_forall in Hr. by apply Hr.
Qed.

Lemma result_valid doc r : doc_valid doc → all_valid (result_asks (Doc_Spec doc) r).
Proof.
  intros Hd. unfold result_asks, all_valid.
  destruct (decide _); [|constructor; [by apply incomplete_valid|constructor]].
  destruct (Res_Verdict r) as [v|]; last first.
  { constructor; [|constructor]. apply decisionOr_valid, Hd. }
  apply Forall_app; split; [by apply verdict_valid|]. destruct (decide _); [|constructor].
  rewrite Forall_forall. intros x (f & _ & Hf)%list_elem_of_omap. by eapply finding_valid.
Qed.

Lemma asks_valid doc results : doc_valid doc → all_valid (asks (Doc_Spec doc) results).
Proof.
  intros Hd. constructor; [done|]. apply Forall_concat, Forall_fmap, Forall_forall. intros r _.
  by apply result_valid.
Qed.

Lemma merged_asks_valid doc results merged :
  doc_valid doc → all_valid (asks_merged (Doc_Spec doc) results merged).
Proof.
  intros Hd. constructor; [done|]. rewrite !Forall_app.
  split_and!; apply Forall_concat, Forall_fmap, Forall_forall; intros x _; simpl.
  - unfold execution_asks. destruct (decide _); [|constructor; [by apply incomplete_valid|constructor]].
    destruct (Res_Verdict x); [constructor|]. constructor; [|constructor]. apply decisionOr_valid, Hd.
  - unfold baseline_asks. destruct (decide _); [|constructor].
    destruct (Res_Verdict x); [by apply verdict_valid|constructor].
  - unfold merged_asks. apply Forall_app; split.
    + destruct (decide _); [constructor|]. constructor; [|constructor]. apply decisionOr_valid, Hd.
    + destruct (finding_asks _ _) eqn:E; simpl; [|constructor].
      constructor; [by eapply finding_valid|constructor].
Qed.

(** [C39] A validated policy always reaches one of the four decisions, on raw and on
merged results, and schedules a resume exactly when it defers: after the
configured duration, one hour by default. *)
Theorem evaluate_wellformed doc sub results merged rand now now' d :
  doc_valid doc →
  d = evaluateDoc doc sub results rand now now' ∨ d = evaluateMergedDoc doc sub results merged rand now now' →
  validDecision (Dec_Decision d) = true
  ∧ Dec_ResumeAt d = (if decide (Dec_Decision d = DecisionDefer)
                      then Some (now' + resume_after (Doc_Spec doc))%Z else None)
  ∧ Dec_SubmissionID d = Sub_ID sub ∧ Dec_InputResultIDs d = map Res_ID results.
Proof.
  intros Hd Heq.
  assert (Hmk : ∃ st, d = mk_decision doc sub results rand now now' st) by (destruct Heq as [->| ->]; eexists; done).
  split.
  - destruct Heq as [->| ->]; rewrite ?evaluateDoc_decision ?evaluateMergedDoc_decision.
    + pose proof (asks_valid doc results Hd) as Hv. unfold all_valid in Hv. rewrite Forall_forall in Hv.
      apply Hv. by apply (escalate_all_strongest _ DecisionAllow).
    + pose proof (merged_asks_valid doc results merged Hd) as Hv. unfold all_valid in Hv. rewrite Forall_forall in Hv.
      apply Hv. by apply (escalate_all_strongest _ DecisionAllow).
  - destruct Hmk as [st ->]. unfold mk_decision. simpl. split_and!; [|done..].
    by case_bool_decide; destruct (decide _).
Qed.

(** A validated policy does not depend on the order in which results and
merged findings are listed. *)
Theorem evaluate_order doc sub results results' merged merged' rand now now' :
  doc_valid doc → results ≡ₚ results' → MR_Findings merged ≡ₚ MR_Findings merged' →
  Dec_Decision (evaluateDoc doc sub results rand now now')
    = Dec_Decision (evaluateDoc doc sub results' rand now now')
  ∧ Dec_Decision (evaluateMergedDoc doc sub results merged rand now now')
    = Dec_Decision (evaluateMergedDoc doc sub results' merged' rand now now').
Proof.
  intros Hd Hr Hm. rewrite !evaluateDoc_decision !evaluateMergedDoc_decision. split.
  - eapply strongest_unique; [|apply (asks_valid doc results Hd)| |]; try apply escalate_all_strongest.
    by apply Permutation_cons, concat_perm, Permutation_map.
  - eapply strongest_unique; [|apply (merged_asks_valid doc results merged Hd)| |];
      try apply escalate_all_strongest.
    apply Permutation_cons; [done|].
    by repeat apply Permutation_app; apply concat_perm, Permutation_map.
Qed.

(** More evidence never softens a decision: adding results to a submission
leaves the decision at least as strong, whatever the policy. *)
Theorem evaluate_monotone doc sub results more rand now now' :
  (rank (Dec_Decision (evaluateDoc doc sub results rand now now'))
   <= rank (Dec_Decision (evaluateDoc doc sub (results ++ more) rand now now')))%Z.
Proof.
  rewrite !evaluateDoc_decision map_app concat_app.
  destruct (escalate_all_strongest (concat (map (result_asks (Doc_Spec doc)) results)) DecisionAllow) as [Hin _].
  apply escalate_all_strongest. set_solver.
Qed.

(** Both sides of a disagreement end up in the same merged finding. *)
Lemma conflict_recorded a rand now results p p' :
  p ∈ observations results → p' ∈ observations results → pair_key p = pair_key p' →
  As_Status <$> Find_Assessment (sp_finding p) = Some AssessAffected →
  As_Status <$> Find_Assessment (sp_finding p') = Some AssessNotAffected →
  ∃ mf, mf ∈ MR_Findings (Aggregate a rand now results) ∧ Con_Conflicts (MF_Consensus mf) ≠ [].
Proof.
  intros Hp Hp' Hk Ha Hn. pose proof (Aggregate_groups a rand now results) as Hg.
  destruct (group_by_order pair_key (observations results)) as [_ He].
  assert (pair_key p ∈ (group_by pair_key (observations results)).1) as Hin.
  { apply He. by apply list_elem_of_fmap_2. }
  apply list_elem_of_lookup in Hin as [i Hi].
  destruct (Forall2_lookup_l _ _ _ _ _ Hg Hi) as (mf & Hmf & Hspec). exists mf.
  split; [by eapply list_elem_of_lookup_2|]. apply build_fields in Hspec as (_ & _ & _ & _ & _ & -> & _).
  assert (∀ q, q ∈ observations results → pair_key q = pair_key p →
            q ∈ group_of pair_key (pair_key p) (observations results)) as Hgrp.
  { intros q Hq Hqk. apply list_elem_of_In, filter_In. split; [by apply list_elem_of_In|].
    by apply bool_decide_eq_true. }
  assert (∀ q st, q ∈ observations results → pair_key q = pair_key p →
            As_Status <$> Find_Assessment (sp_finding q) = Some st →
            (Res_ID (sp_result q), st) ∈ assessment_obs (group_of pair_key (pair_key p) (observations results))) as Hobs.
  { intros q st Hq Hqk (asm & Hasm & ->)%fmap_Some. apply list_elem_of_omap. exists q.
    split; [by apply Hgrp|]. by rewrite Hasm. }
  rewrite reconcile_conflicts decide_True.
  - unfold statuses. apply list_elem_of_fmap. exists (Res_ID (sp_result p), AssessAffected).
    split; [done|]. by apply Hobs.
  - pose proof (Hobs p' AssessNotAffected Hp' (eq_sym Hk) Hn) as Hc. intros Hnil.
    assert (Res_ID (sp_result p') ∈ ([] : list string)) as Hbad; [|by apply elem_of_nil in Hbad].
    rewrite -Hnil. apply list_elem_of_fmap. exists (Res_ID (sp_result p'), AssessNotAffected). split; [done|].
    apply list_elem_of_In, filter_In. split; [by apply list_elem_of_In|done].
Qed.

(** [C13] Aggregation and policy together: when two completed results disagree on
the same finding ("affected" against "not_affected"), the merged evaluation is at
least the policy's conflict decision, review unless configured, so a
disagreement is never silently allowed. *)
Theorem conflict_escalates doc sub a results p p' rand rand' now now' now'' :
  p ∈ observations results → p' ∈ observations results → pair_key p = pair_key p' →
  As_Status <$> Find_Assessment (sp_finding p) = Some AssessAffected →
  As_Status <$> Find_Assessment (sp_finding p') = Some AssessNotAffected →
  (rank (decisionOr (Spec_MergeConflicts (Doc_Spec doc)) DecisionReview)
   <= rank (Dec_Decision (evaluateMergedDoc doc sub results (Aggregate a rand' now'' results) rand now now')))%Z.
Proof.
  intros Hp Hp' Hk Ha Hn. destruct (conflict_recorded a rand' now'' results p p') as (mf & Hmf & Hc); try done.
  rewrite evaluateMergedDoc_decision. apply escalate_all_strongest.
  right. rewrite !elem_of_app. right; right. apply list_elem_of_In, in_concat.
  exists (merged_asks (Doc_Spec doc) mf). rewrite -!list_elem_of_In. split; [by apply list_elem_of_fmap_2|].
  unfold merged_asks. destruct (decide _); [done|]. set_solver.
Qed.

(** ** Severity thresholds *)
Definition in_scheme (scheme : string) (s : SeverityObservation) : Prop :=
  scheme = "" ∨ EqualFold (Sev_Scheme s) scheme = true.

Lemma top_fold scheme l top best :
  is_nan top = false →
  (best = None ∨ ∃ s, best = Some s ∧ Sev_Score s = Some top) →
  let r := fold_left (top_step scheme) l (top, best) in
  is_nan r.1 = false ∧ f_le top r.1 = true
  ∧ (∀ s x, s ∈ l → in_scheme scheme s → Sev_Score s = Some x → is_nan x = false → f_le x r.1 = true)
  ∧ (r = (top, best) ∨ ∃ s, r.2 = Some s ∧ s ∈ l ∧ in_scheme scheme s ∧ Sev_Score s = Some r.1).
Proof.
  revert top best. induction l as [|s l IH]; intros top best Hn Hb; simpl.
  { split_and!; auto using f_le_refl. intros s x Hs. by apply elem_of_nil in Hs. }
  destruct (top_step scheme (top, best) s) as [top' best'] eqn:Es.
  assert (Hstep : (top', best') = (top, best) ∧ (in_scheme scheme s → ∀ x, Sev_Score s = Some x →
              is_nan x = false → f_le x top = true)
          ∨ ∃ x, in_scheme scheme s ∧ Sev_Score s = Some x ∧ top' = x ∧ best' = Some s ∧ f_le top x = true).
  { unfold top_step in Es. unfold in_scheme.
    destruct (bool_decide (scheme ≠ "") && negb (EqualFold (Sev_Scheme s) scheme)) eqn:Eb.
    - left. split; [done|]. apply andb_true_iff in Eb as [E1%bool_decide_eq_true E2%negb_true_iff].
      intros [?|?]; congruence.
    - assert (scheme = "" ∨ EqualFold (Sev_Scheme s) scheme = true).
      { apply andb_false_iff in Eb as [E1%bool_decide_eq_false|E2%negb_false_iff]; [left|by right].
        by apply dec_stable. }
      destruct (Sev_Score s) as [x|]; [|left; split; done]. simpl in Es. destruct (f_ge x top) eqn:Eg.
      + right. exists x. by simplify_eq.
      + left. split; [done|]. intros _ y [= <-] Hy. unfold f_ge in Eg.
        destruct (f_total x top) as [?|Ht]; [done..|]. unfold f_le in Ht. congruence. }
  destruct Hstep as [[[= -> ->] Hx]|(x & Hsch & Hsc & -> & -> & Hle)].
  - destruct (IH top best Hn Hb) as (H1 & H2 & H3 & H4). split_and!; try done.
    + intros s' x [->|Hs]%elem_of_cons Hi Hsx Hxn; [|by eapply H3].
      eapply f_le_trans; [by eapply Hx|done].
    + destruct H4 as [?|(y & ? & ? & ?)]; [by left|right; exists y; set_solver].
  - destruct (f_le_nan _ _ Hle) as [_ Hxn].
    destruct (IH x (Some s) Hxn) as (H1 & H2 & H3 & H4); [right; by exists s|]. split_and!; try done.
    + by eapply f_le_trans.
    + intros s' y [->|Hs]%elem_of_cons Hi Hsy Hyn; [|by eapply H3]. congruence.
    + right. destruct H4 as [E|(y & ? & ? & ?)]; [|exists y; set_solver].
      exists s. rewrite E. simpl. set_solver.
Qed.

(** The score a rule compares with its threshold is the highest non-negative
score of the finding in the rule's scheme (any scheme when none is named): an
upper bound of them all, attained by the observation cited in the reason. *)
Theorem topSeverity_max f scheme :
  let r := topSeverity f scheme in
  (∀ s x, s ∈ Find_Severity f → in_scheme scheme s → Sev_Score s = Some x → is_nan x = false →
     f_le x r.1 = true)
  ∧ match r.2 with
    | Some s => s ∈ Find_Severity f ∧ in_scheme scheme s ∧ Sev_Score s = Some r.1
    | None => r.1 = f_zero
    end.
Proof.
  intros r. unfold r, topSeverity.
  destruct (top_fold scheme (Find_Severity f) f_zero None) as (_ & _ & H1 & H2); [done|by left|].
  split; [done|]. destruct H2 as [->|(s & -> & ?)]; [done|by destruct_and?].
Qed.
End decisions.

(** ** A concrete policy *)
Section policy_examples.
#[local] Existing Instance ascii_unicode.
#[local] Existing Instance sorted_maps.

(** The shape of [policies/default.yaml]: deny affected findings from 9.0 on. *)
Definition sample_doc : Document :=
  mkDocument "scintx.policy/v1" "Policy" (mkMetadata "default" "1" "")
    (mkSpec "" "deny" "" {["pass" := "allow"; "warn" := "review"; "unknown" := "defer"]}
       [mkFindingRule (mkFindingWhen "affected" "cvss" (Some (f_of_Z 9)) "") "deny" "critical" "{{score}}";
        mkFindingRule (mkFindingWhen "affected" "" None "") "review" "affected" "m"]
       (Some (mkDeferSpec "30m")) "" [] "").

Lemma sample_doc_valid : doc_valid sample_doc.
Proof. apply Validate_doc_valid. vm_compute. reflexivity. Qed.

Definition fail_result (id : string) (score : Z) : ProviderResult :=
  let r := sample_result id "osv" [sample_finding "f" ["CVE-1"] (Some AssessAffected) (Some (f_of_Z score))] in
  mkProviderResult (Res_ID r) "1.0" "a" (Res_Provider r) [] "" (Res_Execution r)
    (Some (mkVerdict VerdictFail "provider" "" None)) (Res_Findings r) None None ∅.

Definition sample_sub : Submission := sample_submission "a" SubmissionRunning.

Lemma evaluate_wellformed_witness :
  let d := evaluateDoc sample_doc sample_sub [fail_result "r1" 9; fail_result "r2" 5] "0" 1 2 in
  validDecision (Dec_Decision d) = true ∧ Dec_Decision d = DecisionDeny.
Proof.
  intros d. split; [|vm_compute; reflexivity].
  refine (proj1 (evaluate_wellformed sample_doc sample_sub [fail_result "r1" 9; fail_result "r2" 5]
    (mkMergedResult "" "" [] [] 0) "0" 1 2 d sample_doc_valid (or_introl eq_refl))).
Defined.

Lemma evaluate_order_witness :
  Dec_Decision (evaluateDoc sample_doc sample_sub [fail_result "r1" 9; fail_result "r2" 5] "0" 1 2)
  = Dec_Decision (evaluateDoc sample_doc sample_sub [fail_result "r2" 5; fail_result "r1" 9] "0" 1 2).
Proof.
  refine (proj1 (evaluate_order sample_doc sample_sub [fail_result "r1" 9; fail_result "r2" 5]
    [fail_result "r2" 5; fail_result "r1" 9] (mkMergedResult "" "" [] [] 0) (mkMergedResult "" "" [] [] 0)
    "0" 1 2 sample_doc_valid _ _)); constructor.
Defined.

Lemma conflict_escalates_witness :
  let f := sample_finding "f1" ["CVE-1"] (Some AssessAffected) None in
  let f' := sample_finding "f2" ["CVE-1"] (Some AssessNotAffected) None in
  let r := sample_result "r1" "osv" [f] in
  let r' := sample_result "r2" "oss" [f'] in
  (2 <= rank (Dec_Decision (evaluateMergedDoc sample_doc sample_sub [r; r']
                (Aggregate NewDefaultAggregator "0" 0 [r; r']) "0" 1 2)))%Z.
Proof.
  intros f f' r r'.
  apply (conflict_escalates sample_doc sample_sub NewDefaultAggregator [r; r'] (mkSourcePair r f) (mkSourcePair r' f')).
  - left.
  - right. left.
  - vm_compute. reflexivity.
  - reflexivity.
  - reflexivity.
Defined.

Lemma LoadDir_correct_witness :
  let unmarshal b := if bool_decide (b = "doc") then Ok sample_doc else Err "bad" in
  let entries := [mkDirEntry "README.md" false (Ok "x"); mkDirEntry "a.YML" false (Ok "doc")] in
  ∃ m, LoadDir unmarshal "policies" (Ok entries) = Ok m ∧ m ≠ ∅.
Proof.
  intros unmarshal entries. eexists. split; [vm_compute; reflexivity|].
  refine (proj1 (LoadDir_correct unmarshal "policies" entries _ _)). vm_compute. reflexivity.
Defined.

(** Merging is not neutral for passing verdicts: on a single result whose
verdict is [pass] and which lists an affected finding, the raw evaluation allows
and the merged evaluation asks for review. *)
Theorem merged_walks_pass_findings :
  let r := sample_result "r1" "osv" [sample_finding "f" ["CVE-1"] (Some AssessAffected) None] in
  let r := mkProviderResult "r1" "1.0" "a" (Res_Provider r) [] "" (Res_Execution r)
             (Some (mkVerdict VerdictPass "provider" "" None)) (Res_Findings r) None None ∅ in
  Dec_Decision (evaluateDoc sample_doc sample_sub [r] "0" 1 2) = DecisionAllow
  ∧ Dec_Decision (evaluateMergedDoc sample_doc sample_sub [r]
                    (Aggregate NewDefaultAggregator "0" 0 [r]) "0" 1 2) = DecisionReview.
Proof. vm_compute. split; reflexivity. Qed.
End policy_examples.
