(* ===== verification/ExamplePolicy.v ===== *)
(** * The hard-coded policy engine: [extensions/policies/example/policy.go]

The second implementation of the policy-engine interface: severity thresholds on
the findings of failing verdicts.  [Evaluate] is the whole loop; its decision is
again the strongest contribution, and the engine satisfies [PolicyLaws]. *)
From S2P Require Import Prelude GoString GoFloat Types Store Aggregator Policy.

Module Example.

Record Engine := mkEngine {
  Ex_PolicyID : string;
  Ex_Version : string;
  Ex_Digest : string;
  Ex_DenyAboveScore : float64;
  Ex_ReviewAboveScore : float64;
  Ex_TimeoutBehavior : string;
}.

(** The engine [init] registers under the name "example". *)
Definition registered_engine : Engine :=
  mkEngine "example" "1" "" (f_of_Z 9) (f_of_Z 7) "review".

Definition escalateDecision (current next : PolicyDecisionValue) : PolicyDecisionValue :=
  if bool_decide (rank current < rank next)%Z then next else current.

Definition raise_decision (d : PolicyDecisionValue) (reasons : list DecisionReason) (st : EvalState) : EvalState :=
  (escalateDecision st.1 d, st.2 ++ reasons).

(** The highest positive score of a finding and the observation it comes from. *)
Definition top_step (acc : float64 * option SeverityObservation) (s : SeverityObservation)
  : float64 * option SeverityObservation :=
  match Sev_Score s with
  | Some x => if f_gt x acc.1 then (x, Some s) else acc
  | None => acc
  end.

Definition top_of (f : Finding) : float64 * option SeverityObservation :=
  fold_left top_step (Find_Severity f) (f_zero, None).

Definition is_affected (f : Finding) : bool :=
  match Find_Assessment f with Some a => bool_decide (As_Status a = AssessAffected) | None => false end.

Definition sev_ref (s : SeverityObservation) : SeverityRef :=
  mkSeverityRef (Sev_Scheme s) (Sev_Version s) (Sev_Score s).

(** The body of the [fail] loop for an affected finding. *)
Definition fail_finding (p : Engine) (rid : string) (f : Finding) : PolicyDecisionValue * DecisionReason :=
  match top_of f with
  | (score, Some s) =>
      if f_ge score (Ex_DenyAboveScore p) then
        (DecisionDeny, mkDecisionReason "critical_severity_vulnerability" rid (Find_ID f) (Some (sev_ref s))
           ("CVSS " +:+ fmt_1f score +:+ " vulnerability with no fix available"))
      else if f_ge score (Ex_ReviewAboveScore p) then
        (DecisionReview, mkDecisionReason "high_severity_vulnerability" rid (Find_ID f) (Some (sev_ref s))
           ("CVSS " +:+ fmt_1f score +:+ " vulnerability requires review"))
      else (DecisionReview, mkDecisionReason "provider_fail" rid (Find_ID f) None
              ("Provider flagged finding " +:+ Find_ID f))
  | (_, None) => (DecisionReview, mkDecisionReason "provider_fail" rid (Find_ID f) None
                    ("Provider flagged finding " +:+ Find_ID f))
  end.

Definition eval_fail (p : Engine) (rid : string) (st : EvalState) (f : Finding) : EvalState :=
  if negb (is_affected f) then st
  else let '(d, why) := fail_finding p rid f in raise_decision d [why] st.

Definition warn_reasons (rid : string) (fs : list Finding) : list DecisionReason :=
  map (λ f, mkDecisionReason "provider_warning" rid (Find_ID f) None
              ("Provider warning on finding " +:+ Find_ID f)) (List.filter is_affected fs).

Definition timeout_decision (p : Engine) : PolicyDecisionValue :=
  if bool_decide (Ex_TimeoutBehavior p = "deny") then DecisionDeny
  else if bool_decide (Ex_TimeoutBehavior p = "defer") then DecisionDefer
  else DecisionReview.

Definition eval_result (p : Engine) (st : EvalState) (r : ProviderResult) : EvalState :=
  if bool_decide (Exec_Status (Res_Execution r) ≠ ExecutionCompleted) then
    if bool_decide (Exec_Status (Res_Execution r) = ExecutionTimeout) then
      raise_decision (timeout_decision p)
        [mkDecisionReason "required_provider_timeout" (Res_ID r) "" None
           "Provider invocation timed out; required by policy"] st
    else raise_decision DecisionReview
           [mkDecisionReason "provider_error" (Res_ID r) "" None (error_message r)] st
  else match Res_Verdict r with
       | None => raise_decision DecisionReview
                   [mkDecisionReason "missing_verdict" (Res_ID r) "" None
                      "Provider completed but returned no verdict"] st
       | Some v =>
           if bool_decide (Vd_Value v = VerdictPass) then st
           else if bool_decide (Vd_Value v = VerdictWarn) then
             raise_decision DecisionReview (warn_reasons (Res_ID r) (Res_Findings r)) st
           else if bool_decide (Vd_Value v = VerdictFail) then
             fold_left (eval_fail p (Res_ID r)) (Res_Findings r) st
           else if bool_decide (Vd_Value v = VerdictUnknown) then
             raise_decision DecisionDefer
               [mkDecisionReason "provider_unknown" (Res_ID r) "" None
                  "Provider returned an indeterminate verdict; deferring for more evidence"] st
           else st
       end.

Definition Evaluate (p : Engine) (sub : Submission) (results : list ProviderResult)
    (rand : string) (now now' : Time) : res string PolicyDecision :=
  let st := fold_left (eval_result p) results (DecisionAllow, []) in
  let defer := bool_decide (st.1 = DecisionDefer) in
  Ok (mkPolicyDecision ("dec_" +:+ rand) (Sub_ID sub) st.1
        (mkPolicyRef (Ex_PolicyID p) (Ex_Version p) (Ex_Digest p)) now (map Res_ID results) st.2
        (if defer then Some (now' + 1 * Hour)%Z else None)
        (if defer then "org.eclipse.scintx.submission.resume" else "") ∅).

Definition engine (p : Engine) : PolicyEngine := mkPolicyEngine (Ex_PolicyID p) (Evaluate p) None.

Lemma top_of_ok f s :
  scores_ok (Find_Severity f) = true → (top_of f).2 = Some s → score_ok (Sev_Score s) = true.
Proof.
  unfold top_of. intros Hok. revert s.
  cut (∀ acc, (∀ s, acc.2 = Some s → score_ok (Sev_Score s) = true) →
         ∀ s, (fold_left top_step (Find_Severity f) acc).2 = Some s → score_ok (Sev_Score s) = true).
  { intros Hc. by apply Hc. }
  revert Hok. induction (Find_Severity f) as [|x l IH]; simpl; [done|]. intros [Hx Hl]%andb_prop acc Hacc.
  apply IH; [done|]. unfold top_step. destruct (Sev_Score x) as [y|] eqn:Ex; [|done].
  destruct (f_gt _ _); [|done]. intros s [= <-]. by rewrite Ex.
Qed.

Lemma fail_finding_ok p rid f :
  scores_ok (Find_Severity f) = true → reason_ok (fail_finding p rid f).2 = true.
Proof.
  intros Hok. pose proof (top_of_ok f) as Ht. unfold fail_finding.
  destruct (top_of f) as [score [s|]]; [|done]. specialize (Ht s Hok eq_refl). by repeat case_match.
Qed.

Lemma example_result_reasons p r st : json_ok r = true → reasons_ok st → reasons_ok (eval_result p st r).
Proof.
  intros Hr Hst. unfold eval_result. repeat case_match; try done;
    try (apply Forall_app; split; [done|]; by repeat constructor).
  - apply Forall_app. split; [done|]. unfold warn_reasons. rewrite Forall_fmap. by apply Forall_true.
  - apply fold_reasons; [|done]. intros f st' Hf Hst'. unfold eval_fail. destruct (negb _); [done|].
    pose proof (fail_finding_ok p (Res_ID r) f (result_scores r f Hr Hf)) as Hw.
    destruct (fail_finding _ _ _) as [d why]. apply Forall_app. split; [done|]. by repeat constructor.
Qed.

#[export] Instance engine_laws (p : Engine) : PolicyLaws (engine p).
Proof.
  split; [|by intros f ? ? ? ? ? ? ? [=]| |by intros f ? ? ? ? ? ? ? [=]].
  - intros sub results rand now now' d [= <-]. unfold decision_for. simpl.
    split_and!; try done. case_bool_decide; split; done || by intros [].
  - intros sub results rand now now' d Hr [= <-]. simpl. rewrite andb_true_r.
    apply forallb_true. apply Forall_forall. apply fold_reasons; [|by constructor].
    intros r st Hin Hst. apply example_result_reasons; [|done]. by eapply Forall_forall in Hr.
Qed.

(** ** Contributions *)
Definition fail_asks (p : Engine) (rid : string) (f : Finding) : list PolicyDecisionValue :=
  if is_affected f then [(fail_finding p rid f).1] else [].

Definition result_asks (p : Engine) (r : ProviderResult) : list PolicyDecisionValue :=
  if decide (Exec_Status (Res_Execution r) = ExecutionCompleted) then
    match Res_Verdict r with
    | None => [DecisionReview]
    | Some v =>
        if decide (Vd_Value v = VerdictWarn) then [DecisionReview]
        else if decide (Vd_Value v = VerdictFail) then concat (map (fail_asks p (Res_ID r)) (Res_Findings r))
        else if decide (Vd_Value v = VerdictUnknown) then [DecisionDefer]
        else []
    end
  else if decide (Exec_Status (Res_Execution r) = ExecutionTimeout) then [timeout_decision p]
  else [DecisionReview].

Lemma example_result_decision p st r :
  (eval_result p st r).1 = fold_left escalate (result_asks p r) st.1.
Proof.
  unfold eval_result, result_asks.
  destruct (decide (Exec_Status (Res_Execution r) = ExecutionCompleted)) as [Hc|Hc]; last first.
  { rewrite bool_decide_true //. case_bool_decide; by destruct (decide _). }
  rewrite bool_decide_false; [by intros Hn; apply Hn|]. destruct (Res_Verdict r) as [v|]; [|done].
  destruct (decide (Vd_Value v = VerdictWarn)) as [Hw|Hw]; [by rewrite Hw|].
  destruct (decide (Vd_Value v = VerdictFail)) as [Hf|Hf]; last first.
  { rewrite (bool_decide_false (Vd_Value v = VerdictWarn)) // (bool_decide_false (Vd_Value v = VerdictFail)) //.
    destruct (decide (Vd_Value v = VerdictUnknown)) as [Hu|Hu]; [by rewrite Hu|].
    rewrite (bool_decide_false (Vd_Value v = VerdictUnknown)) //. by case_bool_decide. }
  rewrite Hf. apply fold_decision. intros st' f. unfold eval_fail, fail_asks. destruct (is_affected f); [|done].
  by destruct (fail_finding _ _ _).
Qed.

Lemma result_asks_valid p r : all_valid (result_asks p r).
Proof.
  unfold result_asks, all_valid. repeat (destruct (decide _) || case_match); try by repeat constructor.
  - apply Forall_concat, Forall_fmap, Forall_forall. intros f _. simpl. unfold fail_asks, fail_finding.
    repeat case_match; repeat constructor.
  - constructor; [|constructor]. unfold timeout_decision. by repeat case_bool_decide.
Qed.

(** The built-in engine never fails, and its decision is one of the four
values: the strongest of "allow" and what the results ask for, in particular
deny as soon as one affected finding of a failing result reaches the deny
threshold. *)
Theorem Evaluate_strongest p sub results rand now now' :
  ∃ d, Evaluate p sub results rand now now' = Ok d
  ∧ strongest (Dec_Decision d) (DecisionAllow :: concat (map (result_asks p) results))
  ∧ validDecision (Dec_Decision d) = true
  ∧ ∀ r v f s x, r ∈ results → Exec_Status (Res_Execution r) = ExecutionCompleted →
      Res_Verdict r = Some v → Vd_Value v = VerdictFail → f ∈ Res_Findings r → is_affected f = true →
      top_of f = (x, Some s) → f_ge x (Ex_DenyAboveScore p) = true → Dec_Decision d = DecisionDeny.
Proof.
  eexists. split; [done|]. simpl. rewrite (fold_decision _ _ _ _ (example_result_decision p)). simpl.
  set (l := concat (map (result_asks p) results)).
  assert (Hs := escalate_all_strongest l DecisionAllow). split; [done|].
  assert (Hv : all_valid (DecisionAllow :: l)).
  { constructor; [done|]. apply Forall_concat, Forall_fmap, Forall_forall. intros. apply result_asks_valid. }
  assert (Hd : validDecision (fold_left escalate l DecisionAllow) = true).
  { unfold all_valid in Hv. rewrite Forall_forall in Hv. apply Hv, Hs. }
  split; [done|]. intros r v f s x Hr Hc Hverd Hvf Hf Ha Htop Hge.
  assert (DecisionDeny ∈ l) as Hdeny.
  { apply list_elem_of_In, in_concat. exists (result_asks p r). rewrite -!list_elem_of_In.
    split; [by apply list_elem_of_fmap_2|]. unfold result_asks. rewrite decide_True // Hverd Hvf /=.
    apply list_elem_of_In, in_concat. exists [DecisionDeny]. split; [|by left]. apply in_map_iff.
    exists f. split; [|by apply list_elem_of_In]. unfold fail_asks, fail_finding. by rewrite Ha Htop Hge. }
  destruct Hs as [_ Hub]. specialize (Hub DecisionDeny). unfold validDecision in Hd.
  rewrite !orb_true_iff !bool_decide_eq_true in Hd.
  assert (rank DecisionDeny <= rank (fold_left escalate l DecisionAllow))%Z as Hle by (apply Hub; set_solver).
  destruct Hd as [[[E|E]|E]|E]; rewrite E in Hle |- *; try done; by vm_compute in Hle.
Qed.

(** A failing verdict alone does not hold an artifact back: a completed result
with verdict [fail] none of whose findings is assessed "affected" contributes
nothing, and is allowed on its own. *)
Theorem fail_without_affected_allowed p sub r v rand now now' :
  Exec_Status (Res_Execution r) = ExecutionCompleted → Res_Verdict r = Some v → Vd_Value v = VerdictFail →
  Forall (λ f, is_affected f = false) (Res_Findings r) →
  ∃ d, Evaluate p sub [r] rand now now' = Ok d ∧ Dec_Decision d = DecisionAllow ∧ Dec_Reasons d = [].
Proof.
  intros Hc Hv Hf Ha. eexists. split; [done|]. simpl. unfold eval_result.
  rewrite bool_decide_false; [by intros Hn; apply Hn|]. rewrite Hv Hf /=.
  assert (∀ st, fold_left (eval_fail p (Res_ID r)) (Res_Findings r) st = st) as Hst; [|by rewrite Hst].
  induction Ha as [|f fs Hfa _ IH]; intros st; simpl; [done|]. rewrite /eval_fail Hfa /=. apply IH.
Qed.

Lemma fail_without_affected_allowed_witness :
  let r := sample_result "r1" "osv" [sample_finding "f" ["CVE-1"] None (Some (f_of_Z 10))] in
  let r := mkProviderResult "r1" "1.0" "a" (Res_Provider r) [] "" (Res_Execution r)
             (Some (mkVerdict VerdictFail "provider" "" None)) (Res_Findings r) None None ∅ in
  ∃ d, Evaluate registered_engine sample_sub [r] "0" 1 2 = Ok d ∧ Dec_Decision d = DecisionAllow
       ∧ Dec_Reasons d = [].
Proof.
  intros r0 r. apply (fail_without_affected_allowed registered_engine sample_sub r
                        (mkVerdict VerdictFail "provider" "" None)); repeat constructor.
Defined.
End Example.
