(* ===== verification/Encoding.v ===== *)
(** * [encoding/base64], [crypto/hmac] and the text of numbers

What the request and webhook signatures are made of: base64 with padding and its
decoder, HMAC-SHA256, strings cut at spaces and quotes, and that a printed integer
parses back. *)
From S2P Require Import Prelude GoString Sha256.

(** ** Bytes and strings *)
Definition string_of_bytes (l : list Z) : string := foldr (λ z s, String (ascii_of_N (Z.to_N z)) s) "" l.

Definition is_byte (z : Z) : Prop := (0 <= z < 256)%Z.

Fixpoint chars (s : string) : list ascii := match s with "" => [] | String c s => c :: chars s end.

(** ** [base64.StdEncoding] *)
Definition b64_char (n : Z) : ascii :=
  ascii_of_N (Z.to_N (if bool_decide (n < 26) then 65 + n
                      else if bool_decide (n < 52) then 71 + n
                      else if bool_decide (n < 62) then n - 4
                      else if bool_decide (n = 62) then 43 else 47))%Z.

Definition b64_value (c : ascii) : option Z :=
  let n := Z.of_N (byte_of c) in
  (if bool_decide (65 <= n <= 90) then Some (n - 65)
   else if bool_decide (97 <= n <= 122) then Some (n - 71)
   else if bool_decide (48 <= n <= 57) then Some (n + 4)
   else if bool_decide (n = 43) then Some 62
   else if bool_decide (n = 47) then Some 63 else None)%Z.

(** The four characters of a 24-bit group. *)
Definition b64_quad (v : Z) : list ascii :=
  [b64_char (v / 262144); b64_char (v / 4096 mod 64); b64_char (v / 64 mod 64); b64_char (v mod 64)]%Z.

Fixpoint b64_encode (l : list Z) : list ascii :=
  match l with
  | [] => []
  | [a] => take 2 (b64_quad (a * 65536)) ++ ["="; "="]%char
  | [a; b] => take 3 (b64_quad (a * 65536 + b * 256)) ++ ["="]%char
  | a :: b :: c :: l => b64_quad (a * 65536 + b * 256 + c) ++ b64_encode l
  end%Z.

Fixpoint string_of_chars (l : list ascii) : string := match l with [] => "" | c :: l => String c (string_of_chars l) end.

(** [EncodeToString]. *)
Definition base64 (l : list Z) : string := string_of_chars (b64_encode l).

(** The bytes of a group of four values. *)
Definition b64_bytes (w x y z : Z) : list Z :=
  let v := (w * 262144 + x * 4096 + y * 64 + z)%Z in [v / 65536; v / 256 mod 256; v mod 256]%Z.

(** Groups of four; padding only ends the text, and unused bits are ignored. *)
Fixpoint b64_groups (l : list ascii) : option (list Z) :=
  match l with
  | [] => Some []
  | a :: b :: c :: d :: l =>
      match b64_value a, b64_value b, b64_value c, b64_value d with
      | Some w, Some x, Some y, Some z => (b64_bytes w x y z ++.) <$> b64_groups l
      | Some w, Some x, Some y, None =>
          if bool_decide (d = "="%char ∧ l = []) then Some (take 2 (b64_bytes w x y 0)) else None
      | Some w, Some x, None, None =>
          if bool_decide (c = "="%char ∧ d = "="%char ∧ l = []) then Some (take 1 (b64_bytes w x 0 0)) else None
      | _, _, _, _ => None
      end
  | _ => None
  end.

(** [DecodeString]; line breaks are skipped. *)
Definition b64_decode (s : string) : option (list Z) :=
  b64_groups (List.filter (λ c, negb (bool_decide (c = chr 10 ∨ c = chr 13))) (chars s)).

Lemma forall_below (n : nat) (P : Z → Prop) :
  Forall P (Z.of_nat <$> seq 0 n) → ∀ z, (0 <= z < Z.of_nat n)%Z → P z.
Proof.
  rewrite Forall_forall. intros Hall z Hz. apply Hall, list_elem_of_fmap. exists (Z.to_nat z). split; [lia|].
  apply elem_of_seq. lia.
Qed.

Lemma b64_char_spec n : (0 <= n < 64)%Z → b64_value (b64_char n) = Some n ∧ is_graphic (b64_char n) = true.
Proof.
  revert n. apply (forall_below 64). apply Forall_forall. intros z Hz.
  assert (forallb (λ z, bool_decide (b64_value (b64_char z) = Some z ∧ is_graphic (b64_char z) = true))
            (Z.of_nat <$> seq 0 64) = true) as Hf by (vm_compute; reflexivity).
  rewrite forallb_true in Hf. specialize (Hf _ Hz). by apply bool_decide_eq_true in Hf.
Qed.

(** Induction on lists three elements at a time. *)
Lemma list_ind3 {A} (P : list A → Prop) :
  P [] → (∀ a, P [a]) → (∀ a b, P [a; b]) → (∀ a b c l, P l → P (a :: b :: c :: l)) → ∀ l, P l.
Proof.
  intros H0 H1 H2 H3 l. assert (∀ n l, length l < n → P l) as Hn; [|apply (Hn (S (length l))); lia].
  clear l. induction n as [|n IH]; intros [|a [|b [|c l]]] Hl; simpl in Hl; try lia; auto. apply H3, IH. lia.
Qed.

Ltac b64_range := match goal with |- (0 <= ?x < 64)%Z => Z.to_euclidean_division_equations; lia end.

Lemma b64_quad_values v :
  (0 <= v < 16777216)%Z →
  map b64_value (b64_quad v) = [Some (v / 262144); Some (v / 4096 mod 64); Some (v / 64 mod 64); Some (v mod 64)]%Z.
Proof.
  intros Hv. unfold b64_quad. simpl map.
  do 4 (match goal with |- context [b64_value (b64_char ?x)] => rewrite (proj1 (b64_char_spec x ltac:(b64_range))) end). done.
Qed.

(** A group gives its bytes back. *)
Lemma b64_bytes_quad v :
  (0 <= v < 16777216)%Z →
  b64_bytes (v / 262144) (v / 4096 mod 64) (v / 64 mod 64) (v mod 64) = [v / 65536; v / 256 mod 256; v mod 256]%Z.
Proof.
  intros Hv. unfold b64_bytes.
  replace (v / 262144 * 262144 + v / 4096 mod 64 * 4096 + v / 64 mod 64 * 64 + v mod 64)%Z with v; [done|].
  Z.to_euclidean_division_equations. lia.
Qed.

Lemma b64_filter l :
  List.filter (λ c, negb (bool_decide (c = chr 10 ∨ c = chr 13))) (chars (string_of_chars l))
  = List.filter (λ c, negb (bool_decide (c = chr 10 ∨ c = chr 13))) l.
Proof. induction l as [|c l IH]; simpl; [done|]. by rewrite IH. Qed.

Lemma graphic_no_break c : is_graphic c = true → negb (bool_decide (c = chr 10 ∨ c = chr 13)) = true.
Proof. intros Hc. rewrite bool_decide_false; [|done]. intros [->| ->]; done. Qed.

Lemma b64_encode_graphic l : Forall is_byte l → Forall (λ c, is_graphic c = true) (b64_encode l).
Proof.
  induction l as [|a|a b|a b c l IH] using list_ind3; intros Hl; unfold is_byte in Hl; decompose_Forall_hyps; [constructor|..].
  - simpl. repeat constructor; apply b64_char_spec; b64_range.
  - simpl. repeat constructor; apply b64_char_spec; b64_range.
  - simpl. repeat (constructor; [apply b64_char_spec; b64_range|]). by apply IH.
Qed.

(** Decoding the base64 text of any bytes gives the bytes back. *)
Theorem base64_roundtrip l : Forall is_byte l → b64_decode (base64 l) = Some l.
Proof.
  intros Hl. unfold b64_decode, base64. rewrite b64_filter.
  rewrite List.forallb_filter_id; [apply forallb_true; intros c Hc; apply graphic_no_break; revert c Hc;
    by apply Forall_forall, b64_encode_graphic|].
  induction l as [|a|a b|a b c l IH] using list_ind3; unfold is_byte in Hl; decompose_Forall_hyps; [done|..].
  - pose proof (b64_quad_values (a * 65536) ltac:(lia)) as Hq. unfold b64_quad in Hq. simpl map in Hq. injection Hq as E1 E2 _ _.
    simpl. rewrite E1 E2. do 2 f_equal.
    Z.to_euclidean_division_equations. lia.
  - pose proof (b64_quad_values (a * 65536 + b * 256) ltac:(lia)) as Hq. unfold b64_quad in Hq. simpl map in Hq. injection Hq as E1 E2 E3 _.
    simpl. rewrite E1 E2 E3. f_equal.
    f_equal; [|f_equal]; Z.to_euclidean_division_equations; lia.
  - pose proof (b64_quad_values (a * 65536 + b * 256 + c) ltac:(lia)) as Hq. unfold b64_quad in Hq. simpl map in Hq. injection Hq as E1 E2 E3 E4.
    simpl. rewrite E1 E2 E3 E4 IH //. pose proof (b64_bytes_quad (a * 65536 + b * 256 + c) ltac:(lia)) as Hb.
    unfold b64_bytes in Hb. cbv zeta in Hb. injection Hb as F1 F2 F3. simpl. rewrite F1 F2 F3.
    do 4 f_equal; Z.to_euclidean_division_equations; lia.
Qed.

(** ** HMAC-SHA256 ([crypto/hmac], RFC 2104) *)
Definition hmac_key (key : string) : list Z :=
  let k := if bool_decide (64 < String.length key) then Sum256 key else bytes_of key in
  k ++ replicate (64 - length k) 0%Z.

Definition hmac_sha256 (key msg : string) : list Z :=
  let pad (x : Z) := string_of_bytes (Z.lxor x <$> hmac_key key) in
  Sum256 (pad 92%Z +:+ string_of_bytes (Sum256 (pad 54%Z +:+ msg))).

Example hmac_rfc4231 :
  hex_encode (hmac_sha256 "Jefe" "what do ya want for nothing?")
  = "5bdcc146bf60754e6a042426089575c75a003f089d2739839dec58b964ec3843".
Proof. vm_compute. reflexivity. Qed.

Lemma hmac_bytes key msg : Forall is_byte (hmac_sha256 key msg).
Proof. apply Sum256_range. Qed.

Lemma hmac_length key msg : length (hmac_sha256 key msg) = 32.
Proof. apply Sum256_length. Qed.

(** ** Printed integers *)
Lemma digit_pretty n : (n < 10)%N → digit_of (pretty_N_char n) = Some (Z.of_N n).
Proof.
  intros Hn. assert (n = 0 ∨ n = 1 ∨ n = 2 ∨ n = 3 ∨ n = 4 ∨ n = 5 ∨ n = 6 ∨ n = 7 ∨ n = 8 ∨ n = 9)%N as Hc by lia.
  by repeat (destruct Hc as [->|Hc]; [vm_compute; reflexivity|]); subst.
Qed.

Lemma parse_pretty_go x s : parse_digits 0 (pretty_N_go x s) = parse_digits (Z.of_N x) s.
Proof.
  revert s. induction (N.lt_wf_0 x) as [x _ IH]; intros s. destruct (decide (x = 0)%N) as [->|Hx]; [by rewrite pretty_N_go_0|].
  rewrite pretty_N_go_step; [lia|]. rewrite IH; [apply N.div_lt; lia|]. simpl.
  rewrite digit_pretty; [by apply N.mod_lt|]. f_equal. rewrite N2Z.inj_div N2Z.inj_mod. simpl.
  pose proof (Z.div_mod (Z.of_N x) 10 ltac:(done)). lia.
Qed.

Definition is_decimal (c : ascii) : bool := bool_decide (48 ≤ byte_of c ≤ 57)%N.

Lemma pretty_go_decimal x s : all_chars is_decimal s = true → all_chars is_decimal (pretty_N_go x s) = true.
Proof.
  revert s. induction (N.lt_wf_0 x) as [x _ IH]; intros s Hs.
  destruct (decide (x = 0)%N) as [->|Hx]; [by rewrite pretty_N_go_0|].
  rewrite pretty_N_go_step; [lia|]. apply IH; [apply N.div_lt; lia|]. simpl. rewrite Hs andb_true_r.
  pose proof (digit_pretty (x mod 10) ltac:(by apply N.mod_lt)) as Hd. unfold digit_of in Hd. unfold is_decimal.
  by destruct (bool_decide _).
Qed.

Lemma all_chars_impl (f g : ascii → bool) s : (∀ c, f c = true → g c = true) → all_chars f s = true → all_chars g s = true.
Proof.
  intros Hfg. induction s as [|c s IH]; simpl; [done|]. rewrite !andb_true_iff. intros [? ?]. split; auto.
Qed.

Lemma all_chars_lacks (f : ascii → bool) c s : f c = false → all_chars f s = true → has_char c s = false.
Proof.
  intros Hf. induction s as [|d s IH]; simpl; [done|]. rewrite andb_true_iff. intros [Hd Hs].
  rewrite (IH Hs) bool_decide_false //. intros ->. congruence.
Qed.

Lemma fmt_d_decimal z : (0 <= z)%Z → all_chars is_decimal (fmt_d z) = true ∧ fmt_d z ≠ "" ∧ parse_digits 0 (fmt_d z) = Some z.
Proof.
  intros Hz. unfold fmt_d, pretty, pretty_Z. destruct z as [|p|p]; [|..|lia]; [by vm_compute|].
  change (pretty p) with (pretty_N_go (N.pos p) ""). split; [by apply pretty_go_decimal|]. split; [|by rewrite parse_pretty_go].
  intros Hn. pose proof (parse_pretty_go (N.pos p) "") as Hp. rewrite Hn in Hp. by injection Hp.
Qed.

Lemma decimal_graphic c : is_decimal c = true → is_graphic c = true.
Proof. unfold is_decimal, is_graphic. rewrite !bool_decide_eq_true. lia. Qed.

(** A printed non-negative 64-bit integer parses back. *)
Lemma ParseInt_fmt_d z : (0 <= z < 2^63)%Z → ParseInt (fmt_d z) = Some z.
Proof.
  intros Hz. destruct (fmt_d_decimal z) as (Hd & Hne & Hp); [lia|]. unfold ParseInt.
  destruct (fmt_d z) as [|c s]; [done|]. simpl in Hd. apply andb_true_iff in Hd as [Hc _].
  assert (c ≠ "-"%char ∧ c ≠ "+"%char) as [H1 H2] by (split; intros ->; done).
  assert (∀ (a b d : option Z), match String c s with String "-" _ => a | String "+" _ => b | _ => d end = d) as ->.
  { intros a b d. destruct c as [[] [] [] [] [] [] [] []]; done. }
  rewrite Hp. rewrite bool_decide_true //. lia.
Qed.

(** ** [strings.Trim] with one cutset byte, [HasSuffix], [Fields] *)
Fixpoint TrimLeft (s : string) (c : ascii) : string :=
  match s with String d s' => if bool_decide (d = c) then TrimLeft s' c else s | "" => "" end.

Definition Trim (s : string) (c : ascii) : string := TrimRight (TrimLeft s c) c.

Definition HasSuffix (s suffix : string) : bool := String.prefix (String.rev suffix) (String.rev s).

(** The length of the space character [s] starts with, if it does. *)
Definition leading_space (s : string) : option nat :=
  String.length <$> List.find (HasPrefix s) space_runes.

(** [strings.Fields]: [cur] is the current field, reversed; the fuel is the length of
the text. *)
Fixpoint fields_loop (fuel : nat) (cur s : string) : list string :=
  let flush := if bool_decide (cur = "") then [] else [String.rev cur] in
  match fuel, s with
  | S fuel, String c s' =>
      match leading_space s with
      | Some n => flush ++ fields_loop fuel "" (drop_str n s)
      | None => fields_loop fuel (String c cur) s'
      end
  | _, _ => flush
  end.

Definition Fields (s : string) : list string := fields_loop (String.length s) "" s.

Example Fields_example : Fields " a  bc d " = ["a"; "bc"; "d"].
Proof. vm_compute. reflexivity. Qed.

(** Trimming spaces around graphic characters. *)
Definition ends_graphic (s : string) : bool :=
  match s, String.rev s with
  | String c _, String d _ => is_graphic c && is_graphic d
  | _, _ => false
  end.

Lemma trim_prefixes_first pats fuel c s :
  forallb starts_nongraphic pats = true → is_graphic c = true → trim_prefixes pats fuel (String c s) = String c s.
Proof.
  intros Hp Hc. destruct fuel; simpl; [done|].
  destruct (List.find (HasPrefix (String c s)) pats) as [p|] eqn:E; [|done].
  apply List.find_some in E as [Hin Hpre]. rewrite forallb_forall in Hp. apply Hp in Hin.
  destruct p as [|d p]; [done|]. unfold HasPrefix in Hpre. simpl in *.
  destruct (ascii_dec d c) as [->|]; [|done]. by rewrite Hc in Hin.
Qed.

Lemma TrimSpace_ends s : ends_graphic s = true → TrimSpace s = s.
Proof.
  unfold ends_graphic. destruct s as [|c s]; [done|]. destruct (String.rev (String c s)) as [|d r] eqn:Er; [done|].
  rewrite andb_true_iff. intros [Hc Hd]. unfold TrimSpace. rewrite trim_prefixes_first //. rewrite Er trim_prefixes_first //.
  by rewrite -Er rev_rev.
Qed.

(** ** Percent encoding ([net/url]) *)
Definition hex_value (c : ascii) : option N :=
  let n := byte_of c in
  if bool_decide (48 ≤ n ≤ 57)%N then Some (n - 48)%N
  else if bool_decide (97 ≤ n ≤ 102)%N then Some (n - 87)%N
  else if bool_decide (65 ≤ n ≤ 70)%N then Some (n - 55)%N else None.

(** [url.PathUnescape]; [None] on a malformed escape. *)
Fixpoint unescape (s : string) : option string :=
  match s with
  | "" => Some ""
  | String c s1 =>
      if decide (c = "%"%char) then
        match s1 with
        | String a (String b s2) =>
            match hex_value a, hex_value b, unescape s2 with
            | Some x, Some y, Some t => Some (String (ascii_of_N (x * 16 + y)) t)
            | _, _, _ => None
            end
        | _ => None
        end
      else match unescape s1 with Some t => Some (String c t) | None => None end
  end.

(** [url.QueryUnescape]. *)
Definition QueryUnescape (s : string) : option string :=
  unescape (map_chars (λ c, if bool_decide (c = "+"%char) then " "%char else c) s).
