(* ===== verification/Orchestrator.v ===== *)
(** * The orchestrator: [internal/scintx/orchestrator.go], [artifact_content.go],
[adjudication_forward.go]

[Process], [Adjudicate] and the resume transitions as state-passing code on a
[World]: the store behind its interface, the event emitter with what it handed to
the deliverer, the result cache, and a counter of the readings of the clock and
of the random source.  The provider fan-out of [Process] is concurrent: each
goroutine is a state machine whose steps are its calls on shared state, and
[Process] takes the schedule that interleaves them. *)
From S2P Require Import Prelude GoString GoFloat GoTime Types Purl Matching Store StoreSpec Gateway Aggregator Policy ExamplePolicy.

(** The [n]-th reading of the random source and of the clock. *)
Class Env := {
  rand_hex : nat → string;
  clock : nat → Time;
}.

(** [api.Provider] with its optional [AdjudicationReceiver].  [Assess] is code of
the adapter: what it answers may differ from call to call. *)
Record Provider := mkProvider {
  Prov_ID : string;
  Prov_Capabilities : ProviderCapabilities;
  Prov_Assess : nat → Artifact → Capability → res string ProviderResult;
  Prov_Receive : option (AdjudicationFeedback → option string);
}.

(** [api.ResultAggregator]. *)
Definition ResultAggregator : Type := string → Time → list ProviderResult → res string MergedResult.

(** What [Process] relies on: merging results JSON can carry gives one it can carry. *)
Class AggregatorLaws (agg : option ResultAggregator) :=
  aggregate_json : ∀ f rand now results m,
    agg = Some f → all_json results → f rand now results = Ok m → json_ok m = true.

#[export] Instance no_aggregator_laws : AggregatorLaws None.
Proof. by intros f. Qed.

(** [DefaultAggregator] behind the interface; it never returns an error. *)
Definition default_aggregator `{Unicode} (a : DefaultAggregator) : ResultAggregator :=
  λ rand now results, Ok (Aggregate a rand now results).

(** The aggregator [serve] builds. *)
#[export] Instance default_aggregator_laws `{Unicode} : AggregatorLaws (Some (default_aggregator NewDefaultAggregator)).
Proof. intros f rand now results m [= <-] Hr [= <-]. by apply Aggregate_json. Qed.

Record Orchestrator := mkOrchestrator {
  o_providers : list Provider;
  o_policy : PolicyEngine;
  o_cacheTTL : Duration;
  o_aggregator : option ResultAggregator;
  o_adjForward : gset string;
  o_deliver : bool;
}.

Record World (ST C : Type) := mkWorld {
  w_store : ST;
  w_emitter : EventEmitter;
  w_delivered : list CloudEvent;
  w_cache : C;
  w_tick : nat;
}.
Arguments mkWorld {ST C}.
Arguments w_store {ST C}.
Arguments w_emitter {ST C}.
Arguments w_delivered {ST C}.
Arguments w_cache {ST C}.
Arguments w_tick {ST C}.

(** ** Allowlists ([parseAllowlist]) *)
Definition parseAllowlist (raw : string) : gset string :=
  let raw := TrimSpace raw in
  if bool_decide (raw = "") then ∅
  else fold_left (λ out part, let id := TrimSpace part in
         if bool_decide (id = "") then out else {[id]} ∪ out) (Split raw ","%char) ∅.

Section orchestrator.
Context `{Store ST} `{ResultCache C} `{Env} `{Unicode}.
Context (o : Orchestrator).

Abbreviation W := (World ST C).
Abbreviation WM A := (GoM GoErr W A).

(** ** Effects *)
Definition store_op {A} (m : StoreM ST A) : WM A := λ w,
  let r := m (w_store w) in
  (mkWorld r.1 (w_emitter w) (w_delivered w) (w_cache w) (w_tick w), r.2).

Definition tick (w : W) : W :=
  mkWorld (w_store w) (w_emitter w) (w_delivered w) (w_cache w) (S (w_tick w)).

Definition draw_rand : WM string := λ w, (tick w, Ok (rand_hex (w_tick w))).
Definition read_clock : WM Time := λ w, (tick w, Ok (clock (w_tick w))).

Definition modify (f : W → W) : WM () := λ w, (f w, Ok ()).

(** [EventEmitter.Emit]; the deliverer, when there is one, gets the event too. *)
Definition emit (eventType subject : string) (data : anymap) : WM () :=
  rand ← draw_rand;
  now ← read_clock;
  modify (λ w,
    let '(em, evt, s) := Emit rand now eventType subject data (w_emitter w) (w_store w) in
    mkWorld s em (if o_deliver o then w_delivered w ++ [evt] else w_delivered w) (w_cache w) (w_tick w)).

(** ** Terminal writes *)
Definition complete (sub : Submission) (reason : CompletionReason) (decisionID : option string) : WM () :=
  now ← read_clock;
  let sub := set_Sub_CompletedAt (Some now)
               (set_Sub_CompletionReason (Some reason) (set_Sub_Status SubmissionCompleted sub)) in
  let sub := match decisionID with Some d => set_Sub_DecisionID (Some d) sub | None => sub end in
  _ ← store_op (PutSubmission (Some sub));
  let data := <["submission_id" := VStr (Sub_ID sub)]>
                (<["completion_reason" := VStr (reason_string reason)]> ∅) in
  let data := match decisionID with Some d => <["decision_id" := VStr d]> data | None => data end in
  emit "org.eclipse.scintx.submission.completed.v1" (Sub_ID sub) data.

(** The failure block [Process] has twice (missing blob, policy error): the store
error is ignored, the event is emitted and the error returned. *)
Definition fail_with (sub : Submission) (e : GoErr) : WM () :=
  now ← read_clock;
  let sub := set_Sub_CompletedAt (Some now)
               (set_Sub_CompletionReason (Some CompletionFailed) (set_Sub_Status SubmissionFailed sub)) in
  _ ← go_try (store_op (PutSubmission (Some sub)));
  _ ← emit "org.eclipse.scintx.submission.failed.v1" (Sub_ID sub)
        (<["submission_id" := VStr (Sub_ID sub)]> (<["error" := VStr (err_string e)]> ∅));
  go_fail e.

Definition is_terminal (st : SubmissionStatus) : bool :=
  bool_decide (st = SubmissionCompleted) || bool_decide (st = SubmissionFailed)
  || bool_decide (st = SubmissionDeferred).

Definition failInterrupted (subID : string) (cause : GoErr) : WM () :=
  r ← go_try (store_op (GetSubmission subID));
  match r with
  | Err _ | Ok None => go_fail cause
  | Ok (Some sub) =>
      if is_terminal (Sub_Status sub) then go_fail cause
      else
        now ← read_clock;
        let sub := set_Sub_CompletedAt (Some now)
                     (set_Sub_CompletionReason (Some CompletionInterrupted)
                        (set_Sub_Status SubmissionFailed sub)) in
        _ ← go_try (store_op (PutSubmission (Some sub)));
        _ ← emit "org.eclipse.scintx.submission.failed.v1" (Sub_ID sub)
              (<["submission_id" := VStr (Sub_ID sub)]> (<["error" := VStr (err_string cause)]>
                 (<["completion_reason" := VStr (reason_string CompletionInterrupted)]> ∅)));
        go_fail cause
  end.

(** ** The artifact handed to providers *)
Definition canonical_artifact (a : Artifact) : Artifact :=
  match Art_PURL a with
  | Some p => match CanonicalPurl p with Ok cp => set_Art_PURL (Some cp) a | Err _ => a end
  | None => a
  end.

Definition hydrateLocalBlob (a : Artifact) : WM Artifact :=
  match Art_ContentRef a with
  | None => mret a
  | Some ref =>
      match LocalBlobDigest (Ref_URI ref) with
      | None => mret a
      | Some digest =>
          r ← go_try (store_op (GetArtifact digest));
          match r with
          | Err e => go_fail (ErrorString ("load artifact " +:+ digest +:+ ": " +:+ err_string e))
          | Ok None => go_fail (ErrorString ("local blob " +:+ digest +:+ " is missing from the store"))
          | Ok (Some body) => mret (set_Art_Content (Some body) a)
          end
      end
  end.

Record selectedProvider := mkSelected {
  Sel_ProvID : string;
  Sel_Capability : Capability;
  Sel_Impl : Provider;
}.

Definition select_providers (a : Artifact) (requested : list string) : list selectedProvider :=
  concat (map (λ reqCap, omap (λ p,
    match MatchingCapability a (Caps_Capabilities (Prov_Capabilities p)) reqCap with
    | inl c => Some (mkSelected (Prov_ID p) c p)
    | inr _ => None
    end) (o_providers o)) requested).

(** ** The goroutine of one selected provider *)
Inductive GPhase :=
| GStart
| GCacheGet
| GAssess
| GCacheSet (res : ProviderResult)
| GPutResult (res : ProviderResult)
| GAppend (res : ProviderResult)
| GEmitResult (res : ProviderResult)
| GDone.

Definition error_result (rand : string) (started : Time) (msg : string) : ProviderResult :=
  mkProviderResult ("res_" +:+ rand) "" "" (mkProviderRef "" "") [] ""
    (mkExecution ExecutionError started started (Some (mkProviderError ErrTransport msg ∅))) None [] None None ∅.

Definition result_event (res : ProviderResult) : string :=
  if bool_decide (Exec_Status (Res_Execution res) = ExecutionError)
  then "org.eclipse.scintx.provider.result.error.v1"
  else if bool_decide (Exec_Status (Res_Execution res) = ExecutionTimeout)
  then "org.eclipse.scintx.provider.result.timeout.v1"
  else "org.eclipse.scintx.provider.result.completed.v1".

Definition cache_hit (res : ProviderResult) : bool :=
  match Res_Cache res with Some c => Cache_Hit c | None => false end.

Definition run_unit (m : WM ()) (w : W) : W := (m w).1.

(** One step of the goroutine: one call on shared state.  [ids] is the slice
[resultIDs] under its mutex. *)
Definition goroutine_step (subID : string) (a : Artifact) (sel : selectedProvider)
    (ph : GPhase) (w : W) (ids : list string) : GPhase * W * list string :=
  let key := ResultCacheKey (Sel_ProvID sel) (Cap_ID (Sel_Capability sel)) a in
  match ph with
  | GStart =>
      (GCacheGet, run_unit (emit "org.eclipse.scintx.provider.invocation.started.v1" subID
         (<["submission_id" := VStr subID]> (<["provider_id" := VStr (Sel_ProvID sel)]>
            (<["capability" := VStr (Cap_ID (Sel_Capability sel))]> ∅)))) w, ids)
  | GCacheGet =>
      match cache_get key (w_cache w) with
      | Ok (Some cached) =>
          (GPutResult (MaterializeCachedResult (rand_hex (w_tick w)) (clock (S (w_tick w))) cached subID
                         (o_cacheTTL o)), tick (tick w), ids)
      | Ok None | Err _ => (GAssess, w, ids)
      end
  | GAssess =>
      let '(res, w) :=
        match Prov_Assess (Sel_Impl sel) (w_tick w) a (Sel_Capability sel) with
        | Ok res => (res, tick w)
        | Err e => (error_result (rand_hex (S (S (w_tick w)))) (clock (S (w_tick w))) e, tick (tick (tick w)))
        end in
      let res := set_Res_SubmissionID subID res in
      (if bool_decide (Exec_Status (Res_Execution res) = ExecutionCompleted)
       then GCacheSet res else GPutResult res, w, ids)
  | GCacheSet res =>
      (GPutResult res,
       mkWorld (w_store w) (w_emitter w) (w_delivered w) (cache_set key res (o_cacheTTL o) (w_cache w)).1 (w_tick w),
       ids)
  | GPutResult res =>
      let r := store_op (PutResult (Some res)) w in
      match r.2 with
      | Err _ => (GDone, r.1, ids)
      | Ok _ => (GAppend res, r.1, ids)
      end
  | GAppend res => (GEmitResult res, w, ids ++ [Res_ID res])
  | GEmitResult res =>
      (GDone, run_unit (emit (result_event res) subID
         (<["submission_id" := VStr subID]> (<["result_id" := VStr (Res_ID res)]>
           (<["provider_id" := VStr (Sel_ProvID sel)]>
             (<["execution_status" := VStr (Exec_Status (Res_Execution res))]>
               (<["cache_hit" := VBool (cache_hit res)]> ∅)))))) w, ids)
  | GDone => (GDone, w, ids)
  end.

Record FanOut := mkFanOut {
  f_threads : list (selectedProvider * GPhase);
  f_world : W;
  f_ids : list string;
}.

(** The scheduler lets goroutine [i] take a step. *)
Definition fan_step (subID : string) (a : Artifact) (st : FanOut) (i : nat) : FanOut :=
  match f_threads st !! i with
  | None => st
  | Some (sel, ph) =>
      let '(ph, w, ids) := goroutine_step subID a sel ph (f_world st) (f_ids st) in
      mkFanOut (<[i := (sel, ph)]> (f_threads st)) w ids
  end.

(** [wg.Wait()] returns when every goroutine is done: an arbitrary interleaving
[sched], then enough rounds for each to finish; a finished goroutine ignores its
turns, so a schedule that already completes them is followed exactly. *)
Definition drain (n : nat) : list nat := concat (replicate 7 (seq 0 n)).

Definition fan_out (sched : list nat) (subID : string) (a : Artifact) (sels : list selectedProvider) (w : W) : FanOut :=
  fold_left (fan_step subID a) (sched ++ drain (length sels))
    (mkFanOut (map (λ s, (s, GStart)) sels) w []).

Definition run_fan_out (sched : list nat) (subID : string) (a : Artifact) (sels : list selectedProvider)
  : WM (list string) := λ w,
  let f := fan_out sched subID a sels w in (f_world f, Ok (f_ids f)).

(** ** [Process] *)

(** Aggregation: errors fall back to raw results. *)
Definition aggregate_results (subID : string) (results : list ProviderResult) : WM (option MergedResult) :=
  match o_aggregator o with
  | None => mret None
  | Some agg =>
      rand ← draw_rand;
      now ← read_clock;
      match agg rand now results with
      | Err _ => mret None
      | Ok m =>
          let m := set_MR_SubmissionID subID m in
          _ ← go_try (store_op (PutMergedResult (Some m)));
          mret (Some m)
      end
  end.

Definition evaluate_policy (sub : Submission) (results : list ProviderResult) (merged : option MergedResult)
  : WM (res string PolicyDecision) :=
  rand ← draw_rand;
  now ← read_clock;
  now' ← read_clock;
  mret (match merged, PEng_EvaluateMerged (o_policy o) with
        | Some m, Some f => f sub results m rand now now'
        | _, _ => PEng_Evaluate (o_policy o) sub results rand now now'
        end).

Definition has_policy (sub : Submission) : bool :=
  match Sub_PolicyRef sub with Some p => bool_decide (p ≠ "") | None => false end.

Definition decision_data (sub : Submission) (d : PolicyDecision) : anymap :=
  <["submission_id" := VStr (Sub_ID sub)]> (<["decision_id" := VStr (Dec_ID d)]>
    (<["decision" := VStr (Dec_Decision d)]> ∅)).

(** Recording a decision: the tail of [Process]. *)
Definition record_decision (sub : Submission) (d : PolicyDecision) : WM () :=
  _ ← store_op (PutDecision (Some d));
  let sub := set_Sub_DecisionID (Some (Dec_ID d)) sub in
  if bool_decide (Dec_Decision d = DecisionDefer) then
    let sub := set_Sub_CompletionReason (Some CompletionDeferred) (set_Sub_Status SubmissionDeferred sub) in
    let sub := match Dec_ResumeAt d with Some t => set_Sub_ResumeAt (Some t) sub | None => sub end in
    _ ← store_op (PutSubmission (Some sub));
    emit "org.eclipse.scintx.submission.deferred.v1" (Sub_ID sub) (decision_data sub d)
  else
    _ ← emit "org.eclipse.scintx.policy-decision.created.v1" (Sub_ID sub) (decision_data sub d);
    complete sub CompletionDecisionProduced (Some (Dec_ID d)).

(** From the submission as reloaded after the fan-out. *)
Definition decide_submission (sub : Submission) (resultIDs : list string) : WM () :=
  let sub := set_Sub_ResultIDs resultIDs sub in
  _ ← store_op (PutSubmission (Some sub));
  if negb (has_policy sub) then complete sub CompletionFindingsOnly None
  else
    results ← store_op (GetResultsForSubmission (Sub_ID sub));
    merged ← aggregate_results (Sub_ID sub) results;
    d ← evaluate_policy sub results merged;
    match d with
    | Err e => fail_with sub (ErrorString e)
    | Ok d => record_decision sub d
    end.

(** After the fan-out. *)
Definition after_fan_out (ctx : option string) (subID : string) (resultIDs : list string) : WM () :=
  match ctx with
  | Some e => failInterrupted subID (ErrorString e)
  | None =>
      r ← store_op (GetSubmission subID);
      match r with
      | None => go_fail (ErrorString ("submission disappeared: " +:+ subID))
      | Some sub => decide_submission sub resultIDs
      end
  end.

(** [ctx] gives the error of the [n]-th look at the context: at the start, when no
provider was selected, after the fan-out. *)
Definition Process (ctx : nat → option string) (sched : list nat) (subID : string) : WM () :=
  match ctx 0 with
  | Some e => failInterrupted subID (ErrorString e)
  | None =>
      r ← store_op (GetSubmission subID);
      match r with
      | None => go_fail (ErrorString ("submission not found: " +:+ subID))
      | Some sub =>
          let sub := set_Sub_Status SubmissionRunning sub in
          _ ← store_op (PutSubmission (Some sub));
          _ ← emit "org.eclipse.scintx.submission.created.v1" (Sub_ID sub)
                (<["submission_id" := VStr (Sub_ID sub)]>
                   (<["status" := VStr (status_string (Sub_Status sub))]> ∅));
          h ← go_try (hydrateLocalBlob (canonical_artifact (Sub_Artifact sub)));
          match h with
          | Err e => fail_with sub e
          | Ok artifact =>
              match select_providers artifact (Sub_RequestedCapabilities sub) with
              | [] =>
                  match ctx 1 with
                  | Some e => failInterrupted subID (ErrorString e)
                  | None => complete sub CompletionAllProvidersIneligible None
                  end
              | selected =>
                  ids ← run_fan_out sched (Sub_ID sub) artifact selected;
                  after_fan_out (ctx 2) subID ids
              end
          end
      end
  end.

(** ** Resume *)
Definition MarkForResume (subID : string) : WM () :=
  r ← go_try (store_op (ClaimResume subID));
  match r with
  | Ok _ => mret ()
  | Err ErrResumeNotDeferred =>
      s ← store_op (GetSubmission subID);
      match s with
      | None => go_fail (ErrorString "submission not found")
      | Some sub => go_fail (ErrorString ("submission is not deferred (status="
                                          +:+ status_string (Sub_Status sub) +:+ ")"))
      end
  | Err e => go_fail e
  end.

Definition UnmarkResume (subID : string) : WM () := store_op (ReleaseResume subID).

(** ** Adjudication *)
Definition firstResultID (ids : list string) : string := match ids with [] => "" | i :: _ => i end.

Definition adjudicationMessage (req : AdjudicateRequest) : string :=
  if bool_decide (Adj_Rationale req ≠ "") then Adj_Rationale req
  else if bool_decide (Adj_Source req ≠ "")
  then "Consumer resolution from " +:+ Adj_Source req +:+ ": " +:+ Adj_Decision req
  else "Consumer shared final resolution: " +:+ Adj_Decision req.

(** The keys the gateway writes; the request's own extensions never override
them (the union is left-biased). *)
Definition adjudication_reserved (req : AdjudicateRequest) (prior : PolicyDecision) : anymap :=
  let ext := <["origin" := VStr "consumer"]> (<["prior_decision_id" := VStr (Dec_ID prior)]>
               (<["prior_decision" := VStr (Dec_Decision prior)]> ∅)) in
  let ext := if bool_decide (Adj_Actor req ≠ "") then <["actor" := VStr (Adj_Actor req)]> ext else ext in
  let ext := if bool_decide (Adj_Rationale req ≠ "")
             then <["rationale" := VStr (Adj_Rationale req)]> ext else ext in
  let ext := if bool_decide (Adj_Source req ≠ "") then <["source" := VStr (Adj_Source req)]> ext else ext in
  match Adj_ExpiresAt req with
  | Some t => <["expires_at" := VStr (RFC3339Nano t)]> ext
  | None => ext
  end.

Definition adjudication_extensions (req : AdjudicateRequest) (prior : PolicyDecision) : anymap :=
  adjudication_reserved req prior ∪ Adj_Extensions req.

Definition adjudication_decision (rand : string) (now : Time) (sub : Submission) (req : AdjudicateRequest)
    (prior : PolicyDecision) : PolicyDecision :=
  let rid := firstResultID (Dec_InputResultIDs prior) in
  mkPolicyDecision ("dec_" +:+ rand) (Sub_ID sub) (Adj_Decision req) (Dec_Policy prior) now
    (Dec_InputResultIDs prior)
    [mkDecisionReason "consumer_adjudication" (if bool_decide (rid = "") then "none" else rid) "" None
       (adjudicationMessage req)] None "" (adjudication_extensions req prior).

(** The providers notified: on the allowlist, advertising and implementing the
receiver. *)
Definition adjudicationForwardTargets : list Provider :=
  List.filter (λ p, bool_decide (Prov_ID p ∈ o_adjForward o)
                    && Caps_AcceptsAdjudications (Prov_Capabilities p)
                    && match Prov_Receive p with Some _ => true | None => false end) (o_providers o).

(** The calls of the detached goroutine of [forwardAdjudicationBestEffort], in
order; it only logs their outcome. *)
Definition forwarded_feedback (sub : Submission) (decision : PolicyDecisionValue)
  : list (string * AdjudicationFeedback) :=
  if bool_decide (o_adjForward o = ∅) then []
  else match Art_PURL (Sub_Artifact sub) with
       | None => []
       | Some p =>
           if bool_decide (TrimSpace p = "") then []
           else map (λ q, (Prov_ID q, mkAdjudicationFeedback decision (TrimSpace p)))
                  adjudicationForwardTargets
       end.

Definition adjudication_data (subID : string) (req : AdjudicateRequest) (prior dec : PolicyDecision) : anymap :=
  <["submission_id" := VStr subID]> (<["decision_id" := VStr (Dec_ID dec)]>
    (<["decision" := VStr (Dec_Decision dec)]> (<["prior_decision_id" := VStr (Dec_ID prior)]>
      (<["prior_decision" := VStr (Dec_Decision prior)]> (<["source" := VStr (Adj_Source req)]>
        (<["actor" := VStr (Adj_Actor req)]> ∅)))))).

(** Returns the decision and the feedback forwarded in the background. *)
Definition Adjudicate (subID : string) (req : AdjudicateRequest)
  : WM (PolicyDecision * list (string * AdjudicationFeedback)) :=
  if bool_decide (Adj_Decision req ≠ DecisionAllow) && bool_decide (Adj_Decision req ≠ DecisionDeny)
  then go_fail ErrAdjudicateInvalidDecision
  else
    r ← store_op (GetSubmission subID);
    match r with
    | None => go_fail ErrAdjudicateNotFound
    | Some sub =>
        if bool_decide (Sub_Status sub ≠ SubmissionCompleted)
        then go_fail (ErrAdjudicateInvalidState ("status=" +:+ status_string (Sub_Status sub) +:+ " (need completed)"))
        else match Sub_DecisionID sub with
        | None => go_fail (ErrAdjudicateInvalidState "no prior policy decision to resolve")
        | Some did =>
            if bool_decide (did = "")
            then go_fail (ErrAdjudicateInvalidState "no prior policy decision to resolve")
            else
              p ← store_op (GetDecision did);
              match p with
              | None => go_fail (ErrAdjudicateInvalidState "prior decision missing")
              | Some prior =>
                  rand ← draw_rand;
                  now ← read_clock;
                  let dec := adjudication_decision rand now sub req prior in
                  _ ← store_op (PutDecision (Some dec));
                  let sub := set_Sub_DecisionID (Some (Dec_ID dec)) sub in
                  _ ← store_op (PutSubmission (Some sub));
                  _ ← emit "org.eclipse.scintx.policy-decision.resolved.v1" (Sub_ID sub)
                        (adjudication_data (Sub_ID sub) req prior dec);
                  mret (dec, forwarded_feedback sub (Dec_Decision dec))
              end
        end
    end.
End orchestrator.
#[global] Arguments store_op : simpl never.
#[global] Arguments emit : simpl never.
#[global] Arguments run_unit : simpl never.

(** ** Reasoning against the store interface *)
Section orchestrator_spec.
Context `{StoreLaws ST} `{ResultCacheLaws C} `{Env} `{Unicode}.
Context (o : Orchestrator).
Implicit Types (w : World ST C) (sub : Submission).

(** What the store shows, apart from the event log. *)
Definition wcore w : StoreView := set_v_events [] (view (w_store w)).
Definition wvalid w : Prop := valid (w_store w).

(** Nothing but the event log and the clock has moved. *)
Definition quiet w w' : Prop :=
  wvalid w' ∧ wcore w' = wcore w ∧ w_cache w' = w_cache w ∧ w_tick w ≤ w_tick w'.

Lemma quiet_refl w : wvalid w → quiet w w.
Proof. done. Qed.

Lemma quiet_trans w1 w2 w3 : quiet w1 w2 → quiet w2 w3 → quiet w1 w3.
Proof. unfold quiet. intros (? & E1 & E2 & ?) (? & F1 & F2 & ?). rewrite F1 F2. split_and!; [done..|lia]. Qed.

Lemma wp_draw_rand Q w : wvalid w → (∀ n w', w_tick w ≤ n → quiet w w' → Q (Ok (rand_hex n)) w') → wp draw_rand Q w.
Proof. intros Hv HQ. apply HQ; [done|]. split_and!; simpl; [done..|lia]. Qed.

Lemma wp_read_clock Q w : wvalid w → (∀ a w', quiet w w' → Q (Ok a) w') → wp read_clock Q w.
Proof. intros Hv HQ. apply HQ. split_and!; simpl; [done..|lia]. Qed.

Lemma emit_quiet ty subj data w : wvalid w → quiet w (run_unit (emit o ty subj data) w) ∧ (emit o ty subj data w).2 = Ok ().
Proof.
  intros Hv. unfold run_unit, emit, mbind, GoM_bind, modify, Emit. simpl.
  destruct (next_seq _) as [sq sq']. simpl. split; [|done].
  match goal with |- context [AppendEvent ?e _] => destruct (AppendEvent_law (w_store w) e Hv) as [Hv' Hp] end.
  split; [done|]. split; [|split; [done|simpl; lia]]. unfold wcore. simpl. by destruct Hp as [[_ ->]|(_ & _ & ->)].
Qed.

Lemma wp_emit ty subj data Q w :
  wvalid w → (∀ w', quiet w w' → Q (Ok ()) w') → wp (emit o ty subj data) Q w.
Proof.
  intros Hv HQ. destruct (emit_quiet ty subj data w Hv) as [Hq He]. unfold wp. rewrite He. by apply HQ.
Qed.

(** A put either stores the clone or, for a value JSON cannot carry, may be refused. *)
Lemma wp_put `{Json A} (put : A → StoreView → StoreView) (x : A) (m : StoreM ST ()) Q w :
  (∀ y v, set_v_events [] (put y v) = put y (set_v_events [] v)) →
  valid (m (w_store w)).1 ∧ put_spec put x (view (w_store w)) (m (w_store w)).2 (view (m (w_store w)).1) →
  (∀ w', wvalid w' → wcore w' = put (CloneJSON x) (wcore w) → w_cache w' = w_cache w → Q (Ok ()) w') →
  (json_ok x = false → is_Ok (m (w_store w)).2 = false → ∀ e w', quiet w w' → Q (Err e) w') →
  wp (store_op m) Q w.
Proof.
  intros Hev [Hv Hp] HQ HE. unfold wp, store_op. simpl. destruct Hp as [[Hr Hview]|(Hok & Hr & Hview)].
  - rewrite Hr. apply HQ; [done| |done]. unfold wcore. simpl. by rewrite Hview Hev.
  - destruct ((m (w_store w)).2) as [|e]; [done|]. apply HE; [done..|]. split_and!; [done| |done..].
    unfold wcore. simpl. by rewrite Hview.
Qed.

Lemma wp_PutSubmission sub Q w :
  wvalid w → json_ok sub = true →
  (∀ w', wvalid w' → wcore w' = v_put_submission (CloneJSON sub) (wcore w) → w_cache w' = w_cache w → Q (Ok ()) w') →
  wp (store_op (PutSubmission (Some sub))) Q w.
Proof.
  intros Hv Hok HQ. apply (wp_put v_put_submission sub); [done| |done|congruence].
  exact (PutSubmission_law (w_store w) (Some sub) Hv).
Qed.

Lemma wp_PutDecision d Q w :
  wvalid w →
  (∀ w', wvalid w' → wcore w' = v_put_decision (CloneJSON d) (wcore w) → w_cache w' = w_cache w → Q (Ok ()) w') →
  (json_ok d = false → is_Ok (PutDecision (Some d) (w_store w)).2 = false → ∀ e w', quiet w w' → Q (Err e) w') →
  wp (store_op (PutDecision (Some d))) Q w.
Proof.
  intros Hv. apply (wp_put v_put_decision d); [done|]. exact (PutDecision_law (w_store w) (Some d) Hv).
Qed.

Lemma wp_PutMergedResult m Q w :
  wvalid w → (∀ r w', wvalid w' → v_submissions (wcore w') = v_submissions (wcore w) → v_idem (wcore w') = v_idem (wcore w) → Q r w') →
  wp (store_op (PutMergedResult (Some m))) Q w.
Proof.
  intros Hv HQ. apply (wp_put v_put_merged m); [done|exact (PutMergedResult_law (w_store w) (Some m) Hv)| |].
  - intros w' ? Hc _. apply HQ; [done|by rewrite Hc..].
  - intros _ _ e w' (? & Hc & _). apply HQ; [done|by rewrite Hc..].
Qed.

Lemma wp_GetSubmission id Q w :
  wvalid w → (∀ w', quiet w w' → Q (Ok (v_submissions (wcore w) !! id)) w') →
  wp (store_op (GetSubmission id)) Q w.
Proof. intros Hv HQ. unfold wp, store_op. rewrite (GetSubmission_law _ _ Hv). by apply HQ. Qed.

Lemma wp_GetDecision id Q w :
  wvalid w → (∀ w', quiet w w' → Q (Ok (v_decisions (wcore w) !! id)) w') →
  wp (store_op (GetDecision id)) Q w.
Proof. intros Hv HQ. unfold wp, store_op. rewrite (GetDecision_law _ _ Hv). by apply HQ. Qed.

Lemma wp_GetArtifact d Q w :
  wvalid w → (∀ w', quiet w w' → Q (Ok (v_artifacts (wcore w) !! d)) w') →
  wp (store_op (GetArtifact d)) Q w.
Proof. intros Hv HQ. unfold wp, store_op. rewrite (GetArtifact_law _ _ Hv). by apply HQ. Qed.

Lemma wp_GetResults id Q w :
  wvalid w → (∀ l w', quiet w w' → l ≡ₚ v_results_of id (wcore w) → Q (Ok l) w') →
  wp (store_op (GetResultsForSubmission id)) Q w.
Proof.
  intros Hv HQ. destruct (GetResultsForSubmission_law (w_store w) id Hv) as (l & Heq & Hl).
  unfold wp, store_op. rewrite Heq. by apply HQ.
Qed.

(** *** Submissions that survive a clone *)
Lemma stable_payload sub sub' :
  Sub_Artifact sub' = Sub_Artifact sub → Sub_ProviderSelectors sub' = Sub_ProviderSelectors sub →
  Sub_Extensions sub' = Sub_Extensions sub → stable sub → stable sub'.
Proof.
  destruct sub, sub'. simpl. intros -> -> -> [Hok Hv]. split; [done|]. simpl in *.
  injection Hv as Hv. by rewrite Hv.
Qed.

Lemma core_stable w id sub :
  wvalid w → v_submissions (wcore w) !! id = Some sub → Sub_ID sub = id ∧ stable sub.
Proof. intros Hv Hs. exact (vw_submissions _ (view_valid _ Hv) _ _ Hs). Qed.

(** A put of a stable submission shows as is. *)
Lemma put_stable_lookup v sub :
  stable sub → v_submissions (v_put_submission (CloneJSON sub) v) !! Sub_ID sub = Some sub.
Proof. intros Hs. rewrite stable_clone //. simpl. by rewrite lookup_insert_eq. Qed.

Lemma put_other_lookup v sub id :
  stable sub → id ≠ Sub_ID sub →
  v_submissions (v_put_submission (CloneJSON sub) v) !! id = v_submissions v !! id.
Proof. intros Hs Hne. rewrite stable_clone //. simpl. by rewrite lookup_insert_ne. Qed.
(** ** The fan-out under every schedule *)
Definition same_but_results (v v' : StoreView) : Prop :=
  v_submissions v' = v_submissions v ∧ v_merged v' = v_merged v ∧ v_decisions v' = v_decisions v
  ∧ v_artifacts v' = v_artifacts v ∧ v_idem v' = v_idem v ∧ v_providers v' = v_providers v.

Definition stored (v : StoreView) (subID id : string) : Prop :=
  ∃ r, v_results v !! id = Some r ∧ Res_SubmissionID r = subID.

(** The providers' answers have no NaN or infinity, which JSON cannot carry. *)
Definition assess_finite : Prop :=
  ∀ p n a c r, p ∈ o_providers o → Prov_Assess p n a c = Ok r → json_ok r = true.

Section fan_out.
Context (subID : string) (art : Artifact).
Implicit Types (sel : selectedProvider) (ph : GPhase) (st : FanOut (ST := ST) (C := C)).

(** The step that stores the result: it may end the goroutine only when the store
refuses a result JSON cannot carry. *)
Lemma step_put sel res w ids :
  wvalid w →
  let r := goroutine_step o subID art sel (GPutResult res) w ids in
  wvalid r.1.2 ∧ w_cache r.1.2 = w_cache w ∧ r.2 = ids
  ∧ (r.1.1 = GAppend res ∧ wcore r.1.2 = v_put_result (CloneJSON res) (wcore w)
     ∨ json_ok res = false ∧ r.1.1 = GDone ∧ wcore r.1.2 = wcore w).
Proof.
  intros Hv. cbv zeta.
  assert (wp (store_op (PutResult (Some res))) (λ r w', wvalid w' ∧ w_cache w' = w_cache w
    ∧ match r with Ok _ => wcore w' = v_put_result (CloneJSON res) (wcore w)
      | Err _ => json_ok res = false ∧ wcore w' = wcore w end) w) as Hw.
  { apply (wp_put v_put_result res); [done|exact (PutResult_law (w_store w) (Some res) Hv)| |].
    - by intros.
    - by intros ? _ e w' (? & ? & ? & ?). }
  unfold wp in Hw. unfold goroutine_step. destruct (store_op (PutResult (Some res)) w) as [w' [[]|e]]; simpl in *;
    destruct Hw as (? & ? & Hc); split_and!; auto. right. by destruct Hc.
Qed.

(** The effect of a step on the store: nothing, or one stored result. *)
Lemma step_core sel ph w ids :
  wvalid w →
  let r := goroutine_step o subID art sel ph w ids in
  wvalid r.1.2 ∧ (wcore r.1.2 = wcore w
    ∨ ∃ res, ph = GPutResult res ∧ wcore r.1.2 = v_put_result (CloneJSON res) (wcore w)).
Proof.
  intros Hv. destruct ph as [| | |res|res|res|res|];
    [| | | |destruct (step_put sel res w ids Hv) as (Hv' & _ & _ & [(_ & Hc)|(_ & _ & Hc)]); cbv zeta; rewrite Hc; by eauto| | |]; simpl.
  - match goal with |- context [emit o ?a ?b ?c] => destruct (emit_quiet a b c w Hv) as [(? & ? & ?) _] end. auto.
  - repeat case_match; simpl; auto.
  - destruct (Prov_Assess _ _ _ _); simpl; auto.
  - auto.
  - auto.
  - match goal with |- context [emit o ?a ?b ?c] => destruct (emit_quiet a b c w Hv) as [(? & ? & ?) _] end. auto.
  - auto.
Qed.

Lemma same_but_results_put v res : same_but_results v (v_put_result res v).
Proof. done. Qed.

Lemma fan_step_frame st i v0 :
  wvalid (f_world st) → same_but_results v0 (wcore (f_world st)) →
  let st' := fan_step o subID art st i in
  wvalid (f_world st') ∧ same_but_results v0 (wcore (f_world st')).
Proof.
  intros Hv Hs. unfold fan_step. destruct (f_threads st !! i) as [[sel ph]|]; [|done].
  destruct (step_core sel ph (f_world st) (f_ids st) Hv) as [Hv' Hc].
  destruct (goroutine_step o subID art sel ph (f_world st) (f_ids st)) as [[ph' w'] ids'].
  simpl in *. split; [done|]. by destruct Hc as [->|(res & _ & ->)].
Qed.

Lemma fan_fold_frame sched st v0 :
  wvalid (f_world st) → same_but_results v0 (wcore (f_world st)) →
  let st' := fold_left (fan_step o subID art) sched st in
  wvalid (f_world st') ∧ same_but_results v0 (wcore (f_world st')).
Proof.
  revert st. induction sched as [|i sched IH]; intros st Hv Hs; simpl; [done|].
  destruct (fan_step_frame st i v0 Hv Hs). by apply IH.
Qed.

(** *** Every goroutine finishes *)
Definition steps_left ph : nat :=
  match ph with
  | GStart => 7 | GCacheGet => 6 | GAssess => 5 | GCacheSet _ => 4 | GPutResult _ => 3 | GAppend _ => 2
  | GEmitResult _ => 1 | GDone => 0
  end.

Lemma step_left sel ph w ids :
  steps_left (goroutine_step o subID art sel ph w ids).1.1 ≤ steps_left ph - 1.
Proof.
  destruct ph; try (simpl; lia).
  - simpl. repeat case_match; simpl; lia.
  - simpl. destruct (Prov_Assess _ _ _ _); case_bool_decide; simpl; lia.
  - unfold goroutine_step. destruct (store_op _ _) as [? []]; simpl; lia.
Qed.

Definition turns (i : nat) (sched : list nat) : nat := length (List.filter (Nat.eqb i) sched).

Lemma fan_fold_left sched st i sel ph :
  f_threads st !! i = Some (sel, ph) →
  ∃ ph', f_threads (fold_left (fan_step o subID art) sched st) !! i = Some (sel, ph')
         ∧ steps_left ph' ≤ steps_left ph - turns i sched.
Proof.
  revert st ph. induction sched as [|j sched IH]; intros st ph Hi; simpl.
  { exists ph. split; [done|]. unfold turns; simpl; lia. }
  assert (∃ ph1, f_threads (fan_step o subID art st j) !! i = Some (sel, ph1)
          ∧ steps_left ph1 ≤ steps_left ph - (if Nat.eqb i j then 1 else 0)) as (ph1 & Hi1 & Hle).
  { unfold fan_step. destruct (f_threads st !! j) as [[sel' ph1]|] eqn:Ej; last first.
    { exists ph. split; [done|]. destruct (Nat.eqb_spec i j) as [->|]; [congruence|lia]. }
    pose proof (step_left sel' ph1 (f_world st) (f_ids st)) as Hl.
    destruct (goroutine_step o subID art sel' ph1 (f_world st) (f_ids st)) as [[ph' w'] ids'].
    simpl in *. destruct (Nat.eqb_spec i j) as [->|Hne].
    - simplify_eq. exists ph'. split; [|lia].
      rewrite list_lookup_insert_eq; [by eapply lookup_lt_Some|done].
    - exists ph. split; [by rewrite list_lookup_insert_ne|lia]. }
  destruct (IH _ _ Hi1) as (ph' & Hi' & Hle'). exists ph'. split; [done|].
  unfold turns in *. simpl. destruct (Nat.eqb i j); simpl; lia.
Qed.

Lemma turns_app i l k : turns i (l ++ k) = turns i l + turns i k.
Proof. unfold turns. by rewrite List.filter_app length_app. Qed.

Lemma turns_seq i n : i < n → turns i (seq 0 n) = 1.
Proof.
  intros Hi. replace n with (i + S (n - S i)) by lia. rewrite seq_app turns_app. simpl.
  assert (∀ a m, (i < a ∨ a + m ≤ i) → turns i (seq a m) = 0) as Hz.
  { intros a m. revert a. induction m as [|m IH]; intros a Ham; [done|]. unfold turns in *. simpl.
    destruct (Nat.eqb_spec i a); [lia|]. apply IH. lia. }
  rewrite Hz; [lia|]. unfold turns in *. simpl. rewrite Nat.eqb_refl. simpl. rewrite Hz; lia.
Qed.

Lemma fan_out_done sched sels w :
  Forall (λ t, t.2 = GDone) (f_threads (fan_out o sched subID art sels w)).
Proof.
  apply Forall_lookup. intros i [sel ph] Hi. simpl.
  assert (Hlen : ∀ l st, length (f_threads (fold_left (fan_step o subID art) l st)) = length (f_threads st)).
  { induction l as [|j l IH]; intros st; simpl; [done|]. rewrite IH. unfold fan_step.
    repeat case_match; simpl; by rewrite ?length_insert. }
  assert (i < length sels) as Hlt.
  { apply lookup_lt_Some in Hi. unfold fan_out in Hi. by rewrite Hlen /= length_map in Hi. }
  destruct (lookup_lt_is_Some_2 sels i Hlt) as [s0 Hs0].
  destruct (fan_fold_left (sched ++ drain (length sels)) (mkFanOut (map (λ s, (s, GStart)) sels) w []) i s0 GStart)
    as (ph' & Hi' & Hle).
  { simpl. by rewrite list_lookup_fmap Hs0. }
  unfold fan_out in Hi. rewrite Hi in Hi'. simplify_eq.
  assert (turns i (drain (length sels)) = 7) as Hd.
  { unfold drain. simpl. rewrite !turns_app !turns_seq //. }
  rewrite turns_app Hd in Hle. simpl in Hle. destruct ph'; simpl in Hle; lia || done.
Qed.

(** *** What each goroutine answers with *)
Definition cache_key sel : string := ResultCacheKey (Sel_ProvID sel) (Cap_ID (Sel_Capability sel)) art.

(** The provider's own answer for this artifact, or the record of its error. *)
Inductive assessed sel : ProviderResult → Prop :=
| assessed_ok n r :
    Prov_Assess (Sel_Impl sel) n art (Sel_Capability sel) = Ok r → assessed sel (set_Res_SubmissionID subID r)
| assessed_err n rand t e :
    Prov_Assess (Sel_Impl sel) n art (Sel_Capability sel) = Err e →
    assessed sel (set_Res_SubmissionID subID (error_result rand t e)).

(** An entry of the cache: there before, or the template of a completed assessment of
this fan-out under its own key. *)
Definition cache_from (c0 : C) (sels : list selectedProvider) (k : string) (r : ProviderResult) : Prop :=
  cached_at c0 k r
  ∨ ∃ sel res, sel ∈ sels ∧ k = cache_key sel ∧ assessed sel res
      ∧ Exec_Status (Res_Execution res) = ExecutionCompleted ∧ r = cache_template res.

Definition cache_ok (c0 : C) (sels : list selectedProvider) (c : C) : Prop :=
  ∀ k r, cached_at c k r → cache_from c0 sels k r.

Inductive answer (c0 : C) (sels : list selectedProvider) sel : ProviderResult → Prop :=
| answer_assessed res : assessed sel res → answer c0 sels sel res
| answer_cached rand now cached :
    cache_from c0 sels (cache_key sel) cached →
    answer c0 sels sel (MaterializeCachedResult rand now cached subID (o_cacheTTL o)).

(** One answer for each selected provider; only one JSON cannot carry may be missing. *)
Inductive gathered (c0 : C) (all : list selectedProvider) : list selectedProvider → list ProviderResult → Prop :=
| gathered_nil : gathered c0 all [] []
| gathered_kept sel sels r rs :
    answer c0 all sel r → gathered c0 all sels rs → gathered c0 all (sel :: sels) (r :: rs)
| gathered_refused sel sels r rs :
    answer c0 all sel r → json_ok r = false → gathered c0 all sels rs → gathered c0 all (sel :: sels) rs.

(** The results after the given ones were stored, the last one first. *)
Definition put_all (rs : list ProviderResult) (m : gmap string ProviderResult) : gmap string ProviderResult :=
  foldr (λ r, <[Res_ID (CloneJSON r) := CloneJSON r]>) m rs.

Lemma answer_submission c0 all sel r : answer c0 all sel r → Res_SubmissionID r = subID.
Proof. by intros [? []|]. Qed.

Lemma gathered_submission c0 all sels rs : gathered c0 all sels rs → Forall (λ r, Res_SubmissionID r = subID) rs.
Proof. induction 1; [done|constructor; [by eapply answer_submission|done]|done]. Qed.

Lemma materialized_ok rand now cached ttl :
  json_ok (MaterializeCachedResult rand now cached subID ttl) = true.
Proof. by destruct (clone_stable cached) as [Hok _]. Qed.

Lemma answer_finite c0 all sel r :
  assess_finite → Sel_Impl sel ∈ o_providers o → answer c0 all sel r → json_ok r = true.
Proof. intros Hfin Hsel [? [n r0 Ha|]|]; [exact (Hfin _ _ _ _ _ Hsel Ha)|done|apply materialized_ok]. Qed.

Lemma gathered_finite c0 all sels rs :
  assess_finite → Forall (λ s, Sel_Impl s ∈ o_providers o) sels → gathered c0 all sels rs →
  Forall2 (answer c0 all) sels rs ∧ all_json rs.
Proof.
  intros Hfin Hin. induction 1 as [|sel sels r rs Ha _ IH|sel sels r rs Ha Hno _ IH];
    [split; apply Forall2_nil || apply Forall_nil; done|..]; apply Forall_cons in Hin as [Hsel Hin]; destruct (IH Hin) as [Hans Hj];
    pose proof (answer_finite _ _ _ _ Hfin Hsel Ha).
  - split; by constructor.
  - congruence.
Qed.

Lemma put_all_stored rs m r :
  all_json rs → Forall (λ r, Res_SubmissionID r = subID) rs → r ∈ rs →
  ∃ x, put_all rs m !! Res_ID r = Some x ∧ Res_SubmissionID x = subID.
Proof.
  intros Hj Hs. revert Hj. induction Hs as [|y rs Hy Hs IH]; intros Hj Hin; [by apply elem_of_nil in Hin|].
  apply Forall_cons in Hj as [Hjy Hj]. simpl. unfold CloneJSON at 1 2. rewrite Hjy. simpl.
  destruct (decide (Res_ID y = Res_ID r)) as [->|Hne]; [exists y; by rewrite lookup_insert_eq|].
  rewrite lookup_insert_ne //. apply IH; [done|]. apply elem_of_cons in Hin as [->|?]; done.
Qed.

Lemma put_all_other rs m id : id ∉ map (λ r, Res_ID (CloneJSON r)) rs → put_all rs m !! id = m !! id.
Proof.
  induction rs as [|r rs IH]; [done|]. simpl. intros Hid. rewrite lookup_insert_ne; [set_solver|]. apply IH. set_solver.
Qed.

(** *** The cache *)
Definition cache_phase sel ph : Prop :=
  match ph with
  | GCacheSet res => assessed sel res ∧ Exec_Status (Res_Execution res) = ExecutionCompleted
  | _ => True
  end.

Lemma step_cache sels sel ph w ids c0 :
  wvalid w → sel ∈ sels → cache_ok c0 sels (w_cache w) → cache_phase sel ph →
  let r := goroutine_step o subID art sel ph w ids in
  cache_ok c0 sels (w_cache r.1.2) ∧ cache_phase sel r.1.1.
Proof.
  intros Hv Hsel Hco Hp. destruct ph as [| | |res|res|res|res|].
  5: { destruct (step_put sel res w ids Hv) as (_ & Hc & _ & Hph). cbv zeta. rewrite Hc. split; [done|].
       by destruct Hph as [(-> & _)|(_ & -> & _)]. }
  all: simpl in *; auto.
  - match goal with |- context [emit o ?a ?b ?c] => destruct (emit_quiet a b c w Hv) as [(_ & _ & -> & _) _] end. auto.
  - repeat case_match; simpl; auto.
  - destruct (Prov_Assess _ _ _ _) eqn:Ea; case_bool_decide; simpl; split_and!; auto;
      first [by eapply assessed_ok; exact Ea|by eapply assessed_err; exact Ea].
  - split; [|done]. intros k r [Hk|[-> ->]]%cache_set_law; [by apply Hco|]. right. exists sel, res. by destruct Hp.
  - match goal with |- context [emit o ?a ?b ?c] => destruct (emit_quiet a b c w Hv) as [(_ & _ & -> & _) _] end. auto.
Qed.

(** *** The whole fan-out *)
Record fan_inv (sels : list selectedProvider) (w0 : World ST C) st : Prop := {
  fi_valid : wvalid (f_world st);
  fi_frame : same_but_results (wcore w0) (wcore (f_world st));
  fi_cache : cache_ok (w_cache w0) sels (w_cache (f_world st));
  fi_phases : Forall (λ t, t.1 ∈ sels ∧ cache_phase t.1 t.2) (f_threads st);
}.

Lemma fan_inv_step sels w0 st i : fan_inv sels w0 st → fan_inv sels w0 (fan_step o subID art st i).
Proof.
  intros [Hv Hf Hc Hp]. destruct (fan_step_frame st i (wcore w0) Hv Hf) as [Hv' Hf'].
  unfold fan_step in *. destruct (f_threads st !! i) as [[sel ph]|] eqn:Ei; [|done].
  rewrite Forall_lookup in Hp. destruct (Hp _ _ Ei) as [Hsel Hph]. simpl in Hsel, Hph.
  destruct (step_cache sels sel ph _ (f_ids st) _ Hv Hsel Hc Hph) as [Hc' Hph'].
  destruct (goroutine_step o subID art sel ph (f_world st) (f_ids st)) as [[ph' w'] ids'].
  simpl in *. constructor; simpl; try done. apply Forall_insert; [by apply Forall_lookup|done].
Qed.

Lemma fan_inv_init sels w : wvalid w → fan_inv sels w (mkFanOut (map (λ s, (s, GStart)) sels) w []).
Proof.
  intros Hv. constructor; simpl; try done.
  - intros k r Hk. by left.
  - apply Forall_fmap, Forall_forall. done.
Qed.

Lemma fan_out_inv sched sels w :
  wvalid w → fan_inv sels w (fan_out o sched subID art sels w).
Proof.
  intros Hv. unfold fan_out. generalize (sched ++ drain (length sels)) as l.
  pose proof (fan_inv_init sels w Hv) as Hinit. intros l. revert Hinit. generalize (mkFanOut (map (λ s, (s, GStart)) sels) w []).
  induction l as [|i l IH]; intros st Hst; simpl; [done|]. apply IH. by apply fan_inv_step.
Qed.

(** *** The history: which results the goroutines have stored and reported *)
Definition reported ph : bool := match ph with GEmitResult _ | GDone => true | _ => false end.
Definition report (t : selectedProvider * GPhase) (g : option ProviderResult) : option string :=
  if reported t.2 then Res_ID <$> g else None.

(** A goroutine and the result it has stored. *)
Definition link (ans : selectedProvider → ProviderResult → Prop) (t : selectedProvider * GPhase) (g : option ProviderResult) : Prop :=
  match t.2 with
  | GStart | GCacheGet | GAssess => g = None
  | GCacheSet res | GPutResult res => g = None ∧ ans t.1 res
  | GAppend res | GEmitResult res => g = Some res ∧ ans t.1 res
  | GDone => ∃ r, ans t.1 r ∧ (g = Some r ∨ g = None ∧ json_ok r = false)
  end.

Record fan_hist (sels : list selectedProvider) (w0 : World ST C) st
    (h : list (selectedProvider * GPhase * option ProviderResult)) (puts : list ProviderResult) : Prop := {
  fh_threads : h.*1 = f_threads st;
  fh_sels : h.*1.*1 = sels;
  fh_link : Forall (λ x, link (answer (w_cache w0) sels) x.1 x.2) h;
  fh_puts : puts ≡ₚ omap snd h;
  fh_results : v_results (wcore (f_world st)) = put_all puts (v_results (wcore w0));
  fh_ids : f_ids st ≡ₚ omap (λ x, report x.1 x.2) h;
}.

Lemma omap_insert_perm {A B} (f : A → option B) l i x y :
  l !! i = Some x → omap f (<[i := y]> l) ++ option_list (f x) ≡ₚ omap f l ++ option_list (f y).
Proof.
  revert i. induction l as [|z l IH]; intros [|i] Hi; simplify_eq/=.
  - destruct (f x), (f y); simpl; rewrite ?List.app_nil_r; try done.
    + rewrite -!Permutation_cons_append. constructor.
    + by rewrite -Permutation_cons_append.
    + by rewrite -Permutation_cons_append.
  - specialize (IH i Hi). destruct (f z); simpl; [by constructor|done].
Qed.

(** One step of goroutine [i], given what it does to the ghost result. *)
Lemma fan_hist_update sels w0 st h puts i sel ph g ph' g' w' ids' puts' :
  fan_hist sels w0 st h puts → h !! i = Some ((sel, ph), g) →
  link (answer (w_cache w0) sels) (sel, ph') g' → v_results (wcore w') = put_all puts' (v_results (wcore w0)) →
  puts' ++ option_list g ≡ₚ puts ++ option_list g' →
  ids' ++ option_list (report (sel, ph) g) ≡ₚ f_ids st ++ option_list (report (sel, ph') g') →
  fan_hist sels w0 (mkFanOut (<[i := (sel, ph')]> (f_threads st)) w' ids') (<[i := ((sel, ph'), g')]> h) puts'.
Proof.
  intros [Ht Hs Hl Hp Hr Hid] Hi Hlink Hw Hputs Hids. constructor; simpl; try done.
  - by rewrite list_fmap_insert Ht.
  - rewrite !list_fmap_insert /= -Hs. apply list_insert_id. by rewrite !list_lookup_fmap Hi.
  - by apply Forall_insert.
  - apply (Permutation_app_inv_r (option_list g)). rewrite Hputs Hp. symmetry. exact (omap_insert_perm snd h i _ (sel, ph', g') Hi).
  - apply (Permutation_app_inv_r (option_list (report (sel, ph) g))). rewrite Hids Hid. symmetry.
    exact (omap_insert_perm (λ x, report x.1 x.2) h i _ (sel, ph', g') Hi).
Qed.

Lemma fan_hist_step sels w0 st h puts i :
  fan_inv sels w0 st → fan_hist sels w0 st h puts →
  ∃ h' puts', fan_hist sels w0 (fan_step o subID art st i) h' puts'.
Proof.
  intros [Hv _ Hc Hph] Hh. unfold fan_step. destruct (f_threads st !! i) as [[sel ph]|] eqn:Ei; [|by eauto].
  assert (∃ g, h !! i = Some ((sel, ph), g)) as [g Hi].
  { rewrite -(fh_threads _ _ _ _ _ Hh) list_lookup_fmap in Ei. destruct (h !! i) as [[]|]; simplify_eq/=; by eauto. }
  destruct (proj1 (Forall_lookup _ _) Hph _ _ Ei) as [Hsel _]. simpl in Hsel.
  pose proof (proj1 (Forall_lookup _ _) (fh_link _ _ _ _ _ Hh) _ _ Hi) as Hl. unfold link in Hl. simpl in Hl.
  pose proof (step_core sel ph _ (f_ids st) Hv) as [_ Hcore]. cbv zeta in Hcore.
  assert (Hgo : ∀ ph' w' ids' g' puts', goroutine_step o subID art sel ph (f_world st) (f_ids st) = (ph', w', ids') →
    link (answer (w_cache w0) sels) (sel, ph') g' → v_results (wcore w') = put_all puts' (v_results (wcore w0)) →
    puts' ++ option_list g ≡ₚ puts ++ option_list g' →
    ids' ++ option_list (report (sel, ph) g) ≡ₚ f_ids st ++ option_list (report (sel, ph') g') →
    ∃ h' puts', fan_hist sels w0 (let '(ph, w, ids) := goroutine_step o subID art sel ph (f_world st) (f_ids st) in
                              mkFanOut (<[i:=(sel, ph)]> (f_threads st)) w ids) h' puts').
  { intros ph' w' ids' g' puts' -> ? ? ? ?. do 2 eexists. by eapply fan_hist_update. }
  pose proof (fh_results _ _ _ _ _ Hh) as Hres.
  destruct ph as [| | |res|res|res|res|].
  - subst g. destruct Hcore as [Hc'|(? & [=] & _)].
    eapply (Hgo GCacheGet _ _ None puts); [reflexivity|done| |done..]. by rewrite -Hres -Hc'.
  - subst g. destruct (cache_get (cache_key sel) (w_cache (f_world st))) as [[cached|]|e] eqn:Eg.
    + eapply (Hgo (GPutResult _) _ _ None puts); [simpl; fold (cache_key sel); by rewrite Eg| |done..].
      split; [done|]. apply answer_cached, Hc. by apply cache_get_law.
    + eapply (Hgo GAssess _ _ None puts); [simpl; fold (cache_key sel); by rewrite Eg|done..].
    + eapply (Hgo GAssess _ _ None puts); [simpl; fold (cache_key sel); by rewrite Eg|done..].
  - subst g.
    destruct (Prov_Assess (Sel_Impl sel) (w_tick (f_world st)) art (Sel_Capability sel)) as [r|e] eqn:Ea.
    + eapply (Hgo _ _ _ None puts); [simpl; rewrite Ea; reflexivity| |done|done|by case_bool_decide].
      case_bool_decide; (split; [done|]); simpl; by eapply answer_assessed, assessed_ok.
    + eapply (Hgo _ _ _ None puts); [simpl; rewrite Ea; reflexivity| |done|done|by case_bool_decide].
      case_bool_decide; (split; [done|]); simpl; by eapply answer_assessed, assessed_err.
  - destruct Hl as [-> Ha]. eapply (Hgo (GPutResult res) _ _ None puts); [reflexivity|done|done|done|done].
  - destruct Hl as [-> Ha]. destruct (step_put sel res _ (f_ids st) Hv) as (_ & _ & Hids & Hput). cbv zeta in Hids, Hput.
    destruct (goroutine_step o subID art sel (GPutResult res) (f_world st) (f_ids st)) as [[ph' w'] ids'].
    simpl in Hids, Hput. subst ids'. destruct Hput as [[-> Hw]|(Hno & -> & Hw)].
    + eapply (Hgo _ _ _ (Some res) (res :: puts)); [reflexivity|done| | |done].
      * rewrite Hw /=. by rewrite Hres.
      * simpl. rewrite List.app_nil_r. by apply Permutation_cons_append.
    + eapply (Hgo _ _ _ None puts); [reflexivity| | |done|done]; [by exists res; auto|by rewrite Hw].
  - destruct Hl as [-> Ha]. eapply (Hgo (GEmitResult res) _ _ (Some res) puts); [reflexivity|done|done|done|].
    simpl. by rewrite List.app_nil_r.
  - destruct Hl as [-> Ha]. destruct Hcore as [Hc'|(? & [=] & _)].
    eapply (Hgo GDone _ _ (Some res) puts); [reflexivity|by exists res; auto| |done|done]. by rewrite -Hres -Hc'.
  - eapply (Hgo GDone _ _ g puts); [reflexivity|done|done|done|done].
Qed.

Lemma fan_hist_init sels w :
  fan_hist sels w (mkFanOut (map (λ s, (s, GStart)) sels) w []) (map (λ s, ((s, GStart), None)) sels) [].
Proof.
  constructor; simpl; try done.
  - rewrite -list_fmap_compose. done.
  - rewrite -!list_fmap_compose. by apply list_fmap_id.
  - by apply Forall_fmap, Forall_forall.
  - by induction sels.
  - by induction sels.
Qed.

Lemma fan_out_hist sched sels w :
  wvalid w → ∃ h puts, fan_hist sels w (fan_out o sched subID art sels w) h puts.
Proof.
  intros Hv. unfold fan_out. generalize (sched ++ drain (length sels)) as l.
  pose proof (fan_inv_init sels w Hv) as Hinit. pose proof (fan_hist_init sels w) as Hh. intros l.
  revert Hinit Hh. generalize (map (λ s, ((s, GStart), @None ProviderResult)) sels) as h, (@nil ProviderResult) as puts.
  generalize (mkFanOut (map (λ s, (s, GStart)) sels) w []).
  induction l as [|i l IH]; intros st h puts Hst Hh; simpl; [by eauto|].
  destruct (fan_hist_step _ _ _ _ _ i Hst Hh) as (h' & puts' & Hh'). eapply IH; [|done]. by apply fan_inv_step.
Qed.

(** When all goroutines are done the history is a gathering of answers. *)
Lemma hist_gathered c0 all (h : list (selectedProvider * GPhase * option ProviderResult)) :
  Forall (λ x, x.1.2 = GDone) h → Forall (λ x, link (answer c0 all) x.1 x.2) h →
  gathered c0 all (h.*1.*1) (omap snd h) ∧ omap (λ x, report x.1 x.2) h = map Res_ID (omap snd h).
Proof.
  induction h as [|[[sel ph] g] h IH]; [by split; constructor|].
  intros [Hd Hds]%Forall_cons [Hl Hls]%Forall_cons. simpl in Hd, Hl. subst ph. destruct (IH Hds Hls) as [Hg He].
  destruct Hl as (r & Ha & [->|[-> Hno]]); csimpl; rewrite He; simpl in Ha.
  - split; [by constructor|done].
  - split; [by eapply gathered_refused|done].
Qed.
End fan_out.

(** [C8] Whatever the interleaving of the provider goroutines: all of them finish, and
each selected provider contributes exactly one result - its answer for this artifact, the
record of its error, or a cached one, from the cache as it was or the template of a
completed assessment of this fan-out under the same key.  These results are what is
stored and reported: the reported ids are theirs, the stored results are the ones before
with exactly these put on top in some order, and submissions, decisions, merged results,
artifacts, keys and providers are untouched.  Only a result JSON cannot carry may be
missing, when the store refuses it; if no provider answers with such numbers there are
as many ids as selected providers, and each is the id of a result stored for this
submission.  The cache gains only templates of completed assessments under their keys. *)
Theorem fan_out_correct sched subID art sels w :
  wvalid w →
  let f := fan_out o sched subID art sels w in
  Forall (λ t, t.2 = GDone) (f_threads f)
  ∧ same_but_results (wcore w) (wcore (f_world f))
  ∧ (∃ rs puts, gathered subID art (w_cache w) sels sels rs ∧ f_ids f ≡ₚ map Res_ID rs ∧ puts ≡ₚ rs
       ∧ v_results (wcore (f_world f)) = put_all puts (v_results (wcore w)))
  ∧ (assess_finite → Forall (λ s, Sel_Impl s ∈ o_providers o) sels →
       length (f_ids f) = length sels ∧ Forall (stored (wcore (f_world f)) subID) (f_ids f))
  ∧ cache_ok subID art (w_cache w) sels (w_cache (f_world f)).
Proof.
  intros Hv f. pose proof (fan_out_inv subID art sched sels w Hv) as [_ Hf Hc _]. fold f in Hf, Hc.
  pose proof (fan_out_done subID art sched sels w) as Hd. fold f in Hd.
  destruct (fan_out_hist subID art sched sels w Hv) as (h & puts & [Ht Hs Hl Hp Hr Hid]). fold f in Ht, Hr, Hid.
  rewrite -Ht Forall_fmap in Hd. destruct (hist_gathered subID art _ _ h Hd Hl) as [Hg He]. rewrite Hs in Hg. rewrite He in Hid.
  split; [by rewrite -Ht Forall_fmap|]. split; [done|].
  split; [exists (omap snd h), puts; split_and!; done|]. split; [|done]. intros Hfin Hin.
  destruct (gathered_finite _ _ _ _ _ _ Hfin Hin Hg) as [Hans Hj]. split.
  - rewrite Hid length_map. by rewrite (Forall2_length _ _ _ Hans).
  - rewrite Hid. apply Forall_fmap, Forall_forall. intros r Hin'. unfold stored. rewrite Hr. simpl.
    apply (put_all_stored subID); [unfold all_json|..]; rewrite Hp; [done| |done]. by eapply gathered_submission.
Qed.

(** ** [Process] settles every submission *)
Definition with_outcome (st : SubmissionStatus) (reason : CompletionReason) (t : Time) (sub : Submission) : Submission :=
  set_Sub_CompletedAt (Some t) (set_Sub_CompletionReason (Some reason) (set_Sub_Status st sub)).

Definition with_decision (did : option string) (sub : Submission) : Submission :=
  match did with Some d => set_Sub_DecisionID (Some d) sub | None => sub end.

(** The part of a submission its creator wrote. *)
Definition same_request (sub sub' : Submission) : Prop :=
  Sub_ID sub' = Sub_ID sub ∧ Sub_Artifact sub' = Sub_Artifact sub
  ∧ Sub_RequestedCapabilities sub' = Sub_RequestedCapabilities sub
  ∧ Sub_ProviderSelectors sub' = Sub_ProviderSelectors sub ∧ Sub_PolicyRef sub' = Sub_PolicyRef sub
  ∧ Sub_CreatedAt sub' = Sub_CreatedAt sub ∧ Sub_Extensions sub' = Sub_Extensions sub.

(** How [Process] may leave a submission, with what the store then shows. *)
Inductive settled (v : StoreView) (sub : Submission) : Prop :=
| settled_failed :
    Sub_Status sub = SubmissionFailed → is_Some (Sub_CompletedAt sub) →
    Sub_CompletionReason sub = Some CompletionFailed ∨ Sub_CompletionReason sub = Some CompletionInterrupted →
    settled v sub
| settled_ineligible :
    Sub_Status sub = SubmissionCompleted → Sub_CompletionReason sub = Some CompletionAllProvidersIneligible →
    is_Some (Sub_CompletedAt sub) → settled v sub
| settled_findings :
    Sub_Status sub = SubmissionCompleted → Sub_CompletionReason sub = Some CompletionFindingsOnly →
    is_Some (Sub_CompletedAt sub) → has_policy sub = false → settled v sub
| settled_decided d :
    Sub_Status sub = SubmissionCompleted → Sub_CompletionReason sub = Some CompletionDecisionProduced →
    is_Some (Sub_CompletedAt sub) → Sub_DecisionID sub = Some (Dec_ID d) → Dec_SubmissionID d = Sub_ID sub →
    v_decisions v !! Dec_ID (CloneJSON d) = Some (CloneJSON d) → Dec_Decision d ≠ DecisionDefer → settled v sub
| settled_deferred d :
    Sub_Status sub = SubmissionDeferred → Sub_CompletionReason sub = Some CompletionDeferred →
    Sub_DecisionID sub = Some (Dec_ID d) → Dec_SubmissionID d = Sub_ID sub →
    is_Some (Sub_ResumeAt sub) → Sub_ResumeAt sub = Dec_ResumeAt d →
    v_decisions v !! Dec_ID (CloneJSON d) = Some (CloneJSON d) → Dec_Decision d = DecisionDefer → settled v sub.

Lemma wp_complete sub reason did Q w :
  wvalid w → stable sub →
  (∀ w' t, wvalid w' →
     wcore w' = v_put_submission (with_decision did (with_outcome SubmissionCompleted reason t sub)) (wcore w) →
     Q (Ok ()) w') →
  wp (complete o sub reason did) Q w.
Proof.
  intros Hv Hs HQ. unfold complete. apply wp_bind, wp_read_clock; [done|]. intros t w1 (Hv1 & Hc1 & _).
  cbv zeta. set (sub' := match did with Some d => _ | None => _ end).
  assert (stable sub') as Hst by (by apply (stable_payload sub); [destruct did; reflexivity..|]).
  apply wp_bind, wp_PutSubmission; [done|apply Hst|]. intros w2 Hv2 Hc2 _.
  apply wp_emit; [done|]. intros w3 (Hv3 & Hc3 & _). apply (HQ w3 t); [done|]. by rewrite Hc3 Hc2 Hc1 stable_clone.
Qed.

Lemma wp_fail_with sub e Q w :
  wvalid w → stable sub →
  (∀ w' t, wvalid w' →
     wcore w' = v_put_submission (with_outcome SubmissionFailed CompletionFailed t sub) (wcore w) → Q (Err e) w') →
  wp (fail_with o sub e) Q w.
Proof.
  intros Hv Hs HQ. unfold fail_with. apply wp_bind, wp_read_clock; [done|]. intros t w1 (Hv1 & Hc1 & _).
  cbv zeta. apply wp_bind, wp_try, wp_PutSubmission; [done|by apply (stable_payload sub)|]. intros w2 Hv2 Hc2 _.
  apply wp_bind, wp_emit; [done|]. intros w3 (Hv3 & Hc3 & _). apply wp_fail, (HQ w3 t); [done|].
  rewrite Hc3 Hc2 Hc1. rewrite stable_clone; [|done]. by apply (stable_payload sub).
Qed.

Lemma wp_failInterrupted id sub e Q w :
  wvalid w → v_submissions (wcore w) !! id = Some sub →
  (is_terminal (Sub_Status sub) = true → ∀ w', quiet w w' → Q (Err e) w') →
  (is_terminal (Sub_Status sub) = false → ∀ w' t, wvalid w' →
     wcore w' = v_put_submission (with_outcome SubmissionFailed CompletionInterrupted t sub) (wcore w) → Q (Err e) w') →
  wp (failInterrupted o id e) Q w.
Proof.
  intros Hv Hs HT HF. destruct (core_stable _ _ _ Hv Hs) as [_ Hst].
  unfold failInterrupted. apply wp_bind, wp_try, wp_GetSubmission; [done|]. intros w1 Hq. rewrite Hs.
  destruct (is_terminal (Sub_Status sub)); [by apply wp_fail, HT|]. destruct Hq as (Hv1 & Hc1 & _).
  apply wp_bind, wp_read_clock; [done|]. intros t w2 (Hv2 & Hc2 & _).
  cbv zeta. apply wp_bind, wp_try, wp_PutSubmission; [done|by apply (stable_payload sub)|]. intros w3 Hv3 Hc3 _.
  apply wp_bind, wp_emit; [done|]. intros w4 (Hv4 & Hc4 & _). apply wp_fail, (HF eq_refl w4 t); [done|].
  rewrite Hc4 Hc3 Hc2 Hc1. rewrite stable_clone; [|done]. by apply (stable_payload sub).
Qed.

Definition others_same (id : string) (v v' : StoreView) : Prop :=
  (∀ id', id' ≠ id → v_submissions v' !! id' = v_submissions v !! id') ∧ v_idem v' = v_idem v.

Definition outcome (v0 : StoreView) (sub0 : Submission) w' : Prop :=
  wvalid w' ∧ others_same (Sub_ID sub0) v0 (wcore w')
  ∧ ∃ sub', v_submissions (wcore w') !! Sub_ID sub0 = Some sub' ∧ settled (wcore w') sub'
      ∧ same_request sub0 sub'.

(** The states in between: the submission is stored as [sub], the rest is as at
the start. *)
Record progress (v0 : StoreView) (sub0 sub : Submission) w : Prop := {
  pr_valid : wvalid w;
  pr_others : others_same (Sub_ID sub0) v0 (wcore w);
  pr_shown : v_submissions (wcore w) !! Sub_ID sub0 = Some sub;
  pr_running : Sub_Status sub = SubmissionRunning;
  pr_stable : stable sub;
  pr_request : same_request sub0 sub;
}.

Lemma outcome_write v0 sub0 sub' w w' :
  others_same (Sub_ID sub0) v0 (wcore w) → same_request sub0 sub' → wvalid w' →
  wcore w' = v_put_submission sub' (wcore w) → settled (v_put_submission sub' (wcore w)) sub' → outcome v0 sub0 w'.
Proof.
  intros Ho Hreq Hv' Hc Hset. assert (Sub_ID sub' = Sub_ID sub0) as Hid by apply Hreq.
  split; [done|]. rewrite Hc. split.
  - destruct Ho as [Ho Hi]. split; [|done]. intros id' Hne. rewrite -Ho //. simpl. rewrite lookup_insert_ne //. congruence.
  - exists sub'. split_and!; [|done..]. simpl. by rewrite Hid lookup_insert_eq.
Qed.

Lemma outcome_put v0 sub0 sub sub' w w' :
  progress v0 sub0 sub w → same_request sub sub' → wvalid w' → wcore w' = v_put_submission sub' (wcore w) →
  settled (v_put_submission sub' (wcore w)) sub' → outcome v0 sub0 w'.
Proof.
  intros Hp Hr'. apply outcome_write; [apply Hp|]. pose proof (pr_request _ _ _ _ Hp) as Hr.
  unfold same_request in *. destruct_and!. split_and!; congruence.
Qed.

Lemma progress_quiet v0 sub0 sub w w' : progress v0 sub0 sub w → quiet w w' → progress v0 sub0 sub w'.
Proof. intros [] (Hv & Hc & _). constructor; try done; by rewrite Hc. Qed.

Lemma progress_put v0 sub0 sub sub' w w' :
  others_same (Sub_ID sub0) v0 (wcore w) → stable sub → same_request sub0 sub → same_request sub sub' →
  Sub_Status sub' = SubmissionRunning → wvalid w' → wcore w' = v_put_submission (CloneJSON sub') (wcore w) →
  progress v0 sub0 sub' w'.
Proof.
  intros Ho Hs Hr Hr' Hrun Hv' Hc.
  assert (stable sub') as Hs' by (apply (stable_payload sub); try done; apply Hr').
  assert (same_request sub0 sub') as Hreq by (unfold same_request in *; destruct_and!; split_and!; congruence).
  constructor; try done.
  - destruct Ho as [Ho Hi]. split; [|by rewrite Hc]. intros id' Hne. rewrite Hc put_other_lookup //; [|by apply Ho]. by destruct Hreq as [-> _].
  - destruct Hreq as [<- _]. rewrite Hc. by apply put_stable_lookup.
Qed.

Lemma progress_same_subs v0 sub0 sub w w' :
  progress v0 sub0 sub w → wvalid w' → v_submissions (wcore w') = v_submissions (wcore w) →
  v_idem (wcore w') = v_idem (wcore w) → progress v0 sub0 sub w'.
Proof. intros [? [Ho Hi]] Hv Hc Hi'. constructor; try done; [split; [intros id Hne|]|]; rewrite ?Hc ?Hi'; auto. Qed.

Lemma record_decision_outcome v0 sub0 sub rand d w :
  progress v0 sub0 sub w → decision_for sub rand d → json_ok d = true →
  wp (record_decision o sub d) (λ _ w', outcome v0 sub0 w') w.
Proof.
  intros Hp (Hsub & _ & Hres) Hok. unfold record_decision.
  apply wp_bind, wp_PutDecision; [apply Hp| |by rewrite Hok].
  intros w1 Hv1 Hc1 _. cbv zeta.
  assert (Hp1 : progress v0 sub0 sub w1) by (apply (progress_same_subs _ _ _ w); [done|done|by rewrite Hc1..]).
  assert (Hdec : v_decisions (wcore w1) !! Dec_ID (CloneJSON d) = Some (CloneJSON d))
    by (rewrite Hc1; simpl; by rewrite lookup_insert_eq).
  case_bool_decide as Hd.
  - destruct (proj2 Hres Hd) as [t Ht]. rewrite Ht.
    match goal with |- context [PutSubmission (Some ?x)] =>
      assert (Hst : stable x) by (by apply (stable_payload sub); try done; apply Hp) end.
    apply wp_bind, wp_PutSubmission; [done|apply Hst|]. intros w2 Hv2 Hc2 _.
    apply wp_emit; [done|]. intros w3 (Hv3 & Hc3 & _). rewrite stable_clone // in Hc2.
    eapply (outcome_put _ _ _ _ w1 w3 Hp1); [|done|by rewrite Hc3|]; [done|].
    by apply (settled_deferred _ _ d).
  - apply wp_bind, wp_emit; [done|]. intros w2 Hq. pose proof (progress_quiet _ _ _ _ _ Hp1 Hq) as Hp2.
    destruct Hq as (Hv2 & Hc2 & _).
    apply wp_complete; [done| |].
    { by apply (stable_payload sub); try done; apply Hp. }
    intros w3 t Hv3 Hc3. eapply (outcome_put _ _ _ _ w2 w3 Hp2); [|done|done|]; [done|].
    apply (settled_decided _ _ d); try done. rewrite Hc2. exact Hdec.
Qed.

Context `{!PolicyLaws (o_policy o)} `{!AggregatorLaws (o_aggregator o)}.

Lemma stored_results_json v id l : view_wf v → l ≡ₚ v_results_of id v → all_json l.
Proof.
  intros Hv Hl. unfold all_json. rewrite Hl. apply Forall_forall. intros r Hr.
  unfold v_results_of in Hr. apply list_elem_of_In, filter_In in Hr as [Hr%list_elem_of_In _].
  apply list_elem_of_fmap in Hr as ([k x] & -> & Hr%elem_of_map_to_list). by destruct (vw_results _ Hv _ _ Hr) as [_ []].
Qed.

Lemma wp_aggregate v0 sub0 sub id results Q w :
  progress v0 sub0 sub w → all_json results →
  (∀ m w', progress v0 sub0 sub w' → from_option (λ m, json_ok m = true) True m → Q (Ok m) w') →
  wp (aggregate_results o id results) Q w.
Proof.
  intros Hp Hj HQ. unfold aggregate_results. destruct (o_aggregator o) as [agg|] eqn:Eagg; [|by apply wp_ret, HQ].
  apply wp_bind, wp_draw_rand; [apply Hp|]. intros r w1 _ Hq1. pose proof (progress_quiet _ _ _ _ _ Hp Hq1) as Hp1.
  apply wp_bind, wp_read_clock; [apply Hp1|]. intros t w2 Hq2.
  pose proof (progress_quiet _ _ _ _ _ Hp1 Hq2) as Hp2.
  destruct (agg (rand_hex r) t results) as [m|] eqn:Em; [|by apply wp_ret, HQ].
  apply wp_bind, wp_try, wp_PutMergedResult; [apply Hp2|]. intros r' w3 Hv3 Hc3 Hi3. apply wp_ret, HQ.
  - by apply (progress_same_subs _ _ _ w2).
  - exact (aggregate_json agg _ _ _ m eq_refl Hj Em).
Qed.

Lemma wp_evaluate v0 sub0 sub results merged Q w :
  progress v0 sub0 sub w → all_json results → from_option (λ m, json_ok m = true) True merged →
  (∀ r w', progress v0 sub0 sub w' →
     match r with Ok d => (∃ rand, decision_for sub rand d) ∧ json_ok d = true | Err _ => True end → Q (Ok r) w') →
  wp (evaluate_policy o sub results merged) Q w.
Proof.
  intros Hp Hj Hm HQ. unfold evaluate_policy.
  apply wp_bind, wp_draw_rand; [apply Hp|]. intros r w1 _ Hq1. pose proof (progress_quiet _ _ _ _ _ Hp Hq1) as Hp1.
  apply wp_bind, wp_read_clock; [apply Hp1|]. intros t w2 Hq2.
  pose proof (progress_quiet _ _ _ _ _ Hp1 Hq2) as Hp2.
  apply wp_bind, wp_read_clock; [apply Hp2|]. intros t' w3 Hq3.
  pose proof (progress_quiet _ _ _ _ _ Hp2 Hq3) as Hp3. apply wp_ret, HQ; [done|].
  match goal with |- match ?x with Ok _ => _ | Err _ => _ end => destruct x as [d|] eqn:E end; [|done].
  destruct merged as [m|]; [|split; [exists (rand_hex r); by eapply Evaluate_law|by eapply Evaluate_json]].
  destruct (PEng_EvaluateMerged (o_policy o)) eqn:Em.
  - split; [exists (rand_hex r); by eapply EvaluateMerged_law|by eapply EvaluateMerged_json].
  - split; [exists (rand_hex r); by eapply Evaluate_law|by eapply Evaluate_json].
Qed.

Lemma decide_outcome v0 sub0 sub ids w :
  progress v0 sub0 sub w → wp (decide_submission o sub ids) (λ _ w', outcome v0 sub0 w') w.
Proof.
  intros Hp. unfold decide_submission. cbv zeta. set (sub1 := set_Sub_ResultIDs ids sub) in *.
  assert (Hst1 : stable sub1) by (apply (stable_payload sub); try done; apply Hp).
  apply wp_bind, wp_PutSubmission; [apply Hp|apply Hst1|]. intros w1 Hv1 Hc1 _.
  assert (Hp1 : progress v0 sub0 sub1 w1) by (by apply (progress_put _ _ sub _ w); try done; apply Hp).
  destruct (has_policy sub1) eqn:Hpol; simpl.
  - apply wp_bind, wp_GetResults; [done|]. intros results w2 Hq2 Hl.
    pose proof (stored_results_json _ _ _ (view_valid _ Hv1) Hl) as Hj.
    pose proof (progress_quiet _ _ _ _ _ Hp1 Hq2) as Hp2.
    eapply wp_bind, wp_aggregate; [exact Hp2|exact Hj|]. intros m w3 Hp3 Hm.
    eapply wp_bind, wp_evaluate; [exact Hp3|exact Hj|exact Hm|]. intros [d|e] w4 Hp4 Hd.
    + destruct Hd as [[rand Hd] Hok]. by eapply record_decision_outcome.
    + apply wp_fail_with; [apply Hp4..|]. intros w5 t Hv5 Hc5.
      eapply (outcome_put _ _ _ _ w4 w5 Hp4); [|done|done|]; [done|]. apply settled_failed; simpl; auto.
  - apply wp_complete; [apply Hp1..|]. intros w2 t Hv2 Hc2.
    eapply (outcome_put _ _ _ _ w1 w2 Hp1); [|done|done|]; [done|]. apply settled_findings; simpl; auto.
Qed.

Lemma interrupted_outcome v0 sub0 sub e w :
  progress v0 sub0 sub w → wp (failInterrupted o (Sub_ID sub0) e) (λ _ w', outcome v0 sub0 w') w.
Proof.
  intros Hp. apply (wp_failInterrupted _ sub); [apply Hp..|by rewrite (pr_running _ _ _ _ Hp)|].
  intros _ w1 t Hv1 Hc1. eapply (outcome_put _ _ _ _ w w1 Hp); [|done|done|]; [done|].
  apply settled_failed; simpl; auto.
Qed.

Lemma wp_hydrate v0 sub0 sub a Q w :
  progress v0 sub0 sub w → (∀ r w', quiet w w' → Q r w') → wp (hydrateLocalBlob a) Q w.
Proof.
  intros Hp HQ. unfold hydrateLocalBlob. destruct (Art_ContentRef a) as [ref|]; [|apply wp_ret, HQ, quiet_refl, Hp].
  destruct (LocalBlobDigest (Ref_URI ref)) as [dg|]; [|apply wp_ret, HQ, quiet_refl, Hp].
  apply wp_bind, wp_try, wp_GetArtifact; [apply Hp|]. intros w1 Hq1.
  destruct (v_artifacts (wcore w) !! dg); [by apply wp_ret, HQ|by apply wp_fail, HQ].
Qed.

Lemma Process_outcome ctx sched sub0 w :
  wvalid w → v_submissions (wcore w) !! Sub_ID sub0 = Some sub0 →
  wp (Process o ctx sched (Sub_ID sub0))
    (λ r w', outcome (wcore w) sub0 w'
             ∨ is_terminal (Sub_Status sub0) = true ∧ wcore w' = wcore w ∧ is_Some (ctx 0) ∧ wvalid w') w.
Proof.
  intros Hv Hs. destruct (core_stable _ _ _ Hv Hs) as [_ Hst].
  unfold Process. destruct (ctx 0) as [e|] eqn:E0.
  { apply (wp_failInterrupted _ sub0); [done..| |].
    - intros Ht w' (Hv' & Hc & _). right. by eauto.
    - intros Ht w1 t Hv1 Hc1. left. eapply (outcome_write _ _ _ w w1); [done| |done|done|]; [done|].
      apply settled_failed; simpl; auto. }
  eapply wp_mono; [|intros r w'; apply or_introl].
  apply wp_bind, wp_GetSubmission; [done|]. intros w1 (Hv1 & Hc1 & _). rewrite Hs. cbv zeta.
  set (sub := set_Sub_Status SubmissionRunning sub0) in *.
  assert (Hst1 : stable sub) by (by apply (stable_payload sub0)).
  apply wp_bind, wp_PutSubmission; [done|apply Hst1|]. intros w2 Hv2 Hc2 _.
  assert (Hp2 : progress (wcore w) sub0 sub w2).
  { eapply (progress_put _ _ sub0 _ w1); try done. by rewrite Hc1. }
  apply wp_bind, wp_emit; [done|]. intros w3 Hq3. pose proof (progress_quiet _ _ _ _ _ Hp2 Hq3) as Hp3.
  apply wp_bind, wp_try. eapply wp_hydrate; [exact Hp3|]. intros h w4 Hq4.
  pose proof (progress_quiet _ _ _ _ _ Hp3 Hq4) as Hp4.
  destruct h as [art|e].
  - destruct (select_providers o art (Sub_RequestedCapabilities sub)) as [|s0 sels] eqn:Esel.
    + destruct (ctx 1) as [e|]; [by eapply interrupted_outcome|].
      apply wp_complete; [apply Hp4..|]. intros w5 t Hv5 Hc5.
      eapply (outcome_put _ _ _ _ w4 w5 Hp4); [|done|done|]; [done|]. apply settled_ineligible; simpl; auto.
    + apply wp_bind. unfold run_fan_out, wp at 1. simpl.
      destruct (fan_out_inv (Sub_ID sub0) art sched (s0 :: sels) w4) as [Hv5 (Hsub5 & _ & _ & _ & Hi5 & _) _ _]; [apply Hp4|].
      set (f := fan_out o sched (Sub_ID sub0) art (s0 :: sels) w4) in *.
      assert (Hp5 : progress (wcore w) sub0 sub (f_world f)) by (by apply (progress_same_subs _ _ _ w4)).
      unfold after_fan_out. destruct (ctx 2) as [e|]; [by eapply interrupted_outcome|].
      apply wp_bind, wp_GetSubmission; [done|]. intros w6 Hq6. rewrite (pr_shown _ _ _ _ Hp5).
      apply decide_outcome. by eapply progress_quiet.
  - apply wp_fail_with; [apply Hp4..|]. intros w5 t Hv5 Hc5.
    eapply (outcome_put _ _ _ _ w4 w5 Hp4); [|done|done|]; [done|]. apply settled_failed; simpl; auto.
Qed.

(** [C3] [Process] settles the submission it is given, for every provider
behaviour, cancellation point and interleaving: afterwards it is failed with a
reason, completed (no eligible provider, findings only, or a decision that is
stored and final) or deferred by a stored decision with a resume time - never
left accepted or running; its request fields are untouched, and no other
submission changes.  A call whose context is already cancelled when it starts,
on a submission that is already settled, changes nothing.  The policy engine and the
aggregator make no number JSON cannot carry ([PolicyLaws], [AggregatorLaws]), as both
engines of the repository and the aggregator [serve] builds do not. *)
Theorem Process_settles ctx sched id sub0 w :
  wvalid w → v_submissions (wcore w) !! id = Some sub0 →
  let w' := (Process o ctx sched id w).1 in
  wvalid w' ∧ (∀ id', id' ≠ id → v_submissions (wcore w') !! id' = v_submissions (wcore w) !! id')
  ∧ ∃ sub', v_submissions (wcore w') !! id = Some sub' ∧ same_request sub0 sub'
      ∧ (settled (wcore w') sub'
         ∨ is_Some (ctx 0) ∧ is_terminal (Sub_Status sub0) = true ∧ sub' = sub0 ∧ wcore w' = wcore w).
Proof.
  intros Hv Hs w'. subst w'. destruct (core_stable _ _ _ Hv Hs) as [<- _].
  destruct (Process_outcome ctx sched sub0 w Hv Hs) as [(Hv' & [Ho _] & sub' & Hs' & Hset & Hr)|(Ht & Hc & Hctx & Hv')].
  - split_and!; [done..|]. exists sub'. auto.
  - rewrite Hc. split_and!; [done..|]. exists sub0. split_and!; try done. by right.
Qed.

(** ** Adjudication *)
Lemma reserved_wins req prior k v :
  adjudication_reserved req prior !! k = Some v → adjudication_extensions req prior !! k = Some v.
Proof. intros Hk. unfold adjudication_extensions. by apply lookup_union_Some_l. Qed.

Lemma anymap_ok_lookup (m : anymap) : anymap_ok m = true ↔ ∀ k v, m !! k = Some v → any_ok v = true.
Proof.
  unfold anymap_ok. rewrite forallb_true. split.
  - intros Ha k v Hk%elem_of_map_to_list. by apply (Ha (k, v)).
  - intros Ha [k v] Hk%elem_of_map_to_list. by eapply Ha.
Qed.

Lemma insert_str_ok k x (m : anymap) : anymap_ok m = true → anymap_ok (<[k := VStr x]> m) = true.
Proof.
  rewrite !anymap_ok_lookup. intros Hm j v [[<- <-]|[_ Hj]]%lookup_insert_Some; [done|]. by eapply Hm.
Qed.

Lemma extensions_ok req prior :
  anymap_ok (Adj_Extensions req) = true → anymap_ok (adjudication_extensions req prior) = true.
Proof.
  intros Hok.
  assert (Hres : anymap_ok (adjudication_reserved req prior) = true).
  { unfold adjudication_reserved. cbv zeta. repeat case_match; repeat apply insert_str_ok; done. }
  rewrite anymap_ok_lookup in Hok. rewrite anymap_ok_lookup in Hres. apply anymap_ok_lookup.
  intros k v. unfold adjudication_extensions. rewrite lookup_union_Some_raw. naive_solver.
Qed.

(** [C19] A consumer's adjudication of a completed submission records a new decision
with the requested value, on the record of the prior one, and repoints the
submission; the prior decision stays readable unchanged, nothing else of any
submission changes, and the extensions the gateway writes (origin, prior
decision, actor, ...) cannot be overridden by the request. *)
Theorem Adjudicate_correct id req sub did prior w :
  wvalid w → v_submissions (wcore w) !! id = Some sub →
  Sub_Status sub = SubmissionCompleted → Sub_DecisionID sub = Some did → did ≠ "" →
  v_decisions (wcore w) !! did = Some prior → (∀ n, w_tick w ≤ n → did ≠ "dec_" +:+ rand_hex n) →
  Adj_Decision req = DecisionAllow ∨ Adj_Decision req = DecisionDeny →
  anymap_ok (Adj_Extensions req) = true →
  let r := Adjudicate o id req w in
  ∃ dec, r.2 = Ok (dec, forwarded_feedback o sub (Adj_Decision req))
    ∧ Dec_Decision dec = Adj_Decision req ∧ Dec_SubmissionID dec = id
    ∧ Dec_InputResultIDs dec = Dec_InputResultIDs prior ∧ Dec_Policy dec = Dec_Policy prior
    ∧ (∀ k v, adjudication_reserved req prior !! k = Some v → Dec_Extensions dec !! k = Some v)
    ∧ v_decisions (wcore r.1) = <[Dec_ID dec := dec]> (v_decisions (wcore w))
    ∧ v_decisions (wcore r.1) !! did = Some prior
    ∧ v_submissions (wcore r.1) = <[id := set_Sub_DecisionID (Some (Dec_ID dec)) sub]> (v_submissions (wcore w))
    ∧ v_results (wcore r.1) = v_results (wcore w).
Proof.
  intros Hv Hs Hst Hdid Hne Hprior Hfresh Hreq Hext r. destruct (core_stable _ _ _ Hv Hs) as [Hid Hstab].
  assert (wp (Adjudicate o id req) (λ r w', ∃ n t, let dec := adjudication_decision (rand_hex n) t sub req prior in
            w_tick w ≤ n ∧ r = Ok (dec, forwarded_feedback o sub (Adj_Decision req))
            ∧ wcore w' = v_put_submission (set_Sub_DecisionID (Some (Dec_ID dec)) sub)
                           (v_put_decision dec (wcore w))) w) as (n & t & Hn & Hr & Hw).
  { unfold Adjudicate.
    assert (bool_decide (Adj_Decision req ≠ DecisionAllow) && bool_decide (Adj_Decision req ≠ DecisionDeny) = false)
      as -> by (destruct Hreq as [->| ->]; done).
    apply wp_bind, wp_GetSubmission; [done|]. intros w1 (Hv1 & Hc1 & _ & Ht1). rewrite Hs Hst Hdid /=.
    rewrite (bool_decide_false (did = "")) //.
    apply wp_bind, wp_GetDecision; [done|]. intros w2 (Hv2 & Hc2 & _ & Ht2). rewrite Hc1 Hprior.
    apply wp_bind, wp_draw_rand; [done|]. intros n w3 Hn (Hv3 & Hc3 & _).
    apply wp_bind, wp_read_clock; [done|]. intros t w4 (Hv4 & Hc4 & _). cbv zeta.
    set (dec := adjudication_decision (rand_hex n) t sub req prior).
    assert (Hdec : stable dec) by (by split; [apply extensions_ok|]).
    assert (Hsub : stable (set_Sub_DecisionID (Some (Dec_ID dec)) sub)) by (by apply (stable_payload sub)).
    apply wp_bind, wp_PutDecision; [done| |by intros Hno; destruct Hdec as [Hyes _]; rewrite Hyes in Hno].
    intros w5 Hv5 Hc5 _. apply wp_bind, wp_PutSubmission; [done|apply Hsub|]. intros w6 Hv6 Hc6 _.
    apply wp_bind, wp_emit; [done|]. intros w7 (Hv7 & Hc7 & _). apply wp_ret. exists n, t.
    fold dec. split; [lia|]. split; [done|]. rewrite Hc7 Hc6 Hc5 Hc4 Hc3 Hc2 Hc1.
    by rewrite !stable_clone. }
  set (dec := adjudication_decision (rand_hex n) t sub req prior) in *. exists dec.
  subst r. rewrite Hr Hw. simpl. rewrite Hid. split_and!; try done.
  - intros k v Hk. by apply reserved_wins.
  - rewrite lookup_insert_ne //. symmetry. by apply Hfresh.
Qed.

(** What an adjudication does to the submissions. *)
Lemma Adjudicate_outcome id req w :
  wvalid w →
  wp (Adjudicate o id req) (λ r w', wvalid w' ∧ match r with
    | Err _ => wcore w' = wcore w
    | Ok _ => (Adj_Decision req = DecisionAllow ∨ Adj_Decision req = DecisionDeny)
      ∧ ∃ sub did prior d, v_submissions (wcore w) !! id = Some sub ∧ Sub_Status sub = SubmissionCompleted
          ∧ Sub_DecisionID sub = Some did ∧ v_decisions (wcore w) !! did = Some prior
          ∧ v_submissions (wcore w') = <[id := set_Sub_DecisionID (Some d) sub]> (v_submissions (wcore w))
          ∧ v_idem (wcore w') = v_idem (wcore w)
    end) w.
Proof.
  intros Hv. unfold Adjudicate. destruct (bool_decide _ && bool_decide _) eqn:Hg; [by apply wp_fail|].
  assert (Hreq : Adj_Decision req = DecisionAllow ∨ Adj_Decision req = DecisionDeny).
  { apply andb_false_iff in Hg as [Hg|Hg]; apply bool_decide_eq_false, dec_stable in Hg; auto. }
  apply wp_bind, wp_GetSubmission; [done|]. intros w1 (Hv1 & Hc1 & _).
  destruct (v_submissions (wcore w) !! id) as [sub|] eqn:Hs; [|by apply wp_fail].
  destruct (core_stable _ _ _ Hv Hs) as [Hid Hstab].
  destruct (decide (Sub_Status sub = SubmissionCompleted)) as [Hst|Hst];
    [rewrite Hst /=|rewrite (bool_decide_true (Sub_Status sub ≠ _)) //; by apply wp_fail].
  destruct (Sub_DecisionID sub) as [did|] eqn:Hd; [|by apply wp_fail].
  destruct (bool_decide (did = "")); [by apply wp_fail|].
  apply wp_bind, wp_GetDecision; [done|]. intros w2 (Hv2 & Hc2 & _). rewrite Hc1.
  destruct (v_decisions (wcore w) !! did) as [prior|] eqn:Hp; [|apply wp_fail; split; [done|congruence]].
  apply wp_bind, wp_draw_rand; [done|]. intros n w3 _ (Hv3 & Hc3 & _).
  apply wp_bind, wp_read_clock; [done|]. intros t w4 (Hv4 & Hc4 & _). cbv zeta.
  set (dec := adjudication_decision (rand_hex n) t sub req prior).
  apply wp_bind, wp_PutDecision; [done| |intros _ _ e w5 (? & Hc5 & _); split; [done|]; congruence]. intros w5 Hv5 Hc5 _.
  assert (stable (set_Sub_DecisionID (Some (Dec_ID dec)) sub)) as Hst' by (by apply (stable_payload sub)).
  apply wp_bind, wp_PutSubmission; [done|apply Hst'|]. intros w6 Hv6 Hc6 _.
  apply wp_bind, wp_emit; [done|]. intros w7 (Hv7 & Hc7 & _). apply wp_ret. split; [done|]. split; [done|].
  assert (wcore w7 = v_put_submission (set_Sub_DecisionID (Some (Dec_ID dec)) sub) (v_put_decision (CloneJSON dec) (wcore w))) as Hw.
  { change ("dec_" +:+ rand_hex n) with (Dec_ID dec) in Hc6. rewrite stable_clone // in Hc6. congruence. }
  exists sub, did, prior, (Dec_ID dec). split_and!; [done..| |].
  - change (v_submissions (wcore w7) = <[id := set_Sub_DecisionID (Some (Dec_ID dec)) sub]> (v_submissions (wcore w))).
    by rewrite Hw /= Hid.
  - change (v_idem (wcore w7) = v_idem (wcore w)). by rewrite Hw.
Qed.

(** [C20] An adjudication is accepted only for allow or deny, on a completed
submission that has a stored decision; a refused one changes nothing. *)
Theorem Adjudicate_guarded id req w :
  wvalid w →
  let r := Adjudicate o id req w in
  match r.2 with
  | Err _ => wcore r.1 = wcore w
  | Ok _ => (Adj_Decision req = DecisionAllow ∨ Adj_Decision req = DecisionDeny)
      ∧ ∃ sub did prior, v_submissions (wcore w) !! id = Some sub ∧ Sub_Status sub = SubmissionCompleted
          ∧ Sub_DecisionID sub = Some did ∧ v_decisions (wcore w) !! did = Some prior
  end.
Proof.
  intros Hv. destruct (Adjudicate_outcome id req w Hv) as [_ Ha]. cbv zeta.
  destruct (Adjudicate o id req w).2; naive_solver.
Qed.

End orchestrator_spec.

(** ** Runs on the memory store *)
Section runs.
#[local] Existing Instance sorted_maps.
#[local] Existing Instance ascii_unicode.

#[local] Instance counting_env : Env := {| rand_hex n := fmt_d (Z.of_nat n); clock n := Z.of_nat n |}.

Definition sample_caps : ProviderCapabilities :=
  mkProviderCapabilities "1.0" (mkProviderRef "osv" "1") "" "" 0
    [mkCapability "vuln-scan" "1" [mkInputProfile "p" [mkRequirement ReqPurl [] [] ∅]] [] [] ∅ "" ""] false ∅.

(** A provider that cannot tell until [n], then passes the artifact. *)
Definition slow_provider (n : nat) : Provider :=
  mkProvider "osv" sample_caps (λ k _ _, Ok
    (mkProviderResult ("res_osv" +:+ fmt_d (Z.of_nat k)) "1.0" "" (mkProviderRef "osv" "1") ["vuln-scan"] ""
       (mkExecution ExecutionCompleted 0 0 None)
       (Some (mkVerdict (if bool_decide (k < n) then VerdictUnknown else VerdictPass) "provider" "" None))
       [] None None ∅)) None.

Definition sample_orchestrator (p : list Provider) : Orchestrator :=
  mkOrchestrator p (Example.engine Example.registered_engine) Hour None ∅ false.

#[local] Instance sample_laws p : PolicyLaws (o_policy (sample_orchestrator p)) := Example.engine_laws _.

Definition sample_world : World MemoryStore () :=
  mkWorld (exec (OpPutSubmission (Some (sample_submission "a" SubmissionAccepted))) NewMemoryStore)
    (mkEventEmitter "scintx" 0) [] () 0.

Definition submission_in (w : World MemoryStore ()) (id : string) : option (SubmissionStatus * option string) :=
  (λ s, (Sub_Status s, Sub_DecisionID s)) <$> ms_submissions (w_store w) !! id.

Definition decision_of (w : World MemoryStore ()) (id : string) : option PolicyDecisionValue :=
  s ← ms_submissions (w_store w) !! id; d ← Sub_DecisionID s; Dec_Decision <$> ms_decisions (w_store w) !! d.

Definition run {A} (m : GoM GoErr (World MemoryStore ()) A) (w : World MemoryStore ()) : World MemoryStore () := (m w).1.

Lemma fan_out_correct_witness :
  let o := sample_orchestrator [slow_provider 0; slow_provider 0] in
  let sels := map (λ p, mkSelected "osv" (mkCapability "vuln-scan" "1" [] [] [] ∅ "" "") p) (o_providers o) in
  let f := fan_out o [1; 0; 1; 1] "a" zero_Artifact sels sample_world in
  (∃ rs, gathered o "a" zero_Artifact () sels sels rs ∧ f_ids f ≡ₚ map Res_ID rs) ∧ length (f_ids f) = 2.
Proof.
  intros o sels f.
  destruct (fan_out_correct o [1; 0; 1; 1] "a" zero_Artifact sels sample_world) as (_ & _ & (rs & puts & Hg & Hids & _) & Hlen & _).
  - apply exec_wf, NewMemoryStore_wf.
  - split; [exists rs; split; [exact Hg|exact Hids]|]. apply Hlen.
    + intros p n a c r Hp. simpl in Hp. apply elem_of_cons in Hp as [->|[->|Hp]%elem_of_cons];
        [by intros [= <-]..|by apply elem_of_nil in Hp].
    + repeat constructor.
Defined.

Lemma Process_settles_witness :
  let o := sample_orchestrator [slow_provider 0] in
  let w' := run (Process o (λ _, None) [0; 0] "a") sample_world in
  (∃ sub', v_submissions (wcore w') !! "a" = Some sub' ∧ settled (wcore w') sub')
  ∧ submission_in w' "a" = Some (SubmissionCompleted, Some "dec_7").
Proof.
  intros o w'. split; [|vm_compute; reflexivity].
  destruct (Process_settles (sample_orchestrator [slow_provider 0]) (λ _, None) [0; 0] "a" (sample_submission "a" SubmissionAccepted) sample_world)
    as (_ & _ & sub' & Hs & _ & [Hset|([? ?] & _)]).
  - apply exec_wf, NewMemoryStore_wf.
  - vm_compute. reflexivity.
  - exists sub'. split; [exact Hs|exact Hset].
  - discriminate.
Defined.

(** A resumed submission is judged on the results of every run: a provider
that first answers "unknown" (deferring the submission) and passes the artifact
when asked again leaves it deferred, since the stale "unknown" result is still
evaluated; only a fresh submission would be allowed. *)
Theorem resume_keeps_stale_results :
  let o := sample_orchestrator [slow_provider 10] in
  let w1 := run (Process o (λ _, None) [] "a") sample_world in
  let w2 := run (MarkForResume "a") w1 in
  let w3 := run (Process o (λ _, None) [] "a") w2 in
  let fresh := run (Process o (λ _, None) [] "b") (run (store_op (PutSubmission
                 (Some (sample_submission "b" SubmissionAccepted)))) w3) in
  decision_of w1 "a" = Some DecisionDefer ∧ fst <$> submission_in w2 "a" = Some SubmissionRunning
  ∧ decision_of w3 "a" = Some DecisionDefer ∧ decision_of fresh "b" = Some DecisionAllow.
Proof. vm_compute. split_and!; reflexivity. Qed.
(** A completed submission with a stored decision. *)
Definition reviewed_world : World MemoryStore () :=
  let d := mkPolicyDecision "prior" "a" DecisionReview (mkPolicyRef "example" "1" "") 1 ["res_1"] [] None "" ∅ in
  let sub := set_Sub_DecisionID (Some "prior") (sample_submission "a" SubmissionCompleted) in
  mkWorld (exec_all [OpPutDecision (Some d); OpPutSubmission (Some sub)] NewMemoryStore)
    (mkEventEmitter "scintx" 0) [] () 0.

Definition deny_request : AdjudicateRequest :=
  mkAdjudicateRequest DecisionDeny "alice" "" "" None {["origin" := VStr "forged"; "ticket" := VStr "T1"]}.

Lemma Adjudicate_correct_witness :
  let o := sample_orchestrator [] in
  let r := Adjudicate o "a" deny_request reviewed_world in
  ∃ dec, r.2 = Ok (dec, []) ∧ Dec_Decision dec = DecisionDeny
         ∧ Dec_Extensions dec !! "origin" = Some (VStr "consumer")
         ∧ Dec_Decision <$> v_decisions (wcore r.1) !! "prior" = Some DecisionReview.
Proof.
  intros o r. subst o r.
  destruct (Adjudicate_correct (sample_orchestrator []) "a" deny_request
    (set_Sub_DecisionID (Some "prior") (sample_submission "a" SubmissionCompleted)) "prior"
    (mkPolicyDecision "prior" "a" DecisionReview (mkPolicyRef "example" "1" "") 1 ["res_1"] [] None "" ∅)
    reviewed_world) as (dec & Hr & Hd & _ & _ & _ & Hext & _ & Hprior & _ & _).
  - apply exec_all_wf, NewMemoryStore_wf.
  - vm_compute. reflexivity.
  - reflexivity.
  - reflexivity.
  - discriminate.
  - vm_compute. reflexivity.
  - intros n. discriminate.
  - by right.
  - vm_compute. reflexivity.
  - exists dec. split; [exact Hr|]. split; [exact Hd|]. split; [|by rewrite Hprior].
    apply Hext. vm_compute. reflexivity.
Defined.

Lemma Adjudicate_guarded_witness :
  let o := sample_orchestrator [] in
  let r := Adjudicate o "b" deny_request reviewed_world in
  r.2 = Err ErrAdjudicateNotFound ∧ wcore r.1 = wcore reviewed_world.
Proof.
  intros o r. assert (Hr : r.2 = Err ErrAdjudicateNotFound) by (vm_compute; reflexivity). split; [done|].
  pose proof (Adjudicate_guarded (sample_orchestrator []) "b" deny_request reviewed_world
                (exec_all_wf _ _ NewMemoryStore_wf)) as Hg.
  cbv zeta in Hg. fold o in Hg. fold r in Hg. rewrite Hr in Hg. exact Hg.
Defined.
End runs.
