(* ===== verification/Adapter.v ===== *)
(** * What the vulnerability providers share

[extensions/providers/osv] and [extensions/providers/ossindex] repeat, with other
names in the texts, the regular expressions, severity levels, verdicts, error
results and error mapping defined here; the stub provider builds the same verdict.
The last part is what their results mean to the built-in policy. *)
From S2P Require Import Prelude GoString GoFloat GoTime Sha256 Types Purl Store Fingerprint Aggregator Policy ExamplePolicy.

(** ** Regular expressions *)
Definition is_dec (c : ascii) : bool := bool_decide (48 ≤ byte_of c ≤ 57)%N.
Definition decimals (s : string) : bool := negb (bool_decide (s = "")) && all_chars is_dec s.

(** [(?i)^p] for a pattern [p] in lower case, none of whose letters folds with a
letter outside ASCII. *)
Definition fold_prefix (p s : string) : bool := bool_decide (map_chars lower_char (take_str (String.length p) s) = p).

(** [(?i)^CVE-\d{4}-\d+$]. *)
Definition reCVE (s : string) : bool :=
  let r := drop_str 4 s in
  fold_prefix "cve-" s && bool_decide (String.length (take_str 4 r) = 4) && all_chars is_dec (take_str 4 r)
  && match drop_str 4 r with String c t => bool_decide (c = "-"%char) && decimals t | "" => false end.

(** [(?i)^CWE-(\d+)$] with its group. *)
Definition reCWE (s : string) : option string :=
  if fold_prefix "cwe-" s && decimals (drop_str 4 s) then Some (drop_str 4 s) else None.

(** The letter [S] also folds with U+017F. *)
Definition eat_char (c : ascii) (s : string) : option string :=
  match s with String d t => if bool_decide (lower_char d = c) then Some t else None | "" => None end.
Definition eat_s (s : string) : option string :=
  match eat_char "s"%char s with
  | Some t => Some t
  | None => if HasPrefix s (bytes [197; 191]) then Some (drop_str 2 s) else None
  end.

(** [(?i)^CVSS:([0-9.]+)/] with its group. *)
Definition reCVSS (s : string) : option string :=
  match (s1 ← eat_char "c"%char s; s2 ← eat_char "v"%char s1; s3 ← eat_s s2; s4 ← eat_s s3; eat_char ":"%char s4) with
  | Some t =>
      let '(v, r) := span (λ c, is_dec c || bool_decide (c = "."%char)) t in
      if bool_decide (v ≠ "") && HasPrefix r "/" then Some v else None
  | None => None
  end.

(** ** Severity, verdict, results *)
Definition cvssLevel (score : float64) : string :=
  if f_ge score (f_of_Z 9) then "critical"
  else if f_ge score (f_of_Z 7) then "high"
  else if f_ge score (f_of_Z 4) then "medium"
  else if f_gt score f_zero then "low" else "none".

(** [verdictFromFindings] of the provider [id], whose summary counts [what]. *)
Definition verdict_of (id what : string) (findings : list Finding) : Verdict :=
  match findings with
  | [] => mkVerdict VerdictPass VerdictOriginProvider (id +:+ ".zero_findings_means_pass") None
  | _ => mkVerdict VerdictFail VerdictOriginProvider (id +:+ ".any_applicable_finding_means_fail")
           (Some (mkVerdictDerivation (map (λ f, mkVerdictDerivationEntry (Find_ID f) "primary") findings)
                    (fmt_d (Z.of_nat (length findings)) +:+ " " +:+ what +:+ " vulnerability finding(s)")))
  end.

(** The readings of the clock and of the random source one assessment makes. *)
Record Readings := mkReadings {
  rd_started : Time;
  rd_finished : Time;
  rd_result : string;
  rd_blob : string;
}.

Definition error_result (ref : ProviderRef) (caps : list string) (digest : string) (rd : Readings)
    (code : ProviderErrorCode) (msg : string) : ProviderResult :=
  mkProviderResult ("res_" +:+ rd_result rd) "1.0.0" "" ref caps digest
    (mkExecution ExecutionError (rd_started rd) (rd_finished rd) (Some (mkProviderError code msg ∅)))
    None [] None None ∅.

(** A completed assessment whose raw answer is kept under [urn:scintx:blob:kind_...]. *)
Definition completed_result (ref : ProviderRef) (digest kind format : string) (rd : Readings) (raw : string)
    (verdict : Verdict) (findings : list Finding) : ProviderResult :=
  mkProviderResult ("res_" +:+ rd_result rd) "1.0.0" "" ref ["vulnerability:v1"] digest
    (mkExecution ExecutionCompleted (rd_started rd) (rd_finished rd) None)
    (Some verdict) findings
    (Some (mkResourceReference ("urn:scintx:blob:" +:+ kind +:+ "_" +:+ rd_blob rd) "application/json"
             {["sha256" := sha256_hex raw]} format "" "" ∅)) None ∅.

(** ** Errors of an HTTP client *)
Inductive ClientErr :=
| HttpError (status : Z) (body : string)
| DeadlineExceeded (msg : string)
| OtherErr (msg : string).

(** [s[:n] + "…"] of a longer string. *)
Definition truncate (s : string) (n : nat) : string :=
  if bool_decide (String.length s ≤ n) then s else take_str n s +:+ bytes [226; 128; 166].

Definition client_code (e : ClientErr) : ProviderErrorCode :=
  match e with
  | HttpError status _ => if bool_decide (500 <= status)%Z then ErrProvider5xx else ErrProvider4xx
  | DeadlineExceeded _ => ErrTimeout
  | OtherErr _ => ErrTransport
  end.

(** ** Capabilities as JSON, for the digests of the stub providers *)
Section caps.
Context `{JsonNumbers}.

Definition json_strings (l : list string) : string := json_array (map json_string l).

Definition json_requirement (r : Requirement) : string :=
  json_object ([("kind", json_string (Req_Kind r))]
    ++ opt_member "types" (is_cons (Req_Types r)) (json_strings (Req_Types r))
    ++ opt_member "algorithms" (is_cons (Req_Algorithms r)) (json_strings (Req_Algorithms r))
    ++ opt_member "formats" (is_full (Req_Formats r))
         (json_members (map (λ kv, (kv.1, json_strings kv.2)) (map_to_list (Req_Formats r))))).

Definition json_profile (p : InputProfile) : string :=
  json_object [("id", json_string (Prof_ID p)); ("requires", json_array (map json_requirement (Prof_Requires p)))].

Definition json_capability (c : Capability) : string :=
  json_object ([("id", json_string (Cap_ID c)); ("version", json_string (Cap_Version c));
      ("input_profiles", json_array (map json_profile (Cap_InputProfiles c)));
      ("finding_types", json_strings (Cap_FindingTypes c))]
    ++ opt_member "native_output_formats" (is_cons (Cap_NativeOutputFormats c)) (json_strings (Cap_NativeOutputFormats c))
    ++ opt_member "limits" (is_full (Cap_Limits c)) (json_anymap (Cap_Limits c))
    ++ opt_member "cost_hint" (bool_decide (Cap_CostHint c ≠ "")) (json_string (Cap_CostHint c))
    ++ opt_member "latency_hint" (bool_decide (Cap_LatencyHint c ≠ "")) (json_string (Cap_LatencyHint c))).
End caps.

(** ** What a result says *)

(** A failed assessment has an error code and neither verdict nor findings; a
completed one fails the artifact exactly when it has findings, names every finding
as a cause, and every finding is about [purl] and assessed affected. *)
Definition assessment_of (purl : string) (ids : list string) (r : ProviderResult) : Prop :=
  Exec_Status (Res_Execution r) = ExecutionCompleted ∧ Exec_Error (Res_Execution r) = None
  ∧ map Find_ID (Res_Findings r) = ids
  ∧ (∀ f, f ∈ Res_Findings r → Find_Subjects f = [mkArtifactRef (Some purl) ∅ None] ∧ As_Status <$> Find_Assessment f = Some AssessAffected)
  ∧ ∃ v, Res_Verdict r = Some v
    ∧ (ids = [] → Vd_Value v = VerdictPass)
    ∧ (ids ≠ [] → Vd_Value v = VerdictFail ∧ map Drv_FindingID <$> (Drv_DrivenBy <$> Vd_Derivation v) = Some ids).

Definition failed_with (code : ProviderErrorCode) (r : ProviderResult) : Prop :=
  Exec_Status (Res_Execution r) = ExecutionError ∧ PErr_Code <$> Exec_Error (Res_Execution r) = Some code
  ∧ Res_Verdict r = None ∧ Res_Findings r = [].

Lemma error_result_failed ref caps digest rd code msg : failed_with code (error_result ref caps digest rd code msg).
Proof. done. Qed.

Lemma verdict_of_spec id what fs :
  (fs = [] → Vd_Value (verdict_of id what fs) = VerdictPass)
  ∧ (fs ≠ [] → Vd_Value (verdict_of id what fs) = VerdictFail
     ∧ map Drv_FindingID <$> (Drv_DrivenBy <$> Vd_Derivation (verdict_of id what fs)) = Some (map Find_ID fs)).
Proof. destruct fs; split; intros ?; try done. simpl. split; [done|]. by rewrite map_map. Qed.

Lemma completed_assessment ref digest kind format rd raw id what purl fs :
  (∀ f, f ∈ fs → Find_Subjects f = [mkArtifactRef (Some purl) ∅ None] ∧ As_Status <$> Find_Assessment f = Some AssessAffected) →
  assessment_of purl (map Find_ID fs) (completed_result ref digest kind format rd raw (verdict_of id what fs) fs).
Proof.
  intros Hf. destruct (verdict_of_spec id what fs) as [Hp Hv]. split_and!; try done. eexists. split; [done|].
  split; intros Hids; [apply Hp; by destruct fs|apply Hv; by destruct fs].
Qed.

(** ** The built-in policy on such results *)

Lemma fail_finding_strict p rid f : (rank DecisionAllow < rank (Example.fail_finding p rid f).1)%Z.
Proof. unfold Example.fail_finding. destruct (Example.top_of f) as [x [s|]]; repeat case_match; done. Qed.

(** A failed assessment, and one with findings, asks for more than "allow". *)
Lemma asks_strict p r :
  (∃ code, failed_with code r) ∨ (∃ purl id ids, assessment_of purl (id :: ids) r) →
  ∃ x, x ∈ Example.result_asks p r ∧ (rank DecisionAllow < rank x)%Z.
Proof.
  unfold Example.result_asks. intros [(code & Hs & _)|(purl & id & ids & Hs & _ & Hids & Hf & v & Hv & _ & Hfail)].
  - rewrite Hs. exists DecisionReview. simpl. split; [by left|done].
  - rewrite Hs Hv. destruct (Hfail ltac:(done)) as [Hvf _]. rewrite Hvf. simpl.
    destruct (Res_Findings r) as [|f fs]; [done|]. destruct (Hf f ltac:(by left)) as [_ Ha].
    exists (Example.fail_finding p (Res_ID r) f).1. split; [|apply fail_finding_strict].
    simpl. unfold Example.fail_asks, Example.is_affected. destruct (Find_Assessment f) as [a|]; [|done].
    simpl in Ha. injection Ha as ->. rewrite bool_decide_true //. by left.
Qed.

(** Under the built-in policy a submission one of whose assessments failed, or found
anything, is never allowed. *)
Lemma example_not_allowed p sub results r rand now now' :
  r ∈ results → (∃ code, failed_with code r) ∨ (∃ purl id ids, assessment_of purl (id :: ids) r) →
  ∃ d, Example.Evaluate p sub results rand now now' = Ok d ∧ Dec_Decision d ≠ DecisionAllow.
Proof.
  intros Hr Hsays. destruct (Example.Evaluate_strongest p sub results rand now now') as (d & Hd & [_ Hub] & _).
  exists d. split; [done|]. intros Hallow. destruct (asks_strict p r Hsays) as (x & Hx & Hlt).
  assert (rank x <= rank (Dec_Decision d))%Z; [|rewrite Hallow in H; lia]. apply Hub. right.
  apply list_elem_of_In, in_concat. exists (Example.result_asks p r). rewrite -!list_elem_of_In.
  split; [by apply list_elem_of_fmap_2|done].
Qed.

(** ** Outcomes of a lookup *)

(** The HTTP status that makes an answer an error. *)
Definition error_status (a : res ClientErr (Z * string)) : option Z :=
  match a with
  | Ok (status, _) => if bool_decide (400 <= status)%Z then Some status else None
  | Err (HttpError status _) => Some status
  | Err _ => None
  end.

(** What the transport's answer to one request amounts to: the decoded body, or the code
of what went wrong, which is [other] for a failure that is neither a status nor a
deadline. *)
Inductive answered {A} (decode : string → res string A) (other : ProviderErrorCode)
  : res ClientErr (Z * string) → res ProviderErrorCode A → Prop :=
| timed_out msg : answered decode other (Err (DeadlineExceeded msg)) (Err ErrTimeout)
| unreachable msg : answered decode other (Err (OtherErr msg)) (Err other)
| refused a status : error_status a = Some status → (status < 500)%Z → answered decode other a (Err ErrProvider4xx)
| broken a status : error_status a = Some status → (500 <= status)%Z → answered decode other a (Err ErrProvider5xx)
| garbled status body msg : (status < 400)%Z → decode body = Err msg → answered decode other (Ok (status, body)) (Err other)
| understood status body x : (status < 400)%Z → decode body = Ok x → answered decode other (Ok (status, body)) (Ok x).

Lemma answered_http {A} (decode : string → res string A) other status body :
  answered decode other (Err (HttpError status body)) (Err (client_code (HttpError status body))).
Proof. simpl. case_bool_decide; [by apply (broken _ _ _ status)|apply (refused _ _ _ status); [done|lia]]. Qed.

Lemma answered_error {A} (decode : string → res string A) e : answered decode ErrTransport (Err e) (Err (client_code e)).
Proof. destruct e; [apply answered_http|constructor..]. Qed.

Lemma answered_status {A} (decode : string → res string A) other status body :
  (400 <= status)%Z → answered decode other (Ok (status, body)) (Err (client_code (HttpError status (truncate body 200)))).
Proof.
  intros Hs. simpl. case_bool_decide; [apply (broken _ _ _ status)|apply (refused _ _ _ status)]; simpl;
    rewrite ?bool_decide_true //; lia.
Qed.

Section outcome.
Context `{Unicode}.

(** What the service says of a canonical package URL: the ids of the records it has, or
the code of the failure to learn them. *)
Context (says : string → res ProviderErrorCode (list string) → Prop).

(** What an assessment can be: refused for its package URL, failed with the code of the
failure that happened, or completed with one finding per record the service has. *)
Inductive lookup_outcome (artifact : Artifact) (r : ProviderResult) : Prop :=
| no_purl : (Art_PURL artifact = None ∨ ∃ p e, Art_PURL artifact = Some p ∧ CanonicalPurl p = Err e) →
    failed_with ErrNormalization r → lookup_outcome artifact r
| client_failed p canonical code : Art_PURL artifact = Some p → CanonicalPurl p = Ok canonical →
    says canonical (Err code) → failed_with code r → lookup_outcome artifact r
| completed p canonical ids : Art_PURL artifact = Some p → CanonicalPurl p = Ok canonical →
    says canonical (Ok ids) → assessment_of canonical ids r → lookup_outcome artifact r.

(** The built-in policy allows such a result only when the service was asked about the
artifact and has nothing on it. *)
Lemma lookup_policy artifact r p sub results rand now now' :
  lookup_outcome artifact r → r ∈ results →
  ∃ d, Example.Evaluate p sub results rand now now' = Ok d
    ∧ (Dec_Decision d = DecisionAllow → ∃ purl canonical, Art_PURL artifact = Some purl ∧ CanonicalPurl purl = Ok canonical
         ∧ says canonical (Ok []) ∧ assessment_of canonical [] r).
Proof.
  intros Ho Hin.
  assert (Hstrict : (∃ code, failed_with code r) ∨ (∃ canonical id ids, assessment_of canonical (id :: ids) r) →
    ∃ d, Example.Evaluate p sub results rand now now' = Ok d ∧ Dec_Decision d ≠ DecisionAllow).
  { by apply example_not_allowed. }
  destruct Ho as [_ Hf|? ? code _ _ _ Hf|purl canonical [|id ids] Hp Hc Hs Ha].
  - destruct Hstrict as (d & Hd & Hne); [by eauto|]. exists d. by split.
  - destruct Hstrict as (d & Hd & Hne); [by eauto|]. exists d. by split.
  - eexists. split; [done|]. intros _. by exists purl, canonical.
  - destruct Hstrict as (d & Hd & Hne); [right; by exists canonical, id, ids|]. exists d. by split.
Qed.
End outcome.

(** ** Examples *)
Example regular_expressions :
  reCVE "cve-2024-12" = true ∧ reCVE "CVE-2024-" = false ∧ reCVE "CVE-24-1234" = false ∧ reCVE "xCVE-2024-1" = false
  ∧ reCWE "cwe-79" = Some "79" ∧ reCWE "CWE-" = None ∧ reCVSS "CVSS:3.1/AV:N" = Some "3.1" ∧ reCVSS "CVSS:/x" = None
  ∧ cvssLevel (f_dec 87 1) = "high" ∧ cvssLevel f_nan = "none".
Proof. vm_compute. split_and!; reflexivity. Qed.
