(* ===== verification/Osv.v ===== *)
(** * The OSV provider: [extensions/providers/osv/{convert,client,vscode,provider,auth}.go]

The conversion of OSV records to findings, the client that follows the pages of an
answer, the fallback for VS Code extensions, and [Assess].  The transport is an
argument: what the [n]-th request is answered; so are [json.Unmarshal] of an
answer, the JSON text of the pages kept with the result, [strconv.ParseFloat] and
[url.Parse].  The paging loop has fuel. *)
From S2P Require Import Prelude GoString GoFloat GoTime Sha256 Types Purl Matching Store StoreSpec Credentials Gateway.
From S2P Require Import Fingerprint Policy ExamplePolicy Encoding Orchestrator Adapter.

(** ** Records ([client.go]) *)
Record osvSeverity := mkOsvSeverity { OS_Type : string; OS_Score : string }.
Record osvReference := mkOsvReference { OR_Type : string; OR_URL : string }.

(** The raw JSON of [affected] is a list of texts. *)
Record Vulnerability := mkVulnerability {
  V_ID : string;
  V_Summary : string;
  V_Details : string;
  V_Aliases : list string;
  V_Related : list string;
  V_Severity : list osvSeverity;
  V_References : list osvReference;
  V_DatabaseSpecific : anymap;
  V_Affected : list string;
}.

Record queryPackage := mkQueryPackage { QP_PURL : string; QP_Ecosystem : string; QP_Name : string }.
Record queryRequest := mkQueryRequest { QR_Package : queryPackage; QR_Version : string; QR_PageToken : string }.
Record queryResponse := mkQueryResponse { QR_Vulns : list Vulnerability; QR_NextPageToken : string }.

Class FloatText := { ParseFloat : string → option float64 }.

Module Osv.
Section convert.
Context `{Unicode} `{FloatText}.

(** ** Conversion ([convert.go]) *)
Definition parseCVSSNumeric (score : string) : option float64 := ParseFloat score.

Definition severityFromOSV (typ score : string) : option SeverityObservation :=
  let typ := ToUpper (TrimSpace typ) in
  let score := TrimSpace score in
  if bool_decide (score = "") then None
  else
    let version :=
      if bool_decide (typ = "CVSS_V2") then Some "2.0"
      else if bool_decide (typ = "CVSS_V3") then Some "3.x"
      else if bool_decide (typ = "CVSS_V4") then Some "4.0"
      else reCVSS score in
    match version with
    | None => Some (mkSeverityObservation "OSV" "" None (ToLower score) "" "provider" None)
    | Some version =>
        match parseCVSSNumeric score with
        | Some n => Some (mkSeverityObservation "CVSS" version (Some n) (cvssLevel n) score "provider" None)
        | None => Some (mkSeverityObservation "CVSS" (default version (reCVSS score)) None "" score "provider" None)
        end
    end.

Fixpoint first_level (keys : list string) (db : anymap) : option string :=
  match keys with
  | [] => None
  | k :: keys =>
      match db !! k with
      | Some (VStr s) => if bool_decide (s ≠ "") then Some (ToLower s) else first_level keys db
      | _ => first_level keys db
      end
  end.

Definition databaseSeverityLevel (db : anymap) : option string := first_level ["severity"; "Severity"] db.

Definition mapOSVSeverity (v : Vulnerability) : list SeverityObservation :=
  match omap (λ s, severityFromOSV (OS_Type s) (OS_Score s)) (V_Severity v) with
  | [] => match databaseSeverityLevel (V_DatabaseSpecific v) with
          | Some lvl => [mkSeverityObservation "OSV" "" None lvl "" "provider" None]
          | None => []
          end
  | out => out
  end.

Definition alias_identifier (a : string) : TypedIdentifier :=
  mkTypedIdentifier (if reCVE a then "CVE" else if HasPrefix (ToUpper a) "GHSA-" then "GHSA" else "OTHER") a RelAlias.

Definition vulnToFinding (canonicalPURL : string) (v : Vulnerability) : Finding :=
  let title := if bool_decide (V_Summary v = "") then V_ID v else V_Summary v in
  let desc := if bool_decide (V_Details v = "") then V_Summary v else V_Details v in
  mkFinding (V_ID v) "vulnerability" title desc
    (mkTypedIdentifier "OSV" (V_ID v) RelNone :: map alias_identifier (V_Aliases v))
    [mkArtifactRef (Some canonicalPURL) ∅ None] "" []
    (mapOSVSeverity v) (map (λ n, mkCweRef "CWE" ("CWE-" +:+ n)) (omap reCWE (V_Aliases v)))
    (Some (mkAssessment AssessAffected "" ""))
    (List.filter (λ u, bool_decide (u ≠ "")) (map OR_URL (V_References v))) [] None ∅ [] ∅.

Definition vulnsToFindings (canonicalPURL : string) (vulns : list Vulnerability) : list Finding :=
  map (vulnToFinding canonicalPURL) vulns.

Definition verdictFromFindings : list Finding → Verdict := verdict_of "osv" "OSV".
End convert.

(** ** The client ([client.go]) *)
Definition defaultBaseURL : string := "https://api.osv.dev".

Record Client := mkClient { Cl_BaseURL : string; Cl_BearerToken : string; Cl_APIKey : string }.

(** The registered specification ([auth.go]). *)
Definition auth_spec : Credentials.Spec :=
  Credentials.mkSpec "osv" "SCINTX_OSV_BEARER_TOKEN" "" "https://google.github.io/osv.dev/" "Optional OSV bearer token (private mirrors)".

Definition newClientFromEnv (h : Host) (specs : gmap string Credentials.Spec) (v : Vault) : Client :=
  let base := h_getenv h "SCINTX_OSV_BASE_URL" in
  mkClient (if bool_decide (base = "") then defaultBaseURL else base)
    (match Get h specs "osv" v with Ok r => PC_Token (Rv_Creds r) | Err _ => "" end)
    (TrimSpace (h_getenv h "SCINTX_OSV_API_KEY")).

Record HttpRequest := mkHttpRequest { HQ_URL : string; HQ_Header : strmap; HQ_Body : queryRequest }.

Definition request_of (c : Client) (pkg : queryPackage) (version pageToken : string) : HttpRequest :=
  let base := if bool_decide (Cl_BaseURL c = "") then defaultBaseURL else Cl_BaseURL c in
  let auth : strmap := if bool_decide (Cl_BearerToken c ≠ "") then {["Authorization" := "Bearer " +:+ Cl_BearerToken c]}
                       else if bool_decide (Cl_APIKey c ≠ "") then {["X-Api-Key" := Cl_APIKey c]} else ∅ in
  mkHttpRequest (base +:+ "/v1/query")
    (<["Content-Type" := "application/json"]> (<["Accept" := "application/json"]> auth))
    (mkQueryRequest pkg version pageToken).

Definition err_text (e : ClientErr) : string :=
  match e with
  | HttpError status body => "osv http " +:+ fmt_d status +:+ ": " +:+ body
  | DeadlineExceeded msg | OtherErr msg => msg
  end.

Section client.
Context (send : nat → HttpRequest → res ClientErr (Z * string)).
Context (decode : string → res string queryResponse).
Context (marshal_pages : list string → nat → string).

(** Vulnerabilities with the raw answer, or an error with the body it came with. *)
Definition Answer : Type := res (string * ClientErr) (list Vulnerability * string).

(** The loop of [query] before its [n]-th request: [None] when the fuel runs out,
otherwise the number of requests made and the answer. *)
Fixpoint query_loop (fuel n : nat) (c : Client) (pkg : queryPackage) (version pageToken : string)
    (all : list Vulnerability) (pages : list string) : option (nat * Answer) :=
  match fuel with
  | 0 => None
  | S fuel =>
      match send n (request_of c pkg version pageToken) with
      | Err e => Some (S n, Err ("", e))
      | Ok (status, body) =>
          if bool_decide (400 <= status)%Z then Some (S n, Err (body, HttpError status (truncate body 200)))
          else match decode body with
               | Err m => Some (S n, Err (body, OtherErr ("decode osv response: " +:+ m)))
               | Ok parsed =>
                   let all := all ++ QR_Vulns parsed in
                   let pages := pages ++ [body] in
                   if bool_decide (QR_NextPageToken parsed = "")
                   then Some (S n, Ok (all, marshal_pages pages (length all)))
                   else query_loop fuel (S n) c pkg version (QR_NextPageToken parsed) all pages
               end
      end
  end.

Definition query (fuel n : nat) (c : Client) (pkg : queryPackage) (version : string) : option (nat * Answer) :=
  query_loop fuel n c pkg version "" [] [].

Definition QueryByPURL (fuel n : nat) (c : Client) (purl : string) : option (nat * Answer) :=
  query fuel n c (mkQueryPackage purl "" "") "".

Definition QueryByEcosystem (fuel n : nat) (c : Client) (ecosystem name version : string) : option (nat * Answer) :=
  query fuel n c (mkQueryPackage "" ecosystem name) version.

(** ** VS Code extensions ([vscode.go]) *)
Definition defaultVSCodeEcosystems : list string :=
  ["VSCode:https://open-vsx.org"; "VSCode:https://marketplace.visualstudio.com"].

Record vscodeEcosystemQuery := mkVscodeQuery { VQ_Ecosystem : string; VQ_Name : string; VQ_Version : string }.

Context `{Unicode}.

Definition add_qual (m : strmap) (kv : string) : strmap :=
  match cut_at "="%char kv with
  | None => m
  | Some (k, v) => <[ToLower k := default v (QueryUnescape v)]> m
  end.

Definition splitVSCodePURL (purl : string) : res string (string * string * string * string * strmap) :=
  if negb (HasPrefix purl "pkg:") then Err ("invalid purl: " +:+ purl)
  else
    let '(rest, tail) := span (λ c, negb (bool_decide (c = "?"%char ∨ c = "#"%char))) (drop_str 4 purl) in
    match cut_at "/"%char rest with
    | None => Err ("invalid purl: " +:+ purl)
    | Some (t, path) =>
        let typ := ToLower t in
        let '(path, version) := match cut_at "@"%char path with Some (a, b) => (a, b) | None => (path, "") end in
        let '(namespace, name) := match cut_at "/"%char path with Some (a, b) => (a, b) | None => ("", path) end in
        let quals : strmap :=
          match tail with
          | String c body =>
              if bool_decide (c = "?"%char) then
                let body := match cut_at "#"%char body with Some (a, _) => a | None => body end in
                fold_left add_qual (Split body "&"%char) ∅
              else ∅
          | "" => ∅
          end in
        Ok (typ, namespace, name, version, quals)
    end.

(** Scheme, host and path of [url.Parse]. *)
Context (parse_url : string → option (string * string * string)).

Definition vscodeEcosystemFromRepoURL (raw : string) : res string string :=
  match parse_url raw with
  | Some (scheme, host, path) =>
      if bool_decide (scheme = "" ∨ host = "") then Err ("invalid repository_url " +:+ quoted raw)
      else Ok ("VSCode:" +:+ TrimRight (scheme +:+ "://" +:+ host +:+ path) "/"%char)
  | None => Err ("invalid repository_url " +:+ quoted raw)
  end.

Definition vscodeExtensionQueries (canonicalPURL : string) : res string (list vscodeEcosystemQuery) :=
  let? x := splitVSCodePURL canonicalPURL in
  let '(typ, ns, name, version, quals) := x in
  if bool_decide (typ ≠ "vscode-extension") then Err ("not a vscode-extension purl: " +:+ typ)
  else if bool_decide (ns = "" ∨ name = "") then Err ("vscode-extension purl needs publisher/name: " +:+ canonicalPURL)
  else
    let extID := ns +:+ "." +:+ name in
    let repoURL := TrimSpace (default "" (quals !! "repository_url")) in
    if bool_decide (repoURL ≠ "") then
      let? eco := vscodeEcosystemFromRepoURL repoURL in Ok [mkVscodeQuery eco extID version]
    else Ok (map (λ eco, mkVscodeQuery eco extID version) defaultVSCodeEcosystems).

(** The merge by id: the ids seen and the records kept. *)
Definition merge_vuln (st : gset string * list Vulnerability) (v : Vulnerability) : gset string * list Vulnerability :=
  if bool_decide (V_ID v = "") then (st.1, st.2 ++ [v])
  else if bool_decide (V_ID v ∈ st.1) then st
  else ({[V_ID v]} ∪ st.1, st.2 ++ [v]).

Context (marshal_fallback : list vscodeEcosystemQuery → list string → nat → string).

Fixpoint query_each (fuel n : nat) (c : Client) (all queries : list vscodeEcosystemQuery)
    (st : gset string * list Vulnerability) (pages : list string) : option (nat * Answer) :=
  match queries with
  | [] => Some (n, Ok (st.2, marshal_fallback all pages (length st.2)))
  | q :: queries =>
      match QueryByEcosystem fuel n c (VQ_Ecosystem q) (VQ_Name q) (VQ_Version q) with
      | None => None
      | Some (n, Err (_, e)) => Some (n, Err ("", e))
      | Some (n, Ok (vulns, raw)) => query_each fuel n c all queries (fold_left merge_vuln vulns st) (pages ++ [raw])
      end
  end.

Definition QueryVSCodeExtension (fuel n : nat) (c : Client) (canonicalPURL : string) : option (nat * Answer) :=
  match vscodeExtensionQueries canonicalPURL with
  | Err e => Some (n, Err ("", OtherErr e))
  | Ok queries => query_each fuel n c queries queries (∅, []) []
  end.

(** ** The provider ([provider.go]) *)
Definition providerID : string := "osv".
Definition providerVersion : string := "1.0.0".
Definition self : ProviderRef := mkProviderRef providerID providerVersion.

Definition computeDigest : string :=
  "sha256:" +:+ sha256_hex (json_array [json_string "osv"; json_string providerVersion; json_string "vulnerability:v1"]).

Definition purlTypes : list string :=
  ["pypi"; "npm"; "maven"; "golang"; "cargo"; "gem"; "nuget"; "composer"; "hex"; "pub"; "swift"; "generic"; "vscode-extension"].

Definition Capabilities (now : Time) : ProviderCapabilities :=
  mkProviderCapabilities "1.0.0" self "1" computeDigest now
    [mkCapability "vulnerability" "v1" [mkInputProfile "purl" [mkRequirement ReqPurl purlTypes [] ∅]]
       ["vulnerability"] ["osv"] ∅ "" ""] true ∅.

Definition errorResult (rd : Readings) (code : ProviderErrorCode) (msg : string) : ProviderResult :=
  error_result self ["vulnerability:v1"] "" rd code msg.

Definition mapClientError (rd : Readings) (e : ClientErr) : ProviderResult :=
  errorResult rd (client_code e) (err_text e).

Context `{FloatText}.

Definition assessed (rd : Readings) (canonical : string) (vulns : list Vulnerability) (raw : string) : ProviderResult :=
  let findings := vulnsToFindings canonical vulns in
  completed_result self computeDigest "osv" "osv" rd raw (verdictFromFindings findings) findings.

Definition needs_fallback (canonical : string) (vulns : list Vulnerability) : bool :=
  match vulns, PurlType canonical with [], Ok typ => bool_decide (typ = "vscode-extension") | _, _ => false end.

Definition Assess (fuel : nat) (c : Client) (rd : Readings) (artifact : Artifact) : option ProviderResult :=
  match Art_PURL artifact with
  | None => Some (errorResult rd ErrNormalization "no purl provided")
  | Some purl =>
      match CanonicalPurl purl with
      | Err e => Some (errorResult rd ErrNormalization ("invalid purl: " +:+ e))
      | Ok canonical =>
          match QueryByPURL fuel 0 c canonical with
          | None => None
          | Some (_, Err (_, e)) => Some (mapClientError rd e)
          | Some (n, Ok (vulns, raw)) =>
              if needs_fallback canonical vulns then
                match QueryVSCodeExtension fuel n c canonical with
                | None => None
                | Some (_, Err (_, e)) => Some (mapClientError rd e)
                | Some (_, Ok (vulns, raw)) => Some (assessed rd canonical vulns raw)
                end
              else Some (assessed rd canonical vulns raw)
          end
      end
  end.
End client.
End Osv.

(** ** The merge of the fallback *)
Definition merge_inv (vs : list Vulnerability) (st : gset string * list Vulnerability) : Prop :=
  (∀ id, id ∈ st.1 ↔ id ≠ "" ∧ id ∈ map V_ID st.2)
  ∧ NoDup (List.filter (λ id, negb (bool_decide (id = ""))) (map V_ID st.2))
  ∧ ∀ id, id ∈ map V_ID st.2 ↔ id ∈ map V_ID vs.

Lemma merge_inv_nil : merge_inv [] (∅, []).
Proof. split_and!; [|constructor|done]. intros id. simpl. set_solver. Qed.

Lemma merge_vuln_inv vs st v : merge_inv vs st → merge_inv (vs ++ [v]) (Osv.merge_vuln st v).
Proof.
  intros (Hseen & Hnd & Hids). unfold Osv.merge_vuln, merge_inv. case_bool_decide as Hv; [|case_bool_decide as Hs]; simpl.
  - rewrite !map_app List.filter_app /= Hv /= List.app_nil_r. split_and!; [|done|]; intros id.
    + rewrite Hseen elem_of_app list_elem_of_singleton. naive_solver.
    + rewrite !elem_of_app Hids /=. done.
  - split_and!; [done..|]. intros id. rewrite Hids map_app elem_of_app list_elem_of_singleton.
    split; [by left|]. intros [?| ->]; [done|]. apply Hids, Hseen, Hs.
  - rewrite !map_app List.filter_app /= (bool_decide_false (V_ID v = "")) //=. split_and!.
    + intros id. rewrite elem_of_union elem_of_singleton Hseen elem_of_app list_elem_of_singleton. naive_solver.
    + apply NoDup_app. split_and!; [done| |apply NoDup_singleton]. intros id Hin ->%list_elem_of_singleton.
      apply Hs, Hseen. split; [done|]. apply list_elem_of_In in Hin. apply filter_In in Hin as [Hin _]. by apply list_elem_of_In.
    + intros id. by rewrite !elem_of_app Hids /=.
Qed.

Lemma merge_all_inv vs0 vs st : merge_inv vs0 st → merge_inv (vs0 ++ vs) (fold_left Osv.merge_vuln vs st).
Proof.
  revert vs0 st. induction vs as [|v vs IH]; intros vs0 st Hi; simpl; [by rewrite List.app_nil_r|].
  rewrite (_ : vs0 ++ v :: vs = (vs0 ++ [v]) ++ vs); [by rewrite -List.app_assoc|]. apply IH. by apply merge_vuln_inv.
Qed.

(** ** Properties *)
Section props.
Context (send : nat → Osv.HttpRequest → res ClientErr (Z * string)).
Context (decode : string → res string queryResponse).
Context (marshal_pages : list string → nat → string).
Context `{Unicode} `{FloatText}.
Context (parse_url : string → option (string * string * string)).
Context (marshal_fallback : list Osv.vscodeEcosystemQuery → list string → nat → string).
Implicit Types (c : Osv.Client) (pkg : queryPackage).

Abbreviation query_loop := (Osv.query_loop send decode marshal_pages).
Abbreviation query := (Osv.query send decode marshal_pages).
Abbreviation query_each := (Osv.query_each send decode marshal_pages marshal_fallback).
Abbreviation Assess := (Osv.Assess send decode marshal_pages parse_url marshal_fallback).

(** What the request with a page token is answered: records and the next token. *)
Definition page_at c pkg version (token : string) (vulns : list Vulnerability) (body next : string) : Prop :=
  ∀ n, ∃ status, send n (Osv.request_of c pkg version token) = Ok (status, body) ∧ (status < 400)%Z
    ∧ decode body = Ok (mkQueryResponse vulns next).

(** The pages from [token] on, to the one without a next token. *)
Inductive pages_from c pkg version : string → list (list Vulnerability * string) → Prop :=
| last_page token vulns body : page_at c pkg version token vulns body "" → pages_from c pkg version token [(vulns, body)]
| more_pages token vulns body next rest :
    page_at c pkg version token vulns body next → next ≠ "" → pages_from c pkg version next rest →
    pages_from c pkg version token ((vulns, body) :: rest).

Lemma query_loop_pages c pkg version token ps fuel n all pages :
  pages_from c pkg version token ps → length ps ≤ fuel →
  let vulns := all ++ concat (map fst ps) in
  query_loop fuel n c pkg version token all pages
  = Some (n + length ps, Ok (vulns, marshal_pages (pages ++ map snd ps) (length vulns))).
Proof.
  intros Hp. revert fuel n all pages.
  induction Hp as [token vs body Hpage|token vs body next rest Hpage Hne _ IH]; intros [|fuel] n all pages Hf; simpl in Hf; try lia; simpl;
    destruct (Hpage n) as (status & -> & Hs & ->); rewrite (bool_decide_false (400 <= status)%Z); try lia; simpl.
  - rewrite List.app_nil_r. by rewrite Nat.add_1_r.
  - rewrite bool_decide_false //. rewrite IH; [lia|]. simpl. rewrite -!List.app_assoc /=. do 2 f_equal. lia.
Qed.

(** [C33] The client collects every page: whatever the number of pages of the answer,
the query returns the records of all of them, in order, after one request per
page. *)
Theorem query_all_pages c pkg version ps fuel n :
  pages_from c pkg version "" ps → length ps ≤ fuel →
  query fuel n c pkg version
  = Some (n + length ps, Ok (concat (map fst ps), marshal_pages (map snd ps) (length (concat (map fst ps))))).
Proof. intros Hp Hf. unfold Osv.query. by rewrite (query_loop_pages _ _ _ _ _ _ _ _ _ Hp Hf). Qed.

(** A server that answers a token with the same token keeps the client asking. *)
Lemma repeated_token_diverges c pkg version token vulns body fuel n all pages :
  page_at c pkg version token vulns body token → token ≠ "" →
  query_loop fuel n c pkg version token all pages = None.
Proof.
  intros Hp Hne. revert n all pages. induction fuel as [|fuel IH]; intros n all pages; simpl; [done|].
  destruct (Hp n) as (status & -> & Hs & ->). rewrite bool_decide_false; [lia|]. simpl. rewrite bool_decide_false //.
Qed.

(** The context ends: from the [last]-th request on the transport answers with an
error. *)
Definition context_ends (last : nat) : Prop := ∀ n req, last ≤ n → ∃ e, send n req = Err e.

Lemma query_returns last c pkg version fuel n :
  context_ends last → last < n + fuel → 0 < fuel →
  ∃ n' a, query fuel n c pkg version = Some (n', a) ∧ n ≤ n'.
Proof.
  intros Hc. unfold Osv.query. generalize "" as token. generalize (@nil Vulnerability) as all. generalize (@nil string) as pages.
  revert n. induction fuel as [|fuel IH]; intros n pages all token Hl Hf; [lia|]. simpl.
  destruct (send n _) as [[status body]|e] eqn:Es; [|eexists _, _; split; [done|lia]].
  case_bool_decide; [eexists _, _; split; [done|lia]|]. destruct (decode body) as [parsed|m]; [|eexists _, _; split; [done|lia]].
  case_bool_decide; [eexists _, _; split; [done|lia]|].
  assert (n < last) as Hn.
  { destruct (decide (n < last)); [done|]. destruct (Hc n (Osv.request_of c pkg version token)) as [e He]; [lia|]. congruence. }
  destruct (IH (S n) (pages ++ [body]) (all ++ QR_Vulns parsed) (QR_NextPageToken parsed)) as (n' & a & -> & Hle); [lia..|].
  eexists _, _. split; [done|lia].
Qed.

Lemma query_each_returns last c all queries fuel n st pages :
  context_ends last → last < fuel → ∃ n' a, query_each fuel n c all queries st pages = Some (n', a).
Proof.
  intros Hc Hf. revert n st pages. induction queries as [|q queries IH]; intros n st pages; simpl; [eauto|].
  unfold Osv.QueryByEcosystem.
  destruct (query_returns last c (mkQueryPackage "" (Osv.VQ_Ecosystem q) (Osv.VQ_Name q)) (Osv.VQ_Version q) fuel n Hc) as (n' & a & -> & _);
    [lia..|]. destruct a as [[vulns raw]|[b e]]; [apply IH|eauto].
Qed.

Lemma assessed_spec rd canonical vulns raw :
  assessment_of canonical (map V_ID vulns) (Osv.assessed rd canonical vulns raw).
Proof.
  unfold Osv.assessed, Osv.verdictFromFindings. rewrite (_ : map V_ID vulns = map Find_ID (Osv.vulnsToFindings canonical vulns)).
  { unfold Osv.vulnsToFindings. by rewrite map_map. }
  apply completed_assessment. intros f Hf. apply list_elem_of_In, in_map_iff in Hf as (v & <- & _). done.
Qed.

(** ** What the service says *)

(** The conversation of a query from its [n]-th request on, which asks for [token]: it
ends with the first failure or the page without a next token, and collects the records
of the pages. *)
Inductive conversation c pkg version : nat → string → nat → res ProviderErrorCode (list Vulnerability) → Prop :=
| conv_failed n token code : answered decode ErrTransport (send n (Osv.request_of c pkg version token)) (Err code) →
    conversation c pkg version n token (S n) (Err code)
| conv_last n token vs : answered decode ErrTransport (send n (Osv.request_of c pkg version token)) (Ok (mkQueryResponse vs "")) →
    conversation c pkg version n token (S n) (Ok vs)
| conv_more n token vs next n' vs' :
    answered decode ErrTransport (send n (Osv.request_of c pkg version token)) (Ok (mkQueryResponse vs next)) → next ≠ "" →
    conversation c pkg version (S n) next n' (Ok vs') → conversation c pkg version n token n' (Ok (vs ++ vs'))
| conv_cut n token vs next n' code :
    answered decode ErrTransport (send n (Osv.request_of c pkg version token)) (Ok (mkQueryResponse vs next)) → next ≠ "" →
    conversation c pkg version (S n) next n' (Err code) → conversation c pkg version n token n' (Err code).

(** The registries asked one after the other, from the [n]-th request on: the records of
all, or the first failure. *)
Inductive registries c : nat → list Osv.vscodeEcosystemQuery → res ProviderErrorCode (list Vulnerability) → Prop :=
| none_left n : registries c n [] (Ok [])
| one_answers n q qs n' vs vs' :
    conversation c (mkQueryPackage "" (Osv.VQ_Ecosystem q) (Osv.VQ_Name q)) (Osv.VQ_Version q) n "" n' (Ok vs) →
    registries c n' qs (Ok vs') → registries c n (q :: qs) (Ok (vs ++ vs'))
| one_fails n q qs n' code :
    conversation c (mkQueryPackage "" (Osv.VQ_Ecosystem q) (Osv.VQ_Name q)) (Osv.VQ_Version q) n "" n' (Err code) →
    registries c n (q :: qs) (Err code)
| later_fails n q qs n' vs code :
    conversation c (mkQueryPackage "" (Osv.VQ_Ecosystem q) (Osv.VQ_Name q)) (Osv.VQ_Version q) n "" n' (Ok vs) →
    registries c n' qs (Err code) → registries c n (q :: qs) (Err code).

(** What OSV says of a package: the records it has under the package URL; for a VS Code
extension without any, those of its registries, each id once.  A VS Code URL that names
no registry query is a transport error. *)
Inductive osv_says c (canonical : string) : res ProviderErrorCode (list string) → Prop :=
| by_url n vs : conversation c (mkQueryPackage canonical "" "") "" 0 "" n (Ok vs) →
    (vs ≠ [] ∨ PurlType canonical ≠ Ok "vscode-extension") → osv_says c canonical (Ok (map V_ID vs))
| url_failed n code : conversation c (mkQueryPackage canonical "" "") "" 0 "" n (Err code) → osv_says c canonical (Err code)
| by_registry n queries vs ids : conversation c (mkQueryPackage canonical "" "") "" 0 "" n (Ok []) →
    PurlType canonical = Ok "vscode-extension" → Osv.vscodeExtensionQueries parse_url canonical = Ok queries →
    registries c n queries (Ok vs) →
    (∀ id, id ∈ ids ↔ id ∈ map V_ID vs) → NoDup (List.filter (λ id, negb (bool_decide (id = ""))) ids) →
    osv_says c canonical (Ok ids)
| registry_failed n queries code : conversation c (mkQueryPackage canonical "" "") "" 0 "" n (Ok []) →
    PurlType canonical = Ok "vscode-extension" → Osv.vscodeExtensionQueries parse_url canonical = Ok queries →
    registries c n queries (Err code) → osv_says c canonical (Err code)
| no_registry n e : conversation c (mkQueryPackage canonical "" "") "" 0 "" n (Ok []) →
    PurlType canonical = Ok "vscode-extension" → Osv.vscodeExtensionQueries parse_url canonical = Err e →
    osv_says c canonical (Err ErrTransport).

(** The loop has that conversation. *)
Lemma query_loop_converses c pkg version fuel n token all pages n' a :
  query_loop fuel n c pkg version token all pages = Some (n', a) →
  match a with
  | Err (_, e) => conversation c pkg version n token n' (Err (client_code e))
  | Ok (vs, _) => ∃ vs', vs = all ++ vs' ∧ conversation c pkg version n token n' (Ok vs')
  end.
Proof.
  revert n token all pages. induction fuel as [|fuel IH]; intros n token all pages; simpl; [done|].
  destruct (send n _) as [[status body]|e] eqn:Es; [|intros [= <- <-]; constructor; rewrite Es; apply answered_error].
  case_bool_decide as Hst; [intros [= <- <-]; constructor; rewrite Es; by apply answered_status|].
  assert (status < 400)%Z by lia.
  destruct (decode body) as [[vs next]|m] eqn:Ed; simpl; [|intros [= <- <-]; constructor; rewrite Es; by eapply garbled].
  case_bool_decide as Hn; [subst next; intros [= <- <-]; exists vs; split; [done|]; constructor; rewrite Es; by eapply understood|].
  intros Hq%IH. destruct a as [[vs1 raw]|[b e]].
  - destruct Hq as (vs' & -> & Hc). exists (vs ++ vs'). split; [by rewrite -List.app_assoc|].
    eapply conv_more; [rewrite Es; by eapply understood|done|exact Hc].
  - eapply conv_cut; [rewrite Es; by eapply understood|done|exact Hq].
Qed.

Lemma query_converses c pkg version fuel n n' a :
  query fuel n c pkg version = Some (n', a) →
  conversation c pkg version n "" n' (match a with Err (_, e) => Err (client_code e) | Ok (vs, _) => Ok vs end).
Proof. intros Hq%query_loop_converses. destruct a as [[vs raw]|[b e]]; [by destruct Hq as (? & -> & ?)|done]. Qed.

Lemma query_each_converses c all queries fuel n vs0 st pages n' a :
  merge_inv vs0 st → query_each fuel n c all queries st pages = Some (n', a) →
  match a with
  | Err (_, e) => registries c n queries (Err (client_code e))
  | Ok (vs, _) => ∃ vs' st', registries c n queries (Ok vs') ∧ vs = st'.2 ∧ merge_inv (vs0 ++ vs') st'
  end.
Proof.
  revert n vs0 st pages. induction queries as [|q queries IH]; intros n vs0 st pages Hi; simpl.
  { intros [= <- <-]. exists [], st. rewrite List.app_nil_r. split_and!; [constructor|done..]. }
  unfold Osv.QueryByEcosystem. destruct (query fuel n c _ _) as [[n1 [[vs raw]|[b e]]]|] eqn:Eq; [| |done].
  - apply query_converses in Eq. intros Hr. apply (IH _ (vs0 ++ vs)) in Hr; [|by apply merge_all_inv].
    destruct a as [[vs1 raw1]|[b1 e1]]; [|by eapply later_fails].
    destruct Hr as (vs' & st' & Hr & -> & Hi'). exists (vs ++ vs'), st'. rewrite List.app_assoc.
    split_and!; [by eapply one_answers|done..].
  - apply query_converses in Eq. intros [= <- <-]. by eapply one_fails.
Qed.

Lemma needs_fallback_spec canonical vs :
  if Osv.needs_fallback canonical vs then vs = [] ∧ PurlType canonical = Ok "vscode-extension"
  else vs ≠ [] ∨ PurlType canonical ≠ Ok "vscode-extension".
Proof.
  unfold Osv.needs_fallback. destruct vs as [|v vs]; [|by left]. destruct (PurlType canonical) as [typ|e]; [|by right].
  case_bool_decide; [by subst|right; congruence].
Qed.

Lemma Assess_outcome last c rd artifact fuel :
  context_ends last → last < fuel → ∃ r, Assess fuel c rd artifact = Some r ∧ lookup_outcome (osv_says c) artifact r.
Proof.
  intros Hc Hf. unfold Osv.Assess. destruct (Art_PURL artifact) as [p|] eqn:Ep; last first.
  { eexists. split; [done|]. apply no_purl; [by left|apply error_result_failed]. }
  destruct (CanonicalPurl p) as [canonical|e] eqn:Ec; last first.
  { eexists. split; [done|]. apply no_purl; [right; eauto|apply error_result_failed]. }
  assert (Hdone : ∀ vs raw, osv_says c canonical (Ok (map V_ID vs)) → lookup_outcome (osv_says c) artifact (Osv.assessed rd canonical vs raw)).
  { intros vs raw Hs. eapply completed; [done..|apply assessed_spec]. }
  assert (Hfail : ∀ e, osv_says c canonical (Err (client_code e)) → lookup_outcome (osv_says c) artifact (Osv.mapClientError rd e)).
  { intros e Hs. eapply client_failed; [done..|apply error_result_failed]. }
  unfold Osv.QueryByPURL.
  destruct (query_returns last c (mkQueryPackage canonical "" "") "" fuel 0 Hc) as (n & a & Hq & _); [lia..|].
  rewrite Hq. apply query_converses in Hq. destruct a as [[vs raw]|[b e]]; [|eauto using url_failed].
  pose proof (needs_fallback_spec canonical vs) as Hn. destruct (Osv.needs_fallback canonical vs); [|eauto using by_url].
  destruct Hn as [-> Ht]. unfold Osv.QueryVSCodeExtension.
  destruct (Osv.vscodeExtensionQueries parse_url canonical) as [queries|m] eqn:Ev.
  - destruct (query_each_returns last c queries queries fuel n (∅, []) [] Hc Hf) as (n' & a & He). rewrite He.
    apply (query_each_converses _ _ _ _ _ [] _ _ _ _ merge_inv_nil) in He.
    destruct a as [[vs raw']|[b e]]; [|eauto using registry_failed]. destruct He as (vs' & st' & Hr & -> & _ & Hnd & Hids).
    eexists. split; [done|]. apply Hdone. by eapply by_registry.
  - eexists. split; [done|]. apply Hfail. by eapply no_registry.
Qed.

(** [C32] The OSV provider reports what OSV says, and returns once its context has ended:
the result of [Assess] is a normalization error for an artifact without a readable
package URL; the error result with the code of the failure that ended the conversation
with the server (deadline, transport, HTTP status, undecodable body); or a completed
one with one affected finding per record of the pages served -- for a VS Code extension
with no record of its own, per distinct id its registries have -- that fails the
artifact exactly when there is a record.  Under the built-in policy a submission with
that result is allowed only if OSV answered and has nothing on the artifact. *)
Theorem Assess_sound last c rd artifact fuel :
  context_ends last → last < fuel →
  ∃ r, Assess fuel c rd artifact = Some r ∧ lookup_outcome (osv_says c) artifact r
    ∧ ∀ p sub results rand now now', r ∈ results →
        ∃ d, Example.Evaluate p sub results rand now now' = Ok d
          ∧ (Dec_Decision d = DecisionAllow → ∃ purl canonical, Art_PURL artifact = Some purl ∧ CanonicalPurl purl = Ok canonical
               ∧ osv_says c canonical (Ok []) ∧ assessment_of canonical [] r).
Proof.
  intros Hc Hf. destruct (Assess_outcome last c rd artifact fuel Hc Hf) as (r & Hr & Ho). exists r. split_and!; [done..|].
  intros. by eapply lookup_policy.
Qed.

(** ** The fallback *)
Definition query_pages c fuel (q : Osv.vscodeEcosystemQuery) (ps : list (list Vulnerability * string)) : Prop :=
  pages_from c (mkQueryPackage "" (Osv.VQ_Ecosystem q) (Osv.VQ_Name q)) (Osv.VQ_Version q) "" ps ∧ length ps ≤ fuel.

Lemma query_each_merges c fuel all queries pss n vs0 st pages :
  Forall2 (query_pages c fuel) queries pss → merge_inv vs0 st →
  ∃ n' st' raw, query_each fuel n c all queries st pages = Some (n', Ok (st'.2, raw))
    ∧ merge_inv (vs0 ++ concat (map fst (concat pss))) st'.
Proof.
  intros Hq. revert n vs0 st pages. induction Hq as [|q ps queries pss [Hp Hl] _ IH]; intros n vs0 st pages Hi; simpl.
  { eexists _, st, _. split; [done|]. by rewrite List.app_nil_r. }
  unfold Osv.QueryByEcosystem, Osv.query. rewrite (query_loop_pages _ _ _ _ _ _ _ _ _ Hp Hl). simpl.
  destruct (IH (n + length ps) (vs0 ++ concat (map fst ps)) (fold_left Osv.merge_vuln (concat (map fst ps)) st)
    (pages ++ [marshal_pages (map snd ps) (length (concat (map fst ps)))])) as (n' & st' & raw & Hr & Hi').
  { by apply merge_all_inv. }
  exists n', st', raw. split; [exact Hr|]. by rewrite map_app concat_app List.app_assoc.
Qed.

(** A clean answer of one registry does not hide a hit of the other: the fallback
reports the identifier of every record any of the queried registries has, and each
non-empty identifier once. *)
Theorem fallback_reports_all c queries pss fuel n :
  Forall2 (query_pages c fuel) queries pss →
  ∃ n' merged raw, query_each fuel n c queries queries (∅, []) [] = Some (n', Ok (merged, raw))
    ∧ NoDup (List.filter (λ id, negb (bool_decide (id = ""))) (map V_ID merged))
    ∧ ∀ id, id ∈ map V_ID merged ↔ id ∈ map V_ID (concat (map fst (concat pss))).
Proof.
  intros Hq. destruct (query_each_merges c fuel queries queries pss n [] (∅, []) [] Hq) as (n' & st' & raw & Hr & _ & Hnd & Hids).
  { apply merge_inv_nil. }
  exists n', st'.2, raw. by split_and!.
Qed.
End props.

(** ** Runs *)
Section runs.
#[local] Existing Instance ascii_unicode.
#[local] Instance nan_text : FloatText := {| ParseFloat s := if bool_decide (s = "NaN") then Some f_nan else None |}.

Definition sample_vuln (id : string) (sev : list osvSeverity) : Vulnerability :=
  mkVulnerability id "summary" "" ["CVE-2024-1"; "ghsa-x"; "CWE-79"] [] sev [mkOsvReference "WEB" "https://e.org"; mkOsvReference "WEB" ""] ∅ [].

(** Two pages, then the context ends. *)
Definition two_pages (n : nat) (req : Osv.HttpRequest) : res ClientErr (Z * string) :=
  if bool_decide (5 ≤ n) then Err (DeadlineExceeded "context deadline exceeded")
  else Ok (200%Z, if bool_decide (QR_PageToken (Osv.HQ_Body req) = "") then "p1" else "p2").
Definition two_decode (body : string) : res string queryResponse :=
  if bool_decide (body = "p1") then Ok (mkQueryResponse [sample_vuln "OSV-1" []] "t")
  else Ok (mkQueryResponse [sample_vuln "OSV-2" []] "").
Definition join_pages (l : list string) (n : nat) : string := Join l ",".
Definition sample_client : Osv.Client := Osv.mkClient "" "tok" "".
Definition sample_readings : Readings := mkReadings 1 2 "r" "b".
Definition purl_artifact (p : string) : Artifact := mkArtifact (Some p) ∅ None [] [] ∅ None.
Definition no_url (s : string) : option (string * string * string) := None.

Definition paged (n : nat) (req : Osv.HttpRequest) : res ClientErr (Z * string) :=
  Ok (200%Z, if bool_decide (QR_PageToken (Osv.HQ_Body req) = "") then "p1" else "p2").

Lemma query_all_pages_witness :
  Osv.query paged two_decode join_pages 2 0 sample_client (mkQueryPackage "pkg:npm/a@1" "" "") ""
  = Some (2, Ok ([sample_vuln "OSV-1" []; sample_vuln "OSV-2" []], "p1,p2")).
Proof.
  apply (query_all_pages paged two_decode join_pages sample_client (mkQueryPackage "pkg:npm/a@1" "" "") ""
    [([sample_vuln "OSV-1" []], "p1"); ([sample_vuln "OSV-2" []], "p2")] 2 0).
  - apply (more_pages _ _ _ _ _ _ _ _ "t"); [|discriminate|apply last_page]; intros n; eexists; split_and!; vm_compute; reflexivity.
  - simpl. lia.
Defined.

Lemma Assess_sound_witness :
  ∃ r, Osv.Assess two_pages two_decode join_pages no_url (λ _ l n, Join l ",") 6 sample_client sample_readings (purl_artifact "pkg:npm/a@1") = Some r
    ∧ lookup_outcome (osv_says two_pages two_decode no_url sample_client) (purl_artifact "pkg:npm/a@1") r
    ∧ map Find_ID (Res_Findings r) = ["OSV-1"; "OSV-2"].
Proof.
  destruct (Assess_sound two_pages two_decode join_pages no_url (λ _ l n, Join l ",") 5 sample_client sample_readings
    (purl_artifact "pkg:npm/a@1") 6) as (r & Hr & Ho & _); [|lia|].
  - intros n req Hn. unfold two_pages. rewrite bool_decide_true //. by eexists.
  - exists r. split; [exact Hr|]. split; [exact Ho|]. vm_compute in Hr. injection Hr as <-. vm_compute. reflexivity.
Defined.

Lemma fallback_reports_all_witness :
  let q eco := Osv.mkVscodeQuery eco "a.b" "1" in
  ∃ n merged raw, Osv.query_each paged two_decode join_pages (λ _ l n, Join l ",") 2 0 sample_client
      [q "x"; q "y"] [q "x"; q "y"] (∅, []) [] = Some (n, Ok (merged, raw))
    ∧ ∀ id, id ∈ map V_ID merged ↔ id ∈ ["OSV-1"; "OSV-2"; "OSV-1"; "OSV-2"].
Proof.
  intros q. set (ps := [([sample_vuln "OSV-1" []], "p1"); ([sample_vuln "OSV-2" []], "p2")]).
  assert (∀ eco, query_pages paged two_decode sample_client 2 (q eco) ps) as Hq.
  { intros eco. split; [|simpl; lia]. apply (more_pages _ _ _ _ _ _ _ _ "t"); [|discriminate|apply last_page];
      intros n; eexists; split_and!; reflexivity. }
  destruct (fallback_reports_all paged two_decode join_pages (λ _ l n, Join l ",") sample_client [q "x"; q "y"] [ps; ps] 2 0)
    as (n & merged & raw & Hr & _ & Hids); [constructor; [apply Hq|constructor; [apply Hq|constructor]]|].
  exists n, merged, raw. split; [exact Hr|exact Hids].
Defined.

(** The registries asked for an extension without a repository, one with it, and the
records a score that is not a number makes unstorable. *)
Example vscode_queries :
  Osv.vscodeExtensionQueries no_url "pkg:vscode-extension/checkmarx/ast-results@2.56.0"
  = Ok [Osv.mkVscodeQuery "VSCode:https://open-vsx.org" "checkmarx.ast-results" "2.56.0";
        Osv.mkVscodeQuery "VSCode:https://marketplace.visualstudio.com" "checkmarx.ast-results" "2.56.0"]
  ∧ Osv.vscodeExtensionQueries (λ _, Some ("https", "open-vsx.org", "/")) "pkg:vscode-extension/a/b@1?repository_url=https%3A%2F%2Fopen-vsx.org%2F"
    = Ok [Osv.mkVscodeQuery "VSCode:https://open-vsx.org" "a.b" "1"].
Proof. vm_compute. split; reflexivity. Qed.

Example nan_score_unstorable :
  let r := Osv.assessed sample_readings "pkg:npm/a@1" [sample_vuln "OSV-1" [mkOsvSeverity "CVSS_V3" "NaN"]] "raw" in
  json_ok r = false ∧ Res_Findings (CloneJSON r) = [].
Proof. vm_compute. split; reflexivity. Qed.

Example osv_finding :
  let f := Osv.vulnToFinding "pkg:npm/a@1" (sample_vuln "OSV-1" [mkOsvSeverity "cvss_v3" "CVSS:3.1/AV:N"]) in
  map Id_Scheme (Find_Identifiers f) = ["OSV"; "CVE"; "GHSA"; "OTHER"] ∧ map Cwe_ID (Find_Weaknesses f) = ["CWE-79"]
  ∧ Find_References f = ["https://e.org"] ∧ map Sev_Version (Find_Severity f) = ["3.1"].
Proof. vm_compute. split_and!; reflexivity. Qed.
End runs.
