(* ===== verification/OssIndex.v ===== *)
(** * OSS Index and the stub providers

[extensions/providers/ossindex/{convert,client,provider,auth}.go],
[extensions/providers/stub-osv/provider.go] and
[extensions/providers/stub-secrets/provider.go].  As for OSV, the transport and the
decoder of an answer are arguments. *)
From S2P Require Import Prelude GoString GoFloat GoTime Sha256 Types Purl Matching Store StoreSpec Credentials Gateway.
From S2P Require Import Fingerprint Policy ExamplePolicy Encoding Orchestrator Adapter Osv.

Module OssIndex.
(** ** Records ([client.go]) *)
Record Vulnerability := mkVulnerability {
  OV_ID : string;
  OV_DisplayName : string;
  OV_Title : string;
  OV_Description : string;
  OV_CvssScore : option float64;
  OV_CvssVector : string;
  OV_Cwe : string;
  OV_Cve : string;
  OV_Reference : string;
  OV_ExternalReferences : list string;
}.

Record ComponentReport := mkComponentReport {
  CRp_Coordinates : string;
  CRp_Description : string;
  CRp_Reference : string;
  CRp_Vulnerabilities : list Vulnerability;
}.

Section convert.
Context `{Unicode}.

(** ** Conversion ([convert.go]) *)
Definition cvssVersionFromVector (vector : string) : string :=
  let v := ToUpper (TrimSpace vector) in
  if HasPrefix v "CVSS:4." then "4.0"
  else if HasPrefix v "CVSS:3.1" then "3.1"
  else if HasPrefix v "CVSS:3." then "3.0"
  else if HasPrefix v "CVSS:2." then "2.0" else "".

Definition mapSeverity (v : Vulnerability) : list SeverityObservation :=
  if bool_decide (OV_CvssScore v = None ∧ OV_CvssVector v = "") then []
  else [mkSeverityObservation "CVSS" (cvssVersionFromVector (OV_CvssVector v)) (OV_CvssScore v)
          (from_option cvssLevel "" (OV_CvssScore v)) (OV_CvssVector v) "provider" None].

Definition weaknesses_of (v : Vulnerability) : list CweRef :=
  if bool_decide (OV_Cwe v = "") then []
  else
    let cwe := TrimSpace (OV_Cwe v) in
    match reCWE cwe with
    | Some n => [mkCweRef "CWE" ("CWE-" +:+ n)]
    | None => if HasPrefix (ToUpper cwe) "CWE-" then [mkCweRef "CWE" (ToUpper cwe)] else []
    end.

Definition identifiers_of (v : Vulnerability) : list TypedIdentifier :=
  [mkTypedIdentifier "OSSINDEX" (OV_ID v) RelNone]
  ++ (if bool_decide (OV_Cve v ≠ "") && reCVE (OV_Cve v) then [mkTypedIdentifier "CVE" (ToUpper (OV_Cve v)) RelAlias] else [])
  ++ (if bool_decide (OV_DisplayName v ≠ "" ∧ OV_DisplayName v ≠ OV_ID v ∧ OV_DisplayName v ≠ OV_Cve v)
      then [mkTypedIdentifier "OSSINDEX" (OV_DisplayName v) RelAlias] else []).

Definition vulnToFinding (canonicalPURL : string) (v : Vulnerability) : Finding :=
  let title := if bool_decide (OV_Title v = "") then OV_DisplayName v else OV_Title v in
  let title := if bool_decide (title = "") then OV_ID v else title in
  mkFinding (OV_ID v) "vulnerability" title (OV_Description v) (identifiers_of v)
    [mkArtifactRef (Some canonicalPURL) ∅ None] "" [] (mapSeverity v) (weaknesses_of v)
    (Some (mkAssessment AssessAffected "" ""))
    ((if bool_decide (OV_Reference v = "") then [] else [OV_Reference v]) ++ OV_ExternalReferences v)
    [] None ∅ [] ∅.

Definition vulnsToFindings (canonicalPURL : string) (vulns : list Vulnerability) : list Finding :=
  map (vulnToFinding canonicalPURL) vulns.

Definition verdictFromFindings : list Finding → Verdict := verdict_of "ossindex" "OSS Index".
End convert.

(** ** The client *)
Definition defaultBaseURL : string := "https://ossindex.sonatype.org".
Definition authHelp : string :=
  "create a Guide PAT at https://guide.sonatype.com then run: scintx auth ossindex (or set SCINTX_OSSINDEX_TOKEN for CI)".

Record Client := mkClient { Oc_BaseURL : string; Oc_User : string; Oc_Token : string }.

(** The registered specification ([auth.go]). *)
Definition auth_spec : Credentials.Spec :=
  Credentials.mkSpec "ossindex" "SCINTX_OSSINDEX_TOKEN" "SCINTX_OSSINDEX_USER" "https://guide.sonatype.com"
    "Sonatype Guide PAT for OSS Index (required)".

Definition newClientFromEnv (h : Host) (specs : gmap string Credentials.Spec) (v : Vault) : Client :=
  let base := h_getenv h "SCINTX_OSSINDEX_BASE_URL" in
  let creds := match Get h specs "ossindex" v with
               | Ok r => if bool_decide (PC_Token (Rv_Creds r) ≠ "") then Rv_Creds r else no_creds
               | Err _ => no_creds
               end in
  let u := TrimSpace (h_getenv h "SCINTX_OSSINDEX_USER") in
  mkClient (if bool_decide (base = "") then defaultBaseURL else base)
    (if bool_decide (u ≠ "") then u else PC_User creds) (PC_Token creds).

(** The body is the list of coordinates; [None] is a request without credentials. *)
Record HttpRequest := mkHttpRequest {
  OQ_URL : string;
  OQ_Header : strmap;
  OQ_BasicAuth : option (string * string);
  OQ_Coordinates : list string;
}.

Definition request_of (c : Client) (purl : string) : HttpRequest :=
  let base := if bool_decide (Oc_BaseURL c = "") then defaultBaseURL else Oc_BaseURL c in
  mkHttpRequest (base +:+ "/api/v3/component-report")
    (<["Content-Type" := "application/json"]> {["Accept" := "application/json"]})
    (if bool_decide (Oc_Token c ≠ "")
     then Some (if bool_decide (Oc_User c = "") then "scintx" else Oc_User c, Oc_Token c) else None)
    [purl].

(** The dash of the first text is U+2014. *)
Definition err_text (e : ClientErr) : string :=
  match e with
  | HttpError status body =>
      if bool_decide (status = 401 ∨ status = 403)%Z then "OSS Index auth required " +:+ bytes [226; 128; 148] +:+ " " +:+ authHelp
      else "ossindex http " +:+ fmt_d status +:+ ": " +:+ body
  | DeadlineExceeded msg | OtherErr msg => msg
  end.

Section client.
Context `{Unicode}.
Context (send : HttpRequest → res ClientErr (Z * string)).
Context (decode : string → res string (list ComponentReport)).

Definition QueryByPURL (c : Client) (purl : string) : res (string * ClientErr) (ComponentReport * string) :=
  match send (request_of c purl) with
  | Err e => Err ("", e)
  | Ok (status, body) =>
      if bool_decide (400 <= status)%Z then Err (body, HttpError status (truncate body 200))
      else match decode body with
           | Err m => Err (body, OtherErr ("decode ossindex response: " +:+ m))
           | Ok [] => Ok (mkComponentReport purl "" "" [], body)
           | Ok (report :: _) => Ok (report, body)
           end
  end.

(** ** The provider ([provider.go]) *)
Definition self : ProviderRef := mkProviderRef "ossindex" "1.0.0".

Definition computeDigest : string :=
  "sha256:" +:+ sha256_hex (json_array [json_string "ossindex"; json_string "1.0.0"; json_string "vulnerability:v1"]).

Definition purlTypes : list string := ["pypi"; "npm"; "maven"; "golang"; "cargo"; "gem"; "nuget"; "composer"; "generic"].

Definition Capabilities (now : Time) : ProviderCapabilities :=
  mkProviderCapabilities "1.0.0" self "1" computeDigest now
    [mkCapability "vulnerability" "v1" [mkInputProfile "purl" [mkRequirement ReqPurl purlTypes [] ∅]]
       ["vulnerability"] ["ossindex"] ∅ "" ""] true ∅.

Definition errorResult (rd : Readings) (code : ProviderErrorCode) (msg : string) : ProviderResult :=
  error_result self ["vulnerability:v1"] "" rd code msg.

(** [deadline] tells whether the context itself is past its deadline. *)
Definition error_code (deadline : bool) (e : ClientErr) : ProviderErrorCode :=
  match e with
  | OtherErr _ => if deadline then ErrTimeout else ErrTransport
  | _ => client_code e
  end.

Definition Assess (c : Client) (deadline : bool) (rd : Readings) (artifact : Artifact) : ProviderResult :=
  match Art_PURL artifact with
  | None => errorResult rd ErrNormalization "no purl provided"
  | Some purl =>
      match CanonicalPurl purl with
      | Err e => errorResult rd ErrNormalization ("invalid purl: " +:+ e)
      | Ok canonical =>
          match QueryByPURL c canonical with
          | Err (_, e) => errorResult rd (error_code deadline e) (err_text e)
          | Ok (report, raw) =>
              let findings := vulnsToFindings canonical (CRp_Vulnerabilities report) in
              completed_result self computeDigest "ossindex" "ossindex" rd raw (verdictFromFindings findings) findings
          end
      end
  end.

(** The factory: without a token the provider is skipped. *)
Definition factory (h : Host) (specs : gmap string Credentials.Spec) (v : Vault) : res FactoryErr Client :=
  let client := newClientFromEnv h specs v in
  if bool_decide (Oc_Token client = "")
  then Err (SkipProvider "ossindex skipped: run 'scintx auth ossindex' or set SCINTX_OSSINDEX_TOKEN for CI (https://guide.sonatype.com)")
  else Ok client.
End client.
End OssIndex.

(** ** The stub providers *)
Module Stub.
Record vulnRecord := mkVulnRecord {
  vr_PURL : string;
  vr_ID : string;
  vr_Title : string;
  vr_CVE : string;
  vr_CWE : string;
  vr_CVSSScore : float64;
  vr_CVSSLevel : string;
  vr_CVSSVector : string;
  vr_Description : string;
}.

Definition stubDB : list vulnRecord :=
  [mkVulnRecord "pkg:pypi/requests@2.32.3" "OSV-2026-0001" "SSRF via crafted redirect URL" "CVE-2026-12345" "CWE-918"
     (f_dec 87 1) "high" "CVSS:4.0/AV:N/AC:L/AT:N/PR:N/UI:N/S:U/C:H/I:L/A:L"
     "requests before 2.32.4 does not validate redirect targets against internal addresses.";
   mkVulnRecord "pkg:pypi/requests@2.31.0" "OSV-2026-0002" "Cookie leakage on cross-origin redirect" "CVE-2026-99999" "CWE-200"
     (f_dec 65 1) "medium" "CVSS:4.0/AV:N/AC:L/AT:N/PR:N/UI:R/S:U/C:L/I:L/A:N"
     "requests 2.31.0 leaks session cookies across redirect origins.";
   mkVulnRecord "pkg:npm/left-pad@1.3.0" "OSV-2026-0050" "Prototype pollution in pad function" "CVE-2026-50050" "CWE-1321"
     (f_dec 91 1) "critical" "CVSS:4.0/AV:N/AC:L/AT:N/PR:N/UI:N/S:U/C:H/I:H/A:H"
     "left-pad 1.3.0 allows prototype pollution via crafted input string."].

Section stub.
Context `{Unicode} `{JsonNumbers}.

Definition osv_self : ProviderRef := mkProviderRef "stub-osv" "2026.8".

Definition osv_capability (formats : list string) : Capability :=
  mkCapability "vulnerability" "v1" [mkInputProfile "purl" [mkRequirement ReqPurl ["pypi"; "npm"; "maven"] [] ∅]]
    ["vulnerability"] formats ∅ "" "".

(** The digest is taken of a capability without native formats. *)
Definition osv_digest : string := "sha256:" +:+ sha256_hex (json_array [json_capability (osv_capability [])]).

Definition osv_Capabilities (now : Time) : ProviderCapabilities :=
  mkProviderCapabilities "1.0.0" osv_self "1" osv_digest now [osv_capability ["osv"]] false ∅.

Definition record_finding (canonical : string) (r : vulnRecord) : Finding :=
  mkFinding (vr_ID r) "vulnerability" (vr_Title r) (vr_Description r)
    [mkTypedIdentifier "OSV" (vr_ID r) RelNone; mkTypedIdentifier "CVE" (vr_CVE r) RelAlias]
    [mkArtifactRef (Some canonical) ∅ None] "" []
    [mkSeverityObservation "CVSS" "4.0" (Some (vr_CVSSScore r)) (vr_CVSSLevel r) (vr_CVSSVector r) "provider" None]
    [mkCweRef "CWE" (vr_CWE r)] (Some (mkAssessment AssessAffected "" "")) [] [] None ∅ [] ∅.

(** The records whose canonical URL is [canonical] (the empty string when it cannot
be read). *)
Definition matched (canonical : string) : list vulnRecord :=
  List.filter (λ r, bool_decide (match CanonicalPurl (vr_PURL r) with Ok c => c | Err _ => "" end = canonical)) stubDB.

Definition stub_verdict (findings : list Finding) : Verdict :=
  verdict_of "stub-osv" "applicable" findings.

Definition osv_Assess (rd : Readings) (artifact : Artifact) : ProviderResult :=
  match Art_PURL artifact with
  | None => error_result osv_self ["vulnerability:v1"] osv_digest rd ErrNormalization "no purl provided"
  | Some purl =>
      match CanonicalPurl purl with
      | Err _ => error_result osv_self ["vulnerability:v1"] osv_digest rd ErrNormalization "invalid purl"
      | Ok canonical =>
          let findings := map (record_finding canonical) (matched canonical) in
          let raw := json_object [("matched_count", fmt_d (Z.of_nat (length (matched canonical)))); ("source", json_string "stub-db")] in
          completed_result osv_self osv_digest "raw" "osv" rd raw (stub_verdict findings) findings
      end
  end.

(** [stub-secrets]. *)
Definition secrets_capability : Capability :=
  mkCapability "secrets" "v1"
    [mkInputProfile "content-required" [mkRequirement ReqContent [] [] ∅; mkRequirement ReqDigest [] ["sha256"] ∅]]
    ["secret"] [] ∅ "" "".

Definition secrets_self : ProviderRef := mkProviderRef "stub-secrets" "0.1".
Definition secrets_digest : string := "sha256:" +:+ sha256_hex (json_array [json_capability secrets_capability]).

Definition secrets_Capabilities (now : Time) : ProviderCapabilities :=
  mkProviderCapabilities "1.0.0" secrets_self "1" secrets_digest now [secrets_capability] false ∅.

Definition secrets_Assess (rd : Readings) (artifact : Artifact) : ProviderResult :=
  mkProviderResult ("res_" +:+ rd_result rd) "1.0.0" "" secrets_self ["secrets:v1"] secrets_digest
    (mkExecution ExecutionCompleted (rd_started rd) (rd_finished rd) None)
    (Some (mkVerdict VerdictPass VerdictOriginProvider "stub-secrets.no_secrets_found" None)) [] None None ∅.
End stub.
End Stub.

(** ** Properties *)
Section props.
Context `{Unicode}.
Context (send : OssIndex.HttpRequest → res ClientErr (Z * string)).
Context (decode : string → res string (list OssIndex.ComponentReport)).

(** The answer to the one request: the records of the first report, none when there is
no report. *)
Definition ossindex_says c (deadline : bool) (canonical : string) (x : res ProviderErrorCode (list string)) : Prop :=
  ∃ a, answered decode (if deadline then ErrTimeout else ErrTransport) (send (OssIndex.request_of c canonical)) a
    ∧ x = match a with
          | Err code => Err code
          | Ok reports => Ok (map OssIndex.OV_ID (default [] (OssIndex.CRp_Vulnerabilities <$> head reports)))
          end.

Lemma QueryByPURL_says c deadline canonical :
  ossindex_says c deadline canonical
    match OssIndex.QueryByPURL send decode c canonical with
    | Err (_, e) => Err (OssIndex.error_code deadline e)
    | Ok (report, _) => Ok (map OssIndex.OV_ID (OssIndex.CRp_Vulnerabilities report))
    end.
Proof.
  unfold OssIndex.QueryByPURL, ossindex_says. destruct (send _) as [[status body]|e].
  - case_bool_decide; [eexists; by split; [apply answered_status|]|]. assert (status < 400)%Z by lia.
    destruct (decode body) as [[|report reports]|m] eqn:Ed; (eexists; split; [(by eapply understood) || (by eapply garbled)|]); done.
  - destruct e as [status body|msg|msg]; (eexists; split; [apply answered_http || constructor|done]).
Qed.

Lemma ossindex_outcome c deadline rd artifact :
  lookup_outcome (ossindex_says c deadline) artifact (OssIndex.Assess send decode c deadline rd artifact).
Proof.
  unfold OssIndex.Assess. destruct (Art_PURL artifact) as [p|] eqn:Ep; last first.
  { apply no_purl; [by left|apply error_result_failed]. }
  destruct (CanonicalPurl p) as [canonical|e] eqn:Ec; last first.
  { apply no_purl; [right; eauto|apply error_result_failed]. }
  pose proof (QueryByPURL_says c deadline canonical) as Hs.
  destruct (OssIndex.QueryByPURL send decode c canonical) as [[report raw]|[b e]]; last first.
  { eapply client_failed; [done..|apply error_result_failed]. }
  eapply completed; [done..|]. rewrite (_ : map OssIndex.OV_ID _ = map Find_ID (OssIndex.vulnsToFindings canonical (OssIndex.CRp_Vulnerabilities report))).
  { unfold OssIndex.vulnsToFindings. by rewrite map_map. }
  apply completed_assessment. intros f Hf. by apply list_elem_of_In, in_map_iff in Hf as (v & <- & _).
Qed.

(** The OSS Index provider is only loaded with credentials, sends them with every
request, and never passes an artifact it could not look up: its result is an error
result with the code of what went wrong or a completed one that fails the artifact
exactly when the report lists vulnerabilities; and under the built-in policy a
submission with that result is allowed only if the report was obtained and empty. *)
Theorem ossindex_sound h specs v c deadline rd artifact :
  OssIndex.factory h specs v = Ok c →
  (∀ purl, ∃ user token, OssIndex.OQ_BasicAuth (OssIndex.request_of c purl) = Some (user, token) ∧ user ≠ "" ∧ token ≠ "")
  ∧ let r := OssIndex.Assess send decode c deadline rd artifact in
    lookup_outcome (ossindex_says c deadline) artifact r
    ∧ ∀ p sub results rand now now', r ∈ results →
        ∃ d, Example.Evaluate p sub results rand now now' = Ok d
          ∧ (Dec_Decision d = DecisionAllow → ∃ canonical, ossindex_says c deadline canonical (Ok []) ∧ assessment_of canonical [] r).
Proof.
  unfold OssIndex.factory. case_bool_decide as Ht; [done|]. intros [= <-]. split_and!.
  - intros purl. unfold OssIndex.request_of. cbn [OssIndex.OQ_BasicAuth]. rewrite bool_decide_true //. eexists _, _. split; [done|]. split; [|done]. by case_bool_decide.
  - apply ossindex_outcome.
  - intros. edestruct lookup_policy as (d & Hd & Hallow); [apply ossindex_outcome|done|].
    exists d. split; [exact Hd|]. intros Ha. destruct (Hallow Ha) as (? & canonical & _ & _ & Hs & Hr). by exists canonical.
Qed.

(** The stub provider answers like the real ones. *)
Lemma stub_outcome `{JsonNumbers} rd artifact :
  lookup_outcome (λ canonical x, x = Ok (map Stub.vr_ID (Stub.matched canonical))) artifact (Stub.osv_Assess rd artifact).
Proof.
  unfold Stub.osv_Assess. destruct (Art_PURL artifact) as [p|] eqn:Ep; last first.
  { apply no_purl; [by left|apply error_result_failed]. }
  destruct (CanonicalPurl p) as [canonical|e] eqn:Ec; last first.
  { apply no_purl; [right; eauto|apply error_result_failed]. }
  eapply completed; [done..|]. rewrite (_ : map Stub.vr_ID _ = map Find_ID (map (Stub.record_finding canonical) (Stub.matched canonical))).
  { by rewrite map_map. }
  apply completed_assessment. intros f Hf. by apply list_elem_of_In, in_map_iff in Hf as (v & <- & _).
Qed.
End props.

(** ** Runs *)
Section runs.
#[local] Existing Instance ascii_unicode.
#[local] Instance stub_numbers : JsonNumbers := {| fmt_float _ := "0" |}.

Definition token_host : Host :=
  mkHost (λ k, if bool_decide (k = "SCINTX_OSSINDEX_TOKEN") then " pat " else "") (Err "no home") (λ a b, a +:+ "/" +:+ b)
    None None None None true.
Definition registered_specs : gmap string Credentials.Spec := {["ossindex" := OssIndex.auth_spec]}.
Definition stub_readings : Readings := mkReadings 1 2 "r" "b".
Definition left_pad : Artifact := mkArtifact (Some "pkg:NPM/Left-Pad@1.3.0") ∅ None [] [] ∅ None.

Lemma ossindex_sound_witness :
  ∃ c user, OssIndex.factory token_host registered_specs (mkVault ∅ ∅) = Ok c
    ∧ OssIndex.OQ_BasicAuth (OssIndex.request_of c "pkg:npm/a@1") = Some (user, "pat") ∧ user ≠ "".
Proof.
  destruct (ossindex_sound (λ _, Ok (200%Z, "[]")) (λ _, Ok []) token_host registered_specs (mkVault ∅ ∅)
    (OssIndex.mkClient OssIndex.defaultBaseURL "" "pat") false stub_readings left_pad) as [Hb _]; [vm_compute; reflexivity|].
  destruct (Hb "pkg:npm/a@1") as (user & token & Ha & Hu & _). exists (OssIndex.mkClient OssIndex.defaultBaseURL "" "pat"), user.
  split; [vm_compute; reflexivity|]. split; [|exact Hu]. vm_compute in Ha |- *. congruence.
Defined.

(** VS Code extensions are offered to OSV only, and the demonstration record with a
score over nine is denied by the built-in policy. *)
Example vscode_only_osv :
  let a := mkArtifact (Some "pkg:vscode-extension/a/b@1") ∅ None [] [] ∅ None in
  map (λ c, Compat_Eligible (CapabilityEligible a c)) (Caps_Capabilities (Osv.Osv.Capabilities 0)
    ++ Caps_Capabilities (OssIndex.Capabilities 0)) = [true; false].
Proof. vm_compute. reflexivity. Qed.

Example stub_left_pad :
  let r := Stub.osv_Assess stub_readings left_pad in
  map Find_ID (Res_Findings r) = ["OSV-2026-0050"]
  ∧ Dec_Decision <$> (match Example.Evaluate Example.registered_engine sample_sub [r] "0" 1 2 with Ok d => Some d | Err _ => None end)
    = Some DecisionDeny
  ∧ map (λ r, cvssLevel (Stub.vr_CVSSScore r)) Stub.stubDB = map Stub.vr_CVSSLevel Stub.stubDB.
Proof. vm_compute. split_and!; reflexivity. Qed.
End runs.
