(* ===== verification/Workers.v ===== *)
(** * Worker configuration and the local pool: [internal/workers/dispatcher.go]

[ConfigFromEnv] and the choice of pool; the local pool as a state machine whose
steps are the critical sections of its methods and the moves of its worker
goroutines (a channel is its buffer, the semaphore its length). *)
From S2P Require Import Prelude GoString GoFloat GoTime Types Store.

Inductive PoolErr :=
| ErrBackpressure
| ErrPoolClosed
| TokenUsed
| CtxErr (msg : string)
| QueueErr (e : GoErr).

Definition ModeLocal : string := "local".
Definition ModeQueue : string := "queue".

Record Config := mkConfig {
  Cfg_Mode : string;
  Cfg_MaxInflight : Z;
  Cfg_Workers : Z;
  Cfg_Lease : Duration;
  Cfg_PollInterval : Duration;
  Cfg_MaxPending : Z;
  Cfg_MaxAttempts : Z;
  Cfg_WorkerID : string;
}.

(** ** Configuration *)

(** An optional integer variable that must be at least [lo]. *)
Definition env_int (name raw want : string) (lo : Z) : res string (option Z) :=
  if bool_decide (raw = "") then Ok None
  else match ParseInt raw with
       | Some n => if bool_decide (n < lo)%Z
                   then Err (name +:+ ": want integer >= " +:+ want +:+ ", got " +:+ quoted raw) else Ok (Some n)
       | None => Err (name +:+ ": want integer >= " +:+ want +:+ ", got " +:+ quoted raw)
       end.

(** An optional positive duration; unset is [0]. *)
Definition env_duration (name raw : string) : res string Duration :=
  if bool_decide (raw = "") then Ok 0%Z
  else match ParseDuration raw with
       | Ok d => if bool_decide (d <= 0)%Z
                   then Err (name +:+ ": want positive duration, got " +:+ quoted raw) else Ok d
       | Err _ => Err (name +:+ ": want positive duration, got " +:+ quoted raw)
       end.

(** [numCPU] is [runtime.NumCPU()]. *)
Definition defaultWorkers (numCPU : Z) : Z :=
  let n := wrap64 (numCPU * 2) in
  let n := if bool_decide (n < 4)%Z then 4%Z else n in
  if bool_decide (8 < n)%Z then 8%Z else n.

(** [(MaxInflight, Workers)] from the three size variables. *)
Definition pool_size (numCPU : Z) (maxN workersN queueN : option Z) : Z * Z :=
  if bool_decide (maxN = Some 0%Z) then (0, 0)%Z
  else if bool_decide (workersN = Some 0%Z) && bool_decide (maxN = None) && bool_decide (queueN = None)
  then (0, 0)%Z
  else
    let workers := match workersN with
                   | Some n => if bool_decide (0 < n)%Z then n else defaultWorkers numCPU
                   | None => defaultWorkers numCPU
                   end in
    let '(m, w) :=
      match queueN, maxN with
      | Some q, _ => (wrap64 (workers + q), workers)
      | None, Some m => (m, if bool_decide (m < workers)%Z then m else workers)
      | None, None => (wrap64 (workers + Z.max (wrap64 (workers * 2)) 64), workers)
      end in
    (m, if bool_decide (w < 1)%Z && bool_decide (0 < m)%Z then 1%Z else w).

Definition ConfigFromEnv `{Unicode} (numCPU : Z) (getenv : string → string) : res string Config :=
  let mode := ToLower (TrimSpace (getenv "SCINTX_WORKER_MODE")) in
  let mode := if bool_decide (mode = "") then ModeLocal else mode in
  let? maxN := env_int "SCINTX_MAX_INFLIGHT" (getenv "SCINTX_MAX_INFLIGHT") "0" 0 in
  let? workersN := env_int "SCINTX_WORKERS" (getenv "SCINTX_WORKERS") "0" 0 in
  let? queueN := env_int "SCINTX_JOB_QUEUE_SIZE" (getenv "SCINTX_JOB_QUEUE_SIZE") "0" 0 in
  let '(maxInflight, workers) := pool_size numCPU maxN workersN queueN in
  let? lease := env_duration "SCINTX_JOB_LEASE" (getenv "SCINTX_JOB_LEASE") in
  let? poll := env_duration "SCINTX_JOB_POLL" (getenv "SCINTX_JOB_POLL") in
  let? pending := env_int "SCINTX_MAX_PENDING_JOBS" (getenv "SCINTX_MAX_PENDING_JOBS") "1" 1 in
  let? attempts := env_int "SCINTX_JOB_MAX_ATTEMPTS" (getenv "SCINTX_JOB_MAX_ATTEMPTS") "1" 1 in
  Ok (mkConfig mode maxInflight workers lease poll (default 0%Z pending) (default 0%Z attempts)
        (TrimSpace (getenv "SCINTX_WORKER_ID"))).

Inductive PoolKind := LocalPool | QueuePool.

(** [Open]: which pool a configuration selects; [jobs] tells whether a job queue was
passed. *)
Definition Open `{Unicode} (cfg : Config) (jobs : bool) : res string PoolKind :=
  let mode := ToLower (Cfg_Mode cfg) in
  if bool_decide (mode = ModeLocal) || bool_decide (mode = "") then Ok LocalPool
  else if bool_decide (mode = ModeQueue) then
    if jobs then Ok QueuePool
    else Err "workers: queue mode requires a JobQueue store (sqlite/postgres/memory)"
  else Err ("unknown SCINTX_WORKER_MODE " +:+ quoted (Cfg_Mode cfg) +:+ " (want local|queue)").

(** ** The local pool *)
Inductive WorkerState :=
| WIdle
| WRunning (id : string)
| WExited.

Record admitToken := mkAdmitToken { tok_released : bool; tok_committed : bool }.

Record localPool := mkLocalPool {
  lp_closed : bool;
  lp_unlimited : bool;
  lp_max : nat;
  lp_sem : nat;
  lp_jobs : list string;
  lp_workers : list WorkerState;
  lp_unlim : list string;
  lp_tokens : list admitToken;
  lp_finished : list string;
}.

(** [newLocalPool]; a negative [MaxInflight] panics in [make(chan ...)]. *)
Definition newLocalPool (cfg : Config) : option localPool :=
  if bool_decide (Cfg_MaxInflight cfg = 0)%Z then Some (mkLocalPool false true 0 0 [] [] [] [] [])
  else if bool_decide (Cfg_MaxInflight cfg < 0)%Z then None
  else
    let workers := if bool_decide (Cfg_Workers cfg < 1)%Z then 1%Z else Cfg_Workers cfg in
    let workers := if bool_decide (Cfg_MaxInflight cfg < workers)%Z then Cfg_MaxInflight cfg else workers in
    Some (mkLocalPool false false (Z.to_nat (Cfg_MaxInflight cfg)) 0 []
            (replicate (Z.to_nat workers) WIdle) [] [] []).

Definition set_lp_sem (n : nat) (p : localPool) : localPool :=
  mkLocalPool (lp_closed p) (lp_unlimited p) (lp_max p) n (lp_jobs p) (lp_workers p) (lp_unlim p)
    (lp_tokens p) (lp_finished p).
Definition set_lp_jobs (l : list string) (p : localPool) : localPool :=
  mkLocalPool (lp_closed p) (lp_unlimited p) (lp_max p) (lp_sem p) l (lp_workers p) (lp_unlim p)
    (lp_tokens p) (lp_finished p).
Definition set_lp_workers (l : list WorkerState) (p : localPool) : localPool :=
  mkLocalPool (lp_closed p) (lp_unlimited p) (lp_max p) (lp_sem p) (lp_jobs p) l (lp_unlim p)
    (lp_tokens p) (lp_finished p).
Definition set_lp_unlim (l : list string) (p : localPool) : localPool :=
  mkLocalPool (lp_closed p) (lp_unlimited p) (lp_max p) (lp_sem p) (lp_jobs p) (lp_workers p) l
    (lp_tokens p) (lp_finished p).
Definition set_lp_tokens (l : list admitToken) (p : localPool) : localPool :=
  mkLocalPool (lp_closed p) (lp_unlimited p) (lp_max p) (lp_sem p) (lp_jobs p) (lp_workers p) (lp_unlim p)
    l (lp_finished p).
Definition set_lp_finished (l : list string) (p : localPool) : localPool :=
  mkLocalPool (lp_closed p) (lp_unlimited p) (lp_max p) (lp_sem p) (lp_jobs p) (lp_workers p) (lp_unlim p)
    (lp_tokens p) l.

(** A token is named by its index in [lp_tokens]. *)
Definition Reserve (ctx : option string) (p : localPool) : localPool * res PoolErr nat :=
  match ctx with
  | Some e => (p, Err (CtxErr e))
  | None =>
      if lp_closed p then (p, Err ErrPoolClosed)
      else
        let fresh := set_lp_tokens (lp_tokens p ++ [mkAdmitToken false false]) in
        if lp_unlimited p then (fresh p, Ok (length (lp_tokens p)))
        else if bool_decide (lp_sem p < lp_max p)
        then (set_lp_sem (S (lp_sem p)) (fresh p), Ok (length (lp_tokens p)))
        else (p, Err ErrBackpressure)
  end.

Definition releaseLocked (i : nat) (t : admitToken) (p : localPool) : localPool :=
  if tok_released t || tok_committed t then p
  else
    let p := set_lp_tokens (<[i := mkAdmitToken true (tok_committed t)]> (lp_tokens p)) p in
    if lp_unlimited p then p else set_lp_sem (lp_sem p - 1) p.

Definition Commit (i : nat) (subID : string) (p : localPool) : localPool * res PoolErr () :=
  match lp_tokens p !! i with
  | None => (p, Err TokenUsed)
  | Some t =>
      if tok_released t || tok_committed t then (p, Err TokenUsed)
      else if lp_closed p then (releaseLocked i t p, Err ErrPoolClosed)
      else
        let commit := set_lp_tokens (<[i := mkAdmitToken (tok_released t) true]> (lp_tokens p)) in
        if lp_unlimited p then (set_lp_unlim (lp_unlim p ++ [subID]) (commit p), Ok ())
        else if bool_decide (length (lp_jobs p) < lp_max p)
        then (set_lp_jobs (lp_jobs p ++ [subID]) (commit p), Ok ())
        else (releaseLocked i t p, Err ErrBackpressure)
  end.

Definition Release (i : nat) (p : localPool) : localPool :=
  match lp_tokens p !! i with None => p | Some t => releaseLocked i t p end.

Definition Submit (ctx : option string) (subID : string) (p : localPool) : localPool * res PoolErr () :=
  let r := Reserve ctx p in
  match r.2 with
  | Err e => (r.1, Err e)
  | Ok i =>
      let c := Commit i subID r.1 in
      match c.2 with
      | Err e => (Release i c.1, Err e)
      | Ok _ => (c.1, Ok ())
      end
  end.

Definition Close (p : localPool) : localPool :=
  mkLocalPool true (lp_unlimited p) (lp_max p) (lp_sem p) (lp_jobs p) (lp_workers p) (lp_unlim p)
    (lp_tokens p) (lp_finished p).

(** The moves of a worker goroutine ([loop]): receive a job, or leave when the
channel is closed and empty; return from [process] (with or without error or
panic) and give the semaphore slot back. *)
Definition worker_take (i : nat) (p : localPool) : option localPool :=
  match lp_workers p !! i, lp_jobs p with
  | Some WIdle, id :: jobs => Some (set_lp_workers (<[i := WRunning id]> (lp_workers p)) (set_lp_jobs jobs p))
  | Some WIdle, [] => if lp_closed p then Some (set_lp_workers (<[i := WExited]> (lp_workers p)) p) else None
  | _, _ => None
  end.

(** [<-p.sem] waits for a slot to take. *)
Definition worker_finish (i : nat) (p : localPool) : option localPool :=
  match lp_workers p !! i, lp_sem p with
  | Some (WRunning id), S n =>
      Some (set_lp_finished (lp_finished p ++ [id])
              (set_lp_sem n (set_lp_workers (<[i := WIdle]> (lp_workers p)) p)))
  | _, _ => None
  end.

(** A goroutine of the unlimited mode returns. *)
Definition unlim_finish (k : nat) (p : localPool) : option localPool :=
  match lp_unlim p !! k with
  | Some id => Some (set_lp_finished (lp_finished p ++ [id]) (set_lp_unlim (delete k (lp_unlim p)) p))
  | None => None
  end.

(** One step of the pool: a call of a client or a move of a goroutine. *)
Inductive worker_step (p : localPool) : localPool → Prop :=
| step_take i p' : worker_take i p = Some p' → worker_step p p'
| step_finish i p' : worker_finish i p = Some p' → worker_step p p'
| step_unlim k p' : unlim_finish k p = Some p' → worker_step p p'.

(** The label of a step lists the id it admits, if any. *)
Definition admitted (id : string) (r : res PoolErr ()) : list string :=
  match r with Ok _ => [id] | Err _ => [] end.

Inductive pool_step (p : localPool) : list string → localPool → Prop :=
| step_reserve ctx : pool_step p [] (Reserve ctx p).1
| step_commit i id : pool_step p (admitted id (Commit i id p).2) (Commit i id p).1
| step_release i : pool_step p [] (Release i p)
| step_close : pool_step p [] (Close p)
| step_worker p' : worker_step p p' → pool_step p [] p'.

(** Runs of the pool with the ids they admit, in order. *)
Inductive pool_run (p0 : localPool) : list string → localPool → Prop :=
| run_start : pool_run p0 [] p0
| run_step ids p l p' : pool_run p0 ids p → pool_step p l p' → pool_run p0 (ids ++ l) p'.

(** ** Invariant *)
Definition open_token (t : admitToken) : bool := negb (tok_released t) && negb (tok_committed t).
Definition is_running (s : WorkerState) : bool := match s with WRunning _ => true | _ => false end.

Definition count {A} (f : A → bool) (l : list A) : nat := length (List.filter f l).

Record pool_inv (workers : nat) (p : localPool) : Prop := {
  pi_sem : lp_unlimited p = false →
    lp_sem p = count open_token (lp_tokens p) + length (lp_jobs p) + count is_running (lp_workers p);
  pi_max : lp_sem p ≤ lp_max p;
  pi_workers : length (lp_workers p) = workers;
  pi_exited : WExited ∈ lp_workers p → lp_closed p = true ∧ lp_jobs p = [];
  pi_limited : lp_unlimited p = false → lp_unlim p = [];
  pi_unlimited : lp_unlimited p = true → lp_jobs p = [] ∧ lp_workers p = [];
}.

Lemma count_insert {A} (f : A → bool) l i x y :
  l !! i = Some x →
  count f (<[i := y]> l) + (if f x then 1 else 0) = count f l + (if f y then 1 else 0).
Proof.
  revert i. induction l as [|z l IH]; intros i Hi; [done|]. unfold count in *. destruct i as [|i]; simplify_eq/=.
  - destruct (f x), (f y); simpl; lia.
  - specialize (IH i Hi). destruct (f z); simpl; lia.
Qed.

Lemma count_app {A} (f : A → bool) l k : count f (l ++ k) = count f l + count f k.
Proof. unfold count. by rewrite List.filter_app length_app. Qed.

Lemma count_lookup {A} (f : A → bool) l i x : l !! i = Some x → f x = true → 1 ≤ count f l.
Proof.
  revert i. induction l as [|z l IH]; intros i Hi Hf; [done|]. unfold count in *. destruct i as [|i]; simplify_eq/=.
  - rewrite Hf. simpl. lia.
  - specialize (IH i Hi Hf). destruct (f z); simpl; lia.
Qed.

Ltac pool_fields := constructor; simpl; try done; try (intros; congruence); try (by intros; auto).

Lemma open_token_spec t : open_token t = true ↔ tok_released t = false ∧ tok_committed t = false.
Proof. unfold open_token. destruct (tok_released t), (tok_committed t); naive_solver. Qed.

Section pool.
Context (n : nat).
Implicit Types p : localPool.

Lemma inv_release p i t : lp_tokens p !! i = Some t → pool_inv n p → pool_inv n (releaseLocked i t p).
Proof.
  intros Ht [Hs Hm Hw He Hl Hu]. unfold releaseLocked.
  destruct (tok_released t || tok_committed t) eqn:Er; [done|].
  assert (Ho : open_token t = true) by (by apply open_token_spec, orb_false_iff).
  simpl. destruct (lp_unlimited p) eqn:Eu; pool_fields.
  - pose proof (count_insert open_token _ _ _ (mkAdmitToken true (tok_committed t)) Ht) as Hc.
    rewrite Ho /= in Hc. specialize (Hs eq_refl). lia.
  - lia.
Qed.

Lemma inv_reserve ctx p : pool_inv n p → pool_inv n (Reserve ctx p).1.
Proof.
  intros Hi. unfold Reserve. destruct ctx; [done|]. destruct (lp_closed p) eqn:Ec; [done|].
  destruct Hi as [Hs Hm Hw He Hl Hu]. destruct (lp_unlimited p) eqn:Eu; simpl.
  - pool_fields; congruence.
  - case_bool_decide; pool_fields. intros _. rewrite count_app (Hs eq_refl).
    change (count open_token [_]) with 1. lia.
Qed.

Lemma inv_commit i id p : pool_inv n p → pool_inv n (Commit i id p).1.
Proof.
  intros Hi. unfold Commit. destruct (lp_tokens p !! i) as [t|] eqn:Et; [|done].
  destruct (tok_released t || tok_committed t) eqn:Er; [done|].
  destruct (lp_closed p) eqn:Ec; [by apply inv_release|].
  assert (Ho : open_token t = true) by (by apply open_token_spec, orb_false_iff).
  pose proof (count_insert open_token _ _ _ (mkAdmitToken (tok_released t) true) Et) as Hc.
  rewrite Ho /open_token /= andb_false_r in Hc. fold open_token in Hc.
  destruct (lp_unlimited p) eqn:Eu; simpl.
  - destruct Hi as [Hs Hm Hw He Hl Hu]. pool_fields; congruence.
  - case_bool_decide; simpl; [|by apply inv_release].
    destruct Hi as [Hs Hm Hw He Hl Hu]. specialize (Hs Eu). pool_fields; try congruence.
    + intros _. rewrite length_app /=. unfold open_token in *. lia.
    + intros Hx. destruct (He Hx). congruence.
Qed.

Lemma inv_worker p p' : worker_step p p' → pool_inv n p → pool_inv n p'.
Proof.
  intros Hst [Hs Hm Hw He Hl Hu].
  assert (Hlim : ∀ i x, lp_workers p !! i = Some x → lp_unlimited p = false).
  { intros i x Hx. destruct (lp_unlimited p); [|done]. destruct Hu as [_ Hnil]; [done|]. by rewrite Hnil in Hx. }
  destruct Hst as [i p' Ht|i p' Ht|k p' Ht].
  - unfold worker_take in Ht. destruct (lp_workers p !! i) as [[]|] eqn:Ei; try done.
    pose proof (Hlim _ _ Ei) as Eu. destruct (lp_jobs p) as [|id jobs] eqn:Ej.
    + destruct (lp_closed p) eqn:Ec; [|done]. simplify_eq.
      pose proof (count_insert is_running _ _ _ WExited Ei) as Hc. simpl in Hc. specialize (Hs Eu).
      pool_fields; rewrite ?length_insert ?Eu; try done. intros _. rewrite Ej. simpl in *. lia.
    + simplify_eq. pose proof (count_insert is_running _ _ _ (WRunning id) Ei) as Hc. simpl in Hc.
      specialize (Hs Eu). pool_fields; rewrite ?length_insert ?Eu; try done.
      * intros _. simpl in *. lia.
      * intros Hx. apply list_elem_of_lookup in Hx as [j Hx]. destruct (decide (i = j)) as [<-|Hne].
        -- rewrite list_lookup_insert_eq in Hx; [by eapply lookup_lt_Some|done].
        -- rewrite list_lookup_insert_ne in Hx; [done|]. apply list_elem_of_lookup_2 in Hx.
           destruct (He Hx) as [_ Hnil]. congruence.
  - unfold worker_finish in Ht. destruct (lp_workers p !! i) as [[]|] eqn:Ei; try done.
    pose proof (Hlim _ _ Ei) as Eu. destruct (lp_sem p) as [|m] eqn:Esem; [done|]. simplify_eq.
    pose proof (count_insert is_running _ _ _ WIdle Ei) as Hc. simpl in Hc. specialize (Hs Eu).
    pool_fields; rewrite ?length_insert ?Eu; try done; try lia.
    intros Hx. apply list_elem_of_lookup in Hx as [j Hx]. destruct (decide (i = j)) as [<-|Hne].
    + rewrite list_lookup_insert_eq in Hx; [by eapply lookup_lt_Some|done].
    + rewrite list_lookup_insert_ne in Hx; [done|]. by apply He, list_elem_of_lookup_2 with j.
  - unfold unlim_finish in Ht. destruct (lp_unlim p !! k) eqn:Ek; [|done]. simplify_eq. pool_fields.
    intros Eu. rewrite Hl // in Ek.
Qed.

Lemma inv_step p l p' : pool_step p l p' → pool_inv n p → pool_inv n p'.
Proof.
  intros [ctx|i id|i| |p1 Hw] Hi.
  - by apply inv_reserve.
  - by apply inv_commit.
  - unfold Release. destruct (lp_tokens p !! i) eqn:Et; [by apply inv_release|done].
  - destruct Hi as [Hs Hm Hw He Hl Hu]. pool_fields. intros Hx. by destruct (He Hx).
  - by eapply inv_worker.
Qed.

Lemma inv_run p0 ids p : pool_inv n p0 → pool_run p0 ids p → pool_inv n p.
Proof. intros Hi. induction 1; [done|]. by eapply inv_step. Qed.
End pool.

Definition worker_count (cfg : Config) : nat :=
  if decide (Cfg_MaxInflight cfg = 0)%Z then 0
  else Z.to_nat (Z.min (Cfg_MaxInflight cfg) (Z.max 1 (Cfg_Workers cfg))).

Lemma inv_init cfg p : newLocalPool cfg = Some p → pool_inv (worker_count cfg) p.
Proof.
  unfold newLocalPool, worker_count. case_bool_decide as H0.
  { intros [= <-]. rewrite decide_True //. pool_fields. set_solver. }
  rewrite decide_False //. case_bool_decide as Hneg; [done|]. intros [= <-].
  assert (Hidle : ∀ m, count is_running (replicate m WIdle) = 0 ∧ WExited ∉ replicate m WIdle).
  { induction m as [|m [IH1 IH2]]; simpl; [split; [done|set_solver]|].
    split; [exact IH1|]. rewrite elem_of_cons. naive_solver. }
  pool_fields; try lia.
  - intros _. by rewrite (proj1 (Hidle _)).
  - rewrite length_replicate. f_equal. repeat case_bool_decide; lia.
  - intros Hx. by apply (proj2 (Hidle _)) in Hx.
Qed.

(** The mode and the limit never change. *)
Lemma run_config p0 ids p :
  pool_run p0 ids p → lp_unlimited p = lp_unlimited p0 ∧ lp_max p = lp_max p0.
Proof.
  induction 1 as [|ids p l p' _ [<- <-] Hst]; [done|]. destruct Hst as [ctx|i id|i| |p1 Hw]; simpl.
  - unfold Reserve. repeat case_match; done.
  - unfold Commit, releaseLocked. repeat case_match; done.
  - unfold Release, releaseLocked. repeat case_match; done.
  - done.
  - destruct Hw as [i p' Ht|i p' Ht|k p' Ht];
      [unfold worker_take in Ht|unfold worker_finish in Ht|unfold unlim_finish in Ht];
      repeat case_match; simplify_eq; done.
Qed.

(** [C11] Admission control of the local pool: in every state a pool can reach, for
any interleaving of clients and workers, the semaphore counts exactly the
outstanding tokens, queued and running jobs, never more than [MaxInflight];
no more jobs run than there are workers; and a client holding an unused token of
an open pool always gets its job queued: [Commit] never answers backpressure. *)
Theorem localPool_admission cfg p0 ids p :
  newLocalPool cfg = Some p0 → (0 < Cfg_MaxInflight cfg)%Z → pool_run p0 ids p →
  lp_sem p = count open_token (lp_tokens p) + length (lp_jobs p) + count is_running (lp_workers p)
  ∧ lp_sem p ≤ Z.to_nat (Cfg_MaxInflight cfg)
  ∧ count is_running (lp_workers p) ≤ worker_count cfg
  ∧ ∀ i t id, lp_tokens p !! i = Some t → open_token t = true → lp_closed p = false →
      (Commit i id p).2 = Ok ().
Proof.
  intros Hnew Hpos Hrun.
  assert (Hcfg : lp_unlimited p = false ∧ lp_max p = Z.to_nat (Cfg_MaxInflight cfg)).
  { destruct (run_config _ _ _ Hrun) as [-> ->]. unfold newLocalPool in Hnew.
    rewrite (bool_decide_false (Cfg_MaxInflight cfg = 0)%Z) in Hnew; [lia|].
    rewrite (bool_decide_false (Cfg_MaxInflight cfg < 0)%Z) in Hnew; [lia|]. by simplify_eq. }
  destruct Hcfg as [Eu Em].
  pose proof (inv_run _ _ _ _ (inv_init _ _ Hnew) Hrun) as [Hs Hm Hw _ _ _]. specialize (Hs Eu).
  split_and!; [done|lia| |].
  - rewrite -Hw. unfold count. apply List.filter_length_le.
  - intros i t id Ht Ho Hc. unfold Commit. rewrite Ht.
    pose proof Ho as [-> ->]%open_token_spec. rewrite Hc Eu /=.
    pose proof (count_lookup _ _ _ _ Ht Ho). rewrite bool_decide_true //. lia.
Qed.

(** ** Every admitted job is processed exactly once *)
Definition running_id (s : WorkerState) : option string := match s with WRunning id => Some id | _ => None end.

(** Where an admitted id can be: queued, running, or finished. *)
Definition accounted (p : localPool) : list string :=
  lp_jobs p ++ omap running_id (lp_workers p) ++ lp_unlim p ++ lp_finished p.

Lemma running_insert l i s s' :
  l !! i = Some s →
  option_list (running_id s) ++ omap running_id (<[i := s']> l)
  ≡ₚ option_list (running_id s') ++ omap running_id l.
Proof.
  revert i. induction l as [|x l IH]; intros i Hi; [done|]. destruct i as [|i]; simplify_eq/=.
  - destruct s, s'; simpl; try done. apply perm_swap.
  - specialize (IH i Hi). destruct (running_id x) as [y|]; [|done].
    by rewrite -!Permutation_middle IH.
Qed.

Lemma worker_accounted p p' : worker_step p p' → accounted p' ≡ₚ accounted p.
Proof.
  unfold accounted. intros [i p1 Ht|i p1 Ht|k p1 Ht].
  - unfold worker_take in Ht. destruct (lp_workers p !! i) as [[]|] eqn:Ei; try done.
    destruct (lp_jobs p) as [|id jobs] eqn:Ej.
    + destruct (lp_closed p); [|done]. simplify_eq. simpl. rewrite Ej.
      pose proof (running_insert _ _ _ WExited Ei) as Hp. simpl in Hp. by rewrite Hp.
    + simplify_eq. simpl. pose proof (running_insert _ _ _ (WRunning id) Ei) as Hp. simpl in Hp.
      rewrite Hp /=. by rewrite -Permutation_middle.
  - unfold worker_finish in Ht. destruct (lp_workers p !! i) as [[]|] eqn:Ei; try done.
    destruct (lp_sem p); [done|]. simplify_eq. simpl.
    pose proof (running_insert _ _ _ WIdle Ei) as Hp. simpl in Hp. rewrite -Hp.
    rewrite (assoc_L (++) (lp_unlim p)) -(Permutation_cons_append _ id).
    rewrite -!Permutation_middle. by rewrite (assoc_L (++)).
  - unfold unlim_finish in Ht. destruct (lp_unlim p !! k) as [id|] eqn:Ek; [|done]. simplify_eq. simpl.
    rewrite {2}(delete_Permutation _ _ _ Ek). rewrite (assoc_L (++) (delete k _)) -(Permutation_cons_append _ id).
    by rewrite /= -!Permutation_middle.
Qed.

Lemma release_accounted i t p : accounted (releaseLocked i t p) = accounted p.
Proof. unfold releaseLocked. repeat case_match; done. Qed.

Lemma step_accounted p l p' : pool_step p l p' → accounted p' ≡ₚ accounted p ++ l.
Proof.
  intros [ctx|i id|i| |p1 Hw].
  - rewrite List.app_nil_r. unfold Reserve. repeat case_match; done.
  - unfold Commit. destruct (lp_tokens p !! i) as [t|]; [|by rewrite List.app_nil_r].
    destruct (tok_released t || tok_committed t); [by rewrite List.app_nil_r|].
    destruct (lp_closed p); [by rewrite /= List.app_nil_r release_accounted|].
    destruct (lp_unlimited p); [|case_bool_decide]; simpl; rewrite ?List.app_nil_r ?release_accounted; try done;
      unfold accounted; simpl; solve_Permutation.
  - rewrite List.app_nil_r. unfold Release. case_match; [by rewrite release_accounted|done].
  - by rewrite List.app_nil_r.
  - rewrite List.app_nil_r. by apply worker_accounted.
Qed.

Lemma run_accounted p0 ids p : accounted p0 = [] → pool_run p0 ids p → accounted p ≡ₚ ids.
Proof.
  intros H0. induction 1 as [|ids p l p' _ IH Hst]; [by rewrite H0|]. by rewrite (step_accounted _ _ _ Hst) IH.
Qed.

(** *** Draining *)
Definition worker_weight (s : WorkerState) : nat :=
  match s with WIdle => 1 | WRunning _ => 2 | WExited => 0 end.

Definition drain_measure (p : localPool) : nat :=
  3 * length (lp_jobs p) + sum_list (worker_weight <$> lp_workers p) + length (lp_unlim p).

Lemma weight_insert l i s s' :
  l !! i = Some s →
  sum_list (worker_weight <$> <[i := s']> l) + worker_weight s = sum_list (worker_weight <$> l) + worker_weight s'.
Proof.
  revert i. induction l as [|x l IH]; intros i Hi; [done|]. destruct i as [|i]; simplify_eq/=; [lia|].
  specialize (IH i Hi). lia.
Qed.

Lemma worker_step_measure p p' : worker_step p p' → drain_measure p' < drain_measure p.
Proof.
  unfold drain_measure. intros [i p1 Ht|i p1 Ht|k p1 Ht].
  - unfold worker_take in Ht. destruct (lp_workers p !! i) as [[]|] eqn:Ei; try done.
    destruct (lp_jobs p) as [|id jobs] eqn:Ej.
    + destruct (lp_closed p); [|done]. simplify_eq. simpl. rewrite Ej.
      pose proof (weight_insert _ _ _ WExited Ei) as Hw. simpl in *. lia.
    + simplify_eq. simpl. pose proof (weight_insert _ _ _ (WRunning id) Ei) as Hw. simpl in *. lia.
  - unfold worker_finish in Ht. destruct (lp_workers p !! i) as [[]|] eqn:Ei; try done.
    destruct (lp_sem p); [done|]. simplify_eq. simpl.
    pose proof (weight_insert _ _ _ WIdle Ei) as Hw. simpl in *. lia.
  - unfold unlim_finish in Ht. destruct (lp_unlim p !! k) as [id|] eqn:Ek; [|done]. simplify_eq. simpl.
    rewrite length_delete; [by exists id|]. apply lookup_lt_Some in Ek. lia.
Qed.

(** A closed pool whose goroutines have nothing left to do has drained. *)
Lemma stuck_drained m p :
  pool_inv m p → lp_closed p = true → (lp_unlimited p = true ∨ 0 < m) → (∀ p', ~ worker_step p p') →
  lp_jobs p = [] ∧ omap running_id (lp_workers p) = [] ∧ lp_unlim p = [] ∧ Forall (eq WExited) (lp_workers p).
Proof.
  intros [Hs Hm Hw He Hl Hu] Hc Hpos Hstuck.
  assert (Hex : Forall (eq WExited) (lp_workers p)).
  { apply Forall_lookup. intros i s Hi. destruct s as [|id|]; [exfalso..|done].
    - destruct (lp_jobs p) as [|id jobs] eqn:Ej.
      + eapply Hstuck, (step_take _ i). unfold worker_take. by rewrite Hi Ej Hc.
      + eapply Hstuck, (step_take _ i). unfold worker_take. by rewrite Hi Ej.
    - assert (Eu : lp_unlimited p = false).
      { destruct (lp_unlimited p); [|done]. destruct Hu as [_ Hnil]; [done|]. by rewrite Hnil in Hi. }
      specialize (Hs Eu). pose proof (count_lookup is_running _ _ _ Hi eq_refl).
      destruct (lp_sem p) as [|k] eqn:Esem; [lia|].
      eapply Hstuck, (step_finish _ i). unfold worker_finish. by rewrite Hi Esem. }
  assert (Hun : lp_unlim p = []).
  { destruct (lp_unlim p) as [|id l] eqn:E; [done|]. exfalso.
    eapply Hstuck, (step_unlim _ 0). unfold unlim_finish. by rewrite E. }
  split_and!; try done.
  - destruct Hpos as [Eu|Hpos]; [by apply Hu|]. destruct (lp_workers p) as [|s l] eqn:E; [simpl in Hw; lia|].
    apply Forall_cons in Hex as [<- _]. apply He. left.
  - clear -Hex. induction Hex as [|s l <- _ IH]; simpl; done.
Qed.

(** [C17] Jobs are neither lost nor run twice: in every reachable state the ids
admitted by successful commits are, as a multiset, those queued, running and
finished.  After [Close], workers alone always come to rest (whatever order they
move in), and at rest every admitted job has finished and every worker has
exited: [Wait] returns. *)
Theorem localPool_drains cfg p0 ids p :
  newLocalPool cfg = Some p0 → pool_run p0 ids p →
  accounted p ≡ₚ ids
  ∧ (lp_closed p = true →
       Acc (λ q' q, worker_step q q') p
       ∧ ∀ q, rtc worker_step p q → (∀ q', ~ worker_step q q') →
           lp_finished q ≡ₚ ids ∧ Forall (eq WExited) (lp_workers q)).
Proof.
  intros Hnew Hrun. pose proof (inv_init _ _ Hnew) as Hinv0.
  assert (Hacc0 : accounted p0 = []).
  { assert (Hidle : ∀ m, omap running_id (replicate m WIdle) = []) by (by induction m).
    unfold newLocalPool in Hnew. unfold accounted. case_bool_decide; simplify_eq; [done|].
    case_bool_decide; simplify_eq. simpl. by rewrite Hidle. }
  split; [by apply (run_accounted p0)|]. intros Hc. split.
  { clear. assert (Hwf : ∀ k q, drain_measure q < k → Acc (λ q' q, worker_step q q') q); [|apply (Hwf (S (drain_measure p))); lia].
    induction k as [|k IH]; intros q Hq; [lia|]. constructor. intros q' Hst. apply IH.
    pose proof (worker_step_measure _ _ Hst). lia. }
  intros q Hrtc Hstuck.
  assert (pool_run p0 ids q ∧ lp_closed q = true) as [Hrunq Hcq].
  { clear Hstuck. induction Hrtc as [p|p p1 q Hst _ IH]; [done|]. apply IH.
    - rewrite -(List.app_nil_r ids). eapply run_step; [done|by apply step_worker].
    - destruct Hst as [i p1 Ht|i p1 Ht|k p1 Ht];
        [unfold worker_take in Ht|unfold worker_finish in Ht|unfold unlim_finish in Ht];
        repeat case_match; simplify_eq; done. }
  destruct (stuck_drained (worker_count cfg) q) as (Hj & Hr & Hu & Hex); try done.
  { by eapply inv_run. }
  { destruct (run_config _ _ _ Hrunq) as [-> _]. unfold newLocalPool in Hnew. unfold worker_count.
    case_bool_decide; simplify_eq; [by left|]. right. case_bool_decide; [done|]. rewrite decide_False //. lia. }
  split; [|done]. pose proof (run_accounted _ _ _ Hacc0 Hrunq) as Ha. unfold accounted in Ha.
  by rewrite Hj Hr Hu in Ha.
Qed.

(** ** Configuration is sound *)
Lemma defaultWorkers_bounds numCPU : (4 <= defaultWorkers numCPU <= 8)%Z.
Proof. unfold defaultWorkers. repeat case_bool_decide; lia. Qed.

Lemma wrap64_small z : (- 2^63 <= z < 2^63)%Z → wrap64 z = z.
Proof. intros Hz. unfold wrap64. rewrite Z.mod_small; lia. Qed.

Definition size_ok (mw : Z * Z) : Prop := mw = (0, 0)%Z ∨ (1 <= mw.2 <= mw.1)%Z.

Lemma pool_size_ok numCPU maxN workersN queueN :
  (∀ m, maxN = Some m → (0 <= m)%Z) → (∀ w, workersN = Some w → (0 <= w <= 2^60)%Z) →
  (∀ q, queueN = Some q → (0 <= q <= 2^60)%Z) → size_ok (pool_size numCPU maxN workersN queueN).
Proof.
  intros Hm Hw Hq. unfold pool_size, size_ok. pose proof (defaultWorkers_bounds numCPU) as Hd.
  case_bool_decide as H0; [by left|].
  destruct (bool_decide (workersN = Some 0%Z) && _ && _); [by left|]. right. cbv zeta.
  set (ws := match workersN with Some n => if bool_decide (0 < n)%Z then n else defaultWorkers numCPU
                               | None => defaultWorkers numCPU end).
  assert (Hws : (1 <= ws <= 2^60)%Z).
  { unfold ws. destruct workersN as [n|]; [|lia]. specialize (Hw n eq_refl). case_bool_decide; lia. }
  clearbody ws. destruct queueN as [q|]; [|destruct maxN as [m|]].
  - specialize (Hq q eq_refl). rewrite wrap64_small; [lia|]. rewrite (bool_decide_false (ws < 1)%Z); simpl; lia.
  - specialize (Hm m eq_refl). assert (m ≠ 0)%Z by congruence.
    destruct (bool_decide (m < ws)%Z) eqn:E;
      [apply bool_decide_eq_true in E|apply bool_decide_eq_false in E]; simpl; case_bool_decide; simpl; lia.
  - rewrite (wrap64_small (ws * 2)); [lia|]. rewrite wrap64_small; [lia|].
    rewrite (bool_decide_false (ws < 1)%Z); simpl; lia.
Qed.

Lemma env_int_Ok name raw want lo r :
  env_int name raw want lo = Ok r → ∀ n, r = Some n → ParseInt raw = Some n ∧ (lo <= n)%Z.
Proof.
  unfold env_int. case_bool_decide; [intros [= <-]; done|].
  destruct (ParseInt raw) as [n|]; [|done]. case_bool_decide; [done|]. intros [= <-] k [= <-]. split; [done|lia].
Qed.

(** A configuration read from the environment is either explicitly unlimited
or has between one and [MaxInflight] workers, so the local pool starts; this for
worker and queue sizes up to [2^60], beyond which the machine integers of the
computation may wrap. *)
Theorem ConfigFromEnv_sound `{Unicode} numCPU getenv cfg :
  ConfigFromEnv numCPU getenv = Ok cfg →
  (∀ n, ParseInt (getenv "SCINTX_WORKERS") = Some n → (n <= 2^60)%Z) →
  (∀ n, ParseInt (getenv "SCINTX_JOB_QUEUE_SIZE") = Some n → (n <= 2^60)%Z) →
  (Cfg_MaxInflight cfg = 0 ∧ Cfg_Workers cfg = 0 ∨ 1 <= Cfg_Workers cfg <= Cfg_MaxInflight cfg)%Z
  ∧ is_Some (newLocalPool cfg).
Proof.
  intros Hcfg Hw Hq. unfold ConfigFromEnv in Hcfg. cbv zeta in Hcfg.
  apply res_bind_Ok in Hcfg as (maxN & Em & Hcfg). apply res_bind_Ok in Hcfg as (workersN & Ew & Hcfg).
  apply res_bind_Ok in Hcfg as (queueN & Eq & Hcfg).
  pose proof (pool_size_ok numCPU maxN workersN queueN) as Hs.
  destruct (pool_size numCPU maxN workersN queueN) as [mi ws].
  do 4 apply res_bind_Ok in Hcfg as (? & _ & Hcfg). simplify_eq. simpl.
  assert (Hsize : size_ok (mi, ws)).
  { apply Hs.
    - intros m Hm. by destruct (env_int_Ok _ _ _ _ _ Em m Hm).
    - intros n Hn. destruct (env_int_Ok _ _ _ _ _ Ew n Hn) as [Hp ?]. specialize (Hw n Hp). lia.
    - intros n Hn. destruct (env_int_Ok _ _ _ _ _ Eq n Hn) as [Hp ?]. specialize (Hq n Hp). lia. }
  unfold newLocalPool. simpl. destruct Hsize as [[= -> ->]|Hb]; [by split; [left|]|]. simpl in Hb.
  split; [right; lia|]. rewrite !bool_decide_false; lia || done.
Qed.

(** Beyond that range the sum of workers and queue wraps around: with
[SCINTX_WORKERS] set to the largest integer the environment is accepted, the
limit comes out negative and the pool cannot be created. *)
Theorem ConfigFromEnv_overflow :
  let _ := ascii_unicode in
  ∃ cfg, ConfigFromEnv 4 (λ v, if bool_decide (v = "SCINTX_WORKERS") then "9223372036854775807" else "") = Ok cfg
         ∧ (Cfg_MaxInflight cfg < 0)%Z ∧ newLocalPool cfg = None.
Proof. eexists. split; [vm_compute; reflexivity|]. split; [|vm_compute; reflexivity]. vm_compute. reflexivity. Qed.

Lemma ConfigFromEnv_sound_witness :
  let _ := ascii_unicode in
  ∃ cfg, ConfigFromEnv 4 (λ v, if bool_decide (v = "SCINTX_MAX_INFLIGHT") then "3" else "") = Ok cfg
         ∧ is_Some (newLocalPool cfg).
Proof.
  intros u. eexists. split; [vm_compute; reflexivity|].
  refine (proj2 (ConfigFromEnv_sound 4 (λ v, if bool_decide (v = "SCINTX_MAX_INFLIGHT") then "3" else "") _ _ _ _)).
  - vm_compute. reflexivity.
  - intros n Hn. vm_compute in Hn. discriminate.
  - intros n Hn. vm_compute in Hn. discriminate.
Defined.

Definition small_config : Config := mkConfig "local" 2 1 0 0 0 0 "".

Definition small_pool : localPool := mkLocalPool false false 2 0 [] [WIdle] [] [] [].

Definition one_queued : localPool := (Commit 0 "a" (Reserve None (Reserve None small_pool).1).1).1.
Definition one_running : localPool := default one_queued (worker_take 0 one_queued).

Lemma one_running_run : pool_run small_pool ["a"] one_running.
Proof.
  apply (run_step _ ["a"] one_queued []).
  - apply (run_step _ [] (Reserve None (Reserve None small_pool).1).1 ["a"]).
    + apply (run_step _ [] (Reserve None small_pool).1 []); [apply (run_step _ [] small_pool []); [constructor|]|];
        apply (step_reserve _ None).
    + exact (step_commit (Reserve None (Reserve None small_pool).1).1 0 "a").
  - apply step_worker, (step_take _ 0). reflexivity.
Qed.

(** Two clients fill a pool of two, a worker takes the one committed job, and a
third client is refused. *)
Lemma localPool_admission_witness :
  lp_sem one_running = count open_token (lp_tokens one_running) + length (lp_jobs one_running)
                       + count is_running (lp_workers one_running)
  ∧ (Reserve None one_running).2 = Err ErrBackpressure.
Proof.
  split; [|reflexivity].
  refine (proj1 (localPool_admission small_config small_pool ["a"] one_running _ _ one_running_run)); reflexivity.
Defined.

Lemma localPool_drains_witness : accounted one_running ≡ₚ ["a"].
Proof. refine (proj1 (localPool_drains small_config small_pool ["a"] one_running _ one_running_run)); reflexivity. Defined.
