(* ===== verification/Queue.v ===== *)
(** * The queue pool: [internal/workers/queue.go]

Processes share the job table of the store: a client's token enqueues, worker
loops claim under a lease, run the submission and complete the job.  [Process] is
a parameter of [runClaimed]: whatever it does to the store, heartbeats included,
is the function passed in, which also tells whether it panicked.  The theorems about jobs are on the memory store. *)
From S2P Require Import Prelude GoString GoFloat GoTime Types Store Workers.

Record queuePool := mkQueuePool {
  qp_closed : bool;
  qp_cfg : Config;
  qp_owner : string;
  qp_tokens : list admitToken;
}.

(** The configuration after the defaults of [newQueuePool], and the number of claim
loops it starts. *)
Definition queue_defaults (cfg : Config) : Config * Z :=
  let workers := if bool_decide (Cfg_Workers cfg < 1)%Z then 1%Z else Cfg_Workers cfg in
  let workers := if bool_decide (0 < Cfg_MaxInflight cfg)%Z && bool_decide (Cfg_MaxInflight cfg < workers)%Z
                 then Cfg_MaxInflight cfg else workers in
  let lease := if bool_decide (Cfg_Lease cfg <= 0)%Z then (2 * Minute)%Z else Cfg_Lease cfg in
  let poll := if bool_decide (Cfg_PollInterval cfg <= 0)%Z then 200000000%Z else Cfg_PollInterval cfg in
  let attempts := if bool_decide (Cfg_MaxAttempts cfg < 1)%Z then 8%Z else Cfg_MaxAttempts cfg in
  let pending := if bool_decide (Cfg_MaxPending cfg < 1)%Z
                 then if bool_decide (Cfg_MaxInflight cfg = 0)%Z then 1024%Z
                      else Z.max (wrap64 (Cfg_MaxInflight cfg * 10)) 256
                 else Cfg_MaxPending cfg in
  (mkConfig (Cfg_Mode cfg) (Cfg_MaxInflight cfg) (Cfg_Workers cfg) lease poll pending attempts (Cfg_WorkerID cfg),
   workers).

(** [defaultWorkerID] of the host name, the process id and a random id. *)
Definition defaultWorkerID (host : string) (pid : Z) (rand : string) : string :=
  (if bool_decide (host = "") then "host" else host) +:+ "-" +:+ fmt_d pid +:+ "-" +:+ take_str 8 rand.

(** [hostid] is the worker id [defaultWorkerID] makes. *)
Definition newQueuePool (cfg : Config) (hostid : string) : queuePool :=
  mkQueuePool false (queue_defaults cfg).1
    (if bool_decide (Cfg_WorkerID cfg = "") then hostid else Cfg_WorkerID cfg) [].


Definition set_qp_tokens (l : list admitToken) (p : queuePool) : queuePool :=
  mkQueuePool (qp_closed p) (qp_cfg p) (qp_owner p) l.

Section queue.
Context `{Store ST}.

(** ** The client side *)
Definition QReserve (ctx : option string) (p : queuePool) (s : ST) : queuePool * res PoolErr nat :=
  match ctx with
  | Some e => (p, Err (CtxErr e))
  | None =>
      if qp_closed p then (p, Err ErrPoolClosed)
      else match (PendingJobCount s).2 with
           | Err e => (p, Err (QueueErr e))
           | Ok n =>
               if bool_decide (Cfg_MaxPending (qp_cfg p) <= n)%Z then (p, Err ErrBackpressure)
               else (set_qp_tokens (qp_tokens p ++ [mkAdmitToken false false]) p, Ok (length (qp_tokens p)))
           end
  end.

Definition QCommit (now : Time) (i : nat) (subID : string) (p : queuePool) (s : ST)
  : queuePool * ST * res PoolErr () :=
  match qp_tokens p !! i with
  | None => (p, s, Err TokenUsed)
  | Some t =>
      if tok_released t || tok_committed t then (p, s, Err TokenUsed)
      else if qp_closed p then
        (set_qp_tokens (<[i := mkAdmitToken true (tok_committed t)]> (qp_tokens p)) p, s, Err ErrPoolClosed)
      else
        let r := EnqueueJob now subID s in
        match r.2 with
        | Err e => (p, r.1, Err (QueueErr e))
        | Ok _ => (set_qp_tokens (<[i := mkAdmitToken (tok_released t) true]> (qp_tokens p)) p, r.1, Ok ())
        end
  end.

Definition QRelease (i : nat) (p : queuePool) : queuePool :=
  match qp_tokens p !! i with
  | None => p
  | Some t => if tok_released t || tok_committed t then p
              else set_qp_tokens (<[i := mkAdmitToken true (tok_committed t)]> (qp_tokens p)) p
  end.

Definition QSubmit (ctx : option string) (now : Time) (subID : string) (p : queuePool) (s : ST)
  : queuePool * ST * res PoolErr () :=
  let r := QReserve ctx p s in
  match r.2 with
  | Err e => (r.1, s, Err e)
  | Ok i =>
      let c := QCommit now i subID r.1 s in
      match c.2 with
      | Err e => (QRelease i c.1.1, c.1.2, Err e)
      | Ok _ => c
      end
  end.

Definition QClose (p : queuePool) : queuePool := mkQueuePool true (qp_cfg p) (qp_owner p) (qp_tokens p).

(** ** The worker side *)

(** A tick of the heartbeat goroutine: the lease is extended, or the context of the
run is cancelled ([true]). *)
Definition heartbeat (cfg : Config) (now : Time) (subID owner : string) (s : ST) : ST * bool :=
  let r := HeartbeatJob now subID owner (Cfg_Lease cfg) s in
  (r.1, match r.2 with Ok true => false | _ => true end).

(** What became of a claimed job. *)
Inductive JobOutcome := JobDropped | JobExhausted | JobRan | JobPanicked.

(** [process s] is the store after the run and [true] when it panicked: the deferred
[recover] then leaves the job to the expiry of its lease. *)
Definition runClaimed (cfg : Config) (now : Time) (process : ST → ST * bool) (owner subID : string) (attempts : Z)
    (s : ST) : ST * JobOutcome :=
  let finish s := (CompleteJob subID owner s).1 in
  match (GetSubmission subID s).2 with
  | Err _ | Ok None => (finish s, JobDropped)
  | Ok (Some sub) =>
      if bool_decide (Sub_Status sub = SubmissionCompleted) || bool_decide (Sub_Status sub = SubmissionFailed)
      then (finish s, JobDropped)
      else if bool_decide (Cfg_MaxAttempts cfg < attempts)%Z then
        let sub := set_Sub_CompletedAt (Some now)
                     (set_Sub_CompletionReason (Some CompletionFailed) (set_Sub_Status SubmissionFailed sub)) in
        (finish (PutSubmission (Some sub) s).1, JobExhausted)
      else
        let f := process s in
        if f.2 then (f.1, JobPanicked) else (finish f.1, JobRan)
  end.



End queue.

(** ** Properties on the memory store *)
Section properties.
Context `{GoMaps}.
Implicit Types s : MemoryStore.

(** The store once job [id] is done. *)
Definition job_done (id : string) s : MemoryStore := set_ms_jobs (delete id (ms_jobs s)) s.

(** The holder of a lease completes its job. *)
Lemma complete_own id owner t s : holds id owner t s → (Mem.CompleteJob id owner s).1 = job_done id s.
Proof.
  intros (j & Hj & _ & Ho & _). unfold Mem.CompleteJob. rewrite Hj.
  rewrite (bool_decide_false (Job_LeaseOwner j ≠ owner)); [by intros Hn; apply Hn|]. by rewrite andb_false_r.
Qed.

(** Nobody completes the job of another. *)
Lemma complete_other id owner owner' t s :
  owner ≠ "" → owner' ≠ owner → holds id owner' t s → (Mem.CompleteJob id owner s).1 = s.
Proof.
  intros Hne Ho' (j & Hj & Hl & Ho & _). unfold Mem.CompleteJob. rewrite Hj.
  by rewrite !bool_decide_true // Ho.
Qed.

(** A submission a worker may still run. *)
Definition unsettled (sub : Submission) : Prop :=
  Sub_Status sub ≠ SubmissionCompleted ∧ Sub_Status sub ≠ SubmissionFailed.

(** A submission given up after too many claims. *)
Definition exhausted (now : Time) (sub : Submission) : Submission :=
  set_Sub_CompletedAt (Some now) (set_Sub_CompletionReason (Some CompletionFailed) (set_Sub_Status SubmissionFailed sub)).

Lemma exhausted_stable now sub : stable sub → stable (exhausted now sub).
Proof. destruct sub. intros [Hok Hvis]. split; [done|]. simpl in *. injection Hvis as Hvis. by rewrite Hvis. Qed.

Lemma settled_spec sub :
  if bool_decide (Sub_Status sub = SubmissionCompleted) || bool_decide (Sub_Status sub = SubmissionFailed)
  then ¬ unsettled sub else unsettled sub.
Proof. unfold unsettled. repeat case_bool_decide; simpl; naive_solver. Qed.

(** [C21] What a worker does with a job whose lease it holds, exactly: the job of a
submission that is gone or already completed or failed is removed without running
anything; one claimed more than [MaxAttempts] times has its submission marked failed
and is removed; the job of any other submission is run, once, and what is left of the
run is its store with the job removed -- or that store itself when another worker got
hold of the job meanwhile, or when the run panicked, in which case the lease stays for
another worker to reclaim. *)
Theorem runClaimed_completes cfg now process owner id attempts t s :
  store_wf s → owner ≠ "" → holds id owner t s →
  let r := runClaimed cfg now process owner id attempts s in
  match r.2 with
  | JobDropped => (∀ sub, ms_submissions s !! id = Some sub → ¬ unsettled sub) ∧ r.1 = job_done id s
  | JobExhausted => ∃ sub, ms_submissions s !! id = Some sub ∧ unsettled sub ∧ (Cfg_MaxAttempts cfg < attempts)%Z
      ∧ r.1 = job_done id (set_ms_submissions (<[id := exhausted now sub]> (ms_submissions s)) s)
  | JobRan => ∃ sub s', ms_submissions s !! id = Some sub ∧ unsettled sub ∧ (attempts <= Cfg_MaxAttempts cfg)%Z
      ∧ process s = (s', false)
      ∧ (holds id owner t s' → r.1 = job_done id s')
      ∧ (∀ owner', owner' ≠ owner → holds id owner' t s' → r.1 = s')
  | JobPanicked => ∃ sub, ms_submissions s !! id = Some sub ∧ unsettled sub ∧ (attempts <= Cfg_MaxAttempts cfg)%Z
      ∧ process s = (r.1, true)
  end.
Proof.
  intros Hwf Hne Hh r. subst r. unfold runClaimed. simpl. unfold lookup_clone.
  destruct (ms_submissions s !! id) as [sub|] eqn:El; simpl; [|by rewrite (complete_own _ _ _ _ Hh)].
  destruct (wf_submissions _ Hwf _ _ El) as [Hid Hstab]. rewrite (stable_clone sub) //.
  pose proof (settled_spec sub) as Hset. destruct (bool_decide _ || bool_decide _); simpl.
  { rewrite (complete_own _ _ _ _ Hh). split; [|done]. by intros ? [= <-]. }
  case_bool_decide as Ha; simpl.
  - exists sub. split_and!; [done..|]. fold (exhausted now sub). rewrite (stable_clone (exhausted now sub)); [by apply exhausted_stable|].
    rewrite Hid. by apply (complete_own _ _ t).
  - destruct (process s) as [s' [|]]; simpl; exists sub; [split_and!; [done..|lia|done]|]. exists s'.
    split_and!; [done..|lia|done| |]; [apply complete_own|intros owner'; by apply complete_other].
Qed.






(** The ids of the pending jobs, of those created by [t0], and of the jobs of [jobs']
that are not in [jobs]. *)
Definition pending (jobs : gmap string memJob) : gset string :=
  dom (filter (λ kj, Job_Status kj.2 = jobPending) jobs).








Section loop.
Context (p : queuePool) (n : nat) (t0 T : Time).





Implicit Types jobs : gmap string memJob.














End loop.

(** What [POST /v1/submissions/{id}/resume] does to the store: claim the deferred
submission and enqueue it. *)
Definition resume_now (now : Time) (id : string) s : MemoryStore :=
  (Mem.EnqueueJob now id (Mem.ClaimResume id s).1).1.

(** [C31] A resume can lose its job: whenever a deferred submission is resumed
before the worker that deferred it has completed its job, the enqueue of the
resume is absorbed by the leased job and the completion then removes that one;
the submission is left running with no job in the queue. *)
Theorem resume_race_loses_job cfg now now' process owner id attempts t sub s :
  let r := runClaimed cfg now (λ s, (resume_now now' id (process s), false)) owner id attempts s in
  r.2 = JobRan → holds id owner t (process s) →
  ms_submissions (process s) !! id = Some sub → Sub_Status sub = SubmissionDeferred →
  ms_jobs r.1 !! id = None ∧ Sub_Status <$> ms_submissions r.1 !! id = Some SubmissionRunning.
Proof.
  intros r Hr Hh Hsub Hst.
  assert (Hres : holds id owner t (resume_now now' id (process s))
            ∧ ms_submissions (resume_now now' id (process s)) !! id = Some (set_Sub_Status SubmissionRunning sub)).
  { destruct Hh as (j & Hj & Hl & Ho & Ht). unfold resume_now, Mem.ClaimResume, Mem.EnqueueJob.
    rewrite Hsub Hst /=. case_bool_decide; simpl.
    - rewrite lookup_insert_eq. split; [by exists j|done].
    - rewrite Hj Hl /=. rewrite lookup_insert_eq. split; [by exists j|done]. }
  destruct Hres as [Hh' Hs']. pose proof (complete_own _ _ _ _ Hh') as Hc.
  subst r. revert Hr. unfold runClaimed. simpl. repeat case_match; simpl; try done. intros _.
  rewrite Hc /= lookup_delete_eq. by rewrite Hs'.
Qed.

(** The defaults of queue mode are usable: at least one claim loop, a positive
lease and poll interval, at least one attempt, and room for at least one pending
job. *)
Theorem queue_defaults_sound cfg :
  let '(c, workers) := queue_defaults cfg in
  (1 <= workers)%Z ∧ (0 < Cfg_Lease c)%Z ∧ (0 < Cfg_PollInterval c)%Z
  ∧ (1 <= Cfg_MaxAttempts c)%Z ∧ (1 <= Cfg_MaxPending c)%Z
  ∧ ((0 < Cfg_MaxInflight cfg)%Z → (workers <= Cfg_MaxInflight cfg)%Z).
Proof.
  unfold queue_defaults, Minute, Second. simpl.
  split_and!; repeat case_bool_decide; simpl; lia.
Qed.
End properties.

(** ** Runs *)
Section queue_runs.
#[local] Existing Instance sorted_maps.

Definition one_slot : queuePool :=
  newQueuePool (mkConfig "queue" 1 1 0 0 1 0 "w") "".

(** In queue mode a token reserves nothing: with room for one pending job two
clients can both reserve and then both commit, leaving two pending jobs. *)
Theorem queue_tokens_not_reserved :
  let s := NewMemoryStore in
  let '(p1, r1) := QReserve None one_slot s in
  let '(p2, r2) := QReserve None p1 s in
  let '(p3, s3, c1) := QCommit 1 0 "a" p2 s in
  let '(p4, s4, c2) := QCommit 2 1 "b" p3 s3 in
  r1 = Ok 0 ∧ r2 = Ok 1 ∧ c1 = Ok () ∧ c2 = Ok () ∧ (PendingJobCount s4).2 = Ok 2%Z
  ∧ Cfg_MaxPending (qp_cfg p4) = 1%Z.
Proof. vm_compute. split_and!; reflexivity. Qed.

Lemma resume_race_loses_job_witness :
  let s := exec_all [OpPutSubmission (Some (sample_submission "a" SubmissionAccepted));
                     OpEnqueueJob 1 "a"; OpClaimJob 2 "w1" 60] NewMemoryStore in
  let defers s := (PutSubmission (Some (sample_submission "a" SubmissionDeferred)) s).1 in
  let s' := (runClaimed (qp_cfg one_slot) 3 (λ s, (resume_now 4 "a" (defers s), false)) "w1" "a" 1 s).1 in
  (ms_jobs s' !! "a" = None ∧ Sub_Status <$> ms_submissions s' !! "a" = Some SubmissionRunning)
  ∧ (PendingJobCount s').2 = Ok 0%Z ∧ (ClaimJob 1000000000000 "w2" 60 s').2 = Ok None.
Proof.
  intros s defers s'. split; [|vm_compute; split; reflexivity].
  refine (resume_race_loses_job (qp_cfg one_slot) 3 4 defers "w1" "a" 1 62
            (sample_submission "a" SubmissionDeferred) s _ _ _ _); try (vm_compute; reflexivity).
  eexists. split; [vm_compute; reflexivity|]. simpl. split_and!; [done..|lia].
Defined.

Lemma runClaimed_completes_witness :
  let s := exec_all [OpPutSubmission (Some (sample_submission "a" SubmissionAccepted));
                     OpEnqueueJob 1 "a"; OpClaimJob 2 "w1" 60] NewMemoryStore in
  let s' := (PutSubmission (Some (sample_submission "a" SubmissionCompleted)) s).1 in
  let process s := ((PutSubmission (Some (sample_submission "a" SubmissionCompleted)) s).1, false) in
  let r := runClaimed (qp_cfg one_slot) 3 process "w1" "a" 1 s in
  r = (job_done "a" s', JobRan) ∧ ms_jobs r.1 = ∅.
Proof.
  intros s s' process r.
  assert (Hh : ∀ x, ms_jobs x = ms_jobs s → holds "a" "w1" 62 x).
  { intros x Hx. unfold holds. rewrite Hx. eexists. split; [vm_compute; reflexivity|]. simpl. split_and!; [done..|lia]. }
  pose proof (runClaimed_completes (qp_cfg one_slot) 3 process "w1" "a" 1 62 s
                (exec_all_wf _ _ NewMemoryStore_wf) ltac:(discriminate) (Hh s eq_refl)) as Hc.
  cbv zeta in Hc. fold r in Hc. assert (Hr : r.2 = JobRan) by (vm_compute; reflexivity). rewrite Hr in Hc.
  destruct Hc as (sub & s1 & _ & _ & _ & [= <-] & Hdone & _). specialize (Hdone (Hh _ eq_refl)).
  split; [by rewrite (surjective_pairing r) Hr Hdone|vm_compute; reflexivity].
Defined.





End queue_runs.
