(* ===== verification/Server.v ===== *)
(** * The HTTP server: [internal/server/server.go]

Each handler is a function from the state of the server - the orchestrator's world
and the worker pool behind the [Dispatcher] interface - and its decoded request to
the new state and the response.  What [encoding/json] makes of a request body is an
input (a value or the error text); numbers it decodes are finite.  The theorems are
against the interfaces of the store and of the pool. *)
From S2P Require Import Prelude GoString GoFloat GoTime Sha256 Types Purl Matching Store StoreSpec Gateway Fingerprint Policy.
From S2P Require Import Sql Orchestrator Workers Queue.

(** ** The pool behind its interface ([workers.Dispatcher], [workers.AdmitToken]) *)
Class Dispatcher (D ST : Type) := {
  DReserve : option string → D → ST → D * res PoolErr nat;
  DCommit : Time → nat → string → D → ST → D * ST * res PoolErr ();
  DRelease : nat → D → D;
  DSubmit : option string → Time → string → D → ST → D * ST * res PoolErr ();
  DClose : D → D;
}.

#[export] Instance Local_Dispatcher {ST} : Dispatcher localPool ST := {|
  DReserve ctx p _ := Reserve ctx p;
  DCommit _ i id p s := let r := Commit i id p in (r.1, s, r.2);
  DRelease := Release;
  DSubmit ctx _ id p s := let r := Submit ctx id p in (r.1, s, r.2);
  DClose := Close;
|}.

#[export] Instance Queue_Dispatcher `{Store ST} : Dispatcher queuePool ST := {|
  DReserve := QReserve;
  DCommit := QCommit;
  DRelease := QRelease;
  DSubmit := QSubmit;
  DClose := QClose;
|}.

Definition pool_err_string (e : PoolErr) : string :=
  match e with
  | ErrBackpressure => "job queue at capacity"
  | ErrPoolClosed => "worker pool closed"
  | TokenUsed => "admit token already used"
  | CtxErr m => m
  | QueueErr e => err_string e
  end.

(** ** Responses *)
Record providerSummary := mkProviderSummary {
  PSum_ID : string;
  PSum_Name : string;
  PSum_Capabilities : list string;
}.

(** The discovery document; its [webhook] object as pairs. *)
Record WellKnownDoc := mkWellKnownDoc {
  WK_Standard : string;
  WK_Version : string;
  WK_Endpoints : list string;
  WK_AuthProfiles : list string;
  WK_EventTypes : list string;
  WK_Webhook : list (string * string);
}.

Inductive Body :=
| BNone
| BSubmission (s : Submission)
| BResults (l : list ProviderResult)
| BMerged (m : MergedResult)
| BResult (r : ProviderResult)
| BDecision (d : PolicyDecision)
| BProviders (l : list providerSummary)
| BCapabilities (c : ProviderCapabilities)
| BArtifactRef (a : ArtifactRef)
| BWellKnown (d : WellKnownDoc)
| BEvents (l : list CloudEvent)
| BProblem (p : ProblemDetails).

Record Response := mkResponse {
  rs_status : Z;
  rs_headers : list (string * string);
  rs_body : Body;
}.

Definition writeJSON (status : Z) (v : Body) : Response :=
  mkResponse status [("Content-Type", "application/json")] v.

Definition writeProblem (status : Z) (title detail : string) : Response :=
  mkResponse status [("Content-Type", "application/problem+json")]
    (BProblem (mkProblemDetails ("https://scintx.example/problems/" +:+ title) title status detail "")).

Definition add_header (k v : string) (r : Response) : Response :=
  mkResponse (rs_status r) ((k, v) :: rs_headers r) (rs_body r).

Definition writeBackpressure (detail : string) : Response :=
  add_header "Retry-After" "2" (writeProblem 429 "capacity_exceeded" detail).

(** How the handlers answer an error of the pool. *)
Definition dispatch_problem (e : PoolErr) (busy : string) : Response :=
  match e with
  | ErrBackpressure => writeBackpressure busy
  | ErrPoolClosed | CtxErr _ => writeProblem 503 "shutting_down" "server is shutting down; retry later"
  | TokenUsed | QueueErr _ => writeProblem 500 "dispatch_error" (pool_err_string e)
  end.

Definition store_problem (e : GoErr) : Response := writeProblem 500 "store_error" (err_string e).

(** ** Configuration *)
Definition defaultMaxArtifactBody : Z := 2 ^ 30.

Definition maxArtifactBodyBytes (getenv : string → string) : Z :=
  let raw := TrimSpace (getenv "SCINTX_MAX_ARTIFACT_BYTES") in
  if bool_decide (raw = "") then defaultMaxArtifactBody
  else match ParseInt raw with
       | Some n => if bool_decide (n <= 0)%Z then defaultMaxArtifactBody else n
       | None => defaultMaxArtifactBody
       end.

(** ** Routes *)
Inductive Endpoint :=
| CreateSubmission | GetSubmissionE (id : string) | ListResults (id : string) | GetMerged (id : string)
| ResumeSubmission (id : string) | AdjudicateSubmission (id : string) | GetResultE (id : string)
| GetDecisionE (id : string) | ListProviders | GetProviderCapabilities (id : string) | UploadArtifact
| CheckArtifact (digest : string) | WellKnown | ListEvents.

(** The patterns registered on the mux, over the segments of a clean path, with the
endpoint of the segment a wildcard matches. *)
Inductive Segment := Lit (s : string) | Wild.

Definition Routes : list (string * list Segment * (string → Endpoint)) :=
  [("POST", [Lit "v1"; Lit "submissions"], λ _, CreateSubmission);
   ("GET", [Lit "v1"; Lit "submissions"; Wild], GetSubmissionE);
   ("GET", [Lit "v1"; Lit "submissions"; Wild; Lit "results"], ListResults);
   ("GET", [Lit "v1"; Lit "submissions"; Wild; Lit "merged"], GetMerged);
   ("POST", [Lit "v1"; Lit "submissions"; Wild; Lit "resume"], ResumeSubmission);
   ("POST", [Lit "v1"; Lit "submissions"; Wild; Lit "adjudicate"], AdjudicateSubmission);
   ("GET", [Lit "v1"; Lit "results"; Wild], GetResultE);
   ("GET", [Lit "v1"; Lit "decisions"; Wild], GetDecisionE);
   ("GET", [Lit "v1"; Lit "providers"], λ _, ListProviders);
   ("GET", [Lit "v1"; Lit "providers"; Wild; Lit "capabilities"], GetProviderCapabilities);
   ("POST", [Lit "v1"; Lit "artifacts"], λ _, UploadArtifact);
   ("HEAD", [Lit "v1"; Lit "artifacts"; Wild], CheckArtifact);
   ("GET", [Lit "v1"; Lit ".well-known"; Lit "scintx"], λ _, WellKnown);
   ("GET", [Lit "v1"; Lit "events"], λ _, ListEvents)].

(** Whether the segments match, and the one under the wildcard. *)
Fixpoint match_segments (pat : list Segment) (segs : list string) (wild : string) : option string :=
  match pat, segs with
  | [], [] => Some wild
  | Lit l :: pat, s :: segs => if bool_decide (l = s) then match_segments pat segs wild else None
  | Wild :: pat, s :: segs => match_segments pat segs s
  | _, _ => None
  end.

(** A [GET] pattern also serves [HEAD]; no two patterns match the same request. *)
Fixpoint route_in (l : list (string * list Segment * (string → Endpoint))) (method : string) (segs : list string)
  : option Endpoint :=
  match l with
  | [] => None
  | (m, pat, e) :: l =>
      match match_segments pat segs "" with
      | Some w => if bool_decide (method = m ∨ (m = "GET" ∧ method = "HEAD")) then Some (e w) else route_in l method segs
      | None => route_in l method segs
      end
  end.

Definition route : string → list string → option Endpoint := route_in Routes.

Section handlers.
Context `{Store ST} `{ResultCache C} `{Env} `{Unicode} `{JsonNumbers} `{!Dispatcher D ST}.
Context (o : Orchestrator).

(** [rootCtx] is cancelled by [Shutdown]; [None] is a server without a pool. *)
Record Server := mkServer {
  sv_world : World ST C;
  sv_dispatcher : option D;
  sv_cancelled : bool;
  sv_drained : bool;
}.

Definition set_store (s : ST) (w : World ST C) : World ST C :=
  mkWorld s (w_emitter w) (w_delivered w) (w_cache w) (w_tick w).

Definition set_world (w : World ST C) (sv : Server) : Server :=
  mkServer w (sv_dispatcher sv) (sv_cancelled sv) (sv_drained sv).

Definition set_pool (d : D) (sv : Server) : Server :=
  mkServer (sv_world sv) (Some d) (sv_cancelled sv) (sv_drained sv).

(** A call of the store that only reads. *)
Definition ask {A} (m : StoreM ST A) (sv : Server) : res GoErr A := (m (w_store (sv_world sv))).2.

(** [WaitWorkers] and the last part of [Shutdown]: [waited] tells whether the workers
finished before the context ended with the error given. *)
Inductive WaitOutcome := Waited | CtxDone (e : string).

(** [Shutdown]: [http] is the error of stopping the listener. *)
Definition Shutdown (http : option string) (outcome : WaitOutcome) (sv : Server) : Server * option string :=
  match sv_dispatcher sv with
  | None => (mkServer (sv_world sv) None true true, http)
  | Some d =>
      let d := DClose d in
      match outcome with
      | Waited => (mkServer (sv_world sv) (Some d) true true, http)
      | CtxDone e => (mkServer (sv_world sv) (Some d) true false, match http with Some h => Some h | None => Some e end)
      end
  end.

Definition WaitWorkers (outcome : WaitOutcome) (sv : Server) : Server * option string :=
  match sv_dispatcher sv, outcome with
  | None, _ | Some _, Waited => (mkServer (sv_world sv) (sv_dispatcher sv) (sv_cancelled sv) true, None)
  | Some _, CtxDone e => (sv, Some e)
  end.

(** ** Submissions *)
Record createSubmissionRequest := mkCreateSubmissionRequest {
  Req_SchemaVersion : string;
  Req_Artifact : Artifact;
  Req_RequestedCapabilities : list string;
  Req_PolicyRef : option string;
}.

(** The checks on a decoded request: the request with its defaults and canonical
purl, or the problem. *)
Definition check_request (req : createSubmissionRequest) : res Response createSubmissionRequest :=
  let version := if bool_decide (Req_SchemaVersion req = "") then "1.0.0" else Req_SchemaVersion req in
  let a := Req_Artifact req in
  if negb (is_given (Art_PURL a)) && negb (is_full (Art_Digests a)) && negb (is_given (Art_ContentRef a))
  then Err (writeProblem 422 "invalid_artifact" "artifact must have at least one of purl, digests, or content_ref+digests")
  else if is_given (Art_ContentRef a) && negb (is_full (Art_Digests a))
  then Err (writeProblem 422 "invalid_artifact" "content_ref without digests is not allowed in v1")
  else match Art_PURL a with
       | None => Ok (mkCreateSubmissionRequest version a (Req_RequestedCapabilities req) (Req_PolicyRef req))
       | Some p =>
           match CanonicalPurl p with
           | Err e => Err (writeProblem 422 "invalid_purl" e)
           | Ok cp => Ok (mkCreateSubmissionRequest version (set_Art_PURL (Some cp) a) (Req_RequestedCapabilities req)
                            (Req_PolicyRef req))
           end
       end.

Definition new_submission (rand : string) (now : Time) (req : createSubmissionRequest) : Submission :=
  mkSubmission ("sub_" +:+ rand) (Req_SchemaVersion req) (Req_Artifact req) (Req_RequestedCapabilities req) ∅
    (Req_PolicyRef req) SubmissionAccepted None now None [] None None ∅.

Definition request_fingerprint (req : createSubmissionRequest) : string :=
  RequestFingerprint (Req_SchemaVersion req) (Req_Artifact req) (Req_RequestedCapabilities req) (Req_PolicyRef req).

Definition accepted_response (sub : Submission) : Response :=
  add_header "Location" ("/v1/submissions/" +:+ Sub_ID sub) (writeJSON 202 (BSubmission sub)).

(** From the reserved token [tok] on.  Every return but the last releases the token
(the deferred function). *)
Definition create_reserved (tok : nat) (d : D) (key : string) (req : createSubmissionRequest) (sub : Submission)
    (sv : Server) : Server * Response :=
  let w := sv_world sv in
  let p := PutSubmissionIdempotent key (request_fingerprint req) (Some sub) (w_store w) in
  let w := set_store p.1 w in
  let refuse (d : D) (w : World ST C) (r : Response) := (set_pool (DRelease tok d) (set_world w sv), r) in
  match p.2 with
  | Err ErrIdempotencyConflict =>
      refuse d w (writeProblem 409 "idempotency_conflict" "Idempotency-Key reused with a different request body")
  | Err e => refuse d w (store_problem e)
  | Ok (None, _) => refuse d w (mkResponse 0 [] BNone)
  | Ok (Some accepted, false) => refuse d w (accepted_response accepted)
  | Ok (Some accepted, true) =>
      let c := DCommit (clock (w_tick w)) tok (Sub_ID accepted) d (w_store w) in
      let w := tick (set_store c.1.2 w) in
      match c.2 with
      | Err e =>
          let w := set_store (AbandonSubmission (Sub_ID accepted) key (w_store w)).1 w in
          refuse c.1.1 w (dispatch_problem e "worker pool at capacity; retry later")
      | Ok _ => (set_pool c.1.1 (set_world w sv), accepted_response accepted)
      end
  end.

(** [ctx] is the error of the request's context when the pool looks at it. *)
Definition createSubmission (ctx : option string) (body : res string createSubmissionRequest) (key : string)
    (sv : Server) : Server * Response :=
  match body with
  | Err e => (sv, writeProblem 400 "invalid_request" e)
  | Ok req =>
      match check_request req with
      | Err r => (sv, r)
      | Ok req =>
          let w := sv_world sv in
          let sub := new_submission (rand_hex (w_tick w)) (clock (S (w_tick w))) req in
          let sv := set_world (tick (tick w)) sv in
          match sv_dispatcher sv with
          | None => (sv, writeProblem 500 "dispatch_error" "worker pool not configured")
          | Some d =>
              let r := DReserve ctx d (w_store w) in
              match r.2 with
              | Err e => (set_pool r.1 sv, dispatch_problem e "worker pool at capacity; retry later")
              | Ok tok => create_reserved tok r.1 key req sub sv
              end
          end
      end
  end.

Definition not_found (what : string) : Response := writeProblem 404 "not_found" what.

(** A getter: the value, 404 or 500. *)
Definition answer {A} (r : res GoErr (option A)) (missing : string) (body : A → Body) : Response :=
  match r with
  | Err e => store_problem e
  | Ok None => not_found missing
  | Ok (Some x) => writeJSON 200 (body x)
  end.

Definition getSubmission (id : string) (sv : Server) : Response :=
  answer (ask (GetSubmission id) sv) "submission not found" BSubmission.

Definition listSubmissionResults (id : string) (sv : Server) : Response :=
  match ask (GetSubmission id) sv with
  | Err e => store_problem e
  | Ok None => not_found "submission not found"
  | Ok (Some _) =>
      match ask (GetResultsForSubmission id) sv with
      | Err e => store_problem e
      | Ok l => writeJSON 200 (BResults l)
      end
  end.

Definition getMergedResult (id : string) (sv : Server) : Response :=
  match ask (GetSubmission id) sv with
  | Err e => store_problem e
  | Ok None => not_found "submission not found"
  | Ok (Some _) =>
      answer (ask (GetMergedResultForSubmission id) sv)
        ("no merged result for submission " +:+ id +:+ "; aggregation may not be enabled or no findings were returned")
        BMerged
  end.

Definition getResult (id : string) (sv : Server) : Response :=
  answer (ask (GetResult id) sv) "result not found" BResult.

Definition getDecision (id : string) (sv : Server) : Response :=
  answer (ask (GetDecision id) sv) "decision not found" BDecision.

(** The world with the result of an orchestrator call. *)
Definition run_world {A} (m : GoM GoErr (World ST C) A) (sv : Server) : Server * res GoErr A :=
  let r := m (sv_world sv) in (set_world r.1 sv, r.2).

Definition resumeSubmission (ctx : option string) (id : string) (sv : Server) : Server * Response :=
  let m := run_world (MarkForResume id) sv in
  match m.2 with
  | Err e => (m.1, writeProblem 409 "resume_failed" (err_string e))
  | Ok _ =>
      let sv := m.1 in
      match sv_dispatcher sv with
      | None => ((run_world (UnmarkResume id) sv).1, writeProblem 500 "dispatch_error" "worker pool not configured")
      | Some d =>
          let w := sv_world sv in
          let c := DSubmit ctx (clock (w_tick w)) id d (w_store w) in
          let sv := set_pool c.1.1 (set_world (tick (set_store c.1.2 w)) sv) in
          match c.2 with
          | Err e =>
              ((run_world (UnmarkResume id) sv).1,
               dispatch_problem e "worker pool at capacity; retry resume later")
          | Ok _ =>
              (sv, match ask (GetSubmission id) sv with
                   | Ok (Some sub) => writeJSON 202 (BSubmission sub)
                   | _ => writeProblem 500 "store_error" "resume enqueued but submission missing"
                   end)
          end
      end
  end.

Definition adjudicate_problem (e : GoErr) : Response :=
  match e with
  | ErrAdjudicateNotFound => not_found (err_string e)
  | ErrAdjudicateInvalidDecision => writeProblem 422 "invalid_adjudication" (err_string e)
  | ErrAdjudicateInvalidState _ => writeProblem 409 "adjudicate_conflict" (err_string e)
  | _ => writeProblem 500 "adjudicate_error" (err_string e)
  end.

Definition adjudicateSubmission (id : string) (body : res string AdjudicateRequest) (sv : Server) : Server * Response :=
  match body with
  | Err e => (sv, writeProblem 400 "invalid_request" e)
  | Ok req =>
      let r := run_world (Adjudicate o id req) sv in
      (r.1, match r.2 with Ok (dec, _) => writeJSON 201 (BDecision dec) | Err e => adjudicate_problem e end)
  end.

(** ** Providers *)
Definition listProviders (sv : Server) : Response :=
  match ask Providers sv with
  | Err e => store_problem e
  | Ok l => writeJSON 200 (BProviders (map (λ p, mkProviderSummary (PE_ID p) (PE_Name p)
              (map (λ c, Cap_ID c +:+ ":" +:+ Cap_Version c) (Caps_Capabilities (PE_Capabilities p)))) l))
  end.

Definition getProviderCapabilities (id : string) (sv : Server) : Response :=
  answer (ask (GetCapabilities id) sv) "provider not found" BCapabilities.

(** ** Artifacts *)

(** The content sent: [io.ReadAll] of it, or the error of the connection. *)
Definition uploadArtifact (limit : Z) (content : res string string) (contentType : string) (sv : Server)
  : Server * Response :=
  match content with
  | Err e => (sv, writeProblem 400 "invalid_request" ("failed to read artifact body: " +:+ e))
  | Ok body =>
      if bool_decide (limit < Z.of_nat (String.length body))%Z
      then (sv, writeProblem 413 "artifact_too_large" ("artifact exceeds max size of " +:+ fmt_d limit +:+ " bytes"))
      else
        let h := sha256_hex body in
        let digest := "sha256:" +:+ h in
        let r := PutArtifact digest body (w_store (sv_world sv)) in
        let sv := set_world (set_store r.1 (sv_world sv)) sv in
        match r.2 with
        | Err e => (sv, store_problem e)
        | Ok _ =>
            let ref := mkResourceReference (BlobURN digest) contentType {["sha256" := h]} "" "" "" ∅ in
            (sv, writeJSON 201 (BArtifactRef (mkArtifactRef None {["sha256" := h]} (Some ref))))
        end
  end.

Definition checkArtifact (digest : string) (sv : Server) : Response :=
  match ask (HasArtifact digest) sv with
  | Err e => store_problem e
  | Ok true => mkResponse 200 [] BNone
  | Ok false => mkResponse 404 [] BNone
  end.

(** ** Discovery and events *)
Definition wellKnown (profiles : option (list string)) : Response :=
  writeJSON 200 (BWellKnown (mkWellKnownDoc "scintx" "1.0.0"
    ["/v1/submissions"; "/v1/results"; "/v1/decisions"; "/v1/providers"; "/v1/artifacts"; "/v1/events"]
    (default [] profiles)
    ["submission.created"; "submission.completed"; "policy-decision.created";
     "policy-decision.resolved"; "provider.invocation.started"; "provider.result.completed"]
    [("content_type", "application/cloudevents+json"); ("digest", "Content-Digest (RFC 9530 sha-256)");
     ("signature", "X-Scintx-Signature t=<unix>,v1=<hmac-sha256-hex>")])).

Definition listEvents (subject : string) (sv : Server) : Response :=
  match ask Events sv with
  | Err e => store_problem e
  | Ok events =>
      let events := if bool_decide (subject = "") then events
                    else List.filter (λ e, bool_decide (Evt_Subject e = subject)) events in
      writeJSON 200 (BEvents events)
  end.
End handlers.
#[global] Arguments Server : clear implicits.
#[global] Arguments mkServer {ST C D}.
#[global] Arguments sv_world {ST C D}.
#[global] Arguments sv_dispatcher {ST C D}.
#[global] Arguments sv_cancelled {ST C D}.
#[global] Arguments sv_drained {ST C D}.

(** ** What the server relies on from a pool *)

(** A pool has open slots (tokens reserved and not yet used); a reservation opens
one or is refused without a trace; a commit on an open token admits the job and
closes the slot, or fails without touching what the store shows, and the release
that follows closes the slot. *)
Class DispatcherLaws (D ST : Type) `{!Dispatcher D ST} `{StoreLaws ST} := {
  open_slots : D → nat;
  token_open : nat → D → Prop;
  has_job : string → D → ST → Prop;
  DReserve_law : ∀ ctx d s, valid s → let r := DReserve ctx d s in
    match r.2 with Ok i => token_open i r.1 ∧ open_slots r.1 = S (open_slots d) | Err _ => r.1 = d end;
  DCommit_law : ∀ now i id d s, valid s → token_open i d → let r := DCommit now i id d s in
    valid r.1.2 ∧ match r.2 with
      | Ok _ => open_slots d = S (open_slots r.1.1) ∧ has_job id r.1.1 r.1.2
                ∧ without_jobs (view r.1.2) = without_jobs (view s)
      | Err _ => view r.1.2 = view s ∧ open_slots d = S (open_slots (DRelease (ST := ST) i r.1.1))
      end;
  DRelease_law : ∀ i d, token_open i d → open_slots d = S (open_slots (DRelease (ST := ST) i d));
  DSubmit_law : ∀ ctx now id d s, DSubmit ctx now id d s =
    let r := DReserve ctx d s in
    match r.2 with
    | Err e => (r.1, s, Err e)
    | Ok i => let c := DCommit now i id r.1 s in
              match c.2 with Err e => (DRelease (ST := ST) i c.1.1, c.1.2, Err e) | Ok _ => c end
    end;
}.

Section pools.
Context `{StoreLaws ST}.

Definition open_at (i : nat) (l : list admitToken) : Prop := ∃ t, l !! i = Some t ∧ open_token t = true.

Lemma open_fresh (l : list admitToken) :
  open_at (length l) (l ++ [mkAdmitToken false false]) ∧ count open_token (l ++ [mkAdmitToken false false]) = S (count open_token l).
Proof.
  split; [|rewrite count_app; unfold count; simpl; lia].
  exists (mkAdmitToken false false). split; [|done]. by rewrite lookup_app_r // Nat.sub_diag.
Qed.

Lemma close_token l i t t' :
  l !! i = Some t → open_token t = true → open_token t' = false →
  count open_token l = S (count open_token (<[i := t']> l)).
Proof. intros Hl Ht Ht'. pose proof (count_insert open_token l i t t' Hl) as Hc. rewrite Ht Ht' in Hc. lia. Qed.

Lemma release_local i t p :
  lp_tokens p !! i = Some t → open_token t = true →
  count open_token (lp_tokens p) = S (count open_token (lp_tokens (releaseLocked i t p))).
Proof.
  intros Hl Ht. unfold releaseLocked. pose proof Ht as [-> ->]%open_token_spec. simpl.
  assert (lp_tokens (if lp_unlimited p then set_lp_tokens (<[i := mkAdmitToken true false]> (lp_tokens p)) p
     else set_lp_sem (lp_sem p - 1) (set_lp_tokens (<[i := mkAdmitToken true false]> (lp_tokens p)) p))
     = <[i := mkAdmitToken true false]> (lp_tokens p)) as -> by (by destruct (lp_unlimited p)).
  by apply (close_token _ _ t).
Qed.

(** A second release changes nothing. *)
Lemma release_again i t p :
  lp_tokens p !! i = Some t → lp_tokens (Release i (releaseLocked i t p)) = lp_tokens (releaseLocked i t p).
Proof.
  intros Hl. unfold releaseLocked. destruct (tok_released t || tok_committed t) eqn:E.
  - unfold Release. rewrite Hl. unfold releaseLocked. by rewrite E.
  - unfold Release. assert (Hlt := lookup_lt_Some _ _ _ Hl).
    assert (lp_tokens (if lp_unlimited p then set_lp_tokens (<[i := mkAdmitToken true (tok_committed t)]> (lp_tokens p)) p
       else set_lp_sem (lp_sem p - 1) (set_lp_tokens (<[i := mkAdmitToken true (tok_committed t)]> (lp_tokens p)) p))
       !! i = Some (mkAdmitToken true (tok_committed t))) as Hi
      by (destruct (lp_unlimited p); by apply list_lookup_insert_eq).
    simpl in *. by rewrite Hi.
Qed.

#[export] Instance Local_laws : DispatcherLaws localPool ST.
Proof.
  refine {| open_slots p := count open_token (lp_tokens p);
            token_open i p := open_at i (lp_tokens p);
            has_job id p _ := id ∈ lp_jobs p ++ lp_unlim p |}; cbv zeta.
  - intros ctx p s _. simpl. unfold Reserve. destruct ctx; [done|]. destruct (lp_closed p); [done|].
    pose proof (open_fresh (lp_tokens p)). destruct (lp_unlimited p); [done|]. by case_bool_decide.
  - intros now i id p s Hv (t & Hl & Ht). simpl. split; [done|]. unfold Commit. rewrite Hl.
    pose proof Ht as [Hr Hc]%open_token_spec. rewrite Hr Hc /=.
    pose proof (close_token _ _ _ (mkAdmitToken false true) Hl Ht eq_refl) as Hcl.
    pose proof (release_local i t p Hl Ht) as Hrl. rewrite -(release_again i t p Hl) in Hrl.
    destruct (lp_closed p); [done|]. destruct (lp_unlimited p); simpl; [split_and!; [done| |done]; set_solver|].
    case_bool_decide; simpl; [split_and!; [done| |done]; set_solver|done].
  - intros i p (t & Hl & Ht). simpl. unfold Release. rewrite Hl. by apply release_local.
  - intros ctx now id p s. simpl. unfold Submit. destruct (Reserve ctx p) as [p1 [i|e]]; simpl; [|done].
    by destruct (Commit i id p1) as [p2 [[]|e]].
Defined.

#[export] Instance Queue_laws : DispatcherLaws queuePool ST.
Proof.
  refine {| open_slots p := count open_token (qp_tokens p);
            token_open i p := open_at i (qp_tokens p);
            has_job id _ s := id ∈ v_jobs (view s) |}; cbv zeta.
  - intros ctx p s _. simpl. unfold QReserve. destruct ctx; [done|]. destruct (qp_closed p); [done|].
    pose proof (open_fresh (qp_tokens p)). destruct (PendingJobCount s).2; [|done]. by case_bool_decide.
  - intros now i id p s Hv (t & Hl & Ht). simpl. unfold QCommit. rewrite Hl.
    pose proof Ht as [Hr Hc]%open_token_spec. rewrite Hr Hc /=.
    pose proof (close_token _ _ _ (mkAdmitToken false true) Hl Ht eq_refl) as Hcl.
    pose proof (close_token _ _ _ (mkAdmitToken true false) Hl Ht eq_refl) as Hrl.
    destruct (qp_closed p); simpl.
    { split_and!; [done..|]. unfold QRelease. simpl. 
      rewrite list_lookup_insert_eq; [by eapply lookup_lt_Some|]. done. }
    destruct (EnqueueJob_law s now id Hv) as (Hv' & Hok & Hview).
    destruct (EnqueueJob now id s) as [s' [[]|e]]; simpl in *.
    + split; [done|]. split; [done|]. symmetry in Hok. apply bool_decide_eq_true in Hok. rewrite Hview.
      rewrite (bool_decide_false (id = "")) //. split; [set_solver|done].
    + symmetry in Hok. apply bool_decide_eq_false, dec_stable in Hok as ->. split_and!; [done| |].
      * rewrite Hview. by destruct (view s).
      * unfold QRelease. rewrite Hl Hr Hc. exact Hrl.
  - intros i p (t & Hl & Ht). simpl. unfold QRelease. rewrite Hl. pose proof Ht as [-> ->]%open_token_spec. simpl.
    by apply (close_token _ _ t).
  - done.
Defined.
End pools.

(** ** The handlers against the interfaces *)
Section spec.
Context `{StoreLaws ST} `{ResultCache C} `{Env} `{Unicode} `{JsonNumbers} `{!Dispatcher D ST} `{!DispatcherLaws D ST}.
Implicit Types (sv : Server ST C D).

Definition sview sv : StoreView := view (w_store (sv_world sv)).
Definition svalid sv : Prop := valid (w_store (sv_world sv)).
Definition slots sv : option nat := open_slots <$> sv_dispatcher sv.

(** The id the server draws next is not in use. *)
Definition fresh_id sv : Prop :=
  let id := "sub_" +:+ rand_hex (w_tick (sv_world sv)) in v_submissions (sview sv) !! id = None ∧ id ∉ v_jobs (sview sv).

Lemma check_request_ok req req' :
  check_request req = Ok req' → artifact_ok (Req_Artifact req) = true →
  artifact_ok (Req_Artifact req') = true.
Proof.
  unfold check_request. intros Hc Hok. repeat case_match; simplify_eq; simpl; done.
Qed.

Lemma new_submission_ok rand now req :
  artifact_ok (Req_Artifact req) = true → json_ok (new_submission rand now req) = true.
Proof. intros Hok. simpl. by rewrite Hok. Qed.

Lemma request_fingerprint_nonempty req : request_fingerprint req ≠ "".
Proof. apply sha256_nonempty. Qed.

(** Abandoning the submission just stored restores the store. *)
Lemma abandon_undoes key h sub v :
  v_bound key v = None → v_submissions v !! Sub_ID sub = None → Sub_ID sub ∉ v_jobs v →
  v_abandon (Sub_ID sub) key (v_bind key (Sub_ID sub) h (v_put_submission sub v)) = v.
Proof.
  intros Hb Hs Hj. unfold v_abandon, v_bind, v_bound in *. destruct (bool_decide (key = "")) eqn:Hk; simpl.
  - apply view_ext; simpl; try done; [by rewrite delete_insert_id|set_solver].
  - rewrite lookup_insert_eq /= bool_decide_true //.
    apply view_ext; simpl; try done; [by rewrite delete_insert_id..|set_solver].
Qed.

(** The pool and the token after the reservation. *)
Definition reserved (ctx : option string) sv (d : D) (tok : nat) : Prop :=
  ∃ d0, sv_dispatcher sv = Some d0 ∧ DReserve ctx d0 (w_store (sv_world sv)) = (d, Ok tok).

(** The submission of a request: the fields of the request with a drawn id, as the store
keeps it. *)
Definition requested sv (req : createSubmissionRequest) : Submission :=
  CloneJSON (new_submission (rand_hex (w_tick (sv_world sv))) (clock (S (w_tick (sv_world sv)))) req).

(** The answer of the pool to the commit of the new submission, which the store [s]
already shows under its key. *)
Definition commit_answers (key : string) (req : createSubmissionRequest) sv (d : D) (tok : nat) (r : D * ST * res PoolErr ()) : Prop :=
  ∃ s, valid s
    ∧ view s = v_bind key (Sub_ID (requested sv req)) (request_fingerprint req) (v_put_submission (requested sv req) (sview sv))
    ∧ DCommit (clock (S (S (w_tick (sv_world sv))))) tok (Sub_ID (requested sv req)) d s = r.

(** How a create ended, branch by branch, with its answer. *)
Inductive created (ctx : option string) (key : string) (body : res string createSubmissionRequest) sv sv' : Response → Prop :=
| created_undecodable e :
    body = Err e → sview sv' = sview sv → created ctx key body sv sv' (writeProblem 400 "invalid_request" e)
| created_invalid req0 r :
    body = Ok req0 → check_request req0 = Err r → sview sv' = sview sv → created ctx key body sv sv' r
| created_no_pool req0 req :
    body = Ok req0 → check_request req0 = Ok req → sv_dispatcher sv = None → sview sv' = sview sv →
    created ctx key body sv sv' (writeProblem 500 "dispatch_error" "worker pool not configured")
| created_no_slot req0 req d e :
    body = Ok req0 → check_request req0 = Ok req → sv_dispatcher sv = Some d →
    (DReserve ctx d (w_store (sv_world sv))).2 = Err e → sview sv' = sview sv →
    created ctx key body sv sv' (dispatch_problem e "worker pool at capacity; retry later")
| created_conflict req0 req d tok id h :
    body = Ok req0 → check_request req0 = Ok req → reserved ctx sv d tok →
    v_bound key (sview sv) = Some (id, h) → h ≠ "" → h ≠ request_fingerprint req → sview sv' = sview sv →
    created ctx key body sv sv'
      (writeProblem 409 "idempotency_conflict" "Idempotency-Key reused with a different request body")
| created_replay req0 req d tok id h sub :
    body = Ok req0 → check_request req0 = Ok req → reserved ctx sv d tok →
    v_bound key (sview sv) = Some (id, h) → h = "" ∨ h = request_fingerprint req →
    v_submissions (sview sv) !! id = Some sub → sview sv' = sview sv →
    created ctx key body sv sv' (accepted_response sub)
| created_not_admitted req0 req d tok d' s' e :
    body = Ok req0 → check_request req0 = Ok req → reserved ctx sv d tok →
    v_bound key (sview sv) = None → commit_answers key req sv d tok (d', s', Err e) → sview sv' = sview sv →
    created ctx key body sv sv' (dispatch_problem e "worker pool at capacity; retry later")
| created_new req0 req d tok d' s' :
    body = Ok req0 → check_request req0 = Ok req → reserved ctx sv d tok →
    v_bound key (sview sv) = None → v_submissions (sview sv) !! Sub_ID (requested sv req) = None →
    commit_answers key req sv d tok (d', s', Ok ()) →
    sv_dispatcher sv' = Some d' → has_job (Sub_ID (requested sv req)) d' (w_store (sv_world sv')) →
    without_jobs (sview sv')
      = without_jobs (v_bind key (Sub_ID (requested sv req)) (request_fingerprint req)
                        (v_put_submission (requested sv req) (sview sv))) →
    created ctx key body sv sv' (accepted_response (requested sv req)).

Lemma dispatch_problem_status e busy : rs_status (dispatch_problem e busy) ≠ 202%Z.
Proof. by destruct e. Qed.

Lemma create_reserved_spec ctx tok d key body req0 req sv0 sv :
  body = Ok req0 → check_request req0 = Ok req → artifact_ok (Req_Artifact req) = true →
  reserved ctx sv0 d tok → sv = set_world (tick (tick (sv_world sv0))) sv0 → svalid sv0 → fresh_id sv0 →
  (∀ id h, v_bound key (sview sv0) = Some (id, h) → is_Some (v_submissions (sview sv0) !! id)) →
  token_open tok d →
  let r := create_reserved tok d key req
             (new_submission (rand_hex (w_tick (sv_world sv0))) (clock (S (w_tick (sv_world sv0)))) req) sv in
  svalid r.1 ∧ (∃ n, slots r.1 = Some n ∧ open_slots d = S n) ∧ created ctx key body sv0 r.1 r.2.
Proof.
  intros Hbody Hcheck Hok Hres -> Hv [Hfresh Hjob] Hbound Htok. cbv zeta. unfold create_reserved. simpl.
  set (sub := new_submission _ _ req). set (s0 := w_store (sv_world sv0)) in *.
  assert (Hjs : json_ok sub = true) by (by apply new_submission_ok).
  destruct (PutSubmissionIdempotent_law s0 key (request_fingerprint req) (Some sub) Hv) as [Hv1 Hspec].
  destruct (PutSubmissionIdempotent key (request_fingerprint req) (Some sub) s0) as [s1 r1].
  simpl in Hv1, Hspec. unfold idem_spec in Hspec. change (view s0) with (sview sv0) in Hspec.
  destruct (v_bound key (sview sv0)) as [[id h]|] eqn:Eb.
  - destruct (Hbound _ _ eq_refl) as [ex Hex]. destruct (Hspec ex Hex) as [Hview Hr]. simpl. rewrite Hr.
    case_decide as Hd; simpl; (split; [done|]); (split; [eexists; split; [done|by apply DRelease_law]|]).
    + by apply (created_conflict _ _ _ _ _ req0 req d tok id h); try done; apply Hd.
    + apply (created_replay _ _ _ _ _ req0 req d tok id h); try done.
      pose proof (request_fingerprint_nonempty req). destruct (decide (h = "")); [by left|]. right.
      destruct (decide (h = request_fingerprint req)); [done|]. exfalso. by apply Hd.
  - destruct (Hspec Hjs) as [Hr Hview]. simpl. rewrite Hr. change (CloneJSON sub) with (requested sv0 req) in *.
    set (acc := requested sv0 req) in *. assert (Hid : Sub_ID acc = Sub_ID sub) by (subst acc; apply Sub_ID_clone; by rewrite Hjs).
    assert (Hst : Sub_Status acc = SubmissionAccepted) by (subst acc; unfold requested, CloneJSON; fold sub; by rewrite Hjs).
    rewrite -Hid in Hview. change ("sub_" +:+ rand_hex (w_tick (sv_world sv0))) with (Sub_ID sub) in Hfresh, Hjob.
    rewrite -Hid in Hfresh, Hjob. simpl.
    destruct (DCommit_law (clock (S (S (w_tick (sv_world sv0))))) tok (Sub_ID acc) d s1 Hv1 Htok) as [Hv2 Hc].
    destruct (DCommit (clock (S (S (w_tick (sv_world sv0))))) tok (Sub_ID acc) d s1) as [[d2 s2] [[]|e]] eqn:Ec; simpl in *.
    + destruct Hc as (Hslots & Hjob2 & Hview2). split; [done|]. split; [by eexists|].
      apply (created_new _ _ _ _ _ req0 req d tok d2 s2); try done; [by exists s1|].
      unfold sview. simpl. by rewrite Hview2 Hview.
    + destruct Hc as (Hview2 & Hslots). rewrite Hview in Hview2.
      destruct (AbandonSubmission_law s2 (Sub_ID acc) key Hv2) as [Hv3 Ha]. unfold abandon_spec in Ha.
      rewrite Hview2 in Ha. rewrite decide_True in Ha.
      { unfold v_status, v_bind. destruct (bool_decide (key = "")); simpl; by rewrite lookup_insert_eq /= Hst. }
      destruct Ha as [_ Ha]. rewrite abandon_undoes // in Ha.
      split; [done|]. split; [by eexists|]. by apply (created_not_admitted _ _ _ _ _ req0 req d tok d2 s2); try done; exists s1.
Qed.

(** [C6] [POST /v1/submissions] creates completely or not at all, and its answer on
every branch ([created]): a body that does not decode is 400, an invalid artifact or purl
422, no pool 500, a pool that has no slot 429 or 503, a key bound to another request 409,
each without effect; a key bound to the same request (or to one without a fingerprint)
answers 202 with the stored submission and changes nothing; otherwise the submission -
the fields of the request under a drawn id, accepted - is stored under its key and
fingerprint and offered to the pool: taken, the answer is 202 with it and the job is in
the pool; refused, the answer is the pool's error and what was written was abandoned, so
the store shows what it showed before.  Either way no slot of the pool is left reserved. *)
Theorem createSubmission_correct ctx body key sv :
  svalid sv → fresh_id sv →
  (∀ req, body = Ok req → artifact_ok (Req_Artifact req) = true) →
  (∀ id h, v_bound key (sview sv) = Some (id, h) → is_Some (v_submissions (sview sv) !! id)) →
  let r := createSubmission ctx body key sv in
  svalid r.1 ∧ slots r.1 = slots sv ∧ created ctx key body sv r.1 r.2.
Proof.
  intros Hv Hfresh Hok Hbound. cbv zeta. unfold createSubmission.
  destruct body as [req0|e]; [|split_and!; [done..|by apply created_undecodable]].
  destruct (check_request req0) as [req|r] eqn:Ec; [|split_and!; [done..|by eapply created_invalid]].
  simpl. destruct (sv_dispatcher sv) as [d|] eqn:Ed; simpl.
  2: { rewrite /slots /= Ed. split_and!; [done..|by eapply created_no_pool]. }
  pose proof (DReserve_law ctx d (w_store (sv_world sv)) Hv) as Hr.
  destruct (DReserve ctx d (w_store (sv_world sv))) as [d1 [tok|e]] eqn:Er; simpl in *.
  - destruct Hr as [Htok Hslots].
    destruct (create_reserved_spec ctx tok d1 key (Ok req0) req0 req sv (set_world (tick (tick (sv_world sv))) sv))
      as (Hv' & (n & Hn & Hs) & Hcr); try done.
    { eapply check_request_ok; [done|]. by apply Hok. }
    { by exists d. }
    split_and!; [done| |done]. unfold slots at 2. rewrite Ed Hn /=. f_equal. lia.
  - subst d1. split_and!; [done|unfold slots; simpl; by rewrite Ed|].
    eapply created_no_slot; try done. by rewrite Er.
Qed.

(** What a resume may leave: the claim undone. *)
Definition resume_undone (id : string) (v : StoreView) : StoreView :=
  match v_submissions v !! id with
  | Some sub => v_put_submission (deferred_again (set_Sub_Status SubmissionRunning sub)) v
  | None => v
  end.

(** The stored form of a deferred submission: no completion time. *)
Definition plainly_deferred (sub : Submission) : Prop :=
  Sub_Status sub = SubmissionDeferred ∧ Sub_CompletionReason sub = Some CompletionDeferred ∧ Sub_CompletedAt sub = None.

Lemma resume_undone_same id v :
  view_wf v → (∀ sub, v_submissions v !! id = Some sub → plainly_deferred sub) → resume_undone id v = v.
Proof.
  intros Hwf Hp. unfold resume_undone. destruct (v_submissions v !! id) as [sub|] eqn:Es; [|done].
  destruct (Hp sub eq_refl) as (Hst & Hr & Hc). destruct (vw_submissions _ Hwf _ _ Es) as [Hid _].
  assert (deferred_again (set_Sub_Status SubmissionRunning sub) = sub) as -> by (destruct sub; simpl in *; by subst).
  apply view_ext; try done. simpl. rewrite Hid. by apply insert_id.
Qed.

(** The claim of a resume, as the store shows it. *)
Lemma MarkForResume_view id (w : World ST C) :
  valid (w_store w) →
  let r := MarkForResume id w in
  valid (w_store r.1)
  ∧ match r.2 with
    | Ok _ => ∃ sub, v_submissions (view (w_store w)) !! id = Some sub ∧ Sub_Status sub = SubmissionDeferred
        ∧ view (w_store r.1) = v_put_submission (set_Sub_Status SubmissionRunning sub) (view (w_store w))
    | Err _ => view (w_store r.1) = view (w_store w)
        ∧ ∀ sub, v_submissions (view (w_store w)) !! id = Some sub → Sub_Status sub ≠ SubmissionDeferred
    end.
Proof.
  intros Hv. cbv zeta. unfold MarkForResume, mbind, GoM_bind, go_try, store_op. simpl.
  destruct (ClaimResume_law (w_store w) id Hv) as [Hv1 Hc]. unfold claim_spec in Hc.
  destruct (ClaimResume id (w_store w)) as [s1 r1]. simpl in *.
  assert (Hget : ∀ s : ST, valid s → (GetSubmission id s).1 = s) by (intros s Hs; by rewrite GetSubmission_law).
  destruct (v_submissions (view (w_store w)) !! id) as [sub|] eqn:Es; [case_decide as Hd|].
  - destruct Hc as [-> Hview]. simpl. split; [done|]. by exists sub.
  - destruct Hc as [-> Hview]. simpl. rewrite (GetSubmission_law s1) //. simpl.
    destruct (v_submissions (view s1) !! id); simpl; (split; [done|]; split; [done|]; by intros ? [= <-]).
  - destruct Hc as [-> Hview]. simpl. rewrite (GetSubmission_law s1) //. simpl.
    destruct (v_submissions (view s1) !! id); simpl; (split; [done|]; by split).
Qed.

Lemma UnmarkResume_view id sub (w : World ST C) v :
  valid (w_store w) → view_wf v → v_submissions v !! id = Some sub →
  view (w_store w) = v_put_submission (set_Sub_Status SubmissionRunning sub) v →
  let r := UnmarkResume id w in
  valid (w_store r.1) ∧ view (w_store r.1) = resume_undone id v.
Proof.
  intros Hv Hwf Hs Hview. cbv zeta. unfold UnmarkResume, store_op. simpl.
  destruct (ReleaseResume_law (w_store w) id Hv) as (Hv1 & _ & Hr). split; [done|]. rewrite Hr Hview.
  destruct (vw_submissions _ Hwf _ _ Hs) as [Hid _]. unfold v_release, resume_undone. rewrite Hs. simpl.
  rewrite Hid lookup_insert_eq /=.
  apply view_ext; try done. simpl. by rewrite Hid insert_insert_eq.
Qed.

(** [POST /v1/submissions/{id}/resume]: answered 202, the submission was deferred
and is now shown running, with a job in the pool; otherwise, when the pool refuses
the job, the claim is undone (the submission is deferred again, ready for another
attempt), and a submission that is not deferred is left alone.  No slot of the
pool is left reserved, and no other submission changes. *)
Theorem resumeSubmission_correct ctx id sv :
  svalid sv →
  let r := resumeSubmission ctx id sv in
  svalid r.1 ∧ slots r.1 = slots sv
  ∧ ((∃ sub d, r.2 = writeJSON 202 (BSubmission (set_Sub_Status SubmissionRunning sub))
        ∧ v_submissions (sview sv) !! id = Some sub ∧ Sub_Status sub = SubmissionDeferred
        ∧ without_jobs (sview r.1)
          = without_jobs (v_put_submission (set_Sub_Status SubmissionRunning sub) (sview sv))
        ∧ sv_dispatcher r.1 = Some d ∧ has_job id d (w_store (sv_world r.1)))
     ∨ rs_status r.2 ≠ 202%Z ∧ (∃ sub, v_submissions (sview sv) !! id = Some sub ∧ Sub_Status sub = SubmissionDeferred)
        ∧ sview r.1 = resume_undone id (sview sv)
     ∨ rs_status r.2 = 409%Z ∧ sview r.1 = sview sv).
Proof.
  intros Hv. cbv zeta. unfold resumeSubmission, run_world. destruct (MarkForResume_view id (sv_world sv) Hv) as [Hv1 Hm].
  destruct (MarkForResume id (sv_world sv)) as [w1 [[]|e]]; simpl in *;
    [|split; [done|]; split; [done|]; right; right; split; [done|]; apply Hm].
  destruct Hm as (sub & Hs & Hst & Hview). pose proof (view_valid _ Hv) as Hwf.
  destruct (vw_submissions _ Hwf _ _ Hs) as [Hid _].
  destruct (sv_dispatcher sv) as [d|] eqn:Ed; simpl.
  2: { destruct (UnmarkResume_view id sub w1 (sview sv)) as [Hv2 Hview2]; try done.
       split; [done|]. split; [unfold slots; simpl; by rewrite Ed|]. right. left. split; [done|]. split; [by eauto|done]. }
  rewrite DSubmit_law. pose proof (DReserve_law ctx d (w_store w1) Hv1) as Hres.
  destruct (DReserve ctx d (w_store w1)) as [d1 [tok|e]]; simpl in *.
  - destruct Hres as [Htok Hslots].
    destruct (DCommit_law (clock (w_tick w1)) tok id d1 (w_store w1) Hv1 Htok) as [Hv2 Hc].
    destruct (DCommit (clock (w_tick w1)) tok id d1 (w_store w1)) as [[d2 s2] [[]|e]]; simpl in *.
    + destruct Hc as (Hslots2 & Hjob & Hview2). split; [done|].
      split; [unfold slots; simpl; rewrite Ed; simpl; f_equal; lia|]. left. exists sub, d2.
      split_and!; try done; [|unfold sview; simpl; by rewrite Hview2 Hview].
      unfold ask. simpl. rewrite (GetSubmission_law s2) //. simpl. apply without_jobs_eq in Hview2. rewrite Hview2 Hview. simpl.
      by rewrite Hid lookup_insert_eq.
    + destruct Hc as (Hview2 & Hslots2).
      destruct (UnmarkResume_view id sub (tick (set_store s2 w1)) (sview sv)) as [Hv3 Hview3]; try done; [by etrans|].
      split; [done|]. split; [unfold slots; simpl; rewrite Ed; simpl; f_equal; lia|].
      right. left. split; [apply dispatch_problem_status|]. split; [by eauto|done].
  - subst d1. destruct (UnmarkResume_view id sub (tick (set_store (w_store w1) w1)) (sview sv)) as [Hv3 Hview3]; try done.
    split; [done|]. split; [unfold slots; simpl; by rewrite Ed|].
    right. left. split; [apply dispatch_problem_status|]. split; [by eauto|done].
Qed.

(** [C28] What the upload handler receives is what providers get: a 201 answer to
[POST /v1/artifacts] carries a reference whose digest is the SHA-256 of the body, the
store keeps the body under that digest and shows it, and every artifact that uses this
reference is handed to providers with exactly these bytes; a body over the limit is
refused and stores nothing.  (With authentication on, the middleware has cut the body at
33 MiB before the handler sees it: [Auth.long_body_truncated].) *)
Theorem upload_then_hydrate limit content contentType sv :
  svalid sv →
  let r := uploadArtifact limit (Ok content) contentType sv in
  svalid r.1
  ∧ if decide (limit < Z.of_nat (String.length content))%Z
    then rs_status r.2 = 413%Z ∧ sview r.1 = sview sv
    else ∃ ref, r.2 = writeJSON 201 (BArtifactRef (mkArtifactRef None {["sha256" := sha256_hex content]} (Some ref)))
         ∧ LocalBlobDigest (Ref_URI ref) = Some ("sha256:" +:+ sha256_hex content)
         ∧ sview r.1 = v_put_artifact ("sha256:" +:+ sha256_hex content) content (sview sv)
         ∧ rs_status (checkArtifact ("sha256:" +:+ sha256_hex content) r.1) = 200%Z
         ∧ (∀ a, Art_ContentRef a = Some ref →
            (hydrateLocalBlob a (sv_world r.1)).2 = Ok (set_Art_Content (Some content) a)).
Proof.
  intros Hv. cbv zeta. unfold uploadArtifact. case_decide as Hd.
  { rewrite bool_decide_true //. }
  rewrite bool_decide_false //. set (h := sha256_hex content).
  destruct (PutArtifact_law (w_store (sv_world sv)) ("sha256:" +:+ h) content Hv) as (Hv1 & Hr & Hview).
  destruct (PutArtifact ("sha256:" +:+ h) content (w_store (sv_world sv))) as [s1 r1]. simpl in *. subst r1. simpl.
  assert (Hblob : LocalBlobDigest (BlobURN ("sha256:" +:+ h)) = Some ("sha256:" +:+ h))
    by (apply LocalBlobDigest_BlobURN; [done|apply sha256_digest_graphic]).
  split; [done|]. eexists. split; [done|]. split; [done|]. split; [done|].
  assert (Hl : v_artifacts (view s1) !! ("sha256:" +:+ h) = Some content) by (rewrite Hview; simpl; by rewrite lookup_insert_eq).
  split.
  - unfold checkArtifact, ask. simpl. by rewrite (HasArtifact_law s1) // Hl bool_decide_true.
  - intros a Ha. unfold hydrateLocalBlob. rewrite Ha. simpl Ref_URI. rewrite Hblob. unfold mbind, GoM_bind, go_try, store_op. simpl.
    rewrite (GetArtifact_law s1) //. simpl. by rewrite Hl.
Qed.

(** The read endpoints show exactly what the store holds: 200 with the stored
object, 404 when there is none, the results of a submission only for an existing
submission, and the events of a subject in order. *)
Theorem reads_correct id subject sv :
  svalid sv →
  (match v_submissions (sview sv) !! id with
   | Some sub => getSubmission id sv = writeJSON 200 (BSubmission sub)
       ∧ (∃ l, listSubmissionResults id sv = writeJSON 200 (BResults l) ∧ l ≡ₚ v_results_of id (sview sv))
       ∧ (match v_merged (sview sv) !! id with
          | Some m => getMergedResult id sv = writeJSON 200 (BMerged m)
          | None => rs_status (getMergedResult id sv) = 404%Z
          end)
   | None => rs_status (getSubmission id sv) = 404%Z ∧ rs_status (listSubmissionResults id sv) = 404%Z
       ∧ rs_status (getMergedResult id sv) = 404%Z
   end)
  ∧ (match v_decisions (sview sv) !! id with
     | Some d => getDecision id sv = writeJSON 200 (BDecision d)
     | None => rs_status (getDecision id sv) = 404%Z
     end)
  ∧ (match v_results (sview sv) !! id with
     | Some d => getResult id sv = writeJSON 200 (BResult d)
     | None => rs_status (getResult id sv) = 404%Z
     end)
  ∧ listEvents subject sv = writeJSON 200 (BEvents (List.filter
      (λ e, bool_decide (subject = "" ∨ Evt_Subject e = subject)) (v_events (sview sv)))).
Proof.
  intros Hv. unfold getSubmission, listSubmissionResults, getMergedResult, getDecision, getResult, listEvents, ask, sview.
  rewrite GetSubmission_law // GetMergedResult_law // GetDecision_law // GetResult_law // Events_law //. simpl.
  destruct (GetResultsForSubmission_law (w_store (sv_world sv)) id Hv) as (l & Hl & Hp). rewrite Hl. simpl.
  split_and!.
  - destruct (v_submissions (view (w_store (sv_world sv))) !! id) as [sub|]; [|done].
    split_and!; [done|by eexists|]. by destruct (v_merged (view (w_store (sv_world sv))) !! id).
  - by destruct (v_decisions (view (w_store (sv_world sv))) !! id).
  - by destruct (v_results (view (w_store (sv_world sv))) !! id).
  - do 2 f_equal. case_bool_decide as Hs.
    + symmetry. apply List.forallb_filter_id, forallb_true. intros e _. by rewrite bool_decide_true; [left|].
    + apply List.filter_ext. intros e. apply bool_decide_ext. naive_solver.
Qed.
End spec.

(** ** Runs: the memory store with a local pool, the SQL store with a queue pool *)
Section runs.
#[local] Existing Instance sorted_maps.
#[local] Existing Instance ascii_unicode.
#[local] Instance run_numbers : JsonNumbers := {| fmt_float _ := "0" |}.
#[local] Instance run_env : Env := {| rand_hex n := fmt_d (Z.of_nat n); clock n := Z.of_nat n |}.

Definition local_pool : localPool := mkLocalPool false false 1 0 [] [WIdle] [] [] [].

Definition local_server : Server MemoryStore () localPool :=
  mkServer (mkWorld NewMemoryStore (mkEventEmitter "scintx" 0) [] () 0) (Some local_pool) false false.

Definition queue_server : Server SqlDB () queuePool :=
  mkServer (mkWorld fresh_db (mkEventEmitter "scintx" 0) [] () 0) (Some one_slot) false false.

Definition npm_request (caps : list string) : createSubmissionRequest :=
  mkCreateSubmissionRequest "" (mkArtifact (Some "pkg:NPM/a@1") ∅ None [] [] ∅ None) caps (Some "example").

Lemma createSubmission_correct_witness :
  let r := createSubmission None (Ok (npm_request ["vuln-scan"])) "k" local_server in
  created None "k" (Ok (npm_request ["vuln-scan"])) local_server r.1 r.2 ∧ slots r.1 = Some 0
  ∧ rs_status r.2 = 202%Z ∧ lp_jobs <$> sv_dispatcher r.1 = Some ["sub_0"].
Proof.
  intros r. destruct (createSubmission_correct None (Ok (npm_request ["vuln-scan"])) "k" local_server) as (_ & Hs & Hc).
  - exact NewMemoryStore_wf.
  - split; [done|]. vm_compute. discriminate.
  - intros req [= <-]. vm_compute. reflexivity.
  - intros id h. vm_compute. discriminate.
  - split; [exact Hc|]. split; [exact Hs|]. vm_compute. split; reflexivity.
Defined.

(** The same key with the capabilities in another order replays, with another body
conflicts, and a full pool answers 429 before anything is stored. *)
Example create_retries :
  let r1 := createSubmission None (Ok (npm_request ["a"; "b"])) "k" queue_server in
  let r2 := createSubmission None (Ok (npm_request ["b"; "a"])) "k" r1.1 in
  let free := mkServer (sv_world r1.1) (Some (newQueuePool (mkConfig "queue" 1 1 0 0 9 0 "w") "")) false false in
  let r3 := createSubmission None (Ok (npm_request ["b"; "a"])) "k" free in
  let r4 := createSubmission None (Ok (npm_request ["c"])) "k" free in
  rs_status r1.2 = 202%Z ∧ rs_status r2.2 = 429%Z ∧ r3.2 = r1.2 ∧ rs_status r4.2 = 409%Z
  ∧ size (db_submissions (w_store (sv_world r4.1))) = 1.
Proof. vm_compute. split_and!; reflexivity. Qed.

Definition deferred_server (p : localPool) : Server MemoryStore () localPool :=
  mkServer (mkWorld deferred_store (mkEventEmitter "scintx" 0) [] () 0) (Some p) false false.

Lemma resumeSubmission_correct_witness :
  let r := resumeSubmission None "a" (deferred_server local_pool) in
  slots r.1 = Some 0 ∧ rs_status r.2 = 202%Z
  ∧ rs_status (resumeSubmission None "a" (deferred_server (Close local_pool))).2 = 503%Z.
Proof.
  intros r. destruct (resumeSubmission_correct None "a" (deferred_server local_pool)) as (_ & Hs & _).
  - apply exec_wf, NewMemoryStore_wf.
  - split; [exact Hs|]. vm_compute. split; reflexivity.
Defined.

Definition fetched_artifact (ref : ResourceReference) : Artifact := mkArtifact None ∅ (Some ref) [] [] ∅ None.

Lemma upload_then_hydrate_witness :
  let r := uploadArtifact 10 (Ok "content") "application/zip" local_server in
  (∃ ref, rs_status r.2 = 201%Z ∧ LocalBlobDigest (Ref_URI ref) = Some ("sha256:" +:+ sha256_hex "content")
     ∧ (hydrateLocalBlob (fetched_artifact ref) (sv_world r.1)).2 = Ok (set_Art_Content (Some "content") (fetched_artifact ref)))
  ∧ rs_status (uploadArtifact 5 (Ok "content") "" local_server).2 = 413%Z.
Proof.
  intros r. destruct (upload_then_hydrate 10 "content" "application/zip" local_server) as [_ Hup].
  - exact NewMemoryStore_wf.
  - split; [|vm_compute; reflexivity]. case_decide as Hlt; [exfalso; by vm_compute in Hlt|].
    destruct Hup as (ref & Hr & Hd & _ & _ & Hh). exists ref.
    split; [unfold r; rewrite Hr; reflexivity|]. split; [exact Hd|]. apply Hh. reflexivity.
Defined.

Lemma reads_correct_witness :
  getSubmission "a" (deferred_server local_pool) = writeJSON 200 (BSubmission (sample_submission "a" SubmissionDeferred)).
Proof.
  destruct (reads_correct "a" "" (deferred_server local_pool)) as [Hs _].
  - apply exec_wf, NewMemoryStore_wf.
  - exact (proj1 Hs).
Defined.
End runs.
