(* ===== verification/Handlers.v ===== *)
(** * The handlers in steps: [internal/server/server.go] under concurrency

[net/http] runs every handler on its own goroutine, so between two calls on shared
state anything may happen.  Here each state-changing handler of [Server] is a thread
whose steps are its calls on the store and on the pool - the critical sections -, with
the deferred release of the slot as its last one.  A thread that runs alone is the
handler: the lemmas at the end. *)
From S2P Require Import Prelude GoString GoFloat GoTime Sha256 Types Purl Matching Store StoreSpec Gateway Fingerprint Policy.
From S2P Require Import Orchestrator Workers Queue Server.

(** Where a handler stands: what it has done and what it still holds. *)
Inductive Thread :=
(* createSubmission *)
| TReserved (tok : nat) (key : string) (req : createSubmissionRequest) (sub : Submission)
| TStored (tok : nat) (key : string) (sub : Submission)
| TAbandon (tok : nat) (key id : string) (r : Response)
| TRelease (tok : nat) (r : Response)
(* resumeSubmission *)
| TMarked (ctx : option string) (id : string)
| TSubmit (tok : nat) (id : string)
| TSubmitFailed (tok : nat) (id : string) (r : Response)
| TUnmark (id : string) (r : Response)
| TResumed (id : string)
(* adjudicateSubmission *)
| TAdjRead (req : AdjudicateRequest) (sub : Submission) (did : string)
| TAdjDecided (req : AdjudicateRequest) (sub : Submission) (prior dec : PolicyDecision)
| TAdjRecorded (req : AdjudicateRequest) (sub : Submission) (prior dec : PolicyDecision)
| TAdjEmit (req : AdjudicateRequest) (sub : Submission) (prior dec : PolicyDecision).

Section threads.
Context `{Store ST} `{ResultCache C} `{Env} `{Unicode} `{JsonNumbers} `{!Dispatcher D ST}.
Context (o : Orchestrator).
Implicit Types (sv : Server ST C D).

(** A step ends with the thread's new state or with the response. *)
Definition Next : Type := Server ST C D * (Thread + Response).

Definition busy : string := "worker pool at capacity; retry later".
Definition resume_busy : string := "worker pool at capacity; retry resume later".

(** The handlers up to their first call that changes something. *)
Definition create_start (ctx : option string) (body : res string createSubmissionRequest) (key : string) sv : Next :=
  match body with
  | Err e => (sv, inr (writeProblem 400 "invalid_request" e))
  | Ok req =>
      match check_request req with
      | Err r => (sv, inr r)
      | Ok req =>
          let w := sv_world sv in
          let sub := new_submission (rand_hex (w_tick w)) (clock (S (w_tick w))) req in
          let sv := set_world (tick (tick w)) sv in
          match sv_dispatcher sv with
          | None => (sv, inr (writeProblem 500 "dispatch_error" "worker pool not configured"))
          | Some d =>
              let r := DReserve ctx d (w_store w) in
              (set_pool r.1 sv, match r.2 with
                                | Err e => inr (dispatch_problem e busy)
                                | Ok tok => inl (TReserved tok key req sub)
                                end)
          end
      end
  end.

Definition resume_start (ctx : option string) (id : string) sv : Next :=
  let m := run_world (MarkForResume id) sv in
  (m.1, match m.2 with
        | Err e => inr (writeProblem 409 "resume_failed" (err_string e))
        | Ok _ => inl (TMarked ctx id)
        end).

Definition adjudicate_start (id : string) (body : res string AdjudicateRequest) sv : Next :=
  match body with
  | Err e => (sv, inr (writeProblem 400 "invalid_request" e))
  | Ok req =>
      if bool_decide (Adj_Decision req ≠ DecisionAllow) && bool_decide (Adj_Decision req ≠ DecisionDeny)
      then (sv, inr (adjudicate_problem ErrAdjudicateInvalidDecision))
      else
        let m := run_world (store_op (GetSubmission id)) sv in
        (m.1, match m.2 with
              | Err e => inr (adjudicate_problem e)
              | Ok None => inr (adjudicate_problem ErrAdjudicateNotFound)
              | Ok (Some sub) =>
                  if bool_decide (Sub_Status sub ≠ SubmissionCompleted)
                  then inr (adjudicate_problem (ErrAdjudicateInvalidState
                              ("status=" +:+ status_string (Sub_Status sub) +:+ " (need completed)")))
                  else match Sub_DecisionID sub with
                       | None => inr (adjudicate_problem (ErrAdjudicateInvalidState "no prior policy decision to resolve"))
                       | Some did =>
                           if bool_decide (did = "")
                           then inr (adjudicate_problem (ErrAdjudicateInvalidState "no prior policy decision to resolve"))
                           else inl (TAdjRead req sub did)
                       end
              end)
  end.

(** One call on the store or the pool.  The pool cannot vanish; a server without one
never starts these threads. *)
Definition with_pool sv (k : D → Next) : Next :=
  match sv_dispatcher sv with
  | Some d => k d
  | None => (sv, inr (writeProblem 500 "dispatch_error" "worker pool not configured"))
  end.

Definition thread_step (t : Thread) sv : Next :=
  let w := sv_world sv in
  match t with
  | TReserved tok key req sub =>
      let p := PutSubmissionIdempotent key (request_fingerprint req) (Some sub) (w_store w) in
      (set_world (set_store p.1 w) sv,
       match p.2 with
       | Err ErrIdempotencyConflict =>
           inl (TRelease tok (writeProblem 409 "idempotency_conflict" "Idempotency-Key reused with a different request body"))
       | Err e => inl (TRelease tok (store_problem e))
       | Ok (None, _) => inl (TRelease tok (mkResponse 0 [] BNone))
       | Ok (Some accepted, false) => inl (TRelease tok (accepted_response accepted))
       | Ok (Some accepted, true) => inl (TStored tok key accepted)
       end)
  | TStored tok key sub =>
      with_pool sv (λ d,
        let c := DCommit (clock (w_tick w)) tok (Sub_ID sub) d (w_store w) in
        (set_pool c.1.1 (set_world (tick (set_store c.1.2 w)) sv),
         match c.2 with
         | Err e => inl (TAbandon tok key (Sub_ID sub) (dispatch_problem e busy))
         | Ok _ => inr (accepted_response sub)
         end))
  | TAbandon tok key id r =>
      (set_world (set_store (AbandonSubmission id key (w_store w)).1 w) sv, inl (TRelease tok r))
  | TRelease tok r => with_pool sv (λ d, (set_pool (DRelease tok d) sv, inr r))
  | TMarked ctx id =>
      match sv_dispatcher sv with
      | None => (sv, inl (TUnmark id (writeProblem 500 "dispatch_error" "worker pool not configured")))
      | Some d =>
          let r := DReserve ctx d (w_store w) in
          match r.2 with
          | Err e => (set_pool r.1 (set_world (tick w) sv), inl (TUnmark id (dispatch_problem e resume_busy)))
          | Ok tok => (set_pool r.1 sv, inl (TSubmit tok id))
          end
      end
  | TSubmit tok id =>
      with_pool sv (λ d,
        let c := DCommit (clock (w_tick w)) tok id d (w_store w) in
        (set_pool c.1.1 (set_world (tick (set_store c.1.2 w)) sv),
         match c.2 with
         | Err e => inl (TSubmitFailed tok id (dispatch_problem e resume_busy))
         | Ok _ => inl (TResumed id)
         end))
  | TSubmitFailed tok id r => with_pool sv (λ d, (set_pool (DRelease tok d) sv, inl (TUnmark id r)))
  | TUnmark id r => ((run_world (UnmarkResume id) sv).1, inr r)
  | TResumed id =>
      (sv, inr match ask (GetSubmission id) sv with
               | Ok (Some sub) => writeJSON 202 (BSubmission sub)
               | _ => writeProblem 500 "store_error" "resume enqueued but submission missing"
               end)
  | TAdjRead req sub did =>
      let m := run_world (store_op (GetDecision did)) sv in
      match m.2 with
      | Err e => (m.1, inr (adjudicate_problem e))
      | Ok None => (m.1, inr (adjudicate_problem (ErrAdjudicateInvalidState "prior decision missing")))
      | Ok (Some prior) =>
          let w := sv_world m.1 in
          let dec := adjudication_decision (rand_hex (w_tick w)) (clock (S (w_tick w))) sub req prior in
          (set_world (tick (tick w)) m.1, inl (TAdjDecided req sub prior dec))
      end
  | TAdjDecided req sub prior dec =>
      let m := run_world (store_op (PutDecision (Some dec))) sv in
      (m.1, match m.2 with
            | Err e => inr (adjudicate_problem e)
            | Ok _ => inl (TAdjRecorded req (set_Sub_DecisionID (Some (Dec_ID dec)) sub) prior dec)
            end)
  | TAdjRecorded req sub prior dec =>
      let m := run_world (store_op (PutSubmission (Some sub))) sv in
      (m.1, match m.2 with
            | Err e => inr (adjudicate_problem e)
            | Ok _ => inl (TAdjEmit req sub prior dec)
            end)
  | TAdjEmit req sub prior dec =>
      let m := run_world (emit o "org.eclipse.scintx.policy-decision.resolved.v1" (Sub_ID sub)
                 (adjudication_data (Sub_ID sub) req prior dec)) sv in
      (m.1, inr match m.2 with Err e => adjudicate_problem e | Ok _ => writeJSON 201 (BDecision dec) end)
  end.

(** Steps left at most. *)
Definition thread_measure (t : Thread) : nat :=
  match t with
  | TReserved _ _ _ _ => 4 | TStored _ _ _ => 3 | TAbandon _ _ _ _ => 2 | TRelease _ _ => 1
  | TMarked _ _ => 4 | TSubmit _ _ => 3 | TSubmitFailed _ _ _ => 2 | TUnmark _ _ => 1 | TResumed _ => 1
  | TAdjRead _ _ _ => 4 | TAdjDecided _ _ _ _ => 3 | TAdjRecorded _ _ _ _ => 2 | TAdjEmit _ _ _ _ => 1
  end.

Definition left_after (n : Thread + Response) : nat := match n with inl t => thread_measure t | inr _ => 0 end.

Lemma thread_step_measure t sv : left_after (thread_step t sv).2 < thread_measure t.
Proof. destruct t; simpl; unfold with_pool; repeat (case_match; simpl); lia. Qed.

(** A thread with nobody else around. *)
Fixpoint run_alone (fuel : nat) (n : Next) : Next :=
  match n.2, fuel with
  | inl t, S fuel => run_alone fuel (thread_step t n.1)
  | _, _ => n
  end.

Lemma create_alone ctx body key sv :
  run_alone 4 (create_start ctx body key sv)
  = ((createSubmission ctx body key sv).1, inr (createSubmission ctx body key sv).2).
Proof.
  unfold createSubmission, create_start. destruct body as [req0|e]; [|done].
  destruct (check_request req0) as [req|r]; [|done]. simpl. destruct (sv_dispatcher sv) as [d|]; [|done].
  destruct (DReserve ctx d (w_store (sv_world sv))) as [d1 [tok|e]]; simpl; [|done].
  unfold create_reserved. simpl.
  destruct (PutSubmissionIdempotent _ _ _ _) as [s1 [[[acc|] []]|e]]; simpl; try reflexivity.
  - unfold with_pool. simpl. destruct (DCommit _ _ _ _ _) as [[d2 s2] [[]|e]]; reflexivity.
  - destruct e; reflexivity.
Qed.

Lemma adjudicate_alone id body sv :
  run_alone 4 (adjudicate_start id body sv)
  = ((adjudicateSubmission o id body sv).1, inr (adjudicateSubmission o id body sv).2).
Proof.
  unfold adjudicateSubmission, adjudicate_start. destruct body as [req|e]; [|reflexivity].
  unfold Adjudicate, run_world. destruct (_ && _); [by destruct sv|].
  unfold mbind, GoM_bind, store_op, draw_rand, read_clock. simpl.
  destruct (GetSubmission id (w_store (sv_world sv))) as [s1 [[sub|]|e]]; simpl; try reflexivity.
  case_bool_decide; [reflexivity|]. destruct (Sub_DecisionID sub) as [did|]; [|reflexivity].
  case_bool_decide; [reflexivity|]. simpl.
  destruct (GetDecision did s1) as [s2 [[prior|]|e]]; simpl; try reflexivity.
  destruct (PutDecision _ s2) as [s3 [[]|e]]; simpl; try reflexivity.
  destruct (PutSubmission _ s3) as [s4 [[]|e]]; reflexivity.
Qed.
End threads.

Lemma resume_alone `{StoreLaws ST} `{ResultCache C} `{Env} `{Unicode} `{JsonNumbers} `{!Dispatcher D ST}
    `{!DispatcherLaws D ST} o ctx id (sv : Server ST C D) :
  run_alone o 4 (resume_start ctx id sv)
  = ((resumeSubmission ctx id sv).1, inr (resumeSubmission ctx id sv).2).
Proof.
  unfold resumeSubmission, resume_start. unfold run_world at 1 3 5. simpl.
  destruct (MarkForResume id (sv_world sv)) as [w1 [[]|e]]; simpl; [|reflexivity].
  destruct (sv_dispatcher sv) as [d|] eqn:Ed; simpl.
  2: { reflexivity. }
  rewrite DSubmit_law. simpl. destruct (DReserve ctx d (w_store w1)) as [d1 [tok|e]]; simpl.
  - unfold with_pool. simpl. destruct (DCommit _ _ _ _ _) as [[d2 s2] [[]|e]]; reflexivity.
  - destruct w1; reflexivity.
Qed.
