(* ===== verification/Auth.v ===== *)
(** * Inbound authentication: [internal/auth/config.go], [middleware.go], [sign.go]

Configuration from the environment, HTTP message signatures (signing, parsing,
verification) and bearer tokens, and the middleware in front of the routes.  A
header is what [Header.Get] returns for its canonical name. *)
From S2P Require Import Prelude GoString GoTime Sha256 Encoding Types.

Definition ProfileHMAC : string := "hmac-sha256".
Definition ProfileBearer : string := "bearer".

(** ** Configuration *)
Record AuthConfig := mkAuthConfig {
  Auth_Profiles : list string;
  Auth_HMACKeys : strmap;
  Auth_BearerTokens : gset string;
  Auth_MaxSkew : Duration;
}.

Definition appendUnique (l : list string) (v : string) : list string :=
  if bool_decide (v ∈ l) then l else l ++ [v].

Fixpoint auth_profiles (parts : list string) (acc : list string) : res string (list string) :=
  match parts with
  | [] => Ok acc
  | p :: parts =>
      let p := TrimSpace p in
      if bool_decide (p = "hmac" ∨ p = ProfileHMAC ∨ p = "rfc9421") then auth_profiles parts (appendUnique acc ProfileHMAC)
      else if bool_decide (p = "bearer" ∨ p = "oauth" ∨ p = "token") then auth_profiles parts (appendUnique acc ProfileBearer)
      else if bool_decide (p = "") then auth_profiles parts acc
      else Err ("SCINTX_AUTH: unknown profile " +:+ quoted p +:+ " (want hmac, bearer, or off)")
  end.

Fixpoint hmac_keys (parts : list string) (acc : strmap) : res string strmap :=
  match parts with
  | [] => Ok acc
  | part :: parts =>
      let part := TrimSpace part in
      if bool_decide (part = "") then hmac_keys parts acc
      else
        let bad := Err ("SCINTX_AUTH_HMAC_KEYS: want keyid:secret, got " +:+ quoted part) in
        match cut_at ":"%char part with
        | None => bad
        | Some (keyid, secret) =>
            let keyid := TrimSpace keyid in
            let secret := TrimSpace secret in
            if bool_decide (keyid = "" ∨ secret = "") then bad else hmac_keys parts (<[keyid := secret]> acc)
        end
  end.

Definition bearer_tokens (parts : list string) : gset string :=
  fold_left (λ acc tok, let tok := TrimSpace tok in if bool_decide (tok = "") then acc else {[tok]} ∪ acc) parts ∅.

(** The credentials an enabled profile needs. *)
Fixpoint check_credentials (profiles : list string) (keys : strmap) (tokens : gset string) : res string () :=
  match profiles with
  | [] => Ok ()
  | p :: profiles =>
      if bool_decide (p = ProfileHMAC ∧ keys = ∅) then Err "SCINTX_AUTH_HMAC_KEYS is required when hmac auth is enabled"
      else if bool_decide (p = ProfileBearer ∧ tokens = ∅)
      then Err "SCINTX_AUTH_BEARER_TOKENS is required when bearer auth is enabled"
      else check_credentials profiles keys tokens
  end.

Definition ConfigFromEnv `{Unicode} (getenv : string → string) : res string AuthConfig :=
  let raw := ToLower (TrimSpace (getenv "SCINTX_AUTH")) in
  if bool_decide (raw = "" ∨ raw = "off" ∨ raw = "none") then Ok (mkAuthConfig [] ∅ ∅ (5 * Minute)%Z)
  else
    let? profiles := auth_profiles (Split raw ","%char) [] in
    let d := getenv "SCINTX_AUTH_MAX_SKEW" in
    let? skew := if bool_decide (d = "") then Ok (5 * Minute)%Z
                 else match ParseDuration d with
                      | Ok x => Ok x
                      | Err e => Err ("SCINTX_AUTH_MAX_SKEW: " +:+ e)
                      end in
    let? keys := hmac_keys (Split (getenv "SCINTX_AUTH_HMAC_KEYS") ","%char) ∅ in
    let tokens := bearer_tokens (Split (getenv "SCINTX_AUTH_BEARER_TOKENS") ","%char) in
    let? _ := check_credentials profiles keys tokens in
    Ok (mkAuthConfig profiles keys tokens skew).

Definition Enabled (c : AuthConfig) : bool := bool_decide (Auth_Profiles c ≠ []).

(** ** Requests *)
Record Request := mkRequest {
  Rq_Method : string;
  Rq_Path : string;
  Rq_EscapedPath : string;
  Rq_Header : strmap;
}.

(** [Header.Get]. *)
Definition header (r : Request) (name : string) : string := default "" (Rq_Header r !! name).

Definition set_header (name v : string) (r : Request) : Request :=
  mkRequest (Rq_Method r) (Rq_Path r) (Rq_EscapedPath r) (<[name := v]> (Rq_Header r)).

Inductive AuthErr :=
| AuthMsg (msg : string)
| BadInteger (field value : string)
| BadBase64
| SlicePanic.

(** ** Signing *)
Definition ContentDigestSHA256 (body : string) : string := "sha-256=:" +:+ base64 (Sum256 body) +:+ ":".

(** Seconds between January 1, year 1 and the Unix epoch. *)
Definition unixToInternal : Z := 62135596800.

(** [Time.Unix] and [time.Unix(n, 0)]. *)
Definition Unix (t : Time) : Z := (t / Second - unixToInternal)%Z.
Definition unix_time (n : Z) : Time := (wrap64 (n + unixToInternal) * Second)%Z.

Definition dq : string := str1 (chr 34).

(** One character under [%q]. *)
Definition quote_char (c : ascii) : string :=
  let n := byte_of c in
  if bool_decide (n = 34)%N then bytes [92; 34]
  else if bool_decide (n = 92)%N then bytes [92; 92]
  else if bool_decide (n = 7)%N then bytes [92] +:+ "a"
  else if bool_decide (n = 8)%N then bytes [92] +:+ "b"
  else if bool_decide (n = 12)%N then bytes [92] +:+ "f"
  else if bool_decide (n = 10)%N then bytes [92] +:+ "n"
  else if bool_decide (n = 13)%N then bytes [92] +:+ "r"
  else if bool_decide (n = 9)%N then bytes [92] +:+ "t"
  else if bool_decide (n = 11)%N then bytes [92] +:+ "v"
  else if bool_decide (n < 32)%N || bool_decide (n = 127)%N
  then bytes [92] +:+ "x" +:+ str1 (hex_digit (Z.of_N n / 16)) +:+ str1 (hex_digit (Z.of_N n mod 16))
  else str1 c.

(** [%q] of printable text. *)
Definition quote_go (s : string) : string := dq +:+ foldr (λ c t, quote_char c +:+ t) "" (chars s) +:+ dq.

(** A line of the signature base. *)
Definition base_line (name value : string) : string := dq +:+ name +:+ dq +:+ ": " +:+ value.
Definition newline : string := str1 (chr 10).

(** The components [SignRequest] covers, with their values. *)
Definition sign_components (req : Request) (body : string) : list (string * string) :=
  [("@method", Rq_Method req); ("@path", Rq_EscapedPath req)]
  ++ (if bool_decide (body = "") then [] else [("content-digest", ContentDigestSHA256 body)])
  ++ (let ct := header req "Content-Type" in if bool_decide (ct = "") then [] else [("content-type", ct)]).

Definition sign_params (names : list string) (created : Z) (keyID : string) : string :=
  "(" +:+ Join (map (λ n, dq +:+ n +:+ dq) names) " " +:+ ");created=" +:+ fmt_d created
  +:+ ";keyid=" +:+ quote_go keyID +:+ ";alg=" +:+ dq +:+ "hmac-sha256" +:+ dq.

Definition signature_base (comps : list (string * string)) (params : string) : string :=
  Join (map (λ c, base_line c.1 c.2) comps ++ [base_line "@signature-params" params]) newline.

(** [clock] is read when [now] is the zero time. *)
Definition SignRequest (req : Request) (keyID secret body : string) (now clock : Time) : res string Request :=
  if bool_decide (keyID = "" ∨ secret = "") then Err "keyid and secret are required"
  else
    let now := if bool_decide (now = zero_time) then clock else now in
    let req := if bool_decide (body = "") then req else set_header "Content-Digest" (ContentDigestSHA256 body) req in
    let comps := sign_components req body in
    let params := sign_params (map fst comps) (Unix now) keyID in
    let base := signature_base comps params in
    let sig := base64 (hmac_sha256 secret base) in
    Ok (set_header "Signature" ("sig1=:" +:+ sig +:+ ":") (set_header "Signature-Input" ("sig1=" +:+ params) req)).

(** ** Parsing *)
Record signatureParams := mkSignatureParams {
  SP_Components : list string;
  SP_Created : Z;
  SP_Expires : Z;
  SP_KeyID : string;
  SP_Alg : string;
  SP_Raw : string;
}.

(** One parameter of [Signature-Input]. *)
Definition param_step (sp : signatureParams) (part : string) : res AuthErr signatureParams :=
  let part := TrimSpace part in
  if bool_decide (part = "") then Ok sp
  else match cut_at "="%char part with
       | None => Ok sp
       | Some (k, v) =>
           let v := Trim v (chr 34) in
           if bool_decide (k = "created") then
             match ParseInt v with
             | Some n => Ok (mkSignatureParams (SP_Components sp) n (SP_Expires sp) (SP_KeyID sp) (SP_Alg sp) (SP_Raw sp))
             | None => Err (BadInteger "created" v)
             end
           else if bool_decide (k = "expires") then
             match ParseInt v with
             | Some n => Ok (mkSignatureParams (SP_Components sp) (SP_Created sp) n (SP_KeyID sp) (SP_Alg sp) (SP_Raw sp))
             | None => Err (BadInteger "expires" v)
             end
           else if bool_decide (k = "keyid") then
             Ok (mkSignatureParams (SP_Components sp) (SP_Created sp) (SP_Expires sp) v (SP_Alg sp) (SP_Raw sp))
           else if bool_decide (k = "alg") then
             Ok (mkSignatureParams (SP_Components sp) (SP_Created sp) (SP_Expires sp) (SP_KeyID sp) v (SP_Raw sp))
           else Ok sp
       end.

Fixpoint param_loop (sp : signatureParams) (parts : list string) : res AuthErr signatureParams :=
  match parts with
  | [] => Ok sp
  | p :: parts => let? sp := param_step sp p in param_loop sp parts
  end.

Definition parse_components (text : string) : list string :=
  List.filter (λ p, bool_decide (p ≠ "")) (map (λ p, Trim p (chr 34)) (Fields text)).

Definition parseSignatureInput (hdr : string) : res AuthErr signatureParams :=
  match cut_at "="%char (TrimSpace hdr) with
  | None => Err (AuthMsg "missing signature label")
  | Some (_, rest) =>
      let rest := TrimSpace rest in
      if negb (HasPrefix rest "(") then Err (AuthMsg "missing component list")
      else match cut_at ")"%char rest with
           | None => Err (AuthMsg "unterminated component list")
           | Some (open, tail) =>
               let comps := parse_components (drop_str 1 open) in
               let? sp := param_loop (mkSignatureParams comps 0 0 "" "hmac-sha256" rest) (Split (TrimPrefix tail ";") ";"%char) in
               if bool_decide (SP_KeyID sp = "" ∨ SP_Created sp = 0%Z ∨ SP_Components sp = [])
               then Err (AuthMsg "incomplete signature params") else Ok sp
           end
  end.

(** [rest[1:len(rest)-1]] panics on a lone colon. *)
Definition parseSignatureValue (hdr : string) : res AuthErr string :=
  match cut_at "="%char (TrimSpace hdr) with
  | None => Err (AuthMsg "missing signature label")
  | Some (_, rest) =>
      let rest := TrimSpace rest in
      if negb (HasPrefix rest ":") || negb (HasSuffix rest ":") then Err (AuthMsg "signature must be :base64:")
      else if bool_decide (String.length rest = 1) then Err SlicePanic
      else Ok (take_str (String.length rest - 2) (drop_str 1 rest))
  end.

(** ** Verification *)

(** The value of a covered component. *)
Definition component_value (req : Request) (body c : string) : res AuthErr string :=
  if bool_decide (c = "@method") then Ok (Rq_Method req)
  else if bool_decide (c = "@path") then Ok (Rq_EscapedPath req)
  else if bool_decide (c = "content-digest") then
    let digest := header req "Content-Digest" in
    if bool_decide (digest = "") then Err (AuthMsg "content-digest covered but missing")
    else if bool_decide (body ≠ "" ∧ digest ≠ ContentDigestSHA256 body) then Err (AuthMsg "content-digest mismatch")
    else Ok digest
  else if bool_decide (c = "content-type") then
    let ct := header req "Content-Type" in
    if bool_decide (ct = "") then Err (AuthMsg "content-type covered but missing") else Ok ct
  else Err (AuthMsg ("unsupported covered component " +:+ quoted c)).

Fixpoint component_values (req : Request) (body : string) (l : list string) : res AuthErr (list (string * string)) :=
  match l with
  | [] => Ok []
  | c :: l => let? v := component_value req body c in let? vs := component_values req body l in Ok ((c, v) :: vs)
  end.

Definition buildSignatureBase (req : Request) (sp : signatureParams) (body : string) : res AuthErr string :=
  let? comps := component_values req body (SP_Components sp) in Ok (signature_base comps (SP_Raw sp)).

(** [Time.Sub] saturates. *)
Definition sub_sat (t u : Time) : Duration := Z.max (- 2^63) (Z.min (2^63 - 1) (t - u)).

Section verify.
Context `{Unicode}.

Definition verifyHMAC (cfg : AuthConfig) (now : Time) (req : Request) (body : string) : res AuthErr () :=
  let input := header req "Signature-Input" in
  let sigHdr := header req "Signature" in
  if bool_decide (input = "" ∨ sigHdr = "") then Err (AuthMsg "missing Signature-Input or Signature")
  else
    let? sp := parseSignatureInput input in
    if negb (EqualFold (SP_Alg sp) "hmac-sha256") then Err (AuthMsg ("unsupported alg " +:+ quoted (SP_Alg sp)))
    else match Auth_HMACKeys cfg !! SP_KeyID sp with
    | None => Err (AuthMsg "unknown keyid")
    | Some secret =>
        let skew := sub_sat now (unix_time (SP_Created sp)) in
        if bool_decide (Auth_MaxSkew cfg < skew ∨ skew < wrap64 (- Auth_MaxSkew cfg))%Z
        then Err (AuthMsg "created timestamp skew too large")
        else if bool_decide (0 < SP_Expires sp ∧ unix_time (SP_Expires sp) < now)%Z
        then Err (AuthMsg "signature expired")
        else
          let? base := buildSignatureBase req sp body in
          let? wantB64 := parseSignatureValue sigHdr in
          match b64_decode wantB64 with
          | None => Err BadBase64
          | Some want =>
              if bool_decide (want = hmac_sha256 secret base) then Ok () else Err (AuthMsg "signature mismatch")
          end
    end.

Definition verifyBearer (cfg : AuthConfig) (req : Request) : res AuthErr () :=
  let h := header req "Authorization" in
  if bool_decide (h = "") then Err (AuthMsg "missing Authorization")
  else if negb (HasPrefix h "Bearer ") then Err (AuthMsg "Authorization must be Bearer")
  else
    let tok := TrimSpace (TrimPrefix h "Bearer ") in
    if bool_decide (tok ∈ Auth_BearerTokens cfg) then Ok () else Err (AuthMsg "invalid bearer token").

(** [verify]: the first profile that accepts; [None] on a panic, otherwise the errors
of the profiles tried. *)
Fixpoint verify_profiles (cfg : AuthConfig) (now : Time) (req : Request) (body : string) (profiles : list string)
    (errs : list (string * AuthErr)) : option (res (list (string * AuthErr)) ()) :=
  match profiles with
  | [] => Some (Err errs)
  | p :: profiles =>
      let attempt := if bool_decide (p = ProfileHMAC) then Some (verifyHMAC cfg now req body)
                     else if bool_decide (p = ProfileBearer) then Some (verifyBearer cfg req) else None in
      match attempt with
      | None => verify_profiles cfg now req body profiles errs
      | Some (Ok _) => Some (Ok ())
      | Some (Err SlicePanic) => None
      | Some (Err e) => verify_profiles cfg now req body profiles (errs ++ [(p, e)])
      end
  end.

Definition verify (cfg : AuthConfig) (now : Time) (req : Request) (body : string) : option (res (list (string * AuthErr)) ()) :=
  verify_profiles cfg now req body (Auth_Profiles cfg) [].

Definition isPublicPath (path : string) : bool :=
  bool_decide (path = "/v1/.well-known/scintx" ∨ path = "/.well-known/scintx").

(** [readBody] keeps at most 33 MiB, without an error beyond. *)
Definition bodyLimit : nat := N.to_nat (33 * 2 ^ 20).
Definition readBody (body : string) : string := take_str bodyLimit body.

(** What the middleware does with a request: hand it, with this body, to the routes,
answer it, or panic.  The body is the bytes sent or the error of reading them;
[None] is a verifier that is not configured. *)
Inductive Gate :=
| Forward (body : res string string)
| Unreadable
| Unauthorized (errs : list (string * AuthErr))
| Panicked.

Definition Middleware (v : option AuthConfig) (now : Time) (req : Request) (body : res string string) : Gate :=
  match v with
  | None => Forward body
  | Some cfg =>
      if isPublicPath (Rq_Path req) then Forward body
      else match body with
           | Err _ => Unreadable
           | Ok b =>
               match verify cfg now req (readBody b) with
               | None => Panicked
               | Some (Err errs) => Unauthorized errs
               | Some (Ok _) => Forward (Ok (readBody b))
               end
           end
  end.

Definition NewVerifier (cfg : AuthConfig) : option AuthConfig := if Enabled cfg then Some cfg else None.
End verify.

(** ** Signing and verifying *)

(** A key id [%q] prints as it is and that ends at its quote. *)
Definition plain_char (c : ascii) : bool :=
  is_graphic c && negb (bool_decide (c = chr 34)) && negb (bool_decide (c = chr 92)) && negb (bool_decide (c = ";"%char)).
Definition plain_key (k : string) : Prop := k ≠ "" ∧ all_chars plain_char k = true.

Lemma quote_plain k : all_chars plain_char k = true → quote_go k = dq +:+ k +:+ dq.
Proof.
  intros Hk. unfold quote_go. do 2 f_equal. induction k as [|c k IH]; simpl in *; [done|].
  apply andb_true_iff in Hk as [Hc Hk]. rewrite IH //. unfold plain_char in Hc.
  rewrite !andb_true_iff !negb_true_iff !bool_decide_eq_false in Hc. destruct Hc as (((Hg & H34) & H92) & _).
  apply bool_decide_eq_true in Hg. unfold quote_char.
  assert (byte_of c ≠ 34 ∧ byte_of c ≠ 92)%N as [? ?].
  { split; intros Hb; [apply H34|apply H92]; rewrite -(ascii_N_embedding c); change (N_of_ascii c) with (byte_of c); by rewrite Hb. }
  rewrite !bool_decide_false //; lia.
Qed.

Lemma rev_app_app a b c : String.rev_app (a +:+ b) c = String.rev_app b (String.rev_app a c).
Proof. revert c. induction a as [|x a IH]; intros c; [by rewrite app_nil_l|]. rewrite app_cons /=. apply IH. Qed.

Lemma TrimSpace_between c s d : is_graphic c = true → is_graphic d = true → TrimSpace (String c (s +:+ str1 d)) = String c (s +:+ str1 d).
Proof.
  intros Hc Hd. apply TrimSpace_ends. unfold ends_graphic. unfold String.rev. rewrite -app_cons rev_app_app /=. by rewrite Hc Hd.
Qed.

Lemma Trim_quotes k : all_chars plain_char k = true → Trim (dq +:+ k +:+ dq) (chr 34) = k.
Proof.
  intros Hk. unfold Trim.
  assert (TrimLeft (dq +:+ k +:+ dq) (chr 34) = TrimLeft (k +:+ dq) (chr 34)) as -> by done.
  assert (∀ k, all_chars plain_char k = true → TrimRight (k +:+ dq) (chr 34) = k) as Hr.
  { clear k Hk. induction k as [|c k IH]; [done|]. simpl. rewrite andb_true_iff. intros [Hc Hk].
    rewrite IH //. destruct k; [|done].
    unfold plain_char in Hc. rewrite !andb_true_iff !negb_true_iff !bool_decide_eq_false in Hc. case_decide; [|done]. naive_solver. }
  destruct k as [|c k]; [done|]. simpl in Hk. pose proof Hk as [Hc _]%andb_true_iff.
  assert (TrimLeft (String c k +:+ dq) (chr 34) = String c k +:+ dq) as ->; [|by apply Hr].
  rewrite app_cons /=. rewrite bool_decide_false //. intros ->. done.
Qed.

(** The names [SignRequest] covers: the digest and the content type are optional. *)
Definition covered (digest ctype : bool) : list string :=
  ["@method"; "@path"] ++ (if digest then ["content-digest"] else []) ++ (if ctype then ["content-type"] else []).

Lemma sign_components_names req body :
  map fst (sign_components req body) = covered (bool_decide (body ≠ "")) (bool_decide (header req "Content-Type" ≠ "")).
Proof. unfold sign_components, covered. by repeat case_bool_decide. Qed.

Lemma covered_text digest ctype :
  let text := Join (map (λ n, dq +:+ n +:+ dq) (covered digest ctype)) " " in
  has_char ")" text = false ∧ parse_components text = covered digest ctype.
Proof. destruct digest, ctype; vm_compute; done. Qed.

(** The parameters [SignRequest] writes, read back one by one. *)
Lemma param_parts created keyID comps raw :
  plain_key keyID → (0 < created < 2^63)%Z →
  param_loop (mkSignatureParams comps 0 0 "" "hmac-sha256" raw)
    ["created=" +:+ fmt_d created; "keyid=" +:+ dq +:+ keyID +:+ dq; "alg=" +:+ dq +:+ "hmac-sha256" +:+ dq]
  = Ok (mkSignatureParams comps created 0 keyID "hmac-sha256" raw).
Proof.
  intros [Hne Hk] Hcr. destruct (fmt_d_decimal created) as (Hd & Hdn & _); [lia|].
  assert (Hg : all_chars is_graphic (fmt_d created) = true) by (eapply all_chars_impl; [apply decimal_graphic|done]).
  assert (Hgk : all_chars is_graphic keyID = true).
  { eapply all_chars_impl; [|exact Hk]. intros c Hc. unfold plain_char in Hc. rewrite !andb_true_iff in Hc. naive_solver. }
  assert (Htd : Trim (fmt_d created) (chr 34) = fmt_d created).
  { unfold Trim. assert (has_char (chr 34) (fmt_d created) = false) as Hq by (by eapply all_chars_lacks; [|exact Hd]).
    revert Hq. generalize (fmt_d created). clear. intros s Hq.
    assert (TrimLeft s (chr 34) = s) as ->.
    { destruct s; [done|]. simpl in *. apply orb_false_iff in Hq as [Hq _]. apply bool_decide_eq_false in Hq.
      by rewrite bool_decide_false. }
    induction s as [|c s IH]; [done|]. simpl in *. apply orb_false_iff in Hq as [Hc Hq]. rewrite IH //.
    destruct s; [|done]. apply bool_decide_eq_false in Hc. by rewrite decide_False. }
  unfold param_loop. unfold param_step at 1. rewrite (TrimSpace_graphic ("created=" +:+ fmt_d created)).
  { by rewrite all_chars_app Hg. }
  change ("created=" +:+ fmt_d created) with ("created" +:+ String "=" (fmt_d created)). rewrite cut_at_app //.
  rewrite (bool_decide_false (_ = "")) // Htd ParseInt_fmt_d; [lia|]. simpl res_bind.
  unfold param_step at 1. rewrite (TrimSpace_graphic ("keyid=" +:+ dq +:+ keyID +:+ dq)).
  { by rewrite !all_chars_app Hgk. }
  change ("keyid=" +:+ dq +:+ keyID +:+ dq) with ("keyid" +:+ String "=" (dq +:+ keyID +:+ dq)). rewrite cut_at_app //.
  rewrite (bool_decide_false (_ = "")) // Trim_quotes //.
Qed.

(** What [parseSignatureInput] reads from the header [SignRequest] writes. *)
Lemma parse_signed digest ctype created keyID :
  plain_key keyID → (0 < created < 2^63)%Z →
  parseSignatureInput ("sig1=" +:+ sign_params (covered digest ctype) created keyID)
  = Ok (mkSignatureParams (covered digest ctype) created 0 keyID "hmac-sha256" (sign_params (covered digest ctype) created keyID)).
Proof.
  intros Hkey Hcr. pose proof Hkey as [Hne Hk]. destruct (covered_text digest ctype) as [Hpar Hcomps].
  destruct (fmt_d_decimal created) as (Hd & Hdn & _); [lia|].
  set (text := Join (map (λ n, dq +:+ n +:+ dq) (covered digest ctype)) " ") in *.
  set (params := sign_params (covered digest ctype) created keyID).
  set (parts := ["created=" +:+ fmt_d created; "keyid=" +:+ dq +:+ keyID +:+ dq; "alg=" +:+ dq +:+ "hmac-sha256" +:+ dq]).
  assert (Hp : params = String "(" text +:+ String ")" (String ";" (Join parts (str1 ";")))).
  { subst params. unfold sign_params. by rewrite quote_plain. }
  assert (Hq : ∃ m, params = String "(" (m +:+ str1 (chr 34))).
  { exists (text +:+ ");created=" +:+ fmt_d created +:+ ";keyid=" +:+ quote_go keyID +:+ ";alg=" +:+ dq +:+ "hmac-sha256").
    subst params. unfold sign_params. fold text. by rewrite !app_assoc. }
  destruct Hq as [m Hq]. unfold parseSignatureInput.
  rewrite (_ : TrimSpace ("sig1=" +:+ params) = "sig1" +:+ String "=" params).
  { rewrite Hq. change ("sig1=" +:+ String "(" (m +:+ str1 (chr 34))) with (String "s" (("ig1=(" +:+ m) +:+ str1 (chr 34))).
    by apply TrimSpace_between. }
  rewrite cut_at_app //. rewrite (_ : TrimSpace params = params); [rewrite Hq; by apply TrimSpace_between|].
  rewrite (_ : HasPrefix params "(" = true); [rewrite Hq; apply (HasPrefix_app "(")|]. simpl negb. cbv iota.
  rewrite {1}Hp cut_at_app; [apply orb_false_iff; split; [done|exact Hpar]|]. simpl drop_str. rewrite Hcomps.
  rewrite (_ : TrimPrefix (String ";" (Join parts (str1 ";"))) ";" = Join parts (str1 ";")); [done|].
  rewrite Split_Join; [done| |].
  { assert (has_char ";" (fmt_d created) = false) as H1 by (by eapply all_chars_lacks; [|exact Hd]).
    assert (has_char ";" keyID = false) as H2 by (by eapply all_chars_lacks; [|exact Hk]).
    subst parts. repeat constructor; rewrite ?has_char_app ?H1 ?H2; done. }
  subst parts. rewrite param_parts //. simpl res_bind. rewrite bool_decide_false //. simpl. intros [?|[?|?]]; [done|lia|done].
Qed.

Lemma length_append a b : String.length (a +:+ b) = String.length a + String.length b.
Proof. induction a as [|c a IH]; [done|]. rewrite app_cons /=. by rewrite IH. Qed.

Lemma take_str_app a b : take_str (String.length a) (a +:+ b) = a.
Proof. induction a as [|c a IH]; [by destruct b|]. rewrite app_cons /=. by rewrite IH. Qed.

Lemma parse_signature_value sig : parseSignatureValue ("sig1=:" +:+ sig +:+ ":") = Ok sig.
Proof.
  unfold parseSignatureValue.
  rewrite (_ : TrimSpace ("sig1=:" +:+ sig +:+ ":") = "sig1" +:+ String "=" (String ":" (sig +:+ ":"))).
  { change ("sig1=:" +:+ sig +:+ ":") with (String "s" ("ig1=:" +:+ (sig +:+ str1 ":"))). rewrite -app_assoc.
    by rewrite TrimSpace_between. }
  rewrite cut_at_app //. rewrite (_ : TrimSpace (String ":" (sig +:+ ":")) = String ":" (sig +:+ ":"));
    [by apply (TrimSpace_between ":" sig ":")|].
  rewrite (_ : HasPrefix (String ":" (sig +:+ ":")) ":" = true); [apply (HasPrefix_app ":")|].
  rewrite (_ : HasSuffix (String ":" (sig +:+ ":")) ":" = true).
  { unfold HasSuffix, String.rev. rewrite -app_cons rev_app_app. apply (HasPrefix_app ":"). }
  simpl. rewrite length_append /=. rewrite bool_decide_false; [lia|].
  rewrite (_ : String.length sig + 1 - 1 = String.length sig); [lia|]. by rewrite take_str_app.
Qed.

#[local] Opaque hmac_sha256 base64 Sum256 b64_decode.

(** The parts of a request its signature covers. *)
Lemma component_values_covered req req' body body' :
  Rq_Method req' = Rq_Method req → Rq_EscapedPath req' = Rq_EscapedPath req →
  header req' "Content-Type" = header req "Content-Type" →
  (body ≠ "" → header req' "Content-Digest" = ContentDigestSHA256 body) → body' = body ∨ body' = "" →
  component_values req' body' (map fst (sign_components req body)) = Ok (sign_components req body).
Proof.
  intros Hm Hp Hct Hd Hb. unfold sign_components. case_bool_decide as Hbody; case_bool_decide as Hctype; simpl;
    unfold component_value; simpl; rewrite ?Hm ?Hp ?Hct //=.
  - by rewrite (bool_decide_false (header req "Content-Type" = "")).
  - rewrite (Hd Hbody) (bool_decide_false (ContentDigestSHA256 body = "")) //. rewrite bool_decide_false //.
    by intros [? ?]; destruct Hb; subst.
  - rewrite (Hd Hbody) (bool_decide_false (ContentDigestSHA256 body = "")) //.
    rewrite (bool_decide_false (_ ∧ _)) /=; [by intros [? ?]; destruct Hb; subst|].
    by rewrite (bool_decide_false (header req "Content-Type" = "")).
Qed.

Lemma header_set req k k' v : header (set_header k v req) k' = if decide (k' = k) then v else header req k'.
Proof. unfold header, set_header. simpl. case_decide; subst; [by rewrite lookup_insert_eq|by rewrite lookup_insert_ne]. Qed.

Lemma unix_roundtrip t : (0 < Unix t < 2^62)%Z → unix_time (Unix t) = (t / Second * Second)%Z.
Proof.
  intros Ht. unfold unix_time, Unix in *. replace (t / Second - unixToInternal + unixToInternal)%Z with (t / Second)%Z by lia.
  unfold wrap64. f_equal. rewrite Z.mod_small; [|lia]. unfold unixToInternal in *. lia.
Qed.

Section sound.
Context `{Unicode}.

(** What verification makes of a request [SignRequest] signed: the body must be the
one signed, or missing. *)
Lemma verify_signed cfg req keyID secret body body' t clock now :
  plain_key keyID → secret ≠ "" → Auth_HMACKeys cfg !! keyID = Some secret →
  t ≠ zero_time → (0 < Unix t < 2^62)%Z → (0 <= Auth_MaxSkew cfg < 2^63)%Z →
  (- Auth_MaxSkew cfg <= now - t / Second * Second <= Auth_MaxSkew cfg)%Z → body' = body ∨ body' = "" →
  ∃ signed, SignRequest req keyID secret body t clock = Ok signed ∧ verifyHMAC cfg now signed body' = Ok ().
Proof.
  intros Hkey Hsec Hcfg Ht Hux Hmax Hskew Hb. unfold SignRequest.
  rewrite (bool_decide_false (_ ∨ _)); [by intros [?|?]; destruct Hkey|]. rewrite (bool_decide_false (t = zero_time)) //.
  set (req1 := if bool_decide (body = "") then req else _). cbv zeta. eexists. split; [done|].
  set (comps := sign_components req1 body). set (params := sign_params (map fst comps) (Unix t) keyID).
  set (sig := base64 (hmac_sha256 secret (signature_base comps params))).
  set (signed := set_header _ _ _).
  assert (Hin : header signed "Signature-Input" = "sig1=" +:+ params) by (subst signed; by rewrite !header_set).
  assert (Hsg : header signed "Signature" = "sig1=:" +:+ sig +:+ ":") by (subst signed; by rewrite !header_set).
  unfold verifyHMAC. rewrite Hin Hsg (bool_decide_false (_ ∨ _)); [by intros [?|?]|].
  subst params comps. rewrite sign_components_names. rewrite parse_signed; [done|lia|].
  cbn [res_bind SP_Alg SP_KeyID SP_Created SP_Expires SP_Components SP_Raw].
  rewrite (_ : EqualFold "hmac-sha256" "hmac-sha256" = true); [done|]. simpl negb. cbv iota. rewrite Hcfg unix_roundtrip //.
  assert (Hss : sub_sat now (t / Second * Second) = (now - t / Second * Second)%Z) by (unfold sub_sat; lia).
  rewrite Hss. assert (Hw : wrap64 (- Auth_MaxSkew cfg) = (- Auth_MaxSkew cfg)%Z).
  { unfold wrap64. rewrite Z.mod_small; lia. }
  rewrite Hw (bool_decide_false (_ ∨ _)); [lia|].
  rewrite (bool_decide_false (0 < 0 ∧ _)%Z); [lia|].
  unfold buildSignatureBase. cbn [SP_Components SP_Raw].
  rewrite -(sign_components_names req1 body) (component_values_covered req1 signed); try done.
  - subst signed. by rewrite !header_set.
  - intros Hbody. subst signed req1. rewrite !header_set. rewrite bool_decide_false //. by rewrite header_set.
  - simpl. rewrite parse_signature_value. simpl. subst sig. rewrite base64_roundtrip; [apply hmac_bytes|].
    rewrite bool_decide_true //.
Qed.

(** A client that signs with [SignRequest] and a configured key is let in: the
verification of the signed request succeeds, whatever method, path, body and
content type, within the clock skew allowed. *)
Theorem signed_request_verifies cfg req keyID secret body t clock now :
  plain_key keyID → secret ≠ "" → Auth_HMACKeys cfg !! keyID = Some secret →
  t ≠ zero_time → (0 < Unix t < 2^62)%Z → (0 <= Auth_MaxSkew cfg < 2^63)%Z →
  (- Auth_MaxSkew cfg <= now - t / Second * Second <= Auth_MaxSkew cfg)%Z →
  ∃ signed, SignRequest req keyID secret body t clock = Ok signed ∧ verifyHMAC cfg now signed body = Ok ().
Proof. intros. eapply verify_signed; eauto. Qed.

(** A signature does not protect the body from being removed: the digest is only
compared with a body that is not empty, so a signed request whose body was cut off
on the way verifies as well. *)
Theorem stripped_body_verifies cfg req keyID secret body t clock now :
  plain_key keyID → secret ≠ "" → Auth_HMACKeys cfg !! keyID = Some secret →
  t ≠ zero_time → (0 < Unix t < 2^62)%Z → (0 <= Auth_MaxSkew cfg < 2^63)%Z →
  (- Auth_MaxSkew cfg <= now - t / Second * Second <= Auth_MaxSkew cfg)%Z →
  ∃ signed, SignRequest req keyID secret body t clock = Ok signed ∧ verifyHMAC cfg now signed "" = Ok ().
Proof. intros. eapply verify_signed; eauto. Qed.

Lemma SignRequest_target req keyID secret body t clock signed :
  SignRequest req keyID secret body t clock = Ok signed →
  Rq_Method signed = Rq_Method req ∧ Rq_Path signed = Rq_Path req ∧ Rq_EscapedPath signed = Rq_EscapedPath req.
Proof. unfold SignRequest. case_bool_decide; [done|]. intros [= <-]. simpl. by case_bool_decide. Qed.

Lemma component_values_in req body l vs c :
  component_values req body l = Ok vs → c ∈ l → ∃ v, component_value req body c = Ok v.
Proof.
  revert vs. induction l as [|d l IH]; intros vs Hl Hc; [by apply elem_of_nil in Hc|]. simpl in Hl.
  apply res_bind_Ok in Hl as (v & Hv & Hl). apply res_bind_Ok in Hl as (vs' & Hvs & _).
  apply elem_of_cons in Hc as [->|Hc]; [by exists v|by eapply IH].
Qed.

(** [C27] Nobody gets in by signature without a secret of the configuration: an
accepted request names a configured key in its signature parameters, carries the
HMAC under that key's secret of the text built from the components it covers, was
created within the allowed skew and has not expired; and a covered digest is that
of the body received, unless the body is empty. *)
Theorem verifyHMAC_sound cfg now req body :
  verifyHMAC cfg now req body = Ok () →
  ∃ sp secret base sig, parseSignatureInput (header req "Signature-Input") = Ok sp
    ∧ Auth_HMACKeys cfg !! SP_KeyID sp = Some secret ∧ SP_Components sp ≠ []
    ∧ buildSignatureBase req sp body = Ok base
    ∧ parseSignatureValue (header req "Signature") = Ok sig ∧ b64_decode sig = Some (hmac_sha256 secret base)
    ∧ (wrap64 (- Auth_MaxSkew cfg) <= sub_sat now (unix_time (SP_Created sp)) <= Auth_MaxSkew cfg)%Z
    ∧ ((0 < SP_Expires sp)%Z → (now <= unix_time (SP_Expires sp))%Z)
    ∧ ("content-digest" ∈ SP_Components sp → body ≠ "" → header req "Content-Digest" = ContentDigestSHA256 body).
Proof.
  unfold verifyHMAC. case_bool_decide; [done|]. intros Hv. apply res_bind_Ok in Hv as (sp & Hsp & Hv).
  destruct (negb _); [done|]. destruct (Auth_HMACKeys cfg !! SP_KeyID sp) as [secret|] eqn:Ek; [|done].
  case_bool_decide as Hskew; [done|]. case_bool_decide as Hexp; [done|].
  apply res_bind_Ok in Hv as (base & Hbase & Hv). apply res_bind_Ok in Hv as (sig & Hsig & Hv).
  destruct (b64_decode sig) as [want|] eqn:Ew; [|done]. case_bool_decide as Hw; [|done]. subst want.
  exists sp, secret, base, sig. split_and!; try done; try lia.
  - unfold parseSignatureInput in Hsp. repeat case_match; try done. apply res_bind_Ok in Hsp as (sp' & _ & Hsp).
    case_bool_decide as Hi; [done|]. simplify_eq. intros He. apply Hi. auto.
  - intros Hin Hb. unfold buildSignatureBase in Hbase. apply res_bind_Ok in Hbase as (vs & Hvs & _).
    destruct (component_values_in _ _ _ _ _ Hvs Hin) as [v Hv']. unfold component_value in Hv'. simpl in Hv'.
    case_bool_decide; [done|]. case_bool_decide as Hd; [done|]. destruct (decide (header req "Content-Digest" = ContentDigestSHA256 body)); [done|].
    exfalso. by apply Hd.
Qed.

(** The base only depends on the parts covered. *)
Lemma component_value_uncovered req body method path body' headers c :
  (c = "@method" → method = Rq_Method req) → (c = "@path" → path = Rq_EscapedPath req) →
  (c = "content-digest" → body' = body) → headers = Rq_Header req →
  component_value (mkRequest method (Rq_Path req) path headers) body' c = component_value req body c.
Proof.
  intros Hm Hp Hd ->. unfold component_value. repeat case_bool_decide; try done; naive_solver.
Qed.

(** The verifier does not insist on any component: a signature that covers
neither the path nor the digest is accepted with every path and every body, once
it is accepted with one - so one signed request authorises others. *)
Theorem uncovered_parts_unchecked cfg now req body path body' sp :
  parseSignatureInput (header req "Signature-Input") = Ok sp →
  "@path" ∉ SP_Components sp → "content-digest" ∉ SP_Components sp →
  verifyHMAC cfg now (mkRequest (Rq_Method req) (Rq_Path req) path (Rq_Header req)) body' = verifyHMAC cfg now req body.
Proof.
  intros Hsp Hp Hd. unfold verifyHMAC. change (header (mkRequest _ _ _ _)) with (header req). case_bool_decide; [done|].
  rewrite Hsp. simpl. destruct (negb _); [done|]. destruct (Auth_HMACKeys cfg !! SP_KeyID sp) as [secret|]; [|done].
  do 2 (case_bool_decide; [done|]). unfold buildSignatureBase.
  assert (component_values (mkRequest (Rq_Method req) (Rq_Path req) path (Rq_Header req)) body' (SP_Components sp)
          = component_values req body (SP_Components sp)) as ->; [|done].
  revert Hp Hd. generalize (SP_Components sp). induction l as [|c l IH]; intros Hp Hd; simpl; [done|].
  rewrite IH; [set_solver..|]. rewrite (component_value_uncovered req body); [done|set_solver..|done| ]. done.
Qed.

(** ** Configuration and middleware *)
Lemma auth_profiles_known parts acc l :
  auth_profiles parts acc = Ok l → (∀ p, p ∈ acc → p = ProfileHMAC ∨ p = ProfileBearer) →
  ∀ p, p ∈ l → p = ProfileHMAC ∨ p = ProfileBearer.
Proof.
  revert acc. induction parts as [|x parts IH]; intros acc; simpl; [by intros [= <-]|].
  assert (∀ v, v = ProfileHMAC ∨ v = ProfileBearer → (∀ p, p ∈ acc → p = ProfileHMAC ∨ p = ProfileBearer) →
    ∀ p, p ∈ appendUnique acc v → p = ProfileHMAC ∨ p = ProfileBearer) as Happ.
  { intros v Hv Ha p. unfold appendUnique. case_bool_decide; [apply Ha|]. rewrite elem_of_app list_elem_of_singleton.
    intros [?| ->]; auto. }
  intros Hl Ha. revert Hl. do 2 (case_bool_decide; [intros Hl; eapply IH; [exact Hl|]; apply Happ; auto|]).
  case_bool_decide; [intros Hl; by eapply IH|done].
Qed.

Lemma hmac_keys_nonempty parts acc keys :
  hmac_keys parts acc = Ok keys → map_Forall (λ k s, k ≠ "" ∧ s ≠ "") acc → map_Forall (λ k s, k ≠ "" ∧ s ≠ "") keys.
Proof.
  revert acc. induction parts as [|x parts IH]; intros acc; simpl; [by intros [= <-]|].
  case_bool_decide; [apply IH|]. destruct (cut_at _ _) as [[k v]|]; [|done]. case_bool_decide as Hn; [done|].
  intros Hk Ha. eapply IH; [exact Hk|]. apply map_Forall_insert_2; [|done]. naive_solver.
Qed.

Lemma bearer_tokens_nonempty parts : "" ∉ bearer_tokens parts.
Proof.
  unfold bearer_tokens. assert (∀ acc : gset string, "" ∉ acc → "" ∉ fold_left (λ acc tok, let tok := TrimSpace tok in
    if bool_decide (tok = "") then acc else {[tok]} ∪ acc) parts acc) as Hf; [|apply Hf; set_solver].
  induction parts as [|x parts IH]; intros acc Ha; simpl; [done|]. apply IH. case_bool_decide; set_solver.
Qed.

Lemma check_credentials_ok profiles keys tokens :
  check_credentials profiles keys tokens = Ok () →
  (ProfileHMAC ∈ profiles → keys ≠ ∅) ∧ (ProfileBearer ∈ profiles → tokens ≠ ∅).
Proof.
  induction profiles as [|p l IH]; simpl; [set_solver|]. case_bool_decide as H1; [done|]. case_bool_decide as H2; [done|].
  intros Hl. destruct (IH Hl) as [Hh Hb]. split; intros [Heq|Hin]%elem_of_cons; [|by apply Hh| |by apply Hb]; intros He.
  - by apply H1.
  - by apply H2.
Qed.

(** Authentication cannot be half configured: a configuration the gateway starts
with is either off, or every enabled profile is one of the two known ones and has
credentials, none of them empty. *)
Theorem auth_config_sound getenv cfg :
  ConfigFromEnv getenv = Ok cfg →
  (∀ p, p ∈ Auth_Profiles cfg → p = ProfileHMAC ∨ p = ProfileBearer)
  ∧ (ProfileHMAC ∈ Auth_Profiles cfg → Auth_HMACKeys cfg ≠ ∅)
  ∧ (ProfileBearer ∈ Auth_Profiles cfg → Auth_BearerTokens cfg ≠ ∅)
  ∧ map_Forall (λ k s, k ≠ "" ∧ s ≠ "") (Auth_HMACKeys cfg) ∧ "" ∉ Auth_BearerTokens cfg.
Proof.
  unfold ConfigFromEnv. case_bool_decide.
  { intros [= <-]. simpl. split_and!; try set_solver. apply map_Forall_empty. }
  intros Hc. apply res_bind_Ok in Hc as (profiles & Hp & Hc). apply res_bind_Ok in Hc as (skew & _ & Hc).
  apply res_bind_Ok in Hc as (keys & Hk & Hc). apply res_bind_Ok in Hc as ([] & Hcr & Hc). simplify_eq. simpl.
  destruct (check_credentials_ok _ _ _ Hcr) as [Hh Hb]. split_and!; try done.
  - eapply auth_profiles_known; [exact Hp|set_solver].
  - eapply hmac_keys_nonempty; [exact Hk|apply map_Forall_empty].
  - apply bearer_tokens_nonempty.
Qed.

Lemma verify_profiles_spec cfg now req body profiles errs :
  verify_profiles cfg now req body profiles errs = Some (Ok ()) →
  ProfileHMAC ∈ profiles ∧ verifyHMAC cfg now req body = Ok () ∨ ProfileBearer ∈ profiles ∧ verifyBearer cfg req = Ok ().
Proof.
  revert errs. induction profiles as [|p l IH]; intros errs; simpl; [done|].
  destruct (decide (p = ProfileHMAC)) as [->|Hh].
  - rewrite bool_decide_true //. destruct (verifyHMAC cfg now req body) as [[]|e]; [intros _; left; set_solver|].
    intros Hv. assert (verify_profiles cfg now req body l (errs ++ [(ProfileHMAC, e)]) = Some (Ok ())) as Hv' by (by destruct e).
    apply IH in Hv' as [[? ?]|[? ?]]; [done|right; set_solver].
  - rewrite bool_decide_false //. destruct (decide (p = ProfileBearer)) as [->|Hb].
    + rewrite bool_decide_true //. destruct (verifyBearer cfg req) as [[]|e]; [intros _; right; set_solver|].
      intros Hv. assert (verify_profiles cfg now req body l (errs ++ [(ProfileBearer, e)]) = Some (Ok ())) as Hv' by (by destruct e).
      apply IH in Hv' as [[? ?]|[? ?]]; [left; set_solver|done].
    + rewrite bool_decide_false //. intros Hv. apply IH in Hv as [[? ?]|[? ?]]; [left|right]; set_solver.
Qed.

(** One profile that accepts is enough, whatever its place in the list. *)
Lemma verify_profiles_hmac cfg now req body profiles errs :
  ProfileHMAC ∈ profiles → verifyHMAC cfg now req body = Ok () →
  verify_profiles cfg now req body profiles errs = Some (Ok ()).
Proof.
  intros Hin Hv. revert errs. induction profiles as [|p l IH]; intros errs; [by apply elem_of_nil in Hin|]. simpl.
  case_bool_decide as Hp; [by rewrite Hv|]. assert (ProfileHMAC ∈ l) as Hl by set_solver. specialize (IH Hl).
  case_bool_decide; [|apply IH]. unfold verifyBearer. case_bool_decide; [apply IH|]. destruct (negb _); [apply IH|].
  case_bool_decide; [done|apply IH].
Qed.

Lemma readBody_short b : String.length b ≤ bodyLimit → readBody b = b.
Proof.
  unfold readBody. generalize bodyLimit. intros n. revert n. induction b as [|c b IH]; intros [|n] Hn; simpl in *; [done..|lia|].
  by rewrite IH; [lia|].
Qed.

(** What lets a request in: a signature that verifies, or a bearer token of the list. *)
Definition accepted (cfg : AuthConfig) (now : Time) (req : Request) (body : res string string) : Prop :=
  (ProfileHMAC ∈ Auth_Profiles cfg ∧ header req "Signature" ≠ "" ∧ (∃ sent, body = Ok sent ∧ verifyHMAC cfg now req (readBody sent) = Ok ()))
  ∨ (ProfileBearer ∈ Auth_Profiles cfg
     ∧ ∃ tok, tok ∈ Auth_BearerTokens cfg ∧ tok ≠ "" ∧ TrimSpace (TrimPrefix (header req "Authorization") "Bearer ") = tok).

(** With authentication on, a request reaches the routes only on the discovery path or
when an enabled profile accepts it. *)
Lemma Middleware_guards getenv cfg now req body b :
  ConfigFromEnv getenv = Ok cfg → Enabled cfg = true → isPublicPath (Rq_Path req) = false →
  Middleware (NewVerifier cfg) now req body = Forward b → accepted cfg now req body.
Proof.
  intros Hcfg Hen Hpub. unfold NewVerifier. rewrite Hen. unfold Middleware. rewrite Hpub. destruct body as [sent|]; [|done].
  destruct (verify cfg now req (readBody sent)) as [[[]|errs]|] eqn:Ev; try done. intros _.
  apply verify_profiles_spec in Ev as [[Hin Hv]|[Hin Hv]].
  - left. split_and!; [done| |by eexists]. unfold verifyHMAC in Hv. case_bool_decide as Hs; [done|]. naive_solver.
  - right. split; [done|]. unfold verifyBearer in Hv. case_bool_decide; [done|]. destruct (negb _); [done|].
    case_bool_decide as Ht; [|done]. eexists. split; [exact Ht|]. split; [|done]. intros He. rewrite He in Ht.
    revert Ht. unfold ConfigFromEnv in Hcfg. case_bool_decide; [simplify_eq; set_solver|].
    apply res_bind_Ok in Hcfg as (? & _ & Hc). apply res_bind_Ok in Hc as (? & _ & Hc).
    apply res_bind_Ok in Hc as (? & _ & Hc). apply res_bind_Ok in Hc as ([] & _ & Hc). simplify_eq. simpl. apply bearer_tokens_nonempty.
Qed.
End sound.

Lemma take_str_length n s : String.length (take_str n s) = Nat.min n (String.length s).
Proof. revert s. induction n as [|n IH]; intros [|c s]; simpl; auto. Qed.

(** A body over 33 MiB is cut, not refused: what an accepted request hands to the
routes then is shorter than what was sent. *)
Lemma long_body_truncated `{Unicode} cfg now req sent b :
  isPublicPath (Rq_Path req) = false → bodyLimit < String.length sent →
  Middleware (Some cfg) now req (Ok sent) = Forward b →
  ∃ kept, b = Ok kept ∧ String.length kept = bodyLimit ∧ kept ≠ sent.
Proof.
  intros Hp Hl. unfold Middleware. rewrite Hp. destruct (verify _ _ _ _) as [[[]|]|]; try done. intros [= <-].
  exists (readBody sent). assert (String.length (readBody sent) = bodyLimit) as Hr.
  { unfold readBody. rewrite take_str_length. lia. }
  split_and!; [done..|]. intros He. rewrite He in Hr. lia.
Qed.

Lemma readBody_pair : readBody "{}" = "{}".
Proof.
  unfold readBody. assert (2 ≤ bodyLimit) as Hn by (unfold bodyLimit; lia). revert Hn. generalize bodyLimit.
  intros [|[|[|n]]] Hn; [lia..|done|done].
Qed.

(** ** Runs *)
Section runs.
#[local] Existing Instance ascii_unicode.

Definition sample_auth : AuthConfig := mkAuthConfig [ProfileHMAC; ProfileBearer] {["k1" := "s3cret"]} {["tok"]} (5 * Minute)%Z.
Definition sample_request : Request :=
  mkRequest "POST" "/v1/submissions" "/v1/submissions" {["Content-Type" := "application/json"]}.
Definition sample_time : Time := ((unixToInternal + 1700000000) * Second + 5)%Z.

Lemma signed_request_verifies_witness :
  ∃ signed, SignRequest sample_request "k1" "s3cret" "{}" sample_time 0 = Ok signed
    ∧ verifyHMAC sample_auth (sample_time + Minute) signed "{}" = Ok ().
Proof.
  apply (signed_request_verifies sample_auth sample_request "k1" "s3cret" "{}" sample_time 0 (sample_time + Minute));
    try (vm_compute; done); vm_compute; split; congruence.
Defined.

Lemma stripped_body_verifies_witness :
  ∃ signed, SignRequest sample_request "k1" "s3cret" "{}" sample_time 0 = Ok signed
    ∧ verifyHMAC sample_auth (sample_time + Minute) signed "" = Ok ().
Proof.
  apply (stripped_body_verifies sample_auth sample_request "k1" "s3cret" "{}" sample_time 0 (sample_time + Minute));
    try (vm_compute; done); vm_compute; split; congruence.
Defined.

(** A request signed over its method only. *)
Definition method_only : Request :=
  let params := "(" +:+ dq +:+ "@method" +:+ dq +:+ ");created=1700000000;keyid=" +:+ dq +:+ "k1" +:+ dq in
  let base := signature_base [("@method", "POST")] params in
  set_header "Signature" ("s=:" +:+ base64 (hmac_sha256 "s3cret" base) +:+ ":")
    (set_header "Signature-Input" ("s=" +:+ params) sample_request).

Definition method_params : signatureParams :=
  mkSignatureParams ["@method"] 1700000000 0 "k1" "hmac-sha256"
    ("(" +:+ dq +:+ "@method" +:+ dq +:+ ");created=1700000000;keyid=" +:+ dq +:+ "k1" +:+ dq).

Lemma uncovered_parts_unchecked_witness :
  verifyHMAC sample_auth sample_time (mkRequest "POST" "/v1/submissions" "/v1/artifacts" (Rq_Header method_only)) "other" = Ok ().
Proof.
  etransitivity.
  - apply (uncovered_parts_unchecked sample_auth sample_time method_only "" "/v1/artifacts" "other" method_params).
    + vm_compute. reflexivity.
    + apply (bool_decide_unpack _). vm_compute. exact I.
    + apply (bool_decide_unpack _). vm_compute. exact I.
  - vm_compute. reflexivity.
Defined.

Lemma verifyHMAC_sound_witness :
  ∃ sp secret, parseSignatureInput (header method_only "Signature-Input") = Ok sp ∧ Auth_HMACKeys sample_auth !! SP_KeyID sp = Some secret.
Proof.
  destruct (verifyHMAC_sound sample_auth sample_time method_only "{}") as (sp & secret & _ & _ & H1 & H2 & _).
  - vm_compute. reflexivity.
  - exists sp, secret. split; [exact H1|exact H2].
Defined.

Definition sample_env (k : string) : string :=
  if bool_decide (k = "SCINTX_AUTH") then "hmac, Bearer"
  else if bool_decide (k = "SCINTX_AUTH_HMAC_KEYS") then "k1:s3cret" else if bool_decide (k = "SCINTX_AUTH_BEARER_TOKENS") then "tok," else "".

Lemma auth_config_sound_witness : ConfigFromEnv sample_env = Ok sample_auth ∧ Auth_HMACKeys sample_auth ≠ ∅.
Proof.
  assert (Hc : ConfigFromEnv sample_env = Ok sample_auth) by (vm_compute; reflexivity). split; [exact Hc|].
  apply (auth_config_sound sample_env sample_auth Hc). vm_compute. by left.
Defined.

(** A lone colon as signature crashes the handler. *)
Example lone_colon_panics :
  verify sample_auth sample_time (set_header "Signature" "s=:" method_only) "" = None.
Proof. vm_compute. reflexivity. Qed.
End runs.
