(* ===== verification/Api.v ===== *)
(** * Serving a request: [Server.Routes] behind [Verifier.Middleware]

What [internal/server/server.go] puts together in [Routes]: the authentication
middleware of [internal/auth/middleware.go] in front of the mux, the mux in front of
the handlers.  The decoding of request bodies and the texts of library errors are
inputs. *)
From S2P Require Import Prelude GoString GoFloat GoTime Types Purl Store StoreSpec Gateway Fingerprint Policy.
From S2P Require Import Sql Orchestrator Workers Queue Server Encoding Auth.

(** ** Paths ([net/http]) *)

(** The segments the mux matches: of the escaped path, each unescaped on its own (as
it is when that fails); a path that is not clean is redirected, not matched. *)
Definition path_segments (escaped : string) : option (list string) :=
  match Split escaped "/"%char with
  | "" :: segs =>
      if forallb (λ s, negb (bool_decide (s = "" ∨ s = "." ∨ s = ".."))) segs
      then Some (map (λ s, default s (unescape s)) segs) else None
  | _ => None
  end.

(** What a client sees: the response of the handler of an endpoint, the refusal of the
middleware, the mux's own answer (not found, method not allowed, redirect), or a
connection closed by a panic. *)
Inductive Outcome :=
| Handled (e : Endpoint) (r : Response)
| Refused (r : Response)
| NoRoute
| Aborted.

Section serve.
Context `{Store ST} `{ResultCache C} `{Env} `{Unicode} `{JsonNumbers} `{!Dispatcher D ST}.
Context (o : Orchestrator) (getenv : string → string).
Context (decode_create : res string string → res string createSubmissionRequest).
Context (decode_adjudicate : res string string → res string AdjudicateRequest).
Context (lib_text : AuthErr → string).

Definition auth_err_text (e : AuthErr) : string :=
  match e with AuthMsg m => m | BadInteger f _ => f +:+ ": " +:+ lib_text e | _ => "signature base64: " +:+ lib_text e end.

Definition auth_detail (errs : list (string * AuthErr)) : string :=
  match errs with
  | [] => "no auth profile configured"
  | _ => Join (map (λ pe, (if bool_decide (pe.1 = ProfileHMAC) then "hmac: " else "bearer: ") +:+ auth_err_text pe.2) errs) "; "
  end.

Definition writeAuthProblem (status : Z) (title detail : string) : Response :=
  mkResponse status [("Content-Type", "application/problem+json");
      ("WWW-Authenticate", "HMAC-SHA256 realm=" +:+ quote_go "scintx" +:+ ", Bearer realm=" +:+ quote_go "scintx")]
    (BProblem (mkProblemDetails ("https://scintx.example/problems/" +:+ title) title status detail "")).

(** The handler of each endpoint; [ctx] is the error of the request's context,
[subject] the query parameter of the event list. *)
Definition handle (v : option AuthConfig) (e : Endpoint) (ctx : option string) (rq : Request) (subject : string)
    (body : res string string) (sv : Server ST C D) : Server ST C D * Response :=
  match e with
  | CreateSubmission => createSubmission ctx (decode_create body) (header rq "Idempotency-Key") sv
  | GetSubmissionE id => (sv, getSubmission id sv)
  | ListResults id => (sv, listSubmissionResults id sv)
  | GetMerged id => (sv, getMergedResult id sv)
  | ResumeSubmission id => resumeSubmission ctx id sv
  | AdjudicateSubmission id => adjudicateSubmission o id (decode_adjudicate body) sv
  | GetResultE id => (sv, getResult id sv)
  | GetDecisionE id => (sv, getDecision id sv)
  | ListProviders => (sv, listProviders sv)
  | GetProviderCapabilities id => (sv, getProviderCapabilities id sv)
  | UploadArtifact => uploadArtifact (maxArtifactBodyBytes getenv) body (header rq "Content-Type") sv
  | CheckArtifact digest => (sv, checkArtifact digest sv)
  | WellKnown => (sv, wellKnown (Auth_Profiles <$> v))
  | ListEvents => (sv, listEvents subject sv)
  end.

(** [Routes().ServeHTTP] at time [now]. *)
Definition ServeHTTP (v : option AuthConfig) (now : Time) (ctx : option string) (rq : Request) (subject : string)
    (body : res string string) (sv : Server ST C D) : Server ST C D * Outcome :=
  match Middleware v now rq body with
  | Panicked => (sv, Aborted)
  | Unreadable => (sv, Refused (writeAuthProblem 400 "invalid_request" "failed to read body"))
  | Unauthorized errs => (sv, Refused (writeAuthProblem 401 "unauthorized" (auth_detail errs)))
  | Forward body =>
      match path_segments (Rq_EscapedPath rq) ≫= route (Rq_Method rq) with
      | None => (sv, NoRoute)
      | Some e => let r := handle v e ctx rq subject body sv in (r.1, Handled e r.2)
      end
  end.
End serve.

(** ** Paths and endpoints *)

Lemma Join_head c w l sep : Join (String c w :: l) sep = String c (Join (w :: l) sep).
Proof. by destruct l. Qed.

Lemma Join_empty l sep : l ≠ [] → Join ("" :: l) sep = sep +:+ Join l sep.
Proof. by destruct l. Qed.

Lemma hex_value_slash c x : hex_value c = Some x → "/"%char ≠ c.
Proof. intros Hx <-. by vm_compute in Hx. Qed.

Definition unescaped (s v : string) : Prop := unescape s = Some v.

(** Unescaping a path and unescaping its segments agree. *)
Lemma unescape_segments s p :
  unescape s = Some p → ∃ ps, Forall2 unescaped (Split s "/"%char) ps ∧ p = Join ps "/".
Proof.
  remember (String.length s) as n eqn:Hn. revert s p Hn. induction n as [n IH] using lt_wf_ind. intros s p -> Hs.
  assert (∀ s' t, String.length s' < String.length s → unescape s' = Some t →
    ∃ w ws v vs, Split s' "/"%char = w :: ws ∧ Forall2 unescaped ws vs ∧ unescape w = Some v ∧ t = Join (v :: vs) "/") as Hstep.
  { intros s' t Hl Ht. destruct (IH _ Hl s' t eq_refl Ht) as (ps & Hm & ->).
    destruct (Split s' "/"%char) as [|w ws] eqn:Es; [by apply Split_nonempty in Es|].
    apply Forall2_cons_inv_l in Hm as (v & vs & Hw & Hvs & ->). by exists w, ws, v, vs. }
  destruct s as [|c s1]; simpl in Hs; [simplify_eq; exists [""]; by repeat constructor|]. simpl. case_decide as Hc.
  - subst c. destruct s1 as [|a [|b s2]]; try done.
    destruct (hex_value a) as [x|] eqn:Ea; [|done]. destruct (hex_value b) as [y|] eqn:Eb; [|done].
    destruct (unescape s2) as [t|] eqn:Et; [|done]. simplify_eq.
    destruct (Hstep s2 t) as (w & ws & v & vs & Hsp & Hvs & Hv & ->); [simpl; lia|done|].
    simpl. rewrite (decide_False (P := "/"%char = a)); [by eapply hex_value_slash|].
    rewrite (decide_False (P := "/"%char = b)); [by eapply hex_value_slash|]. rewrite Hsp.
    eexists (_ :: vs). rewrite -Join_head. split; [|done]. constructor; [|done]. unfold unescaped. simpl. by rewrite Ea Eb Hv.
  - destruct (unescape s1) as [t|] eqn:Et; [|done]. simplify_eq. case_decide as Hsl.
    + subst c. destruct (Hstep s1 t) as (w & ws & v & vs & Hsp & Hvs & Hv & ->); [simpl; lia|done|].
      exists ("" :: v :: vs). rewrite Hsp. split; [|done]. by repeat constructor.
    + destruct (Hstep s1 t) as (w & ws & v & vs & Hsp & Hvs & Hv & ->); [simpl; lia|done|].
      rewrite Hsp. exists (String c v :: vs). rewrite Join_head. split; [|done]. constructor; [|done].
      unfold unescaped. simpl. rewrite decide_False //. by rewrite Hv.
Qed.

Lemma path_of_segments escaped path segs :
  unescape escaped = Some path → path_segments escaped = Some segs → segs ≠ [] → path = "/" +:+ Join segs "/".
Proof.
  intros Hu Hs Hne. destruct (unescape_segments _ _ Hu) as (ps & Hm & ->). unfold path_segments in Hs.
  destruct (Split escaped "/"%char) as [|[|] ws]; try done. destruct (forallb _ ws); [|done]. simplify_eq.
  apply Forall2_cons_inv_l in Hm as (v & vs & Hv & Hvs & ->). injection Hv as <-.
  assert (map (λ s, default s (unescape s)) ws = vs) as Hmap.
  { clear -Hvs. induction Hvs as [|w v ws vs Hw _ IH]; [done|]. unfold unescaped in Hw. simpl. by rewrite Hw IH. }
  rewrite Hmap in Hne |- *. by rewrite -(Join_empty vs "/" Hne).
Qed.

Lemma route_in_spec l method segs e :
  route_in l method segs = Some e →
  ∃ m pat f w, (m, pat, f) ∈ l ∧ match_segments pat segs "" = Some w ∧ e = f w ∧ (method = m ∨ m = "GET" ∧ method = "HEAD").
Proof.
  induction l as [|[[m pat] f] l IH]; simpl; [done|].
  destruct (match_segments pat segs "") as [w|] eqn:Em; [case_bool_decide|].
  - intros [= <-]. exists m, pat, f, w. split_and!; [by left|done..].
  - intros (m' & pat' & f' & w' & Hin & ?)%IH. exists m', pat', f', w'. split; [by right|done].
  - intros (m' & pat' & f' & w' & Hin & ?)%IH. exists m', pat', f', w'. split; [by right|done].
Qed.

Ltac match_path H :=
  cbn [match_segments] in H;
  repeat match type of H with
    | (if bool_decide (?a = ?b) then _ else _) = _ =>
        destruct (decide (a = b)) as [<-|?]; [rewrite bool_decide_true // in H|rewrite bool_decide_false // in H]
    | match ?l with [] => _ | _ :: _ => _ end = _ => destruct l as [|? ?]; [try done|try done]
    end.

(** The endpoint a public path is routed to, however it is escaped. *)
Lemma route_public method escaped path segs e :
  unescape escaped = Some path → path_segments escaped = Some segs → isPublicPath path = true →
  route method segs = Some e → e = WellKnown.
Proof.
  intros Hu Hs Hp Hr. assert (segs ≠ []) as Hne by (by intros ->).
  rewrite (path_of_segments _ _ _ Hu Hs Hne) in Hp. clear Hu Hs Hne. apply bool_decide_eq_true in Hp.
  apply route_in_spec in Hr as (m & pat & f & w & Hin & Hm & -> & _). unfold Routes in Hin.
  repeat (apply elem_of_cons in Hin as [Hin|Hin]; [injection Hin as -> -> ->; match_path Hm; first [done|by destruct Hp]|]).
  by apply elem_of_nil in Hin.
Qed.

(** Only [POST] patterns lead to a handler that can change the server. *)
Definition writes (e : Endpoint) : bool :=
  match e with CreateSubmission | ResumeSubmission _ | AdjudicateSubmission _ | UploadArtifact => true | _ => false end.

Lemma route_writes method segs e : route method segs = Some e → writes e = true → method = "POST".
Proof.
  intros (m & pat & f & w & Hin & _ & -> & Hm)%route_in_spec Hw. unfold Routes in Hin.
  repeat (apply elem_of_cons in Hin as [Hin|Hin]; [injection Hin as -> -> ->; simpl in Hw; naive_solver|]).
  by apply elem_of_nil in Hin.
Qed.

Section serving.
Context `{Store ST} `{ResultCache C} `{Env} `{Unicode} `{JsonNumbers} `{!Dispatcher D ST}.
Context (o : Orchestrator) (getenv : string → string).
Context (decode_create : res string string → res string createSubmissionRequest).
Context (decode_adjudicate : res string string → res string AdjudicateRequest).
Context (lib_text : AuthErr → string).
Implicit Types sv : Server ST C D.
Abbreviation serve := (ServeHTTP o getenv decode_create decode_adjudicate lib_text).
Abbreviation handler := (handle o getenv decode_create decode_adjudicate).

Lemma handle_reads v e ctx rq subject body sv : writes e = false → (handler v e ctx rq subject body sv).1 = sv.
Proof. by destruct e. Qed.

(** [C7] With authentication configured, nothing but the discovery document is served,
and nothing in the server changes, without credentials: a request an endpoint
handles was accepted by an enabled profile, whatever escapes its path is written
with; only an accepted [POST] changes the server; and a request that is not
accepted is refused with 401 (400 when its body cannot be read) or dropped. *)
Theorem ServeHTTP_safe cfg now ctx rq subject body sv :
  ConfigFromEnv getenv = Ok cfg → Enabled cfg = true → unescape (Rq_EscapedPath rq) = Some (Rq_Path rq) →
  let r := serve (NewVerifier cfg) now ctx rq subject body sv in
  (∀ e resp, r.2 = Handled e resp → e = WellKnown ∨ accepted cfg now rq body)
  ∧ (r.1 = sv ∨ Rq_Method rq = "POST" ∧ accepted cfg now rq body)
  ∧ (isPublicPath (Rq_Path rq) = false →
     accepted cfg now rq body ∨ r.2 = Aborted ∨ ∃ resp, r.2 = Refused resp ∧ (rs_status resp = 400 ∨ rs_status resp = 401)%Z).
Proof.
  intros Hcfg Hen Hurl. cbv zeta. unfold ServeHTTP.
  destruct (Middleware (NewVerifier cfg) now rq body) as [b| |errs|] eqn:Em;
    [|by split_and!; [|left|intros _; right; right; eexists; split; [|left]]
     |by split_and!; [|left|intros _; right; right; eexists; split; [|right]]
     |by split_and!; [|left|intros _; right; left]].
  assert (isPublicPath (Rq_Path rq) = true ∨ accepted cfg now rq body) as Hacc.
  { destruct (isPublicPath (Rq_Path rq)) eqn:Ep; [by left|right]. by eapply Middleware_guards. }
  assert (isPublicPath (Rq_Path rq) = false → accepted cfg now rq body) as Hnp by (intros Hp; destruct Hacc as [Hpub|]; [congruence|done]).
  destruct (path_segments (Rq_EscapedPath rq)) as [segs|] eqn:Es; simpl; [|by split_and!; [|left|left; apply Hnp]].
  destruct (route (Rq_Method rq) segs) as [e|] eqn:Er; simpl; [|by split_and!; [|left|left; apply Hnp]].
  assert (e = WellKnown ∨ accepted cfg now rq body) as He.
  { destruct Hacc as [Hpub|]; [left|by right]. by eapply route_public. }
  split_and!.
  - by intros e' resp [= <- <-].
  - destruct (writes e) eqn:Ew; [|left; by apply handle_reads].
    right. split; [by eapply route_writes|]. by destruct He as [->|].
  - intros Hp. left. by apply Hnp.
Qed.

(** [C26] A client that signs its request with a configured key is served: within the
clock skew, the signed request reaches the handler its method and path name, with
the body it was signed with (up to the 33 MiB the middleware reads). *)
Theorem signed_client_served cfg rq keyID secret body t clock now ctx subject sv e :
  plain_key keyID → secret ≠ "" → Auth_HMACKeys cfg !! keyID = Some secret → ProfileHMAC ∈ Auth_Profiles cfg →
  t ≠ zero_time → (0 < Unix t < 2^62)%Z → (0 <= Auth_MaxSkew cfg < 2^63)%Z →
  (- Auth_MaxSkew cfg <= now - t / Second * Second <= Auth_MaxSkew cfg)%Z →
  String.length body ≤ bodyLimit → path_segments (Rq_EscapedPath rq) ≫= route (Rq_Method rq) = Some e →
  ∃ signed, SignRequest rq keyID secret body t clock = Ok signed
    ∧ let r := handler (NewVerifier cfg) e ctx signed subject (Ok body) sv in
      serve (NewVerifier cfg) now ctx signed subject (Ok body) sv = (r.1, Handled e r.2).
Proof.
  intros Hk Hs Hc Hin Ht Hu Hm Hskew Hlen Hroute.
  destruct (verify_signed cfg rq keyID secret body body t clock now) as (signed & Hsig & Hv); try done; [by left|].
  exists signed. split; [done|]. cbv zeta. destruct (SignRequest_target _ _ _ _ _ _ _ Hsig) as (Hme & Hp & Hep).
  assert (Middleware (NewVerifier cfg) now signed (Ok body) = Forward (Ok body)) as Hfwd.
  { unfold NewVerifier, Enabled. rewrite bool_decide_true; [by destruct (Auth_Profiles cfg); [apply elem_of_nil in Hin|]|].
    unfold Middleware. destruct (isPublicPath _); [done|]. rewrite readBody_short //. unfold verify.
    by rewrite verify_profiles_hmac. }
  unfold ServeHTTP. rewrite Hfwd Hme Hep Hroute //.
Qed.
End serving.

(** ** Runs *)
Section runs.
#[local] Existing Instance sorted_maps.
#[local] Existing Instance ascii_unicode.
#[local] Instance api_numbers : JsonNumbers := {| fmt_float _ := "0" |}.
#[local] Instance api_env : Env := {| rand_hex n := fmt_d (Z.of_nat n); clock n := Z.of_nat n |}.

Definition sample_gateway : Orchestrator := sample_orchestrator [].
Definition sample_decode (b : res string string) : res string createSubmissionRequest :=
  match b with Ok _ => Ok (npm_request ["vuln-scan"]) | Err e => Err e end.
Definition no_adjudication (b : res string string) : res string AdjudicateRequest := Err "EOF".

Abbreviation sample_serve := (ServeHTTP sample_gateway sample_env sample_decode no_adjudication (λ _, "")).

Lemma ServeHTTP_safe_witness :
  let rq := set_header "Authorization" "Bearer wrong" sample_request in
  let r := sample_serve (NewVerifier sample_auth) sample_time None rq "" (Ok "{}") local_server in
  accepted sample_auth sample_time rq (Ok "{}") ∨ r.2 = Aborted
  ∨ ∃ resp, r.2 = Refused resp ∧ (rs_status resp = 400 ∨ rs_status resp = 401)%Z.
Proof.
  intros rq r.
  destruct (ServeHTTP_safe sample_gateway sample_env sample_decode no_adjudication (λ _, "") sample_auth sample_time None rq ""
    (Ok "{}") local_server) as (_ & _ & Hr); [vm_compute; reflexivity..|].
  apply Hr. vm_compute. reflexivity.
Defined.

Lemma signed_client_served_witness :
  ∃ signed r, SignRequest sample_request "k1" "s3cret" "{}" sample_time 0 = Ok signed
    ∧ sample_serve (NewVerifier sample_auth) (sample_time + Minute) None signed "" (Ok "{}") local_server
      = (r.1, Handled CreateSubmission r.2).
Proof.
  destruct (signed_client_served sample_gateway sample_env sample_decode no_adjudication (λ _, "") sample_auth sample_request
    "k1" "s3cret" "{}" sample_time 0 (sample_time + Minute) None "" local_server CreateSubmission) as (signed & Hs & Hr);
    [split; vm_compute; [discriminate|reflexivity]|discriminate|vm_compute; reflexivity|vm_compute; by left|vm_compute; discriminate
    |vm_compute; split; reflexivity|vm_compute; split; [discriminate|reflexivity]|vm_compute; split; discriminate
    |unfold bodyLimit; simpl; lia|vm_compute; reflexivity|].
  exists signed. eexists. split; [exact Hs|exact Hr].
Defined.
End runs.
