(* ===== verification/Webhook.v ===== *)
(** * Webhook delivery: [internal/webhook/deliver.go], [sign.go]

Signing of events and its check at the receiver, one delivery attempt, the retry
loop and the bound on concurrent deliveries.  The transport is a parameter: an
attempt gets an error or a status. *)
From S2P Require Import Prelude GoString GoFloat GoTime Sha256 Encoding Types Fingerprint Auth.

(** ** Configuration *)
Record WebhookConfig := mkWebhookConfig {
  Wh_URL : string;
  Wh_Secret : string;
  Wh_Timeout : Duration;
  Wh_MaxAttempts : Z;
}.

Definition WebhookFromEnv (getenv : string → string) : res string WebhookConfig :=
  let url := TrimSpace (getenv "SCINTX_WEBHOOK_URL") in
  let secret := getenv "SCINTX_WEBHOOK_SECRET" in
  if bool_decide (url = "") then Ok (mkWebhookConfig url secret (10 * Second)%Z 3)
  else if bool_decide (secret = "") then Err "SCINTX_WEBHOOK_SECRET is required when SCINTX_WEBHOOK_URL is set"
  else
    let d := getenv "SCINTX_WEBHOOK_TIMEOUT" in
    if bool_decide (d = "") then Ok (mkWebhookConfig url secret (10 * Second)%Z 3)
    else match ParseDuration d with
         | Ok t => Ok (mkWebhookConfig url secret t 3)
         | Err e => Err ("SCINTX_WEBHOOK_TIMEOUT: " +:+ e)
         end.

(** [Open]: [None] when delivery is disabled; otherwise the settings of the deliverer. *)
Definition OpenDeliverer (cfg : WebhookConfig) : res string (option WebhookConfig) :=
  if bool_decide (Wh_URL cfg = "") then Ok None
  else if bool_decide (Wh_Secret cfg = "") then Err "webhook secret is required"
  else
    let timeout := if bool_decide (Wh_Timeout cfg <= 0)%Z then (10 * Second)%Z else Wh_Timeout cfg in
    let attempts := if bool_decide (Wh_MaxAttempts cfg < 1)%Z then 3%Z else Wh_MaxAttempts cfg in
    Ok (Some (mkWebhookConfig (Wh_URL cfg) (Wh_Secret cfg) timeout attempts)).

(** ** Signatures *)
Definition contentDigestSHA256 (body : string) : string := "sha-256=:" +:+ base64 (Sum256 body) +:+ ":".

Definition signBody (secret : string) (ts : Z) (body : string) : string :=
  hex_encode (hmac_sha256 secret (fmt_d ts +:+ "." +:+ body)).

Definition signature_header (secret : string) (ts : Z) (body : string) : string :=
  "t=" +:+ fmt_d ts +:+ ",v1=" +:+ signBody secret ts body.

(** [Sscanf(part, "t=%d", &ts)] after the literal: spaces, a sign, digits; what
follows is not looked at. *)
Fixpoint skip_space (fuel : nat) (s : string) : option string :=
  match fuel, s with
  | S fuel, String c s' =>
      if bool_decide (c = chr 13) && HasPrefix s' (str1 (chr 10)) then skip_space fuel s'
      else if bool_decide (c = chr 10) then None
      else match leading_space s with Some n => skip_space fuel (drop_str n s) | None => Some s end
  | _, _ => Some s
  end.

Fixpoint take_decimal (s : string) : string :=
  match s with String c s => if is_decimal c then String c (take_decimal s) else "" | "" => "" end.

Definition scan_int (s : string) : option Z :=
  match skip_space (String.length s) s with
  | None => None
  | Some t =>
      let '(sign, rest) := match t with
                           | String "-" r => ("-", r)
                           | String "+" r => ("+", r)
                           | _ => ("", t)
                           end in
      let digits := take_decimal rest in
      if bool_decide (digits = "") then None else ParseInt (sign +:+ digits)
  end.

(** The loop over the parts of the header: the last [t] and [v1] win. *)
Fixpoint read_parts (parts : list string) (ts : Z) (v1 : string) : res string (Z * string) :=
  match parts with
  | [] => Ok (ts, v1)
  | part :: parts =>
      let part := TrimSpace part in
      if HasPrefix part "t=" then
        match scan_int (drop_str 2 part) with
        | Some n => read_parts parts n v1
        | None => Err "bad t="
        end
      else if HasPrefix part "v1=" then read_parts parts ts (TrimPrefix part "v1=")
      else read_parts parts ts v1
  end.

(** [now] is the clock of the receiver. *)
Definition VerifySignature (secret sigHeader body : string) (maxSkew : Duration) (now : Time) : res string () :=
  let? p := read_parts (Split sigHeader ","%char) 0 "" in
  let '(ts, v1) := p in
  if bool_decide (ts = 0%Z ∨ v1 = "") then Err "missing t= or v1="
  else
    let skew := sub_sat now (unix_time ts) in
    let skew := if bool_decide (skew < 0)%Z then wrap64 (- skew) else skew in
    if bool_decide (0 < maxSkew ∧ maxSkew < skew)%Z then Err "timestamp skew too large"
    else if bool_decide (signBody secret ts body = v1) then Ok () else Err "signature mismatch".

(** ** Delivery *)
Record HookRequest := mkHookRequest {
  Hr_URL : string;
  Hr_Header : strmap;
  Hr_Body : string;
}.

Section deliver.
Context `{JsonNumbers}.

Definition json_event (e : CloudEvent) : string :=
  json_object ([("specversion", json_string (Evt_SpecVersion e)); ("id", json_string (Evt_ID e));
      ("source", json_string (Evt_Source e)); ("type", json_string (Evt_Type e))]
    ++ opt_member "subject" (bool_decide (Evt_Subject e ≠ "")) (json_string (Evt_Subject e))
    ++ [("time", json_string (RFC3339Nano (Evt_Time e)))]
    ++ opt_member "datacontenttype" (bool_decide (Evt_DataContentType e ≠ "")) (json_string (Evt_DataContentType e))
    ++ opt_member "dataschema" (bool_decide (Evt_DataSchema e ≠ "")) (json_string (Evt_DataSchema e))
    ++ opt_member "data" (is_full (Evt_Data e)) (json_anymap (Evt_Data e))
    ++ opt_member "sequence" (is_given (Evt_Sequence e)) (from_option fmt_d "" (Evt_Sequence e))).

(** The request of one attempt, made at [now]; an event JSON cannot carry is an
error. *)
Definition hook_request (cfg : WebhookConfig) (now : Time) (evt : CloudEvent) : option HookRequest :=
  if json_ok evt then
    let body := json_event evt in
    Some (mkHookRequest (Wh_URL cfg)
      (<["Content-Type" := "application/cloudevents+json"]> (<["Content-Digest" := contentDigestSHA256 body]>
        (<["X-Scintx-Signature" := signature_header (Wh_Secret cfg) (Unix now) body]>
          (<["X-Scintx-Event-Id" := Evt_ID evt]> (<["X-Scintx-Event-Type" := Evt_Type evt]> ∅))))) body)
  else None.

(** [postOnce]: [send] is the transport, a status or an error. *)
Definition postOnce (cfg : WebhookConfig) (now : Time) (send : HookRequest → res string Z) (evt : CloudEvent) : res string () :=
  match hook_request cfg now evt with
  | None => Err "json: unsupported value"
  | Some req =>
      match send req with
      | Err e => Err e
      | Ok status => if bool_decide (status < 200 ∨ 300 <= status)%Z
                     then Err ("webhook status " +:+ fmt_d status) else Ok ()
      end
  end.
End deliver.

Definition Millisecond : Duration := 1000000%Z.

(** [deliverWithRetry] from attempt [attempt] with [fuel] attempts left: the attempts
made, each with the pause after it, and whether the last one succeeded. *)
Fixpoint retry_loop (fuel : nat) (attempt max : Z) (post : Z → res string ()) : list (Z * Duration) * bool :=
  match fuel with
  | 0 => ([], false)
  | S fuel =>
      match post attempt with
      | Ok _ => ([(attempt, 0%Z)], true)
      | Err _ =>
          let pause := if bool_decide (attempt < max)%Z then (attempt * attempt * (100 * Millisecond))%Z else 0%Z in
          let r := retry_loop fuel (attempt + 1) max post in
          ((attempt, pause) :: r.1, r.2)
      end
  end.

Definition deliverWithRetry (max : Z) (post : Z → res string ()) : list (Z * Duration) * bool :=
  retry_loop (Z.to_nat max) 1 max post.

(** The deliverer: events in flight, one goroutine and one of the eight slots each,
and those dropped because no slot was free. *)
Record Deliverer := mkDeliverer {
  dl_inflight : list CloudEvent;
  dl_finished : list CloudEvent;
  dl_dropped : list CloudEvent;
}.

Definition slots_max : nat := 8.

Definition Deliver (evt : CloudEvent) (d : Deliverer) : Deliverer :=
  if bool_decide (length (dl_inflight d) < slots_max)
  then mkDeliverer (dl_inflight d ++ [evt]) (dl_finished d) (dl_dropped d)
  else mkDeliverer (dl_inflight d) (dl_finished d) (dl_dropped d ++ [evt]).

(** The goroutine of the [k]-th delivery in flight returns. *)
Definition delivery_done (k : nat) (d : Deliverer) : Deliverer :=
  match dl_inflight d !! k with
  | Some evt => mkDeliverer (delete k (dl_inflight d)) (dl_finished d ++ [evt]) (dl_dropped d)
  | None => d
  end.

Inductive deliverer_run : list CloudEvent → Deliverer → Prop :=
| dr_start : deliverer_run [] (mkDeliverer [] [] [])
| dr_deliver evts d evt : deliverer_run evts d → deliverer_run (evts ++ [evt]) (Deliver evt d)
| dr_done evts d k : deliverer_run evts d → deliverer_run evts (delivery_done k d).

(** [Close] polls the slots: at each round it reads the clock and the number of
deliveries in flight and, unless that is zero, waits for the context to end or for
20 milliseconds, whichever comes first. *)
Record Poll := mkPoll {
  po_now : Time;
  po_inflight : nat;
  po_done : option string;
}.

Definition close_deadline (start : Time) (ctx : option Time) : Time := default (start + 5 * Second)%Z ctx.

(** [fuel] rounds from round [k]; [None] when the fuel runs out. *)
Fixpoint close_loop (fuel k : nat) (deadline : Time) (polls : nat → Poll) : option (res string ()) :=
  match fuel with
  | 0 => None
  | S fuel =>
      let p := polls k in
      if bool_decide (po_now p < deadline)%Z then
        if bool_decide (po_inflight p = 0) then Some (Ok ())
        else match po_done p with
             | Some e => Some (Err e)
             | None => close_loop fuel (S k) deadline polls
             end
      else Some (Err "context deadline exceeded")
  end.

Definition Hook_Close (fuel : nat) (start : Time) (ctx : option Time) (polls : nat → Poll) : option (res string ()) :=
  close_loop fuel 0 (close_deadline start ctx) polls.

(** ** Properties *)

Lemma take_decimal_all s : all_chars is_decimal s = true → take_decimal s = s.
Proof. induction s as [|c s IH]; simpl; [done|]. rewrite andb_true_iff. intros [-> ?]. by rewrite IH. Qed.

Lemma leading_space_graphic c s : is_graphic c = true → leading_space (String c s) = None.
Proof.
  intros Hc. unfold leading_space. destruct (List.find (HasPrefix (String c s)) space_runes) as [p|] eqn:E; [|done].
  exfalso. apply List.find_some in E as [Hin Hpre].
  assert (forallb starts_nongraphic space_runes = true) as Hall by (vm_compute; reflexivity).
  rewrite forallb_forall in Hall. apply Hall in Hin. destruct p as [|d p]; [done|]. unfold HasPrefix in Hpre. simpl in *.
  destruct (ascii_dec d c) as [->|]; [|done]. by rewrite Hc in Hin.
Qed.

Lemma scan_int_fmt_d z : (0 <= z < 2^63)%Z → scan_int (fmt_d z) = Some z.
Proof.
  intros Hz. destruct (fmt_d_decimal z) as (Hd & Hne & _); [lia|]. pose proof (ParseInt_fmt_d z Hz) as Hp.
  destruct (fmt_d z) as [|c s] eqn:E; [done|]. unfold scan_int. simpl String.length. simpl skip_space.
  pose proof Hd as [Hc _]%andb_true_iff. pose proof (decimal_graphic c Hc) as Hg.
  rewrite (bool_decide_false (c = chr 13)); [by intros ->|]. simpl. rewrite (bool_decide_false (c = chr 10)); [by intros ->|].
  rewrite leading_space_graphic //.
  assert (∀ (a b d : string * string), match String c s with String "-" _ => a | String "+" _ => b | _ => d end = d) as ->.
  { intros a b d. destruct c as [[] [] [] [] [] [] [] []]; done. }
  by rewrite take_decimal_all.
Qed.

Lemma hex_chars l : Forall is_byte l → all_chars (λ c, is_graphic c && negb (bool_decide (c = ","%char))) (hex_encode l) = true.
Proof.
  assert (∀ z, (0 <= z < 16)%Z → (is_graphic (hex_digit z) && negb (bool_decide (hex_digit z = ","%char))) = true) as Hh.
  { apply (forall_below 16). apply Forall_forall. intros z Hz.
    assert (forallb (λ z, is_graphic (hex_digit z) && negb (bool_decide (hex_digit z = ","%char)))
              (Z.of_nat <$> seq 0 16) = true) as Hf by (vm_compute; reflexivity).
    rewrite forallb_true in Hf. by apply Hf. }
  unfold is_byte. induction 1 as [|b l Hb _ IH]; cbn [hex_encode foldr all_chars]; [done|]. fold (hex_encode l). rewrite IH !Hh //.
  - rewrite Z.shiftr_div_pow2 //. split; [apply Z.div_pos; lia|apply Z.div_lt_upper_bound; lia].
  - change 15%Z with (Z.ones 4). rewrite Z.land_ones //. by apply Z.mod_pos_bound.
Qed.

#[local] Opaque hmac_sha256 Sum256 base64.

Lemma read_signature secret ts body :
  (0 < ts < 2^63)%Z →
  read_parts (Split (signature_header secret ts body) ","%char) 0 "" = Ok (ts, signBody secret ts body).
Proof.
  intros Hts. destruct (fmt_d_decimal ts) as (Hd & Hne & _); [lia|].
  assert (Hs : all_chars (λ c, is_graphic c && negb (bool_decide (c = ","%char))) (signBody secret ts body) = true)
    by (apply hex_chars, hmac_bytes).
  set (sig := signBody secret ts body) in *.
  assert (Hsg : all_chars is_graphic sig = true) by (eapply all_chars_impl; [|exact Hs]; intros c [? _]%andb_true_iff; done).
  assert (Hdg : all_chars is_graphic (fmt_d ts) = true) by (eapply all_chars_impl; [apply decimal_graphic|done]).
  assert (Hd' : has_char "," (fmt_d ts) = false) by (by eapply all_chars_lacks; [|exact Hd]).
  assert (Hs' : has_char "," sig = false) by (by eapply all_chars_lacks; [|exact Hs]).
  rewrite (_ : signature_header secret ts body = Join ["t=" +:+ fmt_d ts; "v1=" +:+ sig] (str1 ",")); [done|].
  rewrite Split_Join; [done| |].
  { repeat constructor; rewrite has_char_app ?Hd' ?Hs'; done. }
  cbn [read_parts]. rewrite (TrimSpace_graphic ("t=" +:+ fmt_d ts)); [by rewrite all_chars_app Hdg|].
  rewrite HasPrefix_app. change (drop_str 2 ("t=" +:+ fmt_d ts)) with (fmt_d ts). rewrite scan_int_fmt_d; [lia|].
  rewrite (TrimSpace_graphic ("v1=" +:+ sig)); [by rewrite all_chars_app Hsg|].
  rewrite (_ : HasPrefix ("v1=" +:+ sig) "t=" = false); [done|]. rewrite HasPrefix_app. unfold TrimPrefix. by rewrite HasPrefix_app.
Qed.

Lemma signBody_nonempty secret ts body : signBody secret ts body ≠ "".
Proof.
  unfold signBody. pose proof (hex_encode_length (hmac_sha256 secret (fmt_d ts +:+ "." +:+ body))) as Hl.
  rewrite hmac_length in Hl. intros He. by rewrite He in Hl.
Qed.

(** The skew a receiver computes, when it is small. *)
Lemma skew_small now t m :
  (- m <= now - t <= m)%Z → (0 <= m < 2^63)%Z →
  ((if bool_decide (sub_sat now t < 0) then wrap64 (- sub_sat now t) else sub_sat now t) <= m)%Z.
Proof.
  intros Hd Hm. assert (sub_sat now t = now - t)%Z as -> by (unfold sub_sat; lia).
  case_bool_decide; [|lia]. unfold wrap64. rewrite Z.mod_small; lia.
Qed.

(** [C29] What the deliverer sends, a receiver with the secret accepts: the signature
header of an attempt verifies against the body of that attempt, within the skew. *)
Theorem delivered_event_verifies `{JsonNumbers} cfg now evt req maxSkew receiver :
  hook_request cfg now evt = Some req → (0 < Unix now < 2^62)%Z → (0 <= maxSkew < 2^63)%Z →
  (- maxSkew <= receiver - now / Second * Second <= maxSkew)%Z →
  ∃ sig, Hr_Header req !! "X-Scintx-Signature" = Some sig
    ∧ VerifySignature (Wh_Secret cfg) sig (Hr_Body req) maxSkew receiver = Ok ()
    ∧ Hr_Header req !! "Content-Digest" = Some (contentDigestSHA256 (Hr_Body req)).
Proof.
  unfold hook_request. destruct (json_ok evt); [|done]. intros [= <-] Hu Hm Hskew. simpl.
  set (body := json_event evt). eexists. split; [done|]. split; [|done].
  unfold VerifySignature. rewrite read_signature; [lia|]. simpl.
  rewrite (bool_decide_false (_ ∨ _)); [by intros [?|?]; [lia|by eapply signBody_nonempty]|].
  pose proof (skew_small receiver (unix_time (Unix now)) maxSkew) as Hs. rewrite unix_roundtrip // in Hs.
  rewrite unix_roundtrip //. specialize (Hs Hskew Hm). rewrite (bool_decide_false (_ ∧ _)); [lia|]. by rewrite bool_decide_true.
Qed.

(** A receiver accepts only what was signed with its secret: the [v1] of the header
is the HMAC of the timestamp it names and of the body received, and that timestamp
is within the skew it asked for. *)
Theorem VerifySignature_sound secret sigHeader body maxSkew now :
  VerifySignature secret sigHeader body maxSkew now = Ok () →
  ∃ ts v1, read_parts (Split sigHeader ","%char) 0 "" = Ok (ts, v1) ∧ ts ≠ 0%Z
    ∧ v1 = hex_encode (hmac_sha256 secret (fmt_d ts +:+ "." +:+ body))
    ∧ ((0 < maxSkew)%Z → (sub_sat now (unix_time ts) <= maxSkew)%Z).
Proof.
  unfold VerifySignature. intros Hv. apply res_bind_Ok in Hv as ([ts v1] & Hp & Hv). exists ts, v1. cbv zeta in Hv.
  set (sk := if bool_decide (sub_sat now (unix_time ts) < 0)%Z then _ else _) in Hv.
  case_bool_decide as Hn; [done|]. case_bool_decide as Hs; [done|]. case_bool_decide as Hm; [|done].
  split_and!; [done|naive_solver|done|]. intros Hpos. subst sk. revert Hs. case_bool_decide; lia.
Qed.

Lemma retry_loop_spec fuel attempt max post :
  let r := retry_loop fuel attempt max post in
  map fst r.1 = map (λ i, attempt + Z.of_nat i)%Z (seq 0 (length r.1)) ∧ length r.1 ≤ fuel
  ∧ (r.2 = true → ∃ n, length r.1 = S n ∧ post (attempt + Z.of_nat n)%Z = Ok ()
       ∧ ∀ i, i < n → is_Ok (post (attempt + Z.of_nat i)%Z) = false)
  ∧ (r.2 = false → length r.1 = fuel ∧ ∀ i, i < fuel → is_Ok (post (attempt + Z.of_nat i)%Z) = false)
  ∧ ∀ k, k < length r.1 → snd <$> r.1 !! k = Some (if decide (is_Ok (post (attempt + Z.of_nat k)%Z) = true ∨ (max <= attempt + Z.of_nat k)%Z)
       then 0%Z else ((attempt + Z.of_nat k) * (attempt + Z.of_nat k) * (100 * Millisecond))%Z).
Proof.
  revert attempt. induction fuel as [|fuel IH]; intros attempt; simpl.
  { split_and!; [done|lia|by intros|intros _; split; [done|intros; lia]|intros; lia]. }
  destruct (post attempt) as [[]|e] eqn:Ep; simpl.
  - split_and!; try lia; try done.
    + f_equal. lia.
    + intros _. exists 0. rewrite Z.add_0_r. split_and!; [done..|lia].
    + intros k Hk. replace k with 0 by lia. rewrite Z.add_0_r Ep. by destruct (decide _) as [|[]]; [|left].
  - specialize (IH (attempt + 1)%Z). cbv zeta in IH. set (r := retry_loop fuel (attempt + 1) max post) in *.
    assert (Hsh : ∀ i, (attempt + 1 + Z.of_nat i = attempt + Z.of_nat (S i))%Z) by lia.
    destruct IH as (Hl & Hle & Ht & Hf & Hp). split_and!.
    + rewrite Z.add_0_r. f_equal. rewrite Hl -seq_shift map_map. apply map_ext. intros i. apply Hsh.
    + lia.
    + intros Hr. destruct (Ht Hr) as (n & Hn & Hok & Hbad). exists (S n). rewrite -Hsh. split_and!; [lia|done|].
      intros [|i] Hi; [by rewrite Z.add_0_r Ep|]. rewrite -Hsh. apply Hbad. lia.
    + intros Hr. destruct (Hf Hr) as [Hn Hbad]. split; [lia|].
      intros [|i] Hi; [by rewrite Z.add_0_r Ep|]. rewrite -Hsh. apply Hbad. lia.
    + intros [|k] Hk; simpl.
      * rewrite Z.add_0_r Ep. simpl. case_bool_decide; [rewrite decide_False //; lia|rewrite decide_True //; lia].
      * rewrite Hp; [lia|]. by rewrite Hsh.
Qed.

(** [C30] Delivery retries a bounded number of times and stops at the first success: the
attempts are 1, 2, ..., at most the configured number; a delivery is successful
exactly when one of them is, and then it is the last one made; after the [k]-th
failure but the last it pauses for [k * k] tenths of a second. *)
Theorem deliverWithRetry_correct max post :
  (1 <= max)%Z →
  let r := deliverWithRetry max post in
  map fst r.1 = map (λ i, Z.of_nat (S i)) (seq 0 (length r.1)) ∧ (Z.of_nat (length r.1) <= max)%Z
  ∧ (r.2 = true ↔ ∃ k, (1 <= k <= max)%Z ∧ post k = Ok ())
  ∧ (r.2 = true → post (Z.of_nat (length r.1)) = Ok ())
  ∧ (r.2 = false → Z.of_nat (length r.1) = max)
  ∧ ∀ k, k < length r.1 → snd <$> r.1 !! k = Some (if decide (is_Ok (post (1 + Z.of_nat k)%Z) = true ∨ (max <= 1 + Z.of_nat k)%Z)
       then 0%Z else ((1 + Z.of_nat k) * (1 + Z.of_nat k) * (100 * Millisecond))%Z).
Proof.
  intros Hmax. cbv zeta. unfold deliverWithRetry. destruct (retry_loop_spec (Z.to_nat max) 1 max post) as (Hl & Hle & Ht & Hf & Hp).
  set (r := retry_loop (Z.to_nat max) 1 max post) in *. split_and!.
  - rewrite Hl. apply map_ext. intros i. lia.
  - lia.
  - split.
    + intros Hr. destruct (Ht Hr) as (n & Hn & Hok & _). exists (1 + Z.of_nat n)%Z. split; [lia|done].
    + intros (k & Hk & Hok). destruct r.2 eqn:Er; [done|]. destruct (Hf eq_refl) as [_ Hbad].
      specialize (Hbad (Z.to_nat (k - 1)) ltac:(lia)). replace (1 + Z.of_nat (Z.to_nat (k - 1)))%Z with k in Hbad by lia.
      by rewrite Hok in Hbad.
  - intros Hr. destruct (Ht Hr) as (n & Hn & Hok & _). by replace (Z.of_nat (length r.1)) with (1 + Z.of_nat n)%Z by lia.
  - intros Hr. destruct (Hf Hr). lia.
  - exact Hp.
Qed.

(** No more than eight deliveries run at once, and every event is accounted for:
in flight, finished, or dropped because eight were in flight. *)
Theorem deliverer_bounded evts d :
  deliverer_run evts d →
  length (dl_inflight d) ≤ slots_max
  ∧ dl_inflight d ++ dl_finished d ++ dl_dropped d ≡ₚ evts
  ∧ (length evts ≤ slots_max → dl_dropped d = []).
Proof.
  induction 1 as [|evts d evt _ (Hle & Hp & Hd)|evts d k _ (Hle & Hp & Hd)]; simpl.
  - split_and!; [unfold slots_max; lia|done..].
  - unfold Deliver. case_bool_decide; simpl; rewrite !length_app /=.
    + split_and!; [lia| |intros; apply Hd; lia]. rewrite -Hp. solve_Permutation.
    + split_and!; [done| |].
      * rewrite -Hp. solve_Permutation.
      * intros Hlen. exfalso. apply Permutation_length in Hp. rewrite !length_app in Hp. lia.
  - unfold delivery_done. destruct (dl_inflight d !! k) as [evt|] eqn:Ek; [|done]. simpl.
    split_and!; [rewrite length_delete; [by eexists|lia]| |done].
    rewrite -Hp. rewrite {2}(delete_Permutation _ _ _ Ek). solve_Permutation.
Qed.

(** A round whose wait was not cut short is at least 20 milliseconds long. *)
Definition polls_paced (polls : nat → Poll) : Prop :=
  ∀ k, po_done (polls k) = None → (po_now (polls k) + 20 * Millisecond <= po_now (polls (S k)))%Z.

(** Rounds enough to reach the deadline from [now]. *)
Definition rounds (deadline now : Time) : nat := S (Z.to_nat ((deadline - now) / (20 * Millisecond) + 1)).

Lemma close_loop_spec polls deadline fuel k :
  polls_paced polls → rounds deadline (po_now (polls k)) ≤ fuel →
  ∃ r n, close_loop fuel k deadline polls = Some r ∧ k ≤ n
    ∧ (r = Ok () → (po_now (polls n) < deadline)%Z ∧ po_inflight (polls n) = 0)
    ∧ (∀ e, r = Err e → (deadline <= po_now (polls n))%Z ∨ po_done (polls n) = Some e).
Proof.
  intros Hp. unfold rounds. revert k. induction fuel as [|fuel IH]; intros k Hf; [lia|]. simpl.
  case_bool_decide as Hd; [|by exists (Err "context deadline exceeded"), k; split_and!; [|lia| |intros; left; lia]].
  case_bool_decide as Hi; [by exists (Ok ()), k|].
  destruct (po_done (polls k)) as [e|] eqn:He.
  { exists (Err e), k. split_and!; [done|lia|done|]. intros ? [= <-]. by right. }
  specialize (Hp k He). destruct (IH (S k)) as (r & n & Hr & Hn & Hok & Herr).
  - unfold Millisecond in *. Z.to_euclidean_division_equations. lia.
  - exists r, n. split_and!; [done|lia|done..].
Qed.

(** Closing the deliverer always returns, after no more rounds than fit before the
deadline, and it reports success only when, before the deadline, nothing was in
flight; an error is that of the context or the deadline. *)
Theorem Close_returns start ctx polls fuel :
  polls_paced polls → rounds (close_deadline start ctx) (po_now (polls 0)) ≤ fuel →
  ∃ r n, Hook_Close fuel start ctx polls = Some r
    ∧ (r = Ok () → (po_now (polls n) < close_deadline start ctx)%Z ∧ po_inflight (polls n) = 0)
    ∧ (∀ e, r = Err e → (close_deadline start ctx <= po_now (polls n))%Z ∨ po_done (polls n) = Some e).
Proof.
  intros Hp Hf. destruct (close_loop_spec polls (close_deadline start ctx) fuel 0 Hp Hf) as (r & n & Hr & _ & Hok & Herr).
  by exists r, n.
Qed.

Section runs.
#[local] Instance hook_numbers : JsonNumbers := {| fmt_float _ := "0" |}.

Definition sample_hook : WebhookConfig := mkWebhookConfig "https://example.org/hook" "whsec" (10 * Second)%Z 3.
Definition sample_event : CloudEvent :=
  mkCloudEvent "1.0" "evt_1" "scintx" "org.eclipse.scintx.submission.completed.v1" "a" sample_time "application/json" ""
    {["submission_id" := VStr "a"]} (Some 1%Z).

Lemma delivered_event_verifies_witness :
  ∃ req sig, hook_request sample_hook sample_time sample_event = Some req
    ∧ VerifySignature "whsec" sig (Hr_Body req) Minute (sample_time + Second) = Ok ().
Proof.
  assert (0 < Unix sample_time < 2^62)%Z as Hu by (vm_compute; split; reflexivity).
  assert (0 <= Minute < 2^63)%Z as Hm by (vm_compute; split; [discriminate|reflexivity]).
  assert (- Minute <= (sample_time + Second) - sample_time / Second * Second <= Minute)%Z as Hs by (vm_compute; split; discriminate).
  assert (is_Some (hook_request sample_hook sample_time sample_event)) as [req E] by (unfold hook_request; eexists; reflexivity).
  pose proof (delivered_event_verifies sample_hook sample_time sample_event req Minute (sample_time + Second) E Hu Hm Hs) as (sig & _ & Hv & _).
  exists req, sig. exact (conj E Hv).
Defined.

Lemma VerifySignature_sound_witness :
  let hdr := signature_header "whsec" 1700000000 "{}" in
  ∃ ts v1, read_parts (Split hdr ","%char) 0 "" = Ok (ts, v1) ∧ ts ≠ 0%Z.
Proof.
  intros hdr. destruct (VerifySignature_sound "whsec" hdr "{}" Minute sample_time) as (ts & v1 & Hp & Hn & _).
  - vm_compute. reflexivity.
  - exists ts, v1. split; [exact Hp|exact Hn].
Defined.

Lemma deliverWithRetry_correct_witness :
  let post k := if bool_decide (k = 2%Z) then Ok () else Err "webhook status 500" in
  deliverWithRetry 3 post = ([(1, 100 * Millisecond); (2, 0)], true)%Z ∧ post (Z.of_nat 2) = Ok ().
Proof.
  intros post. split; [vm_compute; reflexivity|].
  destruct (deliverWithRetry_correct 3 post) as (_ & _ & _ & Hok & _); [lia|]. apply Hok. vm_compute. reflexivity.
Defined.

Lemma deliverer_bounded_witness :
  let d := Deliver sample_event (mkDeliverer [] [] []) in dl_dropped d = [] ∧ length (dl_inflight d) ≤ slots_max.
Proof.
  intros d. destruct (deliverer_bounded ([] ++ [sample_event]) d) as (Hl & _ & Hd).
  - apply dr_deliver, dr_start.
  - split; [apply Hd; unfold slots_max; simpl; lia|exact Hl].
Defined.

Lemma Close_returns_witness :
  let polls k := mkPoll (Z.of_nat k * (25 * Millisecond)) (3 - k) None in
  Hook_Close 300 0 None polls = Some (Ok ())
  ∧ ∃ r n, Hook_Close 300 0 None polls = Some r ∧ (r = Ok () → po_inflight (polls n) = 0).
Proof.
  intros polls. split; [vm_compute; reflexivity|].
  destruct (Close_returns 0 None polls 300) as (r & n & Hr & Hok & _).
  - intros k _. simpl. unfold Millisecond. lia.
  - vm_compute. lia.
  - exists r, n. split; [exact Hr|]. intros E. exact (proj2 (Hok E)).
Defined.

Example webhook_configuration :
  OpenDeliverer (mkWebhookConfig "" "" 0 0) = Ok None ∧ is_Ok (OpenDeliverer (mkWebhookConfig "u" "" 0 0)) = false
  ∧ WebhookFromEnv (λ k, if bool_decide (k = "SCINTX_WEBHOOK_URL") then " u " else "")
    = Err "SCINTX_WEBHOOK_SECRET is required when SCINTX_WEBHOOK_URL is set".
Proof. vm_compute. split_and!; reflexivity. Qed.
End runs.
