(* ===== verification/Cli.v ===== *)
(** * The command line: [cmd/scintx/{main,serve,auth}.go]

[runAuth] and its subcommands on the credential store, the start of the gateway
([runServe] up to the listener, with [NewOrchestrator] and
[LoadProvidersFromRegistry] of [orchestrator.go]) as the sequence of its fallible
steps, and its shutdown.  Printing is a list of lines; the password prompt, the
registries and the errors of opening a database are inputs. *)
From S2P Require Import Prelude GoString GoTime Types Store StoreSpec Sql Credentials Gateway Cache Policy ExamplePolicy.
From S2P Require Import Orchestrator Workers Queue Server Encoding Auth Webhook.

(** ** [scintx auth] *)
Record Printed := mkPrinted { pr_out : list string; pr_err : list string; pr_code : Z }.

Definition source_text (s : Source) : string :=
  match s with SourceNone => "none" | SourceEnv => "env" | SourceKeyring => "keyring" | SourceFile => "file" end.

(** The long dash U+2014. *)
Definition dash : string := bytes [226; 128; 148].

Definition spec_lines (s : Credentials.Spec) : list string :=
  ("  " +:+ Credentials.Spec_ID s
     +:+ (if bool_decide (Spec_Summary s = "") then "" else " " +:+ dash +:+ " " +:+ Spec_Summary s))
  :: (if bool_decide (Spec_HelpURL s = "") then [] else ["      " +:+ Spec_HelpURL s]).

Definition authUsage (specs : gmap string Credentials.Spec) : list string :=
  ["Usage:";
   "  scintx auth <provider> [--token TOKEN] [--user USER]";
   "      Store credentials for a provider (OS keyring, else credentials file).";
   "      Prefer this over putting secrets in a .env file.";
   "";
   "  scintx auth status";
   "      Show where credentials are resolved from (never prints secrets).";
   "";
   "  scintx auth logout <provider>";
   "      Remove stored credentials (env vars are not changed).";
   "";
   "Providers:"]
  ++ match Specs specs with
     | [] => ["  (none registered " +:+ dash +:+ " import provider extensions)"]
     | l => concat (map spec_lines l)
     end.

Fixpoint auth_flags (allowUser : bool) (args : list string) (token user : string) : res string (string * string) :=
  match args with
  | [] => Ok (token, user)
  | a :: args =>
      if bool_decide (a = "--token") then
        match args with
        | [] => Err "--token requires a value"
        | t :: args => auth_flags allowUser args t user
        end
      else if bool_decide (a = "--user") then
        if negb allowUser then Err "--user is not supported for this provider"
        else match args with
             | [] => Err "--user requires a value"
             | u :: args => auth_flags allowUser args token u
             end
      else Err ("unknown flag " +:+ quoted a)
  end.

Definition parseAuthFlags (args : list string) (allowUser : bool) : res string (string * string) :=
  auth_flags allowUser args "" "".

Section auth.
Context (h : Host) (specs : gmap string Credentials.Spec).

Definition status_line (v : Vault) (s : Credentials.Spec) : string :=
  let id := Credentials.Spec_ID s in
  match Get h specs id v with
  | Err e => id +:+ ": " +:+ e
  | Ok r =>
      let no_source := match Rv_Source r with SourceNone => true | _ => false end in
      if no_source || bool_decide (PC_Token (Rv_Creds r) = "")
      then id +:+ ": not configured (run: scintx auth " +:+ id +:+ ")"
      else
        let user := if bool_decide (PC_User (Rv_Creds r) = "") then "(default)" else PC_User (Rv_Creds r) in
        let extra := if bool_decide (Spec_UserEnv s = "") then "" else " (user=" +:+ user +:+ ")" in
        id +:+ ": configured via " +:+ source_text (Rv_Source r) +:+ extra
  end.

Definition authStatus (args : list string) (v : Vault) : Printed :=
  match args, Specs specs with
  | _ :: _, _ => mkPrinted [] ["usage: scintx auth status"] 2
  | [], [] => mkPrinted ["no auth-capable providers registered"] [] 0
  | [], l => mkPrinted (map (status_line v) l) [] 0
  end.

Definition authLogout (args : list string) (v : Vault) : Vault * Printed :=
  match args with
  | [provider] =>
      if negb (Known provider specs) then (v, mkPrinted [] (("unknown auth provider " +:+ quoted provider) :: []) 2)
      else
        let r := Clear_ h provider v in
        (r.1, match r.2 with
              | Err e => mkPrinted [] ["logout failed: " +:+ e] 1
              | Ok _ => mkPrinted [provider +:+ " credentials removed from keyring/file (env vars unchanged)"] [] 0
              end)
  | _ => (v, mkPrinted [] ["usage: scintx auth logout <provider>"] 2)
  end.

(** [prompt] is what [term.ReadPassword] returns, if it is asked. *)
Definition authLogin (spec : Credentials.Spec) (args : list string) (prompt : res string string) (v : Vault) : Vault * Printed :=
  let id := Credentials.Spec_ID spec in
  match parseAuthFlags args (bool_decide (Spec_UserEnv spec ≠ "")) with
  | Err e => (v, mkPrinted [] [e] 2)
  | Ok (token, user) =>
      let asked := if bool_decide (token = "") then
          (if bool_decide (Spec_HelpURL spec = "") then [] else ["Create a credential at " +:+ Spec_HelpURL spec])
            ++ ["Paste token (input hidden): "]
        else [] in
      let entered : res string string := if bool_decide (token = "") then (let? raw := prompt in Ok (TrimSpace raw)) else Ok token in
      match entered with
      | Err e => (v, mkPrinted [] (asked ++ ["read token: " +:+ e]) 1)
      | Ok token =>
          if bool_decide (token = "") then (v, mkPrinted [] (asked ++ ["empty token; nothing stored"]) 1)
          else
            let r := Set_ h id (mkProviderCreds token user) v in
            (r.1, match r.2 with
                  | Err e => mkPrinted [] (asked ++ ["failed to store credentials: " +:+ e]) 1
                  | Ok src =>
                      mkPrinted
                        [match src with
                         | SourceKeyring => id +:+ " credentials stored in OS keyring"
                         | SourceFile => id +:+ " credentials stored in "
                             +:+ (match CredentialsPath h with Ok p => p | Err _ => "" end) +:+ " (keyring unavailable)"
                         | _ => id +:+ " credentials stored (" +:+ source_text src +:+ ")"
                         end;
                         "Restart scintx (or reload providers) so " +:+ id +:+ " picks them up."] asked 0
                  end)
      end
  end.

Definition runAuth (args : list string) (prompt : res string string) (v : Vault) : Vault * Printed :=
  match args with
  | [] => (v, mkPrinted [] (authUsage specs) 2)
  | a :: args =>
      if bool_decide (a = "status") then (v, authStatus args v)
      else if bool_decide (a = "logout") then authLogout args v
      else if bool_decide (a ∈ ["help"; "-h"; "--help"]) then (v, mkPrinted [] (authUsage specs) 0)
      else match Lookup a specs with
           | None => (v, mkPrinted [] (("unknown auth provider " +:+ quoted a) :: authUsage specs) 2)
           | Some spec => authLogin spec args prompt v
           end
  end.
End auth.

(** What [main] does with its arguments. *)
Inductive Command := Serve | AuthCommand (args : list string) | RootHelp | UnknownCommand (name : string).

Definition main (args : list string) : Command :=
  match args with
  | [] => Serve
  | a :: args =>
      if bool_decide (a = "serve") then Serve
      else if bool_decide (a = "auth") then AuthCommand args
      else if bool_decide (a ∈ ["help"; "-h"; "--help"]) then RootHelp
      else UnknownCommand a
  end.

(** ** Starting the gateway *)
Record Started (ST : Type) := mkStarted {
  sd_backend : Sql.Backend;
  sd_webhook : option WebhookConfig;
  sd_cache : CacheBackend;
  sd_orchestrator : Orchestrator;
  sd_store : ST;
  sd_auth : option AuthConfig;
  sd_workers : Workers.Config;
  sd_pool : PoolKind;
  sd_addr : string;
}.
#[global] Arguments mkStarted {ST}.
#[global] Arguments sd_webhook {ST}.
#[global] Arguments sd_orchestrator {ST}.
#[global] Arguments sd_store {ST}.
#[global] Arguments sd_auth {ST}.
#[global] Arguments sd_workers {ST}.
#[global] Arguments sd_addr {ST}.

Section serve.
Context `{Store ST} `{Unicode}.

(** [LoadProvidersFromRegistry] after [api.LoadProviders]: the providers registered
so far and the error that stopped it. *)
Fixpoint register_all (l : list Provider) (s : ST) : ST * res string () :=
  match l with
  | [] => (s, Ok ())
  | p :: l =>
      let caps := Prov_Capabilities p in
      let r := RegisterProvider (mkProviderEntry (Prov_ID p) (PRef_ID (Caps_Provider caps)) caps) s in
      match r.2 with
      | Err e => (r.1, Err ("register provider " +:+ quoted (Prov_ID p) +:+ ": " +:+ err_string e))
      | Ok _ => register_all l r.1
      end
  end.

Definition LoadProvidersFromRegistry (factories : gmap string (res FactoryErr Provider)) (allow : string) (s : ST)
  : res string (ST * list Provider) :=
  match LoadProviders factories allow with
  | Err e => Err ("loading providers: " +:+ e)
  | Ok l => let r := register_all l s in let? _ := r.2 in Ok (r.1, l)
  end.

(** The options [runServe] passes to [NewOrchestrator]. *)
Definition NewOrchestrator (policy : PolicyEngine) (ttl : Duration) (aggregator : option ResultAggregator)
    (forward : gset string) (deliver : bool) (providers : list Provider) : Orchestrator :=
  mkOrchestrator providers policy (if bool_decide (ttl <= 0)%Z then Hour else ttl) aggregator forward deliver.

Definition in_step {A} (what : string) (r : res string A) : res string A :=
  match r with Ok a => Ok a | Err e => Err (what +:+ ": " +:+ e) end.

(** [runServe] up to the listener; an error ends the process with exit code 1.  [s] is
the store that was opened. *)
Definition runServe (getenv : string → string) (numCPU : Z) (open_store : Sql.Backend → res string ST)
    (open_cache : CacheBackend → res string ()) (engines : gmap string (res string PolicyEngine))
    (factories : gmap string (res FactoryErr Provider)) (aggregator : ResultAggregator) : res string (Started ST) :=
  let? backend := in_step "failed to open store" (Sql.Open (Sql.ConfigFromEnv getenv)) in
  let? s := in_step "failed to open store" (open_store backend) in
  let? webhookCfg := in_step "invalid webhook config" (WebhookFromEnv getenv) in
  let? deliverer := in_step "failed to open webhook deliverer" (OpenDeliverer webhookCfg) in
  let name := getenv "SCINTX_POLICY_ENGINE" in
  let? policy := in_step "failed to load policy engine" (LoadPolicyEngine engines (if bool_decide (name = "") then "yaml" else name)) in
  let? cacheCfg := in_step "invalid cache config" (CacheFromEnv getenv) in
  let? cache := in_step "failed to open cache" (OpenCache cacheCfg) in
  let? _ := in_step "failed to open cache" (open_cache cache) in
  let? loaded := in_step "failed to load providers" (LoadProvidersFromRegistry factories (getenv "SCINTX_PROVIDERS") s) in
  let orch := NewOrchestrator policy (DefaultTTL cacheCfg) (Some aggregator)
                (parseAllowlist (getenv "SCINTX_FORWARD_ADJUDICATIONS"))
                (bool_decide (is_Some (Wh_URL <$> deliverer))) loaded.2 in
  let? authCfg := in_step "invalid auth config" (Auth.ConfigFromEnv getenv) in
  let? workerCfg := in_step "invalid worker config" (Workers.ConfigFromEnv numCPU getenv) in
  let? pool := in_step "failed to start worker pool" (Workers.Open workerCfg true) in
  let addr := getenv "SCINTX_ADDR" in
  Ok (mkStarted backend deliverer cache orch loaded.1 (NewVerifier authCfg) workerCfg pool
        (if bool_decide (addr = "") then ":8080" else addr)).
End serve.

(** ** Stopping it *)

(** How the process ends after a signal: the deferred closes run, or it exits at once
because the workers did not finish. *)
Inductive Ending := ClosesStore | ExitsWithoutClosing.

Definition stop_on_signal `{Store ST} `{!Dispatcher D ST} {C} (http : option string) (first second : WaitOutcome)
    (sv : Server ST C D) : Server ST C D * Ending :=
  let r := Shutdown http first sv in
  if sv_drained r.1 then (r.1, ClosesStore)
  else
    let w := WaitWorkers second r.1 in
    (w.1, match w.2 with None => ClosesStore | Some _ => ExitsWithoutClosing end).

(** ** [scintx auth status] keeps secrets *)

(** Two hosts and two vaults that differ in secrets only: where one has a token the
other has a token. *)
Definition same_presence (a b : string) : Prop := a = "" ↔ b = "".
Definition same_creds (c c' : ProviderCreds) : Prop := PC_User c = PC_User c' ∧ same_presence (PC_Token c) (PC_Token c').

Inductive same_file : FileState → FileState → Prop :=
| same_docs m m' : (∀ k, option_Forall2 same_creds (m !! k) (m' !! k)) → same_file (FileDoc m) (FileDoc m')
| same_bad e : same_file (FileBad e) (FileBad e).

Record same_vault (v v' : Vault) : Prop := {
  same_keyring : ∀ k, option_Forall2 same_presence (vt_keyring v !! k) (vt_keyring v' !! k);
  same_files : ∀ p, option_Forall2 same_file (vt_files v !! p) (vt_files v' !! p);
}.

Record same_host (specs : gmap string Credentials.Spec) (h h' : Host) : Prop := {
  same_config_env : h_getenv h "SCINTX_CONFIG_DIR" = h_getenv h' "SCINTX_CONFIG_DIR";
  same_config_dir : h_config_dir h = h_config_dir h';
  same_join : h_join h = h_join h';
  same_get_err : h_get_err h = h_get_err h';
  same_token_env : ∀ id s, specs !! id = Some s →
    same_presence (TrimSpace (h_getenv h (Spec_TokenEnv s))) (TrimSpace (h_getenv h' (Spec_TokenEnv s)));
  same_user_env : ∀ id s, specs !! id = Some s → h_getenv h (Spec_UserEnv s) = h_getenv h' (Spec_UserEnv s);
}.

Lemma same_presence_decide a b : same_presence a b → bool_decide (a = "") = bool_decide (b = "").
Proof. intros Hab. by apply bool_decide_ext. Qed.

Section secrets.
Context (specs : gmap string Credentials.Spec) (h h' : Host) (v v' : Vault).
Hypotheses (Hh : same_host specs h h') (Hv : same_vault v v').

Lemma same_path : CredentialsPath h = CredentialsPath h'.
Proof. unfold CredentialsPath, ConfigDir. by rewrite (same_config_env _ _ _ Hh) (same_config_dir _ _ _ Hh) (same_join _ _ _ Hh). Qed.

Lemma same_env_creds p : option_Forall2 same_creds (env_creds h specs p) (env_creds h' specs p).
Proof.
  unfold env_creds, Lookup. destruct (specs !! TrimSpace p) as [s|] eqn:Es; [|constructor].
  case_bool_decide; [constructor|]. pose proof (same_token_env _ _ _ Hh _ _ Es) as Ht.
  rewrite (same_user_env _ _ _ Hh _ _ Es) (same_presence_decide _ _ Ht). case_bool_decide; [constructor|]. by constructor.
Qed.

(** Results related by [R], errors equal. *)
Definition same_res {A} (R : A → A → Prop) (x y : res string A) : Prop :=
  match x, y with Ok a, Ok b => R a b | Err e, Err e' => e = e' | _, _ => False end.

Lemma same_file_creds p : same_res (option_Forall2 same_creds) (getFromFile h p v) (getFromFile h' p v').
Proof.
  unfold getFromFile. rewrite same_path. destruct (CredentialsPath h') as [path|e]; simpl; [|done].
  unfold loadFile. destruct (same_files _ _ Hv path) as [f f' Hf|]; simpl.
  - destruct Hf as [m m' Hm|e]; simpl; [|done]. destruct (Hm p) as [c c' [Hu Ht]|]; simpl; [|constructor].
    assert (bool_decide (PC_Token c = "" ∧ PC_User c = "") = bool_decide (PC_Token c' = "" ∧ PC_User c' = "")) as ->.
    { apply bool_decide_ext. rewrite Hu. unfold same_presence in Ht. tauto. }
    case_bool_decide; simpl; constructor. by split.
  - rewrite !lookup_empty. constructor.
Qed.

Lemma same_keyring_token p : same_res (option_Forall2 same_presence) (getFromKeyring h p v) (getFromKeyring h' p v').
Proof.
  unfold getFromKeyring. rewrite (same_get_err _ _ _ Hh). destruct (h_get_err h'); simpl; [done|].
  destruct (same_keyring _ _ Hv p) as [s s' Hs|]; simpl; [|constructor]. rewrite (same_presence_decide _ _ Hs).
  case_bool_decide; simpl; by constructor.
Qed.

Lemma same_user p : userFromFileOnly h p v = userFromFileOnly h' p v'.
Proof.
  unfold userFromFileOnly. pose proof (same_file_creds p) as Hf.
  destruct (getFromFile h p v) as [x|e], (getFromFile h' p v') as [y|e']; simpl in Hf; try done.
  by destruct Hf as [c c' [-> _]|].
Qed.

Definition same_resolved (r r' : Resolved) : Prop := Rv_Source r = Rv_Source r' ∧ same_creds (Rv_Creds r) (Rv_Creds r').

Lemma same_Get p : same_res same_resolved (Get h specs p v) (Get h' specs p v').
Proof.
  unfold Get. case_bool_decide; [done|]. destruct (same_env_creds (TrimSpace p)) as [c c' Hc|]; [by split|].
  assert (same_res same_resolved
    match getFromFile h (TrimSpace p) v with
    | Ok (Some c) => if bool_decide (PC_Token c ≠ "") then Ok (mkResolved c SourceFile) else Ok (mkResolved no_creds SourceNone)
    | Ok None => Ok (mkResolved no_creds SourceNone)
    | Err e => Err e
    end
    match getFromFile h' (TrimSpace p) v' with
    | Ok (Some c) => if bool_decide (PC_Token c ≠ "") then Ok (mkResolved c SourceFile) else Ok (mkResolved no_creds SourceNone)
    | Ok None => Ok (mkResolved no_creds SourceNone)
    | Err e => Err e
    end) as Hfile.
  { pose proof (same_file_creds (TrimSpace p)) as Hf.
    destruct (getFromFile h _ v) as [x|e], (getFromFile h' _ v') as [y|e']; simpl in Hf; try done.
    destruct Hf as [c c' [Hu Ht]|]; [|by repeat split].
    assert (bool_decide (PC_Token c ≠ "") = bool_decide (PC_Token c' ≠ "")) as ->.
    { apply bool_decide_ext. unfold same_presence in Ht. tauto. }
    case_bool_decide; split; [done|by split|done|]. by split. }
  pose proof (same_keyring_token (TrimSpace p)) as Hk.
  destruct (getFromKeyring h _ v) as [x|e], (getFromKeyring h' _ v') as [y|e']; simpl in Hk; try done.
  destruct Hk as [t t' Ht|]; [|done]. split; [done|]. split; simpl; [apply same_user|done].
Qed.

Lemma same_status_line s : status_line h specs v s = status_line h' specs v' s.
Proof.
  unfold status_line. pose proof (same_Get (Credentials.Spec_ID s)) as Hg.
  destruct (Get h specs _ v) as [r|e], (Get h' specs _ v') as [r'|e']; simpl in Hg; try done; [|by subst].
  destruct Hg as [Hs [Hu Ht]]. by rewrite Hs Hu (same_presence_decide _ _ Ht).
Qed.

(** [C35] [scintx auth status] reveals no secret: what it prints, on every host and every
store, is the same when every token - in the environment, the keyring or the file -
is replaced by another one. *)
Theorem authStatus_hides_secrets args : authStatus h specs args v = authStatus h' specs args v'.
Proof.
  unfold authStatus. destruct args; [|done]. destruct (Specs specs) as [|s l]; [done|]. f_equal.
  apply map_ext. intros x. apply same_status_line.
Qed.
End secrets.

(** ** Starting and stopping *)
Lemma in_step_Ok {A} what (r : res string A) a : in_step what r = Ok a → r = Ok a.
Proof. by destruct r. Qed.

Lemma OpenDeliverer_sound cfg w :
  OpenDeliverer cfg = Ok (Some w) → Wh_URL w ≠ "" ∧ Wh_Secret w ≠ "" ∧ (0 < Wh_Timeout w)%Z ∧ (1 <= Wh_MaxAttempts w)%Z.
Proof.
  unfold OpenDeliverer. case_bool_decide; [done|]. case_bool_decide; [done|]. intros [= <-]. simpl.
  split_and!; [done..| |]; case_bool_decide; unfold Second; lia.
Qed.

Lemma replace_provider_ids p l l' : Mem.replace_provider p l = Some l' → PE_ID <$> l' = PE_ID <$> l ∧ PE_ID p ∈ PE_ID <$> l'.
Proof.
  revert l'. induction l as [|q l IH]; intros l'; simpl; [done|]. case_bool_decide as Hq.
  - intros [= <-]. simpl. rewrite Hq. split; [done|]. by left.
  - destruct (Mem.replace_provider p l) as [l1|]; [|done]. intros [= <-]. destruct (IH l1 eq_refl) as [He Hin].
    rewrite !fmap_cons He. rewrite He in Hin. split; [done|by right].
Qed.

Lemma v_register_ids p v id : registered id (v_register p v) ↔ id = PE_ID p ∨ registered id v.
Proof.
  unfold registered, v_register. simpl. destruct (Mem.replace_provider p (v_providers v)) as [l|] eqn:E; simpl.
  - destruct (replace_provider_ids _ _ _ E) as [He Hin]. rewrite He. rewrite He in Hin. split; [by right|].
    intros [->|?]; done.
  - rewrite fmap_app elem_of_app list_elem_of_singleton. tauto.
Qed.

(** Every provider that was loaded is in the store. *)
Lemma register_all_spec `{StoreLaws ST} l s s' :
  valid s → Forall (λ p, json_ok (Prov_Capabilities p) = true) l → register_all l s = (s', Ok ()) →
  valid s' ∧ (∀ id, registered id (view s') ↔ registered id (view s) ∨ id ∈ map Prov_ID l).
Proof.
  intros Hv Hj. revert s Hv. induction Hj as [|p l Hp Hj IH]; intros s Hv; simpl.
  { intros [= <-]. split; [done|]. intros id. set_solver. }
  set (e := mkProviderEntry _ _ _). destruct (RegisterProvider_law s e Hv Hp) as (Hv1 & Hok & Hview). rewrite Hok. intros Hr.
  destruct (IH _ Hv1 Hr) as [Hv2 Hids]. split; [done|]. intros id. rewrite Hids Hview v_register_ids elem_of_cons. simpl. tauto.
Qed.

Section started.
Context `{StoreLaws ST} `{Unicode}.
Context (getenv : string → string) (numCPU : Z) (open_store : Sql.Backend → res string ST).
Context (open_cache : CacheBackend → res string ()) (engines : gmap string (res string PolicyEngine)).
Context (factories : gmap string (res FactoryErr Provider)) (aggregator : ResultAggregator).

(** [C34] The gateway never starts half configured: once it listens, webhook delivery is
off or has a URL, a secret, a positive timeout and at least one attempt;
authentication is off or every enabled profile has credentials; cached results have
a positive life time; and every loaded provider is registered in the store. *)
Theorem runServe_sound g :
  runServe getenv numCPU open_store open_cache engines factories aggregator = Ok g →
  (∀ b s, open_store b = Ok s → valid s) →
  (∀ id p, factories !! id = Some (Ok p) → json_ok (Prov_Capabilities p) = true) →
  (∀ w, sd_webhook g = Some w → Wh_URL w ≠ "" ∧ Wh_Secret w ≠ "" ∧ (0 < Wh_Timeout w)%Z ∧ (1 <= Wh_MaxAttempts w)%Z)
  ∧ (∀ cfg, sd_auth g = Some cfg →
       Auth_Profiles cfg ≠ [] ∧ (ProfileHMAC ∈ Auth_Profiles cfg → Auth_HMACKeys cfg ≠ ∅)
       ∧ (ProfileBearer ∈ Auth_Profiles cfg → Auth_BearerTokens cfg ≠ ∅)
       ∧ (∀ p, p ∈ Auth_Profiles cfg → p = ProfileHMAC ∨ p = ProfileBearer))
  ∧ (0 < o_cacheTTL (sd_orchestrator g))%Z
  ∧ valid (sd_store g) ∧ ∀ p, p ∈ o_providers (sd_orchestrator g) → registered (Prov_ID p) (view (sd_store g)).
Proof.
  intros Hg Hopen Hjson. unfold runServe in Hg.
  apply res_bind_Ok in Hg as (backend & _ & Hg). apply res_bind_Ok in Hg as (s & Hs%in_step_Ok & Hg).
  apply res_bind_Ok in Hg as (wc & _ & Hg). apply res_bind_Ok in Hg as (deliverer & Hd%in_step_Ok & Hg). cbv zeta in Hg.
  apply res_bind_Ok in Hg as (policy & _ & Hg). apply res_bind_Ok in Hg as (cc & _ & Hg).
  apply res_bind_Ok in Hg as (cache & _ & Hg). apply res_bind_Ok in Hg as ([] & _ & Hg).
  apply res_bind_Ok in Hg as ([s' providers] & Hl%in_step_Ok & Hg). apply res_bind_Ok in Hg as (ac & Ha%in_step_Ok & Hg).
  apply res_bind_Ok in Hg as (wk & _ & Hg). apply res_bind_Ok in Hg as (pool & _ & Hg). injection Hg as <-. simpl.
  assert (valid s' ∧ ∀ p, p ∈ providers → registered (Prov_ID p) (view s')) as [Hv Hreg].
  { unfold LoadProvidersFromRegistry in Hl. destruct (LoadProviders factories _) as [l|e] eqn:El; [|done].
    destruct (register_all l s) as [s1 [[]|e]] eqn:Er; simpl in Hl; [|done]. simplify_eq.
    destruct (register_all_spec providers s s') as [Hv Hids]; [by eapply Hopen| |done|].
    - apply Forall_forall. intros p Hp. destruct (LoadProviders_from _ _ _ _ El Hp) as [id Hid]. by eapply Hjson.
    - split; [done|]. intros p Hp. apply Hids. right. by apply list_elem_of_fmap_2. }
  split_and!; [|..|done|done].
  - intros w ->. by eapply OpenDeliverer_sound.
  - intros cfg Hc. unfold NewVerifier in Hc. destruct (Enabled ac) eqn:Ee; [|done]. injection Hc as <-.
    destruct (auth_config_sound getenv ac Ha) as (Hk & Hh & Hb & _). split_and!; try done. by apply bool_decide_eq_true in Ee.
  - unfold DefaultTTL. repeat case_bool_decide; unfold Hour, Minute, Second in *; lia.
Qed.
End started.

(** A signal never closes the store under a worker: the deferred closes run only when
the pool was seen to drain, in one of the two waits; otherwise the process exits
without them.  In either case the pool admits nothing more and the context of the
running jobs is cancelled. *)
Theorem stop_on_signal_safe `{Store ST} `{!Dispatcher D ST} {C} http first second (sv : Server ST C D) :
  let r := stop_on_signal http first second sv in
  sv_cancelled r.1 = true ∧ sv_dispatcher r.1 = DClose <$> sv_dispatcher sv ∧ sv_world r.1 = sv_world sv
  ∧ (r.2 = ClosesStore ↔ sv_drained r.1 = true)
  ∧ (r.2 = ClosesStore ↔ sv_dispatcher sv = None ∨ first = Waited ∨ second = Waited).
Proof.
  unfold stop_on_signal, Shutdown, WaitWorkers. destruct (sv_dispatcher sv) as [d|], first as [|e], second as [|e']; simpl;
    split_and!; naive_solver.
Qed.

(** ** Runs *)
Section runs.
#[local] Existing Instance sorted_maps.
#[local] Existing Instance ascii_unicode.

Definition osv_specs : gmap string Credentials.Spec :=
  {["osv" := Credentials.mkSpec "osv" "SCINTX_OSV_BEARER_TOKEN" "" "" ""]}.

Lemma authStatus_hides_secrets_witness :
  authStatus plain_host osv_specs [] (mkVault {["osv" := "secret"]} ∅)
  = authStatus plain_host osv_specs [] (mkVault {["osv" := "other"]} ∅)
  ∧ authStatus plain_host osv_specs [] (mkVault {["osv" := "secret"]} ∅) = mkPrinted ["osv: configured via keyring"] [] 0.
Proof.
  split; [|vm_compute; reflexivity].
  apply (authStatus_hides_secrets osv_specs plain_host plain_host (mkVault {["osv" := "secret"]} ∅) (mkVault {["osv" := "other"]} ∅)).
  - split; done.
  - split; simpl; intros k; [|rewrite !lookup_empty; constructor].
    destruct (decide (k = "osv")) as [->|Hk]; [rewrite !lookup_singleton_eq; by constructor|].
    rewrite !lookup_singleton_ne; [done..|constructor].
Defined.

Definition serve_env (k : string) : string :=
  if bool_decide (k = "SCINTX_AUTH") then "bearer" else if bool_decide (k = "SCINTX_AUTH_BEARER_TOKENS") then "t"
  else if bool_decide (k = "SCINTX_POLICY_ENGINE") then "example" else "".
Definition example_engines : gmap string (res string PolicyEngine) :=
  {["example" := Ok (Example.engine Example.registered_engine)]}.

Definition sample_start : res string (Started MemoryStore) :=
  runServe serve_env 4 (λ _, Ok NewMemoryStore) (λ _, Ok ()) example_engines {["osv" := Ok (slow_provider 0)]} (λ _ _ _, Err "none").

Lemma runServe_sound_witness :
  ∃ g, sample_start = Ok g
    ∧ sd_addr g = ":8080" ∧ ∀ p, p ∈ o_providers (sd_orchestrator g) → registered (Prov_ID p) (view (sd_store g)).
Proof.
  assert (match sample_start with Ok g => sd_addr g | Err e => e end = ":8080") as Ha by (vm_compute; reflexivity).
  assert (is_Ok sample_start = true) as Hok by (vm_compute; reflexivity).
  destruct sample_start as [g|e] eqn:Hg; [|discriminate Hok]. exists g. split; [reflexivity|]. split; [exact Ha|].
  refine (proj2 (proj2 (proj2 (proj2 (runServe_sound _ _ _ _ _ _ _ g Hg _ _))))).
  - intros b s [= <-]. exact NewMemoryStore_wf.
  - intros id p Hp. apply lookup_singleton_Some in Hp as [_ [= <-]]. vm_compute. reflexivity.
Defined.

Example command_line :
  main [] = Serve ∧ main ["auth"; "status"] = AuthCommand ["status"] ∧ main ["x"] = UnknownCommand "x"
  ∧ parseAuthFlags ["--token"; "t"; "--user"] true = Err "--user requires a value"
  ∧ pr_code (runAuth plain_host osv_specs ["osv"; "--token"; "t"] (Err "no tty") (mkVault ∅ ∅)).2 = 0%Z
  ∧ pr_code (runAuth plain_host osv_specs ["logout"; "nope"] (Err "no tty") (mkVault ∅ ∅)).2 = 2%Z.
Proof. vm_compute. split_and!; reflexivity. Qed.
End runs.
