(* ===== verification/System.v ===== *)
(** * The gateway as one system: server, handlers, orchestrator, store and local pool

The state is the server with the handlers in flight ([Handlers]).  A step is a request
that starts a handler, the next call of a handler on the store or the pool, the move of a
worker, which runs the orchestrator on one submission ([localPool.loop] calling
[Orchestrator.Process]), or part of the shutdown; they interleave freely.  A run of
[Process] is one step (no handler changes a submission that is being processed: a resume
needs it deferred, an adjudication completed, an abandon without a job); what happens
inside a run (the interleaving of the provider goroutines, the point of cancellation) is
free.  The theorems put the results on the components together: no accepted submission
is ever lost, and after the shutdown every one is settled. *)
From S2P Require Import Prelude GoString GoFloat GoTime Sha256 Types Purl Store StoreSpec Gateway Cache Fingerprint Aggregator Policy ExamplePolicy.
From S2P Require Import Orchestrator Workers Queue Adapter Osv OssIndex Server Handlers.

(** ** What clients do to the pool *)

(** The ids the pool still has to work on. *)
Definition in_flight (p : localPool) : list string :=
  lp_jobs p ++ omap running_id (lp_workers p) ++ lp_unlim p.

Lemma accounted_in_flight p : accounted p = in_flight p ++ lp_finished p.
Proof. unfold accounted, in_flight. by rewrite -!(assoc_L (++)). Qed.

(** A client only adds jobs, and none to a closed pool. *)
Record grows (p p' : localPool) : Prop := {
  gr_run : ∃ ids, pool_run p ids p';
  gr_keeps : in_flight p ⊆ in_flight p';
  gr_closed : lp_closed p = true → lp_closed p' = true ∧ in_flight p' = in_flight p;
}.

Lemma pool_run_trans p0 ids p1 ids' p2 : pool_run p0 ids p1 → pool_run p1 ids' p2 → pool_run p0 (ids ++ ids') p2.
Proof.
  intros H1. induction 1 as [|ids' p l p' _ IH Hst]; [by rewrite List.app_nil_r|].
  rewrite (assoc_L (++)). by eapply run_step.
Qed.

#[export] Instance grows_preorder : PreOrder grows.
Proof.
  split.
  - intros p. split; [exists []; constructor|done|done].
  - intros p1 p2 p3 [[l1 Hr1] Hk1 Hc1] [[l2 Hr2] Hk2 Hc2]. split.
    + exists (l1 ++ l2). by eapply pool_run_trans.
    + by etrans.
    + intros Hc. destruct (Hc1 Hc) as [Hc' He]. destruct (Hc2 Hc') as [? ->]. done.
Qed.

#[local] Hint Extern 0 (grows ?p ?p) => reflexivity : core.

Lemma one_step p l p' : pool_step p l p' → ∃ ids, pool_run p ids p'.
Proof. intros Hst. exists ([] ++ l). eapply run_step; [constructor|done]. Qed.

Lemma grows_reserve ctx p : grows p (Reserve ctx p).1.
Proof.
  split; [by eapply one_step, step_reserve|..]; unfold Reserve; repeat case_match; simplify_eq/=; try done.
Qed.

Lemma release_in_flight i t p : in_flight (releaseLocked i t p) = in_flight p ∧ lp_closed (releaseLocked i t p) = lp_closed p.
Proof. unfold releaseLocked. repeat case_match; done. Qed.

Lemma grows_release i p : grows p (Release i p).
Proof.
  split; [by eapply one_step, step_release|..]; unfold Release; case_match; try done;
    destruct (release_in_flight i a p) as [Hf Hc]; by rewrite ?Hf ?Hc.
Qed.

Lemma grows_commit i id p : grows p (Commit i id p).1.
Proof.
  split; [by eapply one_step, step_commit|..]; unfold Commit; destruct (lp_tokens p !! i) as [t|]; try done;
    destruct (tok_released t || tok_committed t); try done; destruct (release_in_flight i t p) as [Hf Hc];
    destruct (lp_closed p) eqn:Ec; simpl; rewrite ?Hf ?Hc; try done.
  destruct (lp_unlimited p); [|case_bool_decide]; simpl; rewrite ?Hf; unfold in_flight; simpl; set_solver.
Qed.

(** The only job added is the one committed. *)
Lemma reserve_in_flight ctx p : in_flight (Reserve ctx p).1 = in_flight p.
Proof. unfold Reserve. repeat case_match; done. Qed.

Lemma commit_in_flight i id p id' :
  id' ∈ in_flight (Commit i id p).1 → id' ∈ in_flight p ∨ (Commit i id p).2 = Ok () ∧ id' = id.
Proof.
  unfold Commit. destruct (lp_tokens p !! i) as [t|]; [|by left]. destruct (release_in_flight i t p) as [Hf _].
  destruct (tok_released t || tok_committed t); [by left|]. destruct (lp_closed p); simpl; [rewrite Hf; by left|].
  destruct (lp_unlimited p); [|case_bool_decide]; simpl; rewrite ?Hf; unfold in_flight; simpl; set_solver.
Qed.

(** A commit that succeeds leaves the job in the pool. *)
Lemma commit_admits i id p : (Commit i id p).2 = Ok () → id ∈ in_flight (Commit i id p).1.
Proof.
  unfold Commit. destruct (lp_tokens p !! i) as [t|]; [|done]. destruct (tok_released t || tok_committed t); [done|].
  destruct (lp_closed p); [done|]. destruct (lp_unlimited p); [|case_bool_decide]; simpl; try done; intros _;
    unfold in_flight; simpl; set_solver.
Qed.

Lemma Release_in_flight i p : in_flight (Release i p) = in_flight p.
Proof. unfold Release. case_match; [apply release_in_flight|done]. Qed.

Lemma submit_effect ctx id p :
  grows p (Submit ctx id p).1 ∧ ∀ id', id' ∈ in_flight (Submit ctx id p).1 → id' ∈ in_flight p ∨ id' = id.
Proof.
  unfold Submit. pose proof (grows_reserve ctx p) as Hr. pose proof (reserve_in_flight ctx p) as Hr'.
  destruct (Reserve ctx p) as [p1 [i|e]]; simpl in *; [|rewrite Hr'; auto].
  pose proof (grows_commit i id p1) as Hc. pose proof (commit_in_flight i id p1) as Hc'. rewrite Hr' in Hc'.
  destruct (Commit i id p1) as [p2 [[]|e]]; simpl in *.
  - split; [by etrans|]. intros id' [?|[_ ?]]%Hc'; auto.
  - rewrite Release_in_flight. split; [|intros id' [?|[_ ?]]%Hc'; auto].
    etrans; [done|]. etrans; [done|]. apply grows_release.
Qed.

(** ** What workers do to it *)
Lemma take_in_flight i p p' : worker_take i p = Some p' → in_flight p' ≡ₚ in_flight p ∧ lp_closed p' = lp_closed p.
Proof.
  intros Ht. assert (lp_finished p' = lp_finished p ∧ lp_closed p' = lp_closed p) as [Hf Hc]
    by (unfold worker_take in Ht; repeat case_match; simplify_eq; done).
  split; [|done]. pose proof (worker_accounted p p' (step_take _ i _ Ht)) as Ha.
  rewrite !accounted_in_flight Hf in Ha. by apply Permutation_app_inv_r in Ha.
Qed.

Lemma finish_in_flight i id p p' :
  lp_workers p !! i = Some (WRunning id) → worker_finish i p = Some p' →
  in_flight p ≡ₚ id :: in_flight p' ∧ lp_closed p' = lp_closed p.
Proof.
  intros Hi Ht. assert (lp_finished p' = lp_finished p ++ [id] ∧ lp_closed p' = lp_closed p) as [Hf Hc]
    by (unfold worker_finish in Ht; rewrite Hi in Ht; repeat case_match; simplify_eq; done).
  split; [|done]. pose proof (worker_accounted p p' (step_finish _ i _ Ht)) as Ha. rewrite !accounted_in_flight Hf in Ha.
  rewrite -Permutation_cons_append -Permutation_middle in Ha. by apply (Permutation_app_inv_r (lp_finished p)).
Qed.

Lemma unlim_in_flight k id p p' :
  lp_unlim p !! k = Some id → unlim_finish k p = Some p' →
  in_flight p ≡ₚ id :: in_flight p' ∧ lp_closed p' = lp_closed p.
Proof.
  intros Hk Ht. assert (lp_finished p' = lp_finished p ++ [id] ∧ lp_closed p' = lp_closed p) as [Hf Hc]
    by (unfold unlim_finish in Ht; rewrite Hk in Ht; by simplify_eq).
  split; [|done]. pose proof (worker_accounted p p' (step_unlim _ k _ Ht)) as Ha. rewrite !accounted_in_flight Hf in Ha.
  rewrite -Permutation_cons_append -Permutation_middle in Ha. by apply (Permutation_app_inv_r (lp_finished p)).
Qed.

(** ** The system *)
Section system.
Context `{StoreLaws ST} `{ResultCacheLaws C} `{Env} `{Unicode} `{JsonNumbers}.
Context (o : Orchestrator) `{!PolicyLaws (o_policy o)} `{!AggregatorLaws (o_aggregator o)}.
Implicit Types (sv : Server ST C localPool) (p : localPool) (v : StoreView) (t : Thread) (ts : list Thread).

(** The server and the handlers in flight. *)
Record Sys := mkSys {
  sys_server : Server ST C localPool;
  sys_threads : list Thread;
}.

Implicit Types st : Sys.

(** A worker takes a job, or runs [Process] on the job it took and finishes. *)
Inductive worker_run sv : Server ST C localPool → Prop :=
| run_take i p p' :
    sv_dispatcher sv = Some p → worker_take i p = Some p' → worker_run sv (set_pool p' sv)
| run_finish i p p' id ctx sched :
    sv_dispatcher sv = Some p → lp_workers p !! i = Some (WRunning id) → worker_finish i p = Some p' →
    worker_run sv (set_pool p' (run_world (Process o ctx sched id) sv).1)
| run_unlim k p p' id ctx sched :
    sv_dispatcher sv = Some p → lp_unlim p !! k = Some id → unlim_finish k p = Some p' →
    worker_run sv (set_pool p' (run_world (Process o ctx sched id) sv).1).

(** Nothing is left to do and every worker has returned: [Wait] returns. *)
Definition at_rest p : Prop := in_flight p = [] ∧ Forall (eq WExited) (lp_workers p).

(** A handler starts, or makes its next call. *)
Definition spawn st (n : Server ST C localPool * (Thread + Response)) : Sys :=
  mkSys n.1 (match n.2 with inl t => sys_threads st ++ [t] | inr _ => sys_threads st end).

Definition advance (i : nat) st (n : Server ST C localPool * (Thread + Response)) : Sys :=
  mkSys n.1 (match n.2 with inl t => <[i := t]> (sys_threads st) | inr _ => delete i (sys_threads st) end).

#[local] Arguments spawn : simpl never.
#[local] Arguments advance : simpl never.

Inductive thread_moves st : Sys → Prop :=
| thread_moved i t : sys_threads st !! i = Some t → thread_moves st (advance i st (thread_step o t (sys_server st))).

(** The submission a create handler is about to store, has stored or is about to abandon. *)
Definition creating t : option string :=
  match t with
  | TReserved _ _ _ sub | TStored _ _ sub => Some (Sub_ID sub)
  | TAbandon _ _ id _ => Some id
  | _ => None
  end.

(** The submission a handler is responsible for. *)
Definition owner t : option string :=
  match t with
  | TStored _ _ sub => Some (Sub_ID sub)
  | TAbandon _ _ id _ | TMarked _ id | TSubmit _ id | TSubmitFailed _ id _ | TUnmark id _ => Some id
  | _ => None
  end.

(** The requests that change state start a handler, whose calls interleave with those of
the other handlers, with the workers and with the shutdown, which closes the pool and
begins the wait; the wait ends when the pool is at rest.  A drawn id is not in use, and
a decoded request has no numbers JSON cannot carry. *)
Inductive sys_step st : Sys → Prop :=
| sys_create ctx body key :
    fresh_id (sys_server st) →
    "sub_" +:+ rand_hex (w_tick (sv_world (sys_server st))) ∉ omap creating (sys_threads st) →
    (∀ req, body = Ok req → artifact_ok (Req_Artifact req) = true) →
    sys_step st (spawn st (create_start ctx body key (sys_server st)))
| sys_resume ctx id : sys_step st (spawn st (resume_start ctx id (sys_server st)))
| sys_adjudicate id body : sys_step st (spawn st (adjudicate_start id body (sys_server st)))
| sys_upload limit content contentType :
    sys_step st (mkSys (uploadArtifact limit content contentType (sys_server st)).1 (sys_threads st))
| sys_thread st' : thread_moves st st' → sys_step st st'
| sys_worker sv' : worker_run (sys_server st) sv' → sys_step st (mkSys sv' (sys_threads st))
| sys_shutdown http e : sys_step st (mkSys (Shutdown http (CtxDone e) (sys_server st)).1 (sys_threads st))
| sys_waited p :
    sv_dispatcher (sys_server st) = Some p → lp_closed p = true → at_rest p →
    sys_step st (mkSys (WaitWorkers Waited (sys_server st)).1 (sys_threads st)).

(** ** The invariant *)
Definition pending sub : Prop := is_terminal (Sub_Status sub) = false.
Definition started sub : Prop := Sub_Status sub = SubmissionRunning ∨ is_terminal (Sub_Status sub) = true.

(** A submission whose create handler has not committed it: accepted, without a job, and
bound under no key but the handler's. *)
Definition uncommitted v p (key id : string) : Prop :=
  v_status id v = Some SubmissionAccepted ∧ (id ∉ in_flight p) ∧ ∀ k h, v_bound k v = Some (id, h) → k = key.

Definition thread_ok v p t : Prop :=
  match t with
  | TReserved _ _ _ sub => v_submissions v !! Sub_ID sub = None ∧ json_ok sub = true ∧ Sub_Status sub = SubmissionAccepted
  | TStored _ key sub => uncommitted v p key (Sub_ID sub)
  | TAbandon _ key id _ => uncommitted v p key id
  | TMarked _ id | TSubmit _ id | TSubmitFailed _ id _ | TUnmark id _ => ∃ sub, v_submissions v !! id = Some sub ∧ started sub
  | TAdjRead _ sub _ | TAdjDecided _ sub _ _ | TAdjRecorded _ sub _ _ =>
      Sub_Status sub = SubmissionCompleted ∧ stable sub
      ∧ ∃ sub0, v_submissions v !! Sub_ID sub = Some sub0 ∧ started sub0 ∧ same_request sub0 sub
  | _ => True
  end.

Definition keys_bound v : Prop :=
  ∀ key id h, v_bound key v = Some (id, h) → is_Some (v_submissions v !! id).

(** Every submission that is not settled has a job or a handler, every job a
submission, and no two handlers create the same submission. *)
Record tracked v p ts : Prop := {
  tr_job : ∀ id sub, v_submissions v !! id = Some sub → pending sub → id ∈ in_flight p ∨ id ∈ omap owner ts;
  tr_sub : ∀ id, id ∈ in_flight p → is_Some (v_submissions v !! id);
  tr_threads : Forall (thread_ok v p) ts;
  tr_once : NoDup (omap creating ts);
  tr_keys : keys_bound v;
}.

Record sys_inv (n : nat) sv p ts : Prop := {
  si_valid : svalid sv;
  si_pool : sv_dispatcher sv = Some p;
  si_inv : pool_inv n p;
  si_workers : lp_unlimited p = true ∨ 0 < n;
  si_tracked : tracked (sview sv) p ts;
  si_drained : sv_drained sv = true → lp_closed p = true ∧ in_flight p = [];
}.

(** Stored and no longer with the handler that creates it. *)
Definition committed v ts (id : string) (sub : Submission) : Prop :=
  v_submissions v !! id = Some sub ∧ id ∉ omap creating ts.

(** What a step does to the committed submissions: they stay, with their request. *)
Definition keeps v ts v' ts' : Prop :=
  ∀ id sub, committed v ts id sub → ∃ sub', committed v' ts' id sub' ∧ same_request sub sub'.

Lemma keeps_refl v ts : keeps v ts v ts.
Proof. intros id sub Hs. by exists sub. Qed.

Lemma same_request_trans sub sub1 sub2 : same_request sub sub1 → same_request sub1 sub2 → same_request sub sub2.
Proof. unfold same_request. intros. destruct_and!. split_and!; congruence. Qed.

Lemma keeps_trans v1 ts1 v2 ts2 v3 ts3 : keeps v1 ts1 v2 ts2 → keeps v2 ts2 v3 ts3 → keeps v1 ts1 v3 ts3.
Proof.
  intros Ha Hb id sub Hs. destruct (Ha _ _ Hs) as (sub1 & Hs1 & Hr1). destruct (Hb _ _ Hs1) as (sub2 & Hs2 & Hr2).
  exists sub2. split; [done|]. by eapply same_request_trans.
Qed.

(** ** One step changes at most one submission

[x] is the submission the step may touch, [c] the one its handler is creating: the
others, their keys and their jobs are as before, and [x] keeps its request and does not
go back, or is removed by the handler that created it. *)
Record effect (c x : option string) v p v' p' : Prop := {
  ef_subs : ∀ id, Some id ≠ x → v_submissions v' !! id = v_submissions v !! id;
  ef_keys : ∀ k id h, Some id ≠ x → v_bound k v' = Some (id, h) → v_bound k v = Some (id, h);
  ef_jobs : ∀ id, Some id ≠ x → id ∈ in_flight p' ↔ id ∈ in_flight p;
  ef_at : ∀ id, x = Some id →
    is_Some (v_submissions v' !! id)
    ∧ (∀ sub, v_submissions v !! id = Some sub →
         ∃ sub', v_submissions v' !! id = Some sub' ∧ same_request sub sub' ∧ (started sub → started sub'))
    ∨ c = Some id ∧ v_status id v = Some SubmissionAccepted ∧ v_submissions v' !! id = None ∧ (id ∉ in_flight p')
      ∧ ∀ k h, v_bound k v' ≠ Some (id, h);
}.

Lemma effect_same c v p v' p' :
  v_submissions v' = v_submissions v → v_idem v' = v_idem v → (∀ id, id ∈ in_flight p' ↔ id ∈ in_flight p) →
  effect c None v p v' p'.
Proof.
  intros Hs Hi Hf. split; try done; [by intros; rewrite Hs|]. intros k id h _. unfold v_bound. by rewrite Hi.
Qed.

(** A step that writes an existing submission. *)
Lemma effect_put c id sub sub' v p v' p' :
  v_submissions v !! id = Some sub → v_submissions v' = <[id := sub']> (v_submissions v) → v_idem v' = v_idem v →
  same_request sub sub' → started sub' → (∀ i, i ≠ id → i ∈ in_flight p' ↔ i ∈ in_flight p) →
  effect c (Some id) v p v' p'.
Proof.
  intros Hs Hv Hi Hr Hst Hf. split.
  - intros i Hne. rewrite Hv lookup_insert_ne //. congruence.
  - intros k i h _. unfold v_bound. by rewrite Hi.
  - intros i Hne. apply Hf. congruence.
  - intros i [= <-]. left. rewrite Hv lookup_insert_eq. split; [done|]. intros s Hs'. exists sub'. by simplify_eq.
Qed.

(** A step that only gives a stored submission a job. *)
Lemma effect_job c id v p p' :
  is_Some (v_submissions v !! id) → (∀ i, i ≠ id → i ∈ in_flight p' ↔ i ∈ in_flight p) → effect c (Some id) v p v p'.
Proof.
  intros Hs Hf. split; try done.
  - intros i Hne. apply Hf. congruence.
  - intros i [= <-]. left. split; [done|]. intros sub Hl. by exists sub.
Qed.

Lemma accepted_not_started sub : Sub_Status sub = SubmissionAccepted → ~ started sub.
Proof. intros Ha [Hr|Ht]; rewrite Ha in Hr || rewrite Ha in Ht; done. Qed.

Lemma effect_started c x v p v' p' id sub :
  effect c x v p v' p' → v_submissions v !! id = Some sub → started sub →
  ∃ sub', v_submissions v' !! id = Some sub' ∧ same_request sub sub' ∧ started sub'.
Proof.
  intros [Hs _ _ Hat] Hl Hst. destruct (decide (x = Some id)) as [->|Hne].
  - destruct (Hat _ eq_refl) as [[_ Hk]|(_ & Hacc & _)].
    + destruct (Hk _ Hl) as (sub' & ? & ? & ?). exists sub'. auto.
    + unfold v_status in Hacc. rewrite Hl in Hacc. injection Hacc as Hacc. by destruct (accepted_not_started _ Hacc).
  - exists sub. rewrite Hs; [congruence|]. done.
Qed.

(** The other handlers do not notice. *)
Lemma effect_thread_ok c x v p v' p' t :
  effect c x v p v' p' → (∀ id, x = Some id → creating t ≠ Some id) → thread_ok v p t → thread_ok v' p' t.
Proof.
  intros He Hx Ht. pose proof He as [Hs Hk Hj _].
  assert (Hun : ∀ key id, creating t = Some id → uncommitted v p key id → uncommitted v' p' key id).
  { intros key id Hc (Hst & Hf & Hb). assert (Some id ≠ x) as Hne by (intros <-; by apply (Hx id)).
    unfold uncommitted, v_status. rewrite Hs // Hj //. split_and!; [done..|]. intros k h Hb'. by eapply Hb, Hk. }
  destruct t; simpl in *; try done; try (by apply Hun).
  - destruct Ht as (Hn & ? & ?). split; [|done]. rewrite Hs; [|done]. intros <-. by eapply Hx.
  - destruct Ht as (s & Hl & Hst). destruct (effect_started _ _ _ _ _ _ _ _ He Hl Hst) as (s' & ? & _ & ?). by exists s'.
  - destruct Ht as (s & Hl & Hst). destruct (effect_started _ _ _ _ _ _ _ _ He Hl Hst) as (s' & ? & _ & ?). by exists s'.
  - destruct Ht as (s & Hl & Hst). destruct (effect_started _ _ _ _ _ _ _ _ He Hl Hst) as (s' & ? & _ & ?). by exists s'.
  - destruct Ht as (s & Hl & Hst). destruct (effect_started _ _ _ _ _ _ _ _ He Hl Hst) as (s' & ? & _ & ?). by exists s'.
  - destruct Ht as (Hc & Hstab & s & Hl & Hst & Hr). destruct (effect_started _ _ _ _ _ _ _ _ He Hl Hst) as (s' & ? & Hr' & ?).
    split_and!; [done..|]. exists s'. split_and!; [done..|]. unfold same_request in *. destruct_and!. split_and!; congruence.
  - destruct Ht as (Hc & Hstab & s & Hl & Hst & Hr). destruct (effect_started _ _ _ _ _ _ _ _ He Hl Hst) as (s' & ? & Hr' & ?).
    split_and!; [done..|]. exists s'. split_and!; [done..|]. unfold same_request in *. destruct_and!. split_and!; congruence.
  - destruct Ht as (Hc & Hstab & s & Hl & Hst & Hr). destruct (effect_started _ _ _ _ _ _ _ _ He Hl Hst) as (s' & ? & Hr' & ?).
    split_and!; [done..|]. exists s'. split_and!; [done..|]. unfold same_request in *. destruct_and!. split_and!; congruence.
Qed.

(** A new handler state, or none, in place of the old one. *)
Record replaced v p ts (old new : option Thread) rest v' p' ts' : Prop := {
  re_old : ts ≡ₚ option_list old ++ rest;
  re_new : ts' ≡ₚ option_list new ++ rest;
  re_ok : ∀ t, new = Some t → thread_ok v' p' t;
  re_creating : ∀ t id, new = Some t → creating t = Some id →
    old ≫= creating = Some id ∨ (id ∉ omap creating ts) ∧ v_submissions v !! id = None;
}.

Lemma creating_rest v p ts old new rest v' p' ts' id :
  replaced v p ts old new rest v' p' ts' → id ∈ omap creating ts' →
  id ∈ omap creating ts ∨ (id ∉ omap creating ts) ∧ v_submissions v !! id = None.
Proof.
  intros [Ho Hn _ Hc] Hid. rewrite Hn in Hid. destruct new as [t|]; simpl in Hid.
  2: { left. rewrite Ho omap_app. apply elem_of_app. by right. }
  destruct (creating t) as [i|] eqn:Et; simpl in Hid.
  - apply elem_of_cons in Hid as [->|Hid]; [|left; rewrite Ho omap_app; apply elem_of_app; by right].
    destruct (Hc _ _ eq_refl Et) as [Hold|?]; [|by right]. left. rewrite Ho. destruct old as [t0|]; [|done]. simpl in *.
    rewrite Hold. by left.
  - left. rewrite Ho omap_app. apply elem_of_app. by right.
Qed.

Lemma once_replaced v p ts old new rest v' p' ts' :
  replaced v p ts old new rest v' p' ts' → NoDup (omap creating ts) → NoDup (omap creating ts').
Proof.
  intros [Ho Hn _ Hc] Hnd. rewrite Hn. rewrite Ho omap_app in Hnd. apply NoDup_app in Hnd as (_ & Hdis & Hnd).
  destruct new as [t|]; simpl; [|done]. destruct (creating t) as [i|] eqn:Et; [|done]. constructor; [|done].
  destruct (Hc _ _ eq_refl Et) as [Hold|[Hf _]].
  - apply Hdis. destruct old as [t0|]; [|done]. simpl in *. rewrite Hold. by left.
  - intros Hi. apply Hf. rewrite Ho omap_app. apply elem_of_app. by right.
Qed.

Lemma keeps_effect v p ts x old new rest v' p' ts' :
  effect (old ≫= creating) x v p v' p' → replaced v p ts old new rest v' p' ts' → keeps v ts v' ts'.
Proof.
  intros [Hs _ _ Hat] Hre id sub [Hl Hc].
  assert (Hc' : id ∉ omap creating ts').
  { intros Hi. destruct (creating_rest _ _ _ _ _ _ _ _ _ _ Hre Hi) as [?|[_ ?]]; [done|congruence]. }
  destruct (decide (x = Some id)) as [->|Hne].
  - destruct (Hat _ eq_refl) as [[_ Hk]|(Hold & _)].
    + destruct (Hk _ Hl) as (sub' & ? & ? & _). by exists sub'.
    + destruct Hc. rewrite (re_old _ _ _ _ _ _ _ _ _ Hre). destruct old as [t0|]; [|done]. simpl in *. rewrite Hold. by left.
  - exists sub. unfold committed. rewrite Hs; [congruence|]. done.
Qed.

Lemma tracked_effect v p ts x old new rest v' p' ts' :
  tracked v p ts → effect (old ≫= creating) x v p v' p' → replaced v p ts old new rest v' p' ts' →
  (∀ id, x = Some id → id ∉ omap creating rest) →
  (∀ id sub', v_submissions v' !! id = Some sub' → pending sub' → x = Some id ∨ old ≫= owner = Some id →
     id ∈ in_flight p' ∨ new ≫= owner = Some id) →
  tracked v' p' ts'.
Proof.
  intros [Hjob Hsub Hth Honce Hkeys] He Hre Hx Hown. pose proof He as [Hs Hk Hj Hat]. pose proof Hre as [Ho Hn Hok Hcr].
  assert (Hnew : ∀ id, new ≫= owner = Some id → id ∈ omap owner ts').
  { intros id Hid. rewrite Hn. destruct new as [t|]; [|done]. simpl in *. rewrite Hid. by left. }
  split.
  - intros id sub Hl Hp. destruct (decide (x = Some id)) as [->|Hne].
    { destruct (Hown _ _ Hl Hp (or_introl eq_refl)); auto. }
    assert (Hl0 : v_submissions v !! id = Some sub) by (rewrite -Hs //; congruence).
    destruct (Hjob _ _ Hl0 Hp) as [Hi|Hi]; [left; apply Hj; [congruence|done]|].
    rewrite Ho omap_app in Hi. apply elem_of_app in Hi as [Hi|Hi]; [|right; rewrite Hn omap_app; apply elem_of_app; by right].
    destruct old as [t0|]; simpl in *; [|by apply elem_of_nil in Hi].
    destruct (owner t0) as [i|] eqn:Et; [|by apply elem_of_nil in Hi]. apply list_elem_of_singleton in Hi as ->.
    destruct (Hown _ _ Hl Hp (or_intror eq_refl)); auto.
  - intros id Hid. destruct (decide (x = Some id)) as [->|Hne].
    + destruct (Hat _ eq_refl) as [[? _]|(_ & _ & _ & Hno & _)]; done.
    + rewrite Hs; [congruence|]. apply Hsub, Hj; [congruence|done].
  - rewrite Hn. apply Forall_app. split; [destruct new; constructor; [by apply Hok|done]|].
    rewrite Ho in Hth. apply Forall_app in Hth as [_ Hth]. rewrite !Forall_forall in Hth |- *. intros t Ht.
    apply (effect_thread_ok _ _ _ _ _ _ _ He); [|by apply Hth]. intros id -> Hc. apply (Hx id eq_refl).
    apply list_elem_of_omap. by exists t.
  - by eapply once_replaced.
  - intros k id h Hb. destruct (decide (x = Some id)) as [->|Hne].
    + destruct (Hat _ eq_refl) as [[? _]|(_ & _ & _ & _ & Hno)]; [done|]. by destruct (Hno k h).
    + rewrite Hs; [congruence|]. eapply Hkeys, Hk; [congruence|done].
Qed.

(** What a step may do to the pool. *)
Record pool_keeps (n : nat) p p' : Prop := {
  pk_inv : pool_inv n p → pool_inv n p';
  pk_unlimited : lp_unlimited p' = lp_unlimited p;
  pk_closed : lp_closed p = true → lp_closed p' = true;
  pk_done : lp_closed p = true → in_flight p = [] → in_flight p' = [];
}.

Lemma pool_keeps_refl n p : pool_keeps n p p.
Proof. by split. Qed.

Lemma grows_pool_keeps n p p' : grows p p' → pool_keeps n p p'.
Proof.
  intros [[ids Hr] _ Hc]. split.
  - intros Hi. by eapply inv_run.
  - by destruct (run_config _ _ _ Hr).
  - intros Hcl. by destruct (Hc Hcl).
  - intros Hcl He. destruct (Hc Hcl) as [_ ->]. done.
Qed.

Lemma inv_effect n sv p ts sv' p' ts' x old new rest :
  sys_inv n sv p ts → svalid sv' → sv_dispatcher sv' = Some p' → sv_drained sv' = sv_drained sv → pool_keeps n p p' →
  effect (old ≫= creating) x (sview sv) p (sview sv') p' →
  replaced (sview sv) p ts old new rest (sview sv') p' ts' →
  (∀ id, x = Some id → id ∉ omap creating rest) →
  (∀ id sub', v_submissions (sview sv') !! id = Some sub' → pending sub' → x = Some id ∨ old ≫= owner = Some id →
     id ∈ in_flight p' ∨ new ≫= owner = Some id) →
  keeps (sview sv) ts (sview sv') ts' ∧ sys_inv n sv' p' ts'.
Proof.
  intros [Hv Hp Hi Hw Ht Hd] Hv' Hp' Hdr [Hpi Hpu Hpc Hpd] He Hre Hx Hown.
  split; [by eapply keeps_effect|]. split; try done.
  - by apply Hpi.
  - by rewrite Hpu.
  - by eapply tracked_effect.
  - rewrite Hdr. intros Hdr'. destruct (Hd Hdr'). auto.
Qed.

(** ** Each step keeps it *)
Lemma in_flight_grows p p' id : grows p p' → (∀ i, i ∈ in_flight p' → i ∈ in_flight p ∨ i = id) →
  ∀ i, i ≠ id → i ∈ in_flight p' ↔ i ∈ in_flight p.
Proof. intros [_ Hk _] Hj i Hne. split; [intros [?|?]%Hj; done|apply Hk]. Qed.

(** A handler that makes a call which touches no submission. *)
Lemma inv_quiet n sv p ts sv' p' ts' old new rest :
  sys_inv n sv p ts → svalid sv' → sv_dispatcher sv' = Some p' → sv_drained sv' = sv_drained sv → pool_keeps n p p' →
  v_submissions (sview sv') = v_submissions (sview sv) → v_idem (sview sv') = v_idem (sview sv) →
  (∀ id, id ∈ in_flight p' ↔ id ∈ in_flight p) →
  replaced (sview sv) p ts old new rest (sview sv') p' ts' →
  (∀ id, old ≫= owner = Some id → new ≫= owner = Some id) →
  keeps (sview sv) ts (sview sv') ts' ∧ sys_inv n sv' p' ts'.
Proof.
  intros Hinv Hv' Hp' Hd Hpk Hs Hi Hf Hre Hown.
  apply (inv_effect n sv p ts sv' p' ts' None old new rest); try done; [by apply effect_same|].
  intros id sub' _ _ [?|?]; [done|]. right. by apply Hown.
Qed.

Lemma and_exist {A} (P : Prop) (Q : A → Prop) (x : A) : P ∧ Q x → P ∧ ∃ y, Q y.
Proof. intros [? ?]. by eauto. Qed.

Lemma perm_lookup {A} (l : list A) i x : l !! i = Some x → l ≡ₚ [x] ++ delete i l.
Proof. intros Hi. by apply delete_Permutation. Qed.

Lemma perm_insert {A} (l : list A) i x y : l !! i = Some x → <[i := y]> l ≡ₚ [y] ++ delete i l.
Proof.
  intros Hi. assert (i < length l) by (by eapply lookup_lt_Some). rewrite insert_take_drop // delete_take_drop.
  by rewrite -Permutation_middle.
Qed.

(** The handlers after a start or a move. *)
Definition next_thread (nt : Thread + Response) : option Thread := match nt with inl t => Some t | inr _ => None end.

Lemma replaced_spawn v p ts nt v' p' :
  (∀ t, nt = inl t → thread_ok v' p' t ∧ ∀ id, creating t = Some id →
     (id ∉ omap creating ts) ∧ v_submissions v !! id = None) →
  replaced v p ts None (next_thread nt) ts v' p' (match nt with inl t => ts ++ [t] | inr _ => ts end).
Proof.
  intros Hok. destruct nt as [t|r]; simpl; split; simpl; try done.
  - by rewrite -Permutation_cons_append.
  - intros t' [= <-]. by apply Hok.
  - intros t' id [= <-] Hc. right. by apply (Hok t).
Qed.

Lemma replaced_advance v p ts i t nt v' p' :
  ts !! i = Some t →
  (∀ t', nt = inl t' → thread_ok v' p' t' ∧ ∀ id, creating t' = Some id → creating t = Some id) →
  replaced v p ts (Some t) (next_thread nt) (delete i ts) v' p' (match nt with inl t => <[i := t]> ts | inr _ => delete i ts end).
Proof.
  intros Hi Hok. destruct nt as [t'|r]; simpl; split; simpl; try done.
  - by apply perm_lookup.
  - by apply (perm_insert _ _ t).
  - intros t1 [= <-]. by apply Hok.
  - intros t1 id [= <-] Hc. left. by apply (Hok t').
  - by apply perm_lookup.
Qed.

Lemma rest_creating v p ts i t id :
  tracked v p ts → ts !! i = Some t → creating t = Some id → id ∉ omap creating (delete i ts).
Proof.
  intros Ht Hi Hc. pose proof (tr_once _ _ _ Ht) as Hn. rewrite (perm_lookup _ _ _ Hi) in Hn. simpl in Hn.
  rewrite Hc in Hn. by apply NoDup_cons in Hn as [? _].
Qed.

(** A submission that has started is not being created. *)
Lemma started_creating v p ts id sub :
  tracked v p ts → v_submissions v !! id = Some sub → started sub → id ∉ omap creating ts.
Proof.
  intros Ht Hl Hst Hin. apply list_elem_of_omap in Hin as (t & Hin & Hc).
  pose proof (proj1 (Forall_forall _ _) (tr_threads _ _ _ Ht) t Hin) as Hok.
  assert (Hun : ∀ key, uncommitted v p key id → False).
  { intros key (Ha & _). unfold v_status in Ha. rewrite Hl in Ha. injection Ha as Ha. by eapply accepted_not_started. }
  destruct t; simplify_eq/=; try (by eapply Hun). destruct Hok as [Hn _]. congruence.
Qed.

Lemma started_rest v p ts i id sub :
  tracked v p ts → v_submissions v !! id = Some sub → started sub → id ∉ omap creating (delete i ts).
Proof.
  intros Ht Hl Hst (t & Hin & Hc)%list_elem_of_omap. eapply (started_creating v p ts); try done.
  apply list_elem_of_omap. exists t. split; [|done]. by eapply elem_of_submseteq, submseteq_delete.
Qed.

Lemma thread_at n sv p ts i t : sys_inv n sv p ts → ts !! i = Some t → thread_ok (sview sv) p t.
Proof. intros Hinv Hi. exact (proj1 (Forall_lookup _ _) (tr_threads _ _ _ (si_tracked _ _ _ _ Hinv)) _ _ Hi). Qed.

Lemma sub_id n sv p ts id sub : sys_inv n sv p ts → v_submissions (sview sv) !! id = Some sub → Sub_ID sub = id.
Proof. intros Hinv Hs. by destruct (vw_submissions _ (view_valid _ (si_valid _ _ _ _ Hinv)) _ _ Hs). Qed.

Lemma sub_stable n sv p ts id sub : sys_inv n sv p ts → v_submissions (sview sv) !! id = Some sub → stable sub.
Proof. intros Hinv Hs. by destruct (vw_submissions _ (view_valid _ (si_valid _ _ _ _ Hinv)) _ _ Hs). Qed.

Lemma same_request_refl sub : same_request sub sub.
Proof. by unfold same_request. Qed.

(** The state after a start or a move, as [sv'] and [nt] with their equations. *)
Ltac next_state sv' nt Enx :=
  match goal with
  | |- context [spawn ?st ?x] => destruct x as [sv' nt] eqn:Enx; change (sys_server (spawn st (sv', nt))) with sv'
  | |- context [advance ?i ?st ?x] => destruct x as [sv' nt] eqn:Enx; change (sys_server (advance i st (sv', nt))) with sv'
  end.

(** *** Creating *)
Lemma inv_create_start n ctx body key st p :
  sys_inv n (sys_server st) p (sys_threads st) → fresh_id (sys_server st) →
  "sub_" +:+ rand_hex (w_tick (sv_world (sys_server st))) ∉ omap creating (sys_threads st) →
  (∀ req, body = Ok req → artifact_ok (Req_Artifact req) = true) →
  let st' := spawn st (create_start ctx body key (sys_server st)) in
  keeps (sview (sys_server st)) (sys_threads st) (sview (sys_server st')) (sys_threads st')
  ∧ ∃ p', sys_inv n (sys_server st') p' (sys_threads st').
Proof.
  intros Hinv [Hf _] Hth Hok. cbv zeta. unfold create_start.
  destruct body as [req0|e]; [|split; [apply keeps_refl|by exists p]].
  destruct (check_request req0) as [req|r] eqn:Ec; [|split; [apply keeps_refl|by exists p]].
  next_state sv' nt Enx. pose proof Hinv as [Hv Hp _ _ _ _]. simpl in Enx. rewrite Hp in Enx.
  pose proof (grows_reserve ctx p) as Hg. pose proof (reserve_in_flight ctx p) as Hfl. simpl in Enx.
  destruct (Reserve ctx p) as [p1 r] eqn:Er. simpl in *. injection Enx as <- Hnt. apply (and_exist _ _ p1).
  apply (inv_quiet n (sys_server st) p (sys_threads st) _ p1 _ None (next_thread nt) (sys_threads st)); try done.
  - by apply grows_pool_keeps.
  - intros id. by rewrite Hfl.
  - apply (replaced_spawn _ _ (sys_threads st) nt). rewrite -Hnt. destruct r as [tok|e]; [|done]. intros t [= <-]. simpl.
    split; [|by intros id [= <-]]. split; [exact Hf|]. split; [|done].
    apply (new_submission_ok "" 0%Z). eapply check_request_ok; [done|]. by apply Hok.
Qed.

Lemma inv_put n st p i tok key req sub :
  sys_inv n (sys_server st) p (sys_threads st) → sys_threads st !! i = Some (TReserved tok key req sub) →
  let st' := advance i st (thread_step o (TReserved tok key req sub) (sys_server st)) in
  keeps (sview (sys_server st)) (sys_threads st) (sview (sys_server st')) (sys_threads st')
  ∧ ∃ p', sys_inv n (sys_server st') p' (sys_threads st').
Proof.
  intros Hinv Hi. cbv zeta. pose proof (thread_at _ _ _ _ _ _ Hinv Hi) as (Hnone & Hok & Hacc).
  pose proof Hinv as [Hv Hp _ _ Ht _]. next_state sv' nt Enx. set (sv := sys_server st) in *.
  destruct (PutSubmissionIdempotent_law (w_store (sv_world sv)) key (request_fingerprint req) (Some sub) Hv) as [Hv1 Hspec].
  simpl in Enx. destruct (PutSubmissionIdempotent _ _ _ _) as [s1 r1] eqn:Eput. simpl in Enx, Hv1, Hspec.
  unfold idem_spec in Hspec. change (view (w_store (sv_world sv))) with (sview sv) in Hspec. injection Enx as Hsv Hnt.
  assert (Hsv1 : svalid sv' ∧ sv_dispatcher sv' = Some p ∧ sv_drained sv' = sv_drained sv ∧ sview sv' = view s1) by (by subst sv').
  destruct Hsv1 as (Hv' & Hp' & Hd' & Hview'). clear Hsv. apply (and_exist _ _ p).
  destruct (v_bound key (sview sv)) as [[id h]|] eqn:Eb.
  - destruct (tr_keys _ _ _ Ht _ _ _ Eb) as [ex Hex]. destruct (Hspec ex Hex) as [Hview Hr]. rewrite Hview in Hview'.
    apply (inv_quiet n sv p (sys_threads st) sv' p _ (Some (TReserved tok key req sub)) (next_thread nt)
             (delete i (sys_threads st))); try first [done|apply pool_keeps_refl|by rewrite Hview'].
    apply (replaced_advance _ _ (sys_threads st) i _ (nt)); [done|]. rewrite -Hnt Hr. case_decide; by intros t' [= <-].
  - destruct (Hspec Hok) as [Hr Hview]. rewrite Hview in Hview'. rewrite Hr in Hnt. subst nt.
    assert (Hid : Sub_ID (CloneJSON sub) = Sub_ID sub) by (apply Sub_ID_clone; by rewrite Hok).
    assert (Hst : Sub_Status (CloneJSON sub) = SubmissionAccepted) by (unfold CloneJSON; by rewrite Hok).
    assert (Hsub : v_submissions (sview sv') = <[Sub_ID sub := CloneJSON sub]> (v_submissions (sview sv))).
    { rewrite Hview'. unfold v_bind, v_put_submission. rewrite Hid. by case_bool_decide. }
    assert (Hkey : ∀ k i' h, v_bound k (sview sv') = Some (i', h) → i' = Sub_ID sub ∧ k = key ∨ v_bound k (sview sv) = Some (i', h)).
    { intros k i' h. rewrite Hview'. unfold v_bound, v_bind. simpl.
      case_bool_decide as Hk; [done|]. case_bool_decide as Hk'; simpl; [by right|].
      destruct (decide (k = key)) as [->|Hne]; [rewrite lookup_insert_eq; intros [= <- <-]; by left|].
      rewrite lookup_insert_ne //. by right. }
    apply (inv_effect n sv p (sys_threads st) sv' p _ (Some (Sub_ID sub)) (Some (TReserved tok key req sub))
             (Some (TStored tok key (CloneJSON sub))) (delete i (sys_threads st))); try done.
    + split; [| |done|].
      * intros id Hne. rewrite Hsub lookup_insert_ne //. congruence.
      * intros k id h Hne [[-> _]|?]%Hkey; [done|done].
      * intros id [= <-]. left. rewrite Hsub lookup_insert_eq. split; [done|]. by rewrite Hnone.
    + apply (replaced_advance _ _ (sys_threads st) i _ (inl (TStored tok key (CloneJSON sub)))); [done|]. intros t' [= <-]. simpl. rewrite Hid.
      split; [|done]. split_and!.
      * unfold v_status. by rewrite Hsub lookup_insert_eq /= Hst.
      * intros Hin. destruct (tr_sub _ _ _ Ht _ Hin) as [? Hx]. congruence.
      * intros k h [[_ ->]|Hb]%Hkey; [done|]. destruct (tr_keys _ _ _ Ht _ _ _ Hb) as [? Hx]. congruence.
    + intros id [= <-]. by eapply rest_creating.
    + intros id sub' _ _ [[= <-]|?]; [|done]. right. simpl. by rewrite Hid.
Qed.

Lemma inv_commit_new n st p i tok key sub :
  sys_inv n (sys_server st) p (sys_threads st) → sys_threads st !! i = Some (TStored tok key sub) →
  let st' := advance i st (thread_step o (TStored tok key sub) (sys_server st)) in
  keeps (sview (sys_server st)) (sys_threads st) (sview (sys_server st')) (sys_threads st')
  ∧ ∃ p', sys_inv n (sys_server st') p' (sys_threads st').
Proof.
  intros Hinv Hi. cbv zeta. pose proof (thread_at _ _ _ _ _ _ Hinv Hi) as Hun.
  pose proof Hinv as [Hv Hp _ _ Ht _]. next_state sv' nt Enx. unfold thread_step, with_pool in Enx. rewrite Hp in Enx.
  pose proof (grows_commit tok (Sub_ID sub) p) as Hg. pose proof (commit_in_flight tok (Sub_ID sub) p) as Hfl.
  pose proof (commit_admits tok (Sub_ID sub) p) as Hadm. simpl in Enx.
  destruct (Commit tok (Sub_ID sub) p) as [p1 r] eqn:Ec. simpl in *. injection Enx as <- <-.
  apply (and_exist _ _ p1). destruct r as [[]|e].
  - apply (inv_effect n (sys_server st) p (sys_threads st) _ p1 _ (Some (Sub_ID sub))
      (Some (TStored tok key sub)) None (delete i (sys_threads st))); try done.
    + by apply grows_pool_keeps.
    + apply effect_job.
      * destruct Hun as [Hst _]. unfold v_status in Hst. by destruct (v_submissions _ !! _).
      * apply in_flight_grows; [done|]. intros i' [?|[_ ?]]%Hfl; auto.
    + by apply (replaced_advance _ _ (sys_threads st) i _ (inr (accepted_response sub))).
    + intros id [= <-]. by eapply rest_creating.
    + intros id sub' _ _ [[= <-]|[= <-]]; left; by apply Hadm.
  - assert (Hsame : ∀ id, id ∈ in_flight p1 ↔ id ∈ in_flight p)
      by (intros id; split; [intros [?|[? _]]%Hfl; done|apply (gr_keeps _ _ Hg)]).
    apply (inv_quiet n (sys_server st) p (sys_threads st) _ p1 _ (Some (TStored tok key sub))
      (Some (TAbandon tok key (Sub_ID sub) (dispatch_problem e busy))) (delete i (sys_threads st))); try done.
    + by apply grows_pool_keeps.
    + apply (replaced_advance _ _ (sys_threads st) i _ (inl (TAbandon tok key (Sub_ID sub) (dispatch_problem e busy)))); [done|].
      intros t' [= <-]. simpl. split; [|done]. destruct Hun as (? & ? & ?). split_and!; [done| |done]. by rewrite Hsame.
Qed.

Lemma inv_abandon n st p i tok key id r :
  sys_inv n (sys_server st) p (sys_threads st) → sys_threads st !! i = Some (TAbandon tok key id r) →
  let st' := advance i st (thread_step o (TAbandon tok key id r) (sys_server st)) in
  keeps (sview (sys_server st)) (sys_threads st) (sview (sys_server st')) (sys_threads st')
  ∧ ∃ p', sys_inv n (sys_server st') p' (sys_threads st').
Proof.
  intros Hinv Hi. cbv zeta. pose proof (thread_at _ _ _ _ _ _ Hinv Hi) as (Hst & Hfl & Hkey).
  pose proof Hinv as [Hv Hp _ _ Ht _]. next_state sv' nt Enx. injection Enx as Hsv <-.
  destruct (AbandonSubmission_law (w_store (sv_world (sys_server st))) id key Hv) as [Hv1 Ha].
  unfold abandon_spec in Ha. change (view (w_store (sv_world (sys_server st)))) with (sview (sys_server st)) in Ha.
  rewrite decide_True // in Ha. destruct Ha as [_ Hview].
  assert (svalid sv' ∧ sv_dispatcher sv' = Some p ∧ sv_drained sv' = sv_drained (sys_server st)
    ∧ sview sv' = v_abandon id key (sview (sys_server st))) as (Hv' & Hp' & Hd' & Hview') by (by subst sv').
  clear Hsv Hview. apply (and_exist _ _ p).
  assert (Hb : ∀ k i' h, v_bound k (sview sv') = Some (i', h) → i' ≠ id ∧ v_bound k (sview (sys_server st)) = Some (i', h)).
  { intros k i' h Hk. rewrite Hview' in Hk. unfold v_bound at 1, v_abandon in Hk. simpl in Hk.
    destruct (bool_decide (k = "")) eqn:Ek; [done|].
    assert (Hk0 : v_bound k (sview (sys_server st)) = Some (i', h)).
    { unfold v_bound. rewrite Ek. case_bool_decide; [|done]. by apply lookup_delete_Some in Hk as [_ ?]. }
    split; [|done]. intros ->. pose proof (Hkey _ _ Hk0) as ->.
    rewrite Hk0 bool_decide_true // in Hk. by rewrite lookup_delete_eq in Hk. }
  apply (inv_effect n (sys_server st) p (sys_threads st) sv' p _ (Some id)
    (Some (TAbandon tok key id r)) (Some (TRelease tok r)) (delete i (sys_threads st))); try done.
  - split; [| |done|].
    + intros i' Hne. rewrite Hview'. simpl. rewrite lookup_delete_ne //. congruence.
    + intros k i' h _ Hk. by apply Hb.
    + intros i' [= <-]. right. split_and!; [done..| |done|].
      * rewrite Hview'. simpl. by rewrite lookup_delete_eq.
      * intros k h Hk. by destruct (Hb _ _ _ Hk).
  - apply (replaced_advance _ _ (sys_threads st) i _ (inl (TRelease tok r))); [done|]. by intros t' [= <-].
  - intros i' [= <-]. by eapply rest_creating.
  - intros i' sub' Hl _ Hor. assert (i' = id) as -> by (by destruct Hor as [[= ->]|[= ->]]).
    rewrite Hview' /= lookup_delete_eq in Hl. done.
Qed.

(** A move that touches no submission. *)
Lemma inv_advance_quiet n st p i t sv' p' nt :
  sys_inv n (sys_server st) p (sys_threads st) → sys_threads st !! i = Some t →
  svalid sv' → sv_dispatcher sv' = Some p' → sv_drained sv' = sv_drained (sys_server st) → pool_keeps n p p' →
  v_submissions (sview sv') = v_submissions (sview (sys_server st)) → v_idem (sview sv') = v_idem (sview (sys_server st)) →
  (∀ id, id ∈ in_flight p' ↔ id ∈ in_flight p) →
  (∀ t', nt = inl t' → thread_ok (sview sv') p' t' ∧ ∀ id, creating t' = Some id → creating t = Some id) →
  (∀ id, owner t = Some id → next_thread nt ≫= owner = Some id) →
  keeps (sview (sys_server st)) (sys_threads st) (sview sv') (sys_threads (advance i st (sv', nt)))
  ∧ ∃ p', sys_inv n sv' p' (sys_threads (advance i st (sv', nt))).
Proof.
  intros Hinv Hi Hv' Hp' Hd' Hpk Hs Hk Hf Hok Hown. apply (and_exist _ _ p').
  apply (inv_quiet n (sys_server st) p (sys_threads st) sv' p' _ (Some t) (next_thread nt) (delete i (sys_threads st))); try done.
  by apply (replaced_advance _ _ (sys_threads st) i _ nt).
Qed.

Lemma inv_release_slot n st p i tok r :
  sys_inv n (sys_server st) p (sys_threads st) → sys_threads st !! i = Some (TRelease tok r) →
  let st' := advance i st (thread_step o (TRelease tok r) (sys_server st)) in
  keeps (sview (sys_server st)) (sys_threads st) (sview (sys_server st')) (sys_threads st')
  ∧ ∃ p', sys_inv n (sys_server st') p' (sys_threads st').
Proof.
  intros Hinv Hi. cbv zeta. pose proof Hinv as [Hv Hp _ _ _ _]. next_state sv' nt Enx.
  unfold thread_step, with_pool in Enx. rewrite Hp in Enx. injection Enx as <- <-.
  apply (inv_advance_quiet n st p i _ _ (Release tok p) _ Hinv Hi); try done.
  - apply grows_pool_keeps, grows_release.
  - intros id. by rewrite Release_in_flight.
Qed.

(** *** Resuming *)
Lemma inv_resume_start n ctx id st p :
  sys_inv n (sys_server st) p (sys_threads st) →
  let st' := spawn st (resume_start ctx id (sys_server st)) in
  keeps (sview (sys_server st)) (sys_threads st) (sview (sys_server st')) (sys_threads st')
  ∧ ∃ p', sys_inv n (sys_server st') p' (sys_threads st').
Proof.
  intros Hinv. cbv zeta. pose proof Hinv as [Hv Hp _ _ Ht _]. next_state sv' nt Enx. unfold resume_start, run_world in Enx.
  destruct (MarkForResume_view id (sv_world (sys_server st)) Hv) as [Hv1 Hm].
  destruct (MarkForResume id (sv_world (sys_server st))) as [w1 [[]|e]]; simpl in Enx, Hv1, Hm; injection Enx as <- <-;
    apply (and_exist _ _ p).
  - destruct Hm as (sub & Hs & Hst & Hview). change (view (w_store (sv_world (sys_server st)))) with (sview (sys_server st)) in *.
    pose proof (sub_id _ _ _ _ _ _ Hinv Hs) as Hid.
    assert (Hstd : started sub) by (right; by rewrite Hst).
    apply (inv_effect n (sys_server st) p (sys_threads st) _ p _ (Some id) None (Some (TMarked ctx id)) (sys_threads st)); try done.
    + apply (effect_put _ id sub (set_Sub_Status SubmissionRunning sub)); try done.
      * unfold sview at 1. simpl. rewrite Hview. simpl. by rewrite Hid.
      * unfold sview at 1. simpl. by rewrite Hview.
      * by left.
    + apply (replaced_spawn _ _ _ (inl (TMarked ctx id))). intros t [= <-]. simpl. split; [|done].
      exists (set_Sub_Status SubmissionRunning sub). split; [|by left].
      unfold sview. simpl. rewrite Hview. simpl. by rewrite Hid lookup_insert_eq.
    + intros i [= <-]. by eapply started_creating.
    + intros i sub' _ _ [[= <-]|?]; [by right|done].
  - destruct Hm as [Hview _]. change (view (w_store (sv_world (sys_server st)))) with (sview (sys_server st)) in *.
    apply (inv_quiet n (sys_server st) p (sys_threads st) _ p _ None None (sys_threads st));
      try first [done|unfold sview at 1; simpl; by rewrite Hview|by apply (replaced_spawn _ _ _ (inr (writeProblem 409 "" "")))].
Qed.

Lemma inv_submit_reserve n st p i ctx id :
  sys_inv n (sys_server st) p (sys_threads st) → sys_threads st !! i = Some (TMarked ctx id) →
  let st' := advance i st (thread_step o (TMarked ctx id) (sys_server st)) in
  keeps (sview (sys_server st)) (sys_threads st) (sview (sys_server st')) (sys_threads st')
  ∧ ∃ p', sys_inv n (sys_server st') p' (sys_threads st').
Proof.
  intros Hinv Hi. cbv zeta. pose proof (thread_at _ _ _ _ _ _ Hinv Hi) as Hst. pose proof Hinv as [Hv Hp _ _ _ _].
  next_state sv' nt Enx. unfold thread_step in Enx. rewrite Hp in Enx. simpl in Enx.
  pose proof (grows_reserve ctx p) as Hg. pose proof (reserve_in_flight ctx p) as Hfl.
  destruct (Reserve ctx p) as [p1 [tok|e]]; simpl in Enx, Hg, Hfl; injection Enx as <- <-;
    apply (inv_advance_quiet n st p i _ _ p1 _ Hinv Hi); try done; try (by apply grows_pool_keeps); try (intros ?; by rewrite Hfl);
    by intros t' [= <-].
Qed.

Lemma inv_submit_commit n st p i tok id :
  sys_inv n (sys_server st) p (sys_threads st) → sys_threads st !! i = Some (TSubmit tok id) →
  let st' := advance i st (thread_step o (TSubmit tok id) (sys_server st)) in
  keeps (sview (sys_server st)) (sys_threads st) (sview (sys_server st')) (sys_threads st')
  ∧ ∃ p', sys_inv n (sys_server st') p' (sys_threads st').
Proof.
  intros Hinv Hi. cbv zeta. pose proof (thread_at _ _ _ _ _ _ Hinv Hi) as (sub & Hl & Hst). pose proof Hinv as [Hv Hp _ _ Ht _].
  next_state sv' nt Enx. unfold thread_step, with_pool in Enx. rewrite Hp in Enx. simpl in Enx.
  pose proof (grows_commit tok id p) as Hg. pose proof (commit_in_flight tok id p) as Hfl.
  pose proof (commit_admits tok id p) as Hadm.
  destruct (Commit tok id p) as [p1 [[]|e]]; simpl in Enx, Hg, Hfl, Hadm; injection Enx as <- <-.
  - apply (and_exist _ _ p1).
    apply (inv_effect n (sys_server st) p (sys_threads st) _ p1 _ (Some id)
      (Some (TSubmit tok id)) (Some (TResumed id)) (delete i (sys_threads st))); try done.
    + by apply grows_pool_keeps.
    + apply effect_job; [by exists sub|]. apply in_flight_grows; [done|]. intros i' [?|[_ ?]]%Hfl; auto.
    + apply (replaced_advance _ _ (sys_threads st) i _ (inl (TResumed id))); [done|]. by intros t' [= <-].
    + intros i' [= <-]. by eapply started_rest.
    + intros i' sub' _ _ [[= <-]|[= <-]]; left; by apply Hadm.
  - apply (inv_advance_quiet n st p i _ _ p1 _ Hinv Hi); try done.
    + by apply grows_pool_keeps.
    + intros id'. split; [intros [?|[? _]]%Hfl; done|apply (gr_keeps _ _ Hg)].
    + intros t' [= <-]. simpl. split; [|done]. by exists sub.
Qed.

Lemma inv_submit_failed n st p i tok id r :
  sys_inv n (sys_server st) p (sys_threads st) → sys_threads st !! i = Some (TSubmitFailed tok id r) →
  let st' := advance i st (thread_step o (TSubmitFailed tok id r) (sys_server st)) in
  keeps (sview (sys_server st)) (sys_threads st) (sview (sys_server st')) (sys_threads st')
  ∧ ∃ p', sys_inv n (sys_server st') p' (sys_threads st').
Proof.
  intros Hinv Hi. cbv zeta. pose proof (thread_at _ _ _ _ _ _ Hinv Hi) as Hst. pose proof Hinv as [Hv Hp _ _ _ _].
  next_state sv' nt Enx. unfold thread_step, with_pool in Enx. rewrite Hp in Enx. injection Enx as <- <-.
  apply (inv_advance_quiet n st p i _ _ (Release tok p) _ Hinv Hi); try done.
  - apply grows_pool_keeps, grows_release.
  - intros id'. by rewrite Release_in_flight.
  - by intros t' [= <-].
Qed.

Lemma inv_unmark n st p i id r :
  sys_inv n (sys_server st) p (sys_threads st) → sys_threads st !! i = Some (TUnmark id r) →
  let st' := advance i st (thread_step o (TUnmark id r) (sys_server st)) in
  keeps (sview (sys_server st)) (sys_threads st) (sview (sys_server st')) (sys_threads st')
  ∧ ∃ p', sys_inv n (sys_server st') p' (sys_threads st').
Proof.
  intros Hinv Hi. cbv zeta. pose proof (thread_at _ _ _ _ _ _ Hinv Hi) as (sub & Hl & Hst). pose proof Hinv as [Hv Hp _ _ Ht _].
  next_state sv' nt Enx. injection Enx as Hsv <-. pose proof (sub_id _ _ _ _ _ _ Hinv Hl) as Hid.
  destruct (ReleaseResume_law (w_store (sv_world (sys_server st))) id Hv) as (Hv1 & _ & Hview).
  change (view (w_store (sv_world (sys_server st)))) with (sview (sys_server st)) in Hview.
  assert (svalid sv' ∧ sv_dispatcher sv' = Some p ∧ sv_drained sv' = sv_drained (sys_server st)
    ∧ sview sv' = v_release id (sview (sys_server st))) as (Hv' & Hp' & Hd' & Hview') by (by subst sv').
  clear Hsv Hview. apply (and_exist _ _ p). unfold v_release in Hview'. rewrite Hl in Hview'.
  assert (∃ sub', v_submissions (sview sv') = <[id := sub']> (v_submissions (sview (sys_server st)))
    ∧ v_idem (sview sv') = v_idem (sview (sys_server st)) ∧ same_request sub sub' ∧ is_terminal (Sub_Status sub') = true)
    as (sub' & Hsub & Hidem & Hr & Htm).
  { case_decide as Hrun; [exists (deferred_again sub); rewrite Hview'; simpl; by rewrite Hid|].
    exists sub. rewrite Hview' insert_id //. split_and!; try done. by destruct Hst. }
  apply (inv_effect n (sys_server st) p (sys_threads st) _ p _ (Some id)
    (Some (TUnmark id r)) None (delete i (sys_threads st))); try done.
  - apply (effect_put _ id sub sub'); try done. by right.
  - by apply (replaced_advance _ _ (sys_threads st) i _ (inr r)).
  - intros i' [= <-]. by eapply started_rest.
  - intros i' s Hl' Hpe Hor. assert (i' = id) as -> by (by destruct Hor as [[= ->]|[= ->]]).
    rewrite Hsub lookup_insert_eq in Hl'. injection Hl' as <-. unfold pending in Hpe. congruence.
Qed.

(** *** Adjudicating *)
Lemma inv_adjudicate_start n id body st p :
  sys_inv n (sys_server st) p (sys_threads st) →
  let st' := spawn st (adjudicate_start id body (sys_server st)) in
  keeps (sview (sys_server st)) (sys_threads st) (sview (sys_server st')) (sys_threads st')
  ∧ ∃ p', sys_inv n (sys_server st') p' (sys_threads st').
Proof.
  intros Hinv. cbv zeta. pose proof Hinv as [Hv Hp _ _ Ht _]. unfold adjudicate_start.
  destruct body as [req|e]; [|split; [apply keeps_refl|by exists p]].
  destruct (_ && _); [split; [apply keeps_refl|by exists p]|].
  next_state sv' nt Enx. unfold run_world, store_op in Enx. rewrite GetSubmission_law // in Enx. simpl in Enx.
  injection Enx as Hsv Hnt. change (view (w_store (sv_world (sys_server st)))) with (sview (sys_server st)) in Hnt.
  assert (svalid sv' ∧ sv_dispatcher sv' = Some p ∧ sv_drained sv' = sv_drained (sys_server st)
    ∧ sview sv' = sview (sys_server st)) as (Hv' & Hp' & Hd' & Hview') by (by subst sv'). clear Hsv.
  apply (and_exist _ _ p).
  apply (inv_quiet n (sys_server st) p (sys_threads st) sv' p _ None (next_thread nt) (sys_threads st));
    try first [done|by rewrite Hview'].
  apply (replaced_spawn _ _ _ nt). rewrite -Hnt Hview'. intros t.
  destruct (v_submissions (sview (sys_server st)) !! id) as [sub|] eqn:Hl; [|done].
  case_bool_decide as Hst; [done|]. destruct (Sub_DecisionID sub) as [did|]; [|done].
  case_bool_decide; [done|]. intros [= <-]. simpl. split; [|done]. rewrite (sub_id _ _ _ _ _ _ Hinv Hl).
  split; [done|]. split; [by eapply sub_stable|]. exists sub. split_and!; [done| |apply same_request_refl]. right. by rewrite Hst.
Qed.

Lemma inv_adjudicate_read n st p i req sub did :
  sys_inv n (sys_server st) p (sys_threads st) → sys_threads st !! i = Some (TAdjRead req sub did) →
  let st' := advance i st (thread_step o (TAdjRead req sub did) (sys_server st)) in
  keeps (sview (sys_server st)) (sys_threads st) (sview (sys_server st')) (sys_threads st')
  ∧ ∃ p', sys_inv n (sys_server st') p' (sys_threads st').
Proof.
  intros Hinv Hi. cbv zeta. pose proof (thread_at _ _ _ _ _ _ Hinv Hi) as Hok. pose proof Hinv as [Hv Hp _ _ _ _].
  next_state sv' nt Enx. unfold thread_step, run_world, store_op in Enx. rewrite GetDecision_law // in Enx. simpl in Enx.
  destruct (v_decisions _ !! did) as [prior|]; simpl in Enx; injection Enx as <- <-;
    apply (inv_advance_quiet n st p i _ _ p _ Hinv Hi); try done. by intros t' [= <-].
Qed.

Lemma inv_adjudicate_decided n st p i req sub prior dec :
  sys_inv n (sys_server st) p (sys_threads st) → sys_threads st !! i = Some (TAdjDecided req sub prior dec) →
  let st' := advance i st (thread_step o (TAdjDecided req sub prior dec) (sys_server st)) in
  keeps (sview (sys_server st)) (sys_threads st) (sview (sys_server st')) (sys_threads st')
  ∧ ∃ p', sys_inv n (sys_server st') p' (sys_threads st').
Proof.
  intros Hinv Hi. cbv zeta. pose proof (thread_at _ _ _ _ _ _ Hinv Hi) as (Hst & Hstab & sub0 & Hl & Hs0 & Hr).
  pose proof Hinv as [Hv Hp _ _ _ _].
  next_state sv' nt Enx. unfold thread_step, run_world, store_op in Enx.
  destruct (PutDecision_law (w_store (sv_world (sys_server st))) (Some dec) Hv) as [Hv1 Hput].
  destruct (PutDecision (Some dec) (w_store (sv_world (sys_server st)))) as [s1 r1]. simpl in Enx, Hv1, Hput.
  assert (Hsame : v_submissions (view s1) = v_submissions (sview (sys_server st)) ∧ v_idem (view s1) = v_idem (sview (sys_server st)))
    by (by destruct Hput as [[_ ->]|(_ & _ & ->)]). destruct Hsame as [Hsub Hidem].
  injection Enx as <- <-. apply (inv_advance_quiet n st p i _ _ p _ Hinv Hi); try done.
  destruct r1 as [[]|e]; [|done]. intros t' [= <-]. simpl. split; [|done]. split; [done|].
  split; [by apply (stable_payload sub)|]. exists sub0. unfold sview. simpl. rewrite Hsub. done.
Qed.

Lemma inv_adjudicate_recorded n st p i req sub prior dec :
  sys_inv n (sys_server st) p (sys_threads st) → sys_threads st !! i = Some (TAdjRecorded req sub prior dec) →
  let st' := advance i st (thread_step o (TAdjRecorded req sub prior dec) (sys_server st)) in
  keeps (sview (sys_server st)) (sys_threads st) (sview (sys_server st')) (sys_threads st')
  ∧ ∃ p', sys_inv n (sys_server st') p' (sys_threads st').
Proof.
  intros Hinv Hi. cbv zeta. pose proof (thread_at _ _ _ _ _ _ Hinv Hi) as (Hst & Hstab & sub0 & Hl & Hs0 & Hr).
  pose proof Hinv as [Hv Hp _ _ Ht _].
  next_state sv' nt Enx. unfold thread_step, run_world, store_op in Enx.
  destruct (PutSubmission_law (w_store (sv_world (sys_server st))) (Some sub) Hv) as [Hv1 Hput].
  destruct (PutSubmission (Some sub) (w_store (sv_world (sys_server st)))) as [s1 r1]. simpl in Enx, Hv1.
  unfold opt_put_spec, put_spec in Hput. cbn [fst snd] in Hput. destruct Hput as [[-> Hview]|(Hno & _)]; [|destruct Hstab as [Hyes _]; rewrite Hyes in Hno; discriminate Hno].
  rewrite stable_clone // in Hview. simpl in Hview. simpl in Enx. injection Enx as Hsv <-.
  assert (svalid sv' ∧ sv_dispatcher sv' = Some p ∧ sv_drained sv' = sv_drained (sys_server st)
    ∧ sview sv' = v_put_submission sub (sview (sys_server st))) as (Hv' & Hp' & Hd' & Hview') by (by subst sv').
  clear Hsv. apply (and_exist _ _ p).
  apply (inv_effect n (sys_server st) p (sys_threads st) _ p _ (Some (Sub_ID sub))
    (Some (TAdjRecorded req sub prior dec)) (Some (TAdjEmit req sub prior dec)) (delete i (sys_threads st))); try done.
  - apply (effect_put _ _ sub0 sub); try done; [by rewrite Hview'..|]. right. by rewrite Hst.
  - apply (replaced_advance _ _ (sys_threads st) i _ (inl (TAdjEmit req sub prior dec))); [done|]. by intros t' [= <-].
  - intros i' [= <-]. by eapply started_rest.
  - intros i' s Hl' Hpe [[= <-]|?]; [|done]. rewrite Hview' /= lookup_insert_eq in Hl'. injection Hl' as <-.
    unfold pending in Hpe. by rewrite Hst in Hpe.
Qed.

Lemma inv_adjudicate_emit n st p i req sub prior dec :
  sys_inv n (sys_server st) p (sys_threads st) → sys_threads st !! i = Some (TAdjEmit req sub prior dec) →
  let st' := advance i st (thread_step o (TAdjEmit req sub prior dec) (sys_server st)) in
  keeps (sview (sys_server st)) (sys_threads st) (sview (sys_server st')) (sys_threads st')
  ∧ ∃ p', sys_inv n (sys_server st') p' (sys_threads st').
Proof.
  intros Hinv Hi. cbv zeta. pose proof Hinv as [Hv Hp _ _ _ _].
  next_state sv' nt Enx. unfold thread_step, run_world in Enx.
  match type of Enx with context [emit o ?a ?b ?c] =>
    destruct (emit_quiet o a b c (sv_world (sys_server st)) Hv) as [(Hv1 & Hc1 & _) _]; unfold run_unit in Hv1, Hc1;
    destruct (emit o a b c (sv_world (sys_server st))) as [w1 r1] end.
  simpl in Enx, Hv1, Hc1. injection Enx as <- <-. apply (inv_advance_quiet n st p i _ _ p _ Hinv Hi); try done.
  - exact (f_equal v_submissions Hc1).
  - exact (f_equal v_idem Hc1).
Qed.

(** *** All of them *)
Lemma inv_thread n st p st' :
  sys_inv n (sys_server st) p (sys_threads st) → thread_moves st st' →
  keeps (sview (sys_server st)) (sys_threads st) (sview (sys_server st')) (sys_threads st')
  ∧ ∃ p', sys_inv n (sys_server st') p' (sys_threads st').
Proof.
  intros Hinv [i t Hi]. destruct t.
  - by apply (inv_put n st p).
  - by apply (inv_commit_new n st p).
  - by apply (inv_abandon n st p).
  - by apply (inv_release_slot n st p).
  - by apply (inv_submit_reserve n st p).
  - by apply (inv_submit_commit n st p).
  - by apply (inv_submit_failed n st p).
  - by apply (inv_unmark n st p).
  - apply (inv_advance_quiet n st p i _ _ p _ Hinv Hi); try done; apply Hinv.
  - by apply (inv_adjudicate_read n st p).
  - by apply (inv_adjudicate_decided n st p).
  - by apply (inv_adjudicate_recorded n st p).
  - by apply (inv_adjudicate_emit n st p).
Qed.

Lemma inv_upload n limit content contentType st p :
  sys_inv n (sys_server st) p (sys_threads st) →
  let sv' := (uploadArtifact limit content contentType (sys_server st)).1 in
  keeps (sview (sys_server st)) (sys_threads st) (sview sv') (sys_threads st) ∧ ∃ p', sys_inv n sv' p' (sys_threads st).
Proof.
  intros Hinv. cbv zeta. unfold uploadArtifact. destruct content as [c|e]; [|split; [apply keeps_refl|by exists p]].
  case_bool_decide; [split; [apply keeps_refl|by exists p]|]. pose proof Hinv as [Hv Hp _ _ _ _].
  destruct (PutArtifact_law (w_store (sv_world (sys_server st))) ("sha256:" +:+ sha256_hex c) c Hv) as (Hv1 & Hr & Hview).
  destruct (PutArtifact _ _ _) as [s1 r1]. simpl in Hv1, Hr, Hview. subst r1. cbv zeta. cbn [fst snd].
  apply (and_exist _ _ p).
  apply (inv_quiet n (sys_server st) p (sys_threads st) _ p _ None None (sys_threads st));
    try first [done|unfold sview at 1; simpl; by rewrite Hview|by apply (replaced_spawn _ _ _ (inr (writeProblem 409 "" "")))].
Qed.

Lemma settled_terminal v sub : settled v sub → is_terminal (Sub_Status sub) = true.
Proof. by destruct 1 as [-> | -> | -> |? -> |? ->]. Qed.

(** A submission with a job is not being created. *)
Lemma in_flight_creating v p ts id : tracked v p ts → id ∈ in_flight p → id ∉ omap creating ts.
Proof.
  intros Ht Hid (t & Hin & Hc)%list_elem_of_omap. destruct (tr_sub _ _ _ Ht _ Hid) as [sub Hl].
  pose proof (proj1 (Forall_forall _ _) (tr_threads _ _ _ Ht) t Hin) as Hok.
  destruct t; simplify_eq/=; [destruct Hok; congruence|by destruct Hok as (_ & ? & _)..].
Qed.

Lemma worker_pool_keeps n p p' :
  worker_step p p' → lp_closed p' = lp_closed p → (in_flight p = [] → in_flight p' = []) → pool_keeps n p p'.
Proof.
  intros Hst Hc Hf. split; [by intros; eapply inv_worker| |by rewrite Hc|by intros _].
  destruct (run_config p [] p') as [-> _]; [|done]. eapply (run_step _ [] p []); [constructor|by apply step_worker].
Qed.

(** A run of [Process] settles the submission of the job that ends with it. *)
Lemma inv_process n sv p ts p' id ctx sched :
  sys_inv n sv p ts → worker_step p p' → in_flight p ≡ₚ id :: in_flight p' → lp_closed p' = lp_closed p →
  let sv' := set_pool p' (run_world (Process o ctx sched id) sv).1 in
  keeps (sview sv) ts (sview sv') ts ∧ sys_inv n sv' p' ts.
Proof.
  intros Hinv Hst Hfl Hcl. cbv zeta. pose proof Hinv as [Hv Hp _ _ Ht _]. set (sv' := set_pool _ _).
  destruct (tr_sub _ _ _ Ht id) as [sub0 Hs]; [rewrite Hfl; by left|].
  pose proof (sub_id _ _ _ _ _ _ Hinv Hs) as Hid. subst id.
  assert (∃ sub', svalid sv' ∧ others_same (Sub_ID sub0) (sview sv) (sview sv')
    ∧ v_submissions (sview sv') !! Sub_ID sub0 = Some sub' ∧ same_request sub0 sub' ∧ is_terminal (Sub_Status sub') = true)
    as (sub' & Hv' & [Ho Hidem] & Hs' & Hr & Hset).
  { destruct (Process_outcome o ctx sched sub0 (sv_world sv) Hv Hs) as [(Hv' & Ho & sub' & Hs' & Hset & Hr)|(Htm & Hc & _ & Hv')].
    - exists sub'. split_and!; try done. by eapply settled_terminal.
    - exists sub0. split_and!; try done; [|exact (eq_trans (f_equal (λ v, v_submissions v !! Sub_ID sub0) Hc) Hs)].
      split; [intros i _; exact (f_equal (λ v, v_submissions v !! i) Hc)|exact (f_equal v_idem Hc)]. }
  apply (inv_effect n sv p ts sv' p' ts (Some (Sub_ID sub0)) None None ts); try done.
  - apply worker_pool_keeps; [done..|]. intros He. rewrite He in Hfl. by apply Permutation_nil_cons in Hfl.
  - apply (effect_put _ _ sub0 sub'); try done.
    + apply map_eq. intros i. destruct (decide (i = Sub_ID sub0)) as [->|Hne]; [by rewrite lookup_insert_eq|].
      rewrite lookup_insert_ne //. by apply Ho.
    + by right.
    + intros i Hne. rewrite Hfl elem_of_cons. naive_solver.
  - intros id [= <-]. eapply in_flight_creating; [done|]. rewrite Hfl. by left.
  - intros i s Hl Hpe [[= <-]|?]; [|done]. unfold pending in Hpe. congruence.
Qed.

Lemma inv_run_worker n sv p ts sv' :
  sys_inv n sv p ts → worker_run sv sv' →
  keeps (sview sv) ts (sview sv') ts ∧ ∃ p', sys_inv n sv' p' ts ∧ worker_step p p' ∧ lp_closed p' = lp_closed p.
Proof.
  intros Hinv [i q q' Hq Ht|i q q' id ctx sched Hq Hi Ht|k q q' id ctx sched Hq Hk Ht];
    rewrite (si_pool _ _ _ _ Hinv) in Hq; injection Hq as <-.
  - destruct (take_in_flight _ _ _ Ht) as [Hf Hc]. pose proof (step_take _ _ _ Ht) as Hst.
    destruct (inv_quiet n sv p ts (set_pool q' sv) q' ts None None ts) as [? ?]; try done.
    + apply Hinv.
    + apply worker_pool_keeps; [done..|]. intros He. rewrite He in Hf. by apply Permutation_nil_r.
    + intros id. by rewrite Hf.
    + split; [done|]. by exists q'.
  - destruct (finish_in_flight _ _ _ _ Hi Ht) as [Hf Hc]. pose proof (step_finish _ _ _ Ht) as Hst.
    destruct (inv_process n sv p ts q' id ctx sched Hinv Hst Hf Hc). by eauto.
  - destruct (unlim_in_flight _ _ _ _ Hk Ht) as [Hf Hc]. pose proof (step_unlim _ _ _ Ht) as Hst.
    destruct (inv_process n sv p ts q' id ctx sched Hinv Hst Hf Hc). by eauto.
Qed.

Lemma inv_sys_step n st p st' :
  sys_inv n (sys_server st) p (sys_threads st) → sys_step st st' →
  keeps (sview (sys_server st)) (sys_threads st) (sview (sys_server st')) (sys_threads st')
  ∧ ∃ p', sys_inv n (sys_server st') p' (sys_threads st').
Proof.
  intros Hinv [ctx body key Hf Hth Hok|ctx id|id body|limit content ct|st'' Hm|sv' Hw|http e|q Hq Hc [Hr _]].
  - by apply (inv_create_start n ctx body key st p).
  - by apply (inv_resume_start n ctx id st p).
  - by apply (inv_adjudicate_start n id body st p).
  - by apply (inv_upload n limit content ct st p).
  - by apply (inv_thread n st p).
  - destruct (inv_run_worker n _ p _ sv' Hinv Hw) as (? & p' & ? & _). by eauto.
  - unfold Shutdown. rewrite (si_pool _ _ _ _ Hinv). split; [apply keeps_refl|]. exists (Close p).
    destruct Hinv as [Hv Hp Hi Hw Ht Hd]. split; try done; [by apply (inv_step n p [] _ (step_close p))|].
    destruct Ht as [Hjob Hsub Hth Honce Hkeys]. by split.
  - unfold WaitWorkers. rewrite Hq. split; [apply keeps_refl|]. exists p. rewrite (si_pool _ _ _ _ Hinv) in Hq. injection Hq as <-.
    destruct Hinv as [Hv Hp Hi Hw Ht Hd]. by split.
Qed.

(** ** Starting *)

(** The server after start-up: an empty pool, and a store without unsettled submissions
(a new one, or one that was left by a clean shutdown). *)
Record starts (cfg : Config) sv p : Prop := {
  st_pool : newLocalPool cfg = Some p;
  st_dispatcher : sv_dispatcher sv = Some p;
  st_valid : svalid sv;
  st_settled : ∀ id sub, v_submissions (sview sv) !! id = Some sub → is_terminal (Sub_Status sub) = true;
  st_keys : keys_bound (sview sv);
  st_drained : sv_drained sv = false;
}.

Lemma inv_start cfg sv p : starts cfg sv p → sys_inv (worker_count cfg) sv p [].
Proof.
  intros [Hp Hd Hv Hs Hk Hdr]. split; try done.
  - by apply inv_init.
  - unfold newLocalPool in Hp. unfold worker_count. case_bool_decide; simplify_eq; [by left|]. right.
    case_bool_decide; [done|]. rewrite decide_False //. lia.
  - assert (in_flight p = []) as Hf.
    { assert (Hidle : ∀ m, omap running_id (replicate m WIdle) = []) by (by induction m).
      unfold newLocalPool in Hp. unfold in_flight. repeat case_bool_decide; simplify_eq; simpl; by rewrite ?Hidle. }
    split; [| |done|constructor|done].
    + intros id sub Hl Hpe. unfold pending in Hpe. by rewrite (Hs _ _ Hl) in Hpe.
    + intros id. rewrite Hf. intros Hid. by apply elem_of_nil in Hid.
  - by rewrite Hdr.
Qed.

Lemma inv_rtc n st p st' :
  sys_inv n (sys_server st) p (sys_threads st) → rtc sys_step st st' →
  keeps (sview (sys_server st)) (sys_threads st) (sview (sys_server st')) (sys_threads st')
  ∧ ∃ p', sys_inv n (sys_server st') p' (sys_threads st').
Proof.
  intros Hinv Hr. revert p Hinv. induction Hr as [st|st st1 st2 Hst _ IH]; intros p Hinv; [split; [apply keeps_refl|by eauto]|].
  destruct (inv_sys_step _ _ _ _ Hinv Hst) as (Hk & p1 & Hinv1). destruct (IH p1 Hinv1) as [Hk' ?].
  split; [by eapply keeps_trans|done].
Qed.

(** [C1] No submission is lost.  In every state the gateway can reach, its handlers, its
workers and its shutdown interleaving at every call on the store and the pool: a
submission that is stored and whose create request has been answered stays, with its
request, in all later states; and every stored submission that is not completed, failed
or deferred has a job in the pool, queued or with a worker, or a handler in flight that is
responsible for it (about to commit its job, to abandon it or to undo a claim).  So once
the server has seen the pool drain, and may close the store, every submission without
such a handler is settled.  A worker's run of [Process] is one step here; the policy
engine and the aggregator make no number JSON cannot carry, drawn ids are not in use, and
the gateway starts with settled submissions only. *)
Theorem no_submission_lost cfg sv0 p0 st st' :
  starts cfg sv0 p0 → rtc sys_step (mkSys sv0 []) st → rtc sys_step st st' →
  (∀ id sub, committed (sview (sys_server st)) (sys_threads st) id sub →
     ∃ sub', v_submissions (sview (sys_server st')) !! id = Some sub' ∧ same_request sub sub')
  ∧ ∃ p, sv_dispatcher (sys_server st) = Some p
    ∧ (∀ id sub, v_submissions (sview (sys_server st)) !! id = Some sub → is_terminal (Sub_Status sub) = false →
         id ∈ in_flight p ∨ id ∈ omap owner (sys_threads st))
    ∧ (sv_drained (sys_server st) = true → ∀ id sub, v_submissions (sview (sys_server st)) !! id = Some sub →
         is_terminal (Sub_Status sub) = true ∨ id ∈ omap owner (sys_threads st)).
Proof.
  intros Hs Hr Hr'. destruct (inv_rtc _ (mkSys sv0 []) _ _ (inv_start _ _ _ Hs) Hr) as (_ & p & Hinv).
  destruct (inv_rtc _ _ _ _ Hinv Hr') as (Hk & _).
  split; [intros id sub Hc; destruct (Hk _ _ Hc) as (sub' & [? _] & ?); by exists sub'|].
  exists p. destruct Hinv as [_ Hp _ _ [Hjob _ _ _ _] Hd]. split_and!; [done..|]. intros Hdr id sub Hl. destruct (Hd Hdr) as [_ He].
  destruct (is_terminal (Sub_Status sub)) eqn:Htm; [by left|]. destruct (Hjob id sub Hl Htm) as [Hin|?]; [|by right].
  rewrite He in Hin. by apply elem_of_nil in Hin.
Qed.

(** ** Shutting down *)

(** No new requests: the workers and the handlers in flight go on. *)
Inductive finishing st : Sys → Prop :=
| fin_thread st' : thread_moves st st' → finishing st st'
| fin_worker sv' : worker_run (sys_server st) sv' → finishing st (mkSys sv' (sys_threads st)).

Lemma finishing_step st st' : finishing st st' → sys_step st st'.
Proof. intros [? ?|? ?]; [by apply sys_thread|by apply sys_worker]. Qed.

(** What the handlers have left, and the workers. *)
Definition threads_left ts : nat := sum_list (thread_measure <$> ts).

Lemma threads_left_insert ts i t t' :
  ts !! i = Some t → threads_left (<[i := t']> ts) + thread_measure t = threads_left ts + thread_measure t'.
Proof.
  unfold threads_left. revert i. induction ts as [|x ts IH]; intros [|i] Hi; simplify_eq/=; [lia|]. specialize (IH i Hi). lia.
Qed.

Lemma threads_left_delete ts i t : ts !! i = Some t → threads_left (delete i ts) + thread_measure t = threads_left ts.
Proof.
  unfold threads_left. revert i. induction ts as [|x ts IH]; intros [|i] Hi; simplify_eq/=; [lia|]. specialize (IH i Hi). lia.
Qed.

Lemma advance_left st i t :
  sys_threads st !! i = Some t →
  threads_left (sys_threads (advance i st (thread_step o t (sys_server st)))) < threads_left (sys_threads st).
Proof.
  intros Hi. pose proof (thread_step_measure o t (sys_server st)) as Hm. unfold advance. simpl.
  destruct (thread_step o t (sys_server st)).2 as [t'|r]; simpl in *.
  - pose proof (threads_left_insert _ _ _ t' Hi). lia.
  - pose proof (threads_left_delete _ _ _ Hi). lia.
Qed.

(** A closed pool takes nothing: its work does not grow under the handlers. *)
Definition same_work p p' : Prop := lp_closed p' = lp_closed p ∧ drain_measure p' = drain_measure p.

Lemma closed_reserve ctx p : lp_closed p = true → same_work p (Reserve ctx p).1.
Proof. intros Hc. unfold Reserve. rewrite Hc. by destruct ctx. Qed.

Lemma releaseLocked_work i (a : admitToken) p : same_work p (releaseLocked i a p).
Proof. unfold releaseLocked. repeat case_match; done. Qed.

Lemma closed_commit i id p : lp_closed p = true → same_work p (Commit i id p).1.
Proof. intros Hc. unfold Commit. rewrite Hc. repeat case_match; try done. apply releaseLocked_work. Qed.

Lemma release_work i p : same_work p (Release i p).
Proof. unfold Release. case_match; [apply releaseLocked_work|done]. Qed.

Lemma closed_thread t sv p :
  sv_dispatcher sv = Some p → lp_closed p = true →
  ∃ p', sv_dispatcher (thread_step o t sv).1 = Some p' ∧ same_work p p'.
Proof.
  intros Hp Hc. destruct t; simpl; unfold with_pool; rewrite ?Hp; simpl; try (exists p; done).
  - eexists. split; [done|]. by apply closed_commit.
  - eexists. split; [done|]. apply release_work.
  - pose proof (closed_reserve ctx p Hc) as Hw. destruct (Reserve ctx p) as [p1 [tok|e]]; simpl in *; by exists p1.
  - eexists. split; [done|]. by apply closed_commit.
  - eexists. split; [done|]. apply release_work.
  - repeat case_match; by exists p.
Qed.

Lemma finishing_closed n st p st' :
  sys_inv n (sys_server st) p (sys_threads st) → lp_closed p = true → finishing st st' →
  ∃ p', sys_inv n (sys_server st') p' (sys_threads st') ∧ lp_closed p' = true
    ∧ drain_measure p' + threads_left (sys_threads st') < drain_measure p + threads_left (sys_threads st).
Proof.
  intros Hinv Hc [st'' [i t Hi]|sv' Hw].
  - destruct (inv_thread n st p _ Hinv (thread_moved st i t Hi)) as (_ & p' & Hinv'). exists p'.
    destruct (closed_thread t (sys_server st) p (si_pool _ _ _ _ Hinv) Hc) as (q & Hq & Hcq & Hm).
    pose proof (si_pool _ _ _ _ Hinv') as Hp'. unfold advance in Hp'. simpl in Hp'. rewrite Hq in Hp'. injection Hp' as <-.
    split_and!; [done|congruence|]. pose proof (advance_left st i t Hi). lia.
  - destruct (inv_run_worker n _ p _ sv' Hinv Hw) as (_ & p' & Hinv' & Hst & Hc'). exists p'.
    split_and!; [done|congruence|]. pose proof (worker_step_measure _ _ Hst). simpl. lia.
Qed.

Lemma finishing_ends n st p : sys_inv n (sys_server st) p (sys_threads st) → lp_closed p = true → Acc (flip finishing) st.
Proof.
  cut (∀ k st p, drain_measure p + threads_left (sys_threads st) < k →
         sys_inv n (sys_server st) p (sys_threads st) → lp_closed p = true → Acc (flip finishing) st).
  { intros Hc. by apply (Hc (S (drain_measure p + threads_left (sys_threads st)))); lia. }
  clear st p. induction k as [|k IH]; intros st p Hk Hinv Hc; [lia|]. constructor. intros st' Hst.
  destruct (finishing_closed n st p st' Hinv Hc Hst) as (p' & Hinv' & Hc' & Hm). apply (IH st' p'); [lia|done..].
Qed.

Lemma worker_can_run sv p p' : sv_dispatcher sv = Some p → worker_step p p' → ∃ sv', worker_run sv sv'.
Proof.
  intros Hp [i q Ht|i q Ht|k q Ht].
  - eexists. by eapply run_take.
  - assert (∃ id, lp_workers p !! i = Some (WRunning id)) as [id Hi]
      by (unfold worker_finish in Ht; repeat case_match; simplify_eq; by eauto).
    eexists. by apply (run_finish _ i p q id (λ _, None) []).
  - assert (∃ id, lp_unlim p !! k = Some id) as [id Hi] by (unfold unlim_finish in Ht; repeat case_match; simplify_eq; by eauto).
    eexists. by apply (run_unlim _ k p q id (λ _, None) []).
Qed.

(** [C2] Once the pool is closed, and no new request comes in, the workers and the handlers
in flight bring the gateway to rest, in whatever order they move, whenever the runs are
cancelled and however the providers answer: they always stop, and when they do no handler
is left, the pool is at rest, every submission in the store is settled, and every
submission that was stored when the pool was closed, other than one still with the handler
creating it, is there with its request unchanged.  (A run of [Process] is one step; the
conditions are those of C1.) *)
Theorem shutdown_settles_all cfg sv0 p0 st p :
  starts cfg sv0 p0 → rtc sys_step (mkSys sv0 []) st → sv_dispatcher (sys_server st) = Some p → lp_closed p = true →
  Acc (flip finishing) st
  ∧ ∀ st', rtc finishing st st' → (∀ st'', ~ finishing st' st'') →
      sys_threads st' = []
      ∧ (∃ p', sv_dispatcher (sys_server st') = Some p' ∧ at_rest p')
      ∧ (∀ id sub, v_submissions (sview (sys_server st')) !! id = Some sub → is_terminal (Sub_Status sub) = true)
      ∧ ∀ id sub, committed (sview (sys_server st)) (sys_threads st) id sub →
          ∃ sub', v_submissions (sview (sys_server st')) !! id = Some sub' ∧ same_request sub sub'.
Proof.
  intros Hs Hr Hp Hc. destruct (inv_rtc _ (mkSys sv0 []) _ _ (inv_start _ _ _ Hs) Hr) as (_ & q & Hinv).
  rewrite (si_pool _ _ _ _ Hinv) in Hp. injection Hp as ->. split; [by eapply finishing_ends|].
  intros st' Hw Hstuck.
  destruct (inv_rtc _ _ _ st' Hinv) as [Hk _].
  { eapply rtc_subrel; [|exact Hw]. intros ? ?. apply finishing_step. }
  assert (∃ p', sys_inv (worker_count cfg) (sys_server st') p' (sys_threads st') ∧ lp_closed p' = true) as (p' & Hinv' & Hc').
  { clear Hr Hstuck Hk. revert p Hc Hinv. induction Hw as [st|st st1 st2 Hst _ IH]; intros p Hc Hinv; [by exists p|].
    destruct (finishing_closed _ _ _ _ Hinv Hc Hst) as (p1 & Hinv1 & Hc1 & _). by apply (IH p1). }
  assert (Hth : sys_threads st' = []).
  { destruct (sys_threads st') as [|t ts] eqn:Et; [done|]. destruct (Hstuck (advance 0 st' (thread_step o t (sys_server st')))).
    apply fin_thread, thread_moved. by rewrite Et. }
  destruct (stuck_drained _ p' (si_inv _ _ _ _ Hinv') Hc' (si_workers _ _ _ _ Hinv')) as (Hj & Hrun & Hu & Hex).
  { intros p2 Hst. destruct (worker_can_run _ p' p2 (si_pool _ _ _ _ Hinv') Hst) as [sv'' ?]. by eapply Hstuck, fin_worker. }
  assert (Hfl : in_flight p' = []) by (unfold in_flight; by rewrite Hj Hrun Hu).
  split; [done|]. split; [exists p'; split; [apply Hinv'|done]|]. split.
  - intros id sub Hl. destruct (is_terminal (Sub_Status sub)) eqn:Htm; [done|].
    destruct (tr_job _ _ _ (si_tracked _ _ _ _ Hinv') _ _ Hl Htm) as [Hin|Hin]; rewrite ?Hfl ?Hth in Hin; by apply elem_of_nil in Hin.
  - intros id sub Hcom. destruct (Hk _ _ Hcom) as (sub' & [? _] & ?). by exists sub'.
Qed.
End system.

(** ** A run *)
Section runs.
#[local] Existing Instance sorted_maps.
#[local] Existing Instance ascii_unicode.
#[local] Instance system_numbers : JsonNumbers := {| fmt_float _ := "0" |}.
#[local] Instance system_env : Env := {| rand_hex n := fmt_d (Z.of_nat n); clock n := Z.of_nat n |}.

Definition gateway : Orchestrator := sample_orchestrator [slow_provider 0].
#[local] Instance gateway_laws : PolicyLaws (o_policy gateway) := Example.engine_laws _.

Definition MemSys : Type := Sys (ST := MemoryStore) (C := ()).

(** Handler [i] makes its next call; a create request comes in; the shutdown begins. *)
Definition move (i : nat) (st : MemSys) : MemSys :=
  match sys_threads st !! i with Some t => advance i st (thread_step gateway t (sys_server st)) | None => st end.
Definition post (key : string) (st : MemSys) : MemSys :=
  spawn st (create_start None (Ok (npm_request ["vuln-scan"])) key (sys_server st)).
Definition stop (st : MemSys) : MemSys :=
  mkSys (Shutdown None (CtxDone "deadline") (sys_server st)).1 (sys_threads st).

Definition system_config : Config := Workers.mkConfig "local" 2 1 0 0 0 0 "".
Definition system_pool : localPool := mkLocalPool false false 2 0 [] [WIdle] [] [] [].
Definition started_server : Server MemoryStore () localPool :=
  mkServer (mkWorld NewMemoryStore (mkEventEmitter "scintx" 0) [] () 0) (Some system_pool) false false.

Definition booted : MemSys := mkSys started_server [].
(** The submission is stored; its job is committed; the pool is closed. *)
Definition storing : MemSys := move 0 (post "k" booted).
Definition accepted : MemSys := move 0 storing.
Definition stopping : MemSys := stop accepted.

Lemma started_starts : starts system_config started_server system_pool.
Proof.
  split; try reflexivity; [exact NewMemoryStore_wf|by intros id sub Hl|].
  intros key id h. unfold v_bound. case_bool_decide; [done|]. by intros Hb.
Qed.

Lemma move_moves i (st : MemSys) : is_Some (sys_threads st !! i) → sys_step gateway st (move i st).
Proof. intros [t Ht]. apply sys_thread. unfold move. rewrite Ht. by apply thread_moved. Qed.

Lemma started_posts : sys_step gateway booted (post "k" booted).
Proof.
  apply sys_create; [split; [reflexivity|vm_compute; discriminate]|vm_compute; apply not_elem_of_nil|].
  intros req [= <-]. vm_compute. reflexivity.
Qed.

Lemma started_stores : rtc (sys_step gateway) booted storing.
Proof. apply (rtc_l _ _ (post "k" booted)); [exact started_posts|]. apply rtc_once, move_moves. vm_compute. eauto. Qed.

Lemma storing_accepts : rtc (sys_step gateway) storing accepted.
Proof. apply rtc_once, move_moves. vm_compute. eauto. Qed.

Lemma no_submission_lost_witness :
  "sub_0" ∈ omap owner (sys_threads storing)
  ∧ ∃ p, sv_dispatcher (sys_server accepted) = Some p ∧ "sub_0" ∈ in_flight p.
Proof.
  split; [vm_compute; left|].
  destruct (no_submission_lost gateway _ _ _ accepted accepted started_starts) as (_ & p & Hp & Hjob & _).
  - etrans; [exact started_stores|exact storing_accepts].
  - apply rtc_refl.
  - exists p. split; [exact Hp|].
    assert (match v_submissions (sview (sys_server accepted)) !! "sub_0" with Some sub => is_terminal (Sub_Status sub) | None => true end = false) as Hs
      by (vm_compute; reflexivity).
    destruct (v_submissions (sview (sys_server accepted)) !! "sub_0") as [sub|] eqn:Hl; [|discriminate Hs].
    destruct (Hjob _ _ Hl Hs) as [Hin|Hin]; [exact Hin|]. assert (sys_threads accepted = []) as Hno by (vm_compute; reflexivity).
    rewrite Hno in Hin. by apply elem_of_nil in Hin.
Defined.

(** The workers of the stopping gateway: take the job, run it, leave. *)
Definition pool_at (k : nat) : localPool :=
  let p0 := default system_pool (sv_dispatcher (sys_server stopping)) in
  let p1 := default p0 (worker_take 0 p0) in
  let p2 := default p1 (worker_finish 0 p1) in
  let p3 := default p2 (worker_take 0 p2) in
  default p0 ([p0; p1; p2; p3] !! k).

Definition taken : Server MemoryStore () localPool := set_pool (pool_at 1) (sys_server stopping).
Definition processed : Server MemoryStore () localPool :=
  set_pool (pool_at 2) (run_world (Process gateway (λ _, None) [] "sub_0") taken).1.
Definition stopped : Server MemoryStore () localPool := set_pool (pool_at 3) processed.

Lemma stopping_stops : rtc (finishing gateway) stopping (mkSys stopped []).
Proof.
  apply (rtc_l _ _ (mkSys taken [])). { apply (fin_worker gateway stopping taken). apply (run_take _ _ 0 (pool_at 0)); vm_compute; reflexivity. }
  apply (rtc_l _ _ (mkSys processed [])). { apply (fin_worker gateway (mkSys taken []) processed). apply (run_finish _ _ 0 (pool_at 1)); vm_compute; reflexivity. }
  apply rtc_once, (fin_worker gateway (mkSys processed []) stopped). apply (run_take _ processed 0 (pool_at 2)); [reflexivity|vm_compute; reflexivity].
Qed.

Lemma stopped_rests : ∀ st, ~ finishing gateway (mkSys stopped []) st.
Proof.
  assert (lp_workers (pool_at 3) = [WExited] ∧ lp_unlim (pool_at 3) = []) as Hpool by (vm_compute; split; reflexivity).
  assert (Hw : ∀ p, sv_dispatcher stopped = Some p → lp_workers p = [WExited] ∧ lp_unlim p = []).
  { intros p. unfold stopped, set_pool, sv_dispatcher. generalize (pool_at 3), Hpool. by intros q Hq [= <-]. }
  intros st [st' [i t Hi]|sv [i p p' [Hp Hu]%Hw Ht|i p p' id ctx sched [Hp Hu]%Hw Hi _|k p p' id ctx sched [Hp Hu]%Hw Hk _]].
  - done.
  - unfold worker_take in Ht. rewrite Hp in Ht. by destruct i as [|[|i]].
  - rewrite Hp in Hi. by destruct i as [|[|i]].
  - by rewrite Hu in Hk.
Qed.

Lemma shutdown_settles_all_witness :
  at_rest (pool_at 3)
  ∧ ∃ sub, v_submissions (sview stopped) !! "sub_0" = Some sub ∧ is_terminal (Sub_Status sub) = true.
Proof.
  split; [split; [reflexivity|repeat constructor]|].
  destruct (shutdown_settles_all gateway _ _ _ stopping (pool_at 0) started_starts) as [_ Hall].
  - etrans; [exact started_stores|]. etrans; [exact storing_accepts|].
    apply rtc_once. exact (sys_shutdown gateway accepted None "deadline").
  - reflexivity.
  - reflexivity.
  - destruct (Hall (mkSys stopped []) stopping_stops stopped_rests) as (_ & _ & Hset & Hkept).
    assert (is_Some (v_submissions (sview (sys_server stopping)) !! "sub_0")) as [sub Hl] by (vm_compute; eauto).
    destruct (Hkept "sub_0" sub) as (sub' & Hl' & _).
    + split; [exact Hl|]. vm_compute. apply not_elem_of_nil.
    + exists sub'. split; [exact Hl'|]. exact (Hset _ _ Hl').
Defined.

(** A retry can be answered 202 with a submission that is then removed: the first request
has stored it and not yet committed its job when the second, with the same key, replays
it; the pool closes; the first is refused and abandons the submission. *)
Definition replaying : MemSys := move 1 (post "k" storing).
Definition abandoned : MemSys := move 0 (move 0 (move 0 (stop replaying))).

Theorem replay_of_abandoned :
  (∃ sub, sys_threads replaying !! 1 = Some (TRelease 1 (accepted_response sub)) ∧ Sub_ID sub = "sub_0")
  ∧ sys_threads (move 0 (stop replaying)) !! 0 = Some (TAbandon 0 "k" "sub_0" (dispatch_problem ErrPoolClosed busy))
  ∧ v_submissions (sview (sys_server abandoned)) !! "sub_0" = None.
Proof.
  split; [|split; vm_compute; reflexivity].
  exists (default json_zero (v_submissions (sview (sys_server storing)) !! "sub_0")). split; vm_compute; reflexivity.
Qed.

Lemma replaying_reachable : rtc (sys_step gateway) booted abandoned.
Proof.
  etrans; [exact started_stores|].
  apply (rtc_l _ _ (post "k" storing)).
  { apply sys_create; [split; [vm_compute; reflexivity|vm_compute; discriminate]| |intros req [= <-]; vm_compute; reflexivity].
    vm_compute. intros Hin. apply list_elem_of_singleton in Hin. discriminate Hin. }
  apply (rtc_l _ _ replaying); [apply move_moves; vm_compute; eauto|].
  apply (rtc_l _ _ (stop replaying)); [exact (sys_shutdown gateway replaying None "deadline")|].
  do 2 (eapply rtc_l; [apply (move_moves 0); vm_compute; eauto|]). apply rtc_once, move_moves. vm_compute. eauto.
Qed.

(** The stub provider of [extensions/providers/stub-osv] behind the provider interface. *)
Definition stub_provider : Provider :=
  mkProvider "stub-osv" (Stub.osv_Capabilities 0)
    (λ n a _, Ok (Stub.osv_Assess (mkReadings (Z.of_nat n) (Z.of_nat n) (rand_hex n) (rand_hex n)) a)) None.

Definition stub_gateway : Orchestrator := sample_orchestrator [stub_provider].

(** From the request to the decision: a package with a known critical vulnerability is
denied, another version of it is allowed. *)
Definition judged (purl : string) : option PolicyDecisionValue :=
  let req := mkCreateSubmissionRequest "" (mkArtifact (Some purl) ∅ None [] [] ∅ None) ["vulnerability"] (Some "example") in
  let sv := (createSubmission None (Ok req) "" started_server).1 in
  decision_of (sv_world (run_world (Process stub_gateway (λ _, None) [] "sub_0") sv).1) "sub_0".

Example left_pad_judged : judged "pkg:NPM/left-pad@1.3.0" = Some DecisionDeny ∧ judged "pkg:npm/left-pad@1.3.1" = Some DecisionAllow.
Proof. vm_compute. split; reflexivity. Qed.
End runs.
