(* ===== verification/GenExtensions.v ===== *)
(** * The extension generator: [cmd/gen-extensions/main.go]

It writes, for each kind of extension, the file that imports every extension package
so that its registration runs.  The directory tree is a value; reading and writing
it cannot fail here, except that a directory may be missing.  The names of directories
are printable ASCII without quote and backslash, which [%q] leaves alone. *)
From S2P Require Import Prelude GoString Encoding.

Record extensionKind := mkExtensionKind {
  EK_Dir : string;
  EK_ImportRoot : string;
  EK_PackageName : string;
  EK_Description : string;
}.

Definition module_path : string := "github.com/yeeth-security/scintx".

Definition kinds : list extensionKind :=
  [mkExtensionKind "extensions/providers" "github.com/yeeth-security/scintx/extensions/providers" "providersall"
     "all provider extensions";
   mkExtensionKind "extensions/policies" "github.com/yeeth-security/scintx/extensions/policies" "policiesall"
     "all policy engine extensions"].

(** A directory: the names of its files, and its subdirectories with their names. *)
Inductive Tree := mkDir (files : list string) (subdirs : list (string * Tree)).

Definition files_of (t : Tree) : list string := match t with mkDir files _ => files end.
Definition subdirs_of (t : Tree) : list (string * Tree) := match t with mkDir _ subdirs => subdirs end.

(** ** The root of the repository *)

(** [findRepoRoot] on the components of an absolute path, last one first; [has_mod]
tells whether a directory holds [go.mod]. *)
Fixpoint findRepoRoot (has_mod : list string → bool) (start : string) (dir : list string) : res string (list string) :=
  if has_mod dir then Ok dir
  else match dir with
       | [] => Err ("could not find go.mod walking up from " +:+ start)
       | _ :: parent => findRepoRoot has_mod start parent
       end.

(** ** The packages below a directory *)
Definition hasGo (t : Tree) : bool := existsb (λ f, HasSuffix f ".go") (files_of t).

(** The callback of [WalkDir] on a directory at [path]. *)
Definition visit (path : list string) (name : string) (t : Tree) : list (list string) :=
  if bool_decide (name = "all") then [] else if hasGo t then [path] else [].

(** [WalkDir] below [here]: a directory named [all] is passed over but walked. *)
Fixpoint walk (here : list string) (t : Tree) : list (list string) :=
  match t with
  | mkDir _ subdirs =>
      (fix children (subs : list (string * Tree)) : list (list string) :=
         match subs with
         | [] => []
         | (name, sub) :: subs => visit (here ++ [name]) name sub ++ walk (here ++ [name]) sub ++ children subs
         end) subdirs
  end.

Definition import_path (k : extensionKind) (path : list string) : string := EK_ImportRoot k +:+ "/" +:+ Join path "/".

(** The sorted import paths. *)
Definition packages (k : extensionKind) (t : Tree) : list string := sort_strings (map (import_path k) (walk [] t)).

(** ** The generated file *)
Definition nl : string := str1 (chr 10).
Definition tab : string := str1 (chr 9).

(** The lines up to the import block. *)
Definition header_lines (k : extensionKind) : list string := [
  "// Code generated by gen-extensions; DO NOT EDIT.";
  "//go:generate go run ../../../cmd/gen-extensions";
  "";
  "// Package " +:+ EK_PackageName k +:+ " imports " +:+ EK_Description k +:+ " so their init() registrations run.";
  "//";
  "// To add a new extension of this kind:";
  "//  1. Create a directory under " +:+ EK_Dir k +:+ "/<name>/ with a .go file containing init() registration.";
  "//  2. Run: go generate ./extensions/...";
  "//  3. The new extension is automatically picked up on next build.";
  "package " +:+ EK_PackageName k;
  ""].

Definition import_block (k : extensionKind) (pkgs : list string) : list string :=
  match pkgs with
  | [] => ["// No extensions found in " +:+ EK_Dir k +:+ ". Add one to get started."]
  | _ => ["import ("; tab +:+ "_ " +:+ quoted "github.com/yeeth-security/scintx/api" +:+ " // ensure registry is loaded"]
         ++ map (λ p, tab +:+ "_ " +:+ quoted p) pkgs ++ [")"]
  end.

Definition all_go (k : extensionKind) (pkgs : list string) : string :=
  String.concat "" (map (λ l, l +:+ nl) (header_lines k ++ import_block k pkgs)).

(** The absolute path of a directory below the root (components, last one first). *)
Definition under (root : list string) (rel : string) : string := "/" +:+ Join (rev root ++ [rel]) "/".

(** [generate] on the tree at [dir]: the text of [all/all.go]. *)
Definition generate (k : extensionKind) (dir : string) (t : option Tree) : res string string :=
  match t with
  | None => Err ("directory does not exist: " +:+ dir)
  | Some t => Ok (all_go k (packages k t))
  end.

(** The loop of [main]: the files written, in order, and the error that stopped it;
[tree] reads a directory. *)
Fixpoint generate_all (root : list string) (tree : string → option Tree) (ks : list extensionKind)
  : list (string * string) * option string :=
  match ks with
  | [] => ([], None)
  | k :: ks =>
      let dir := under root (EK_Dir k) in
      match generate k dir (tree dir) with
      | Err e => ([], Some ("gen-extensions: " +:+ dir +:+ ": " +:+ e))
      | Ok text => let r := generate_all root tree ks in ((dir +:+ "/all/all.go", text) :: r.1, r.2)
      end
  end.

Definition main (has_mod : list string → bool) (cwd : list string) (tree : string → option Tree)
  : list (string * string) * option string :=
  match findRepoRoot has_mod (under (tail cwd) (default "" (head cwd))) cwd with
  | Err e => ([], Some ("gen-extensions: " +:+ e))
  | Ok root => generate_all root tree kinds
  end.

(** ** The root is the nearest one *)
Lemma findRepoRoot_nearest has_mod start dir :
  match findRepoRoot has_mod start dir with
  | Ok root => has_mod root = true ∧ ∃ below, dir = below ++ root
      ∧ ∀ pre suf, below = pre ++ suf → suf ≠ [] → has_mod (suf ++ root) = false
  | Err _ => ∀ below root, dir = below ++ root → has_mod root = false
  end.
Proof.
  induction dir as [|d dir IH]; simpl.
  - destruct (has_mod []) eqn:E; [split; [done|]; exists []; split; [done|]; by intros [] [] |].
    intros below root He. symmetry in He. by apply List.app_eq_nil in He as [_ ->].
  - destruct (has_mod (d :: dir)) eqn:E; [split; [done|]; exists []; split; [done|]; by intros [] []|].
    destruct (findRepoRoot has_mod start dir) as [root|e].
    + destruct IH as (Hm & below & -> & Hb). split; [done|]. exists (d :: below). split; [done|].
      intros [|x pre] suf He Hne; simplify_eq/=; [done|]. by apply (Hb pre suf).
    + intros [|x below] root He; simplify_eq/=; [done|]. by eapply IH.
Qed.

(** ** Exactly the packages are imported *)

(** The directory at a path. *)
Inductive dir_at : Tree → list string → Tree → Prop :=
| at_here t : dir_at t [] t
| at_child files subdirs name sub path t :
    (name, sub) ∈ subdirs → dir_at sub path t → dir_at (mkDir files subdirs) (name :: path) t.

(** A package: a directory below the root, not called [all], with a Go file. *)
Definition is_package (t : Tree) (path : list string) : Prop :=
  path ≠ [] ∧ last path ≠ Some "all" ∧ ∃ t', dir_at t path t' ∧ hasGo t' = true.

(** Printable ASCII other than slash, quote and backslash. *)
Definition name_char (c : ascii) : bool :=
  let n := nat_of_ascii c in
  (32 <=? n) && (n <? 127) && negb (n =? 34) && negb (n =? 47) && negb (n =? 92).

(** Names are those of a file system: one entry per name, made of such characters. *)
Inductive tree_wf : Tree → Prop :=
| tree_wf_dir files subdirs :
    NoDup subdirs.*1 → Forall (λ d, all_chars name_char d.1 = true ∧ tree_wf d.2) subdirs → tree_wf (mkDir files subdirs).

Fixpoint tree_depth (t : Tree) : nat :=
  match t with mkDir _ subdirs => S (list_max (map (λ d, tree_depth d.2) subdirs)) end.

Definition walk_children (here : list string) (subs : list (string * Tree)) : list (list string) :=
  concat (map (λ d, visit (here ++ [d.1]) d.1 d.2 ++ walk (here ++ [d.1]) d.2) subs).

Lemma walk_unfold here files subs : walk here (mkDir files subs) = walk_children here subs.
Proof.
  unfold walk_children. simpl. induction subs as [|[name sub] subs IH]; simpl; [done|]. by rewrite IH -(assoc_L (++)).
Qed.

Lemma depth_child name sub files subs : (name, sub) ∈ subs → tree_depth sub < tree_depth (mkDir files subs).
Proof.
  intros Hin. simpl. assert (tree_depth sub ≤ list_max (map (λ d, tree_depth d.2) subs)); [|lia].
  apply (proj1 (Forall_forall (λ k, k ≤ _) (map (λ d, tree_depth d.2) subs)) (proj1 (list_max_le _ _) (Nat.le_refl _))).
  apply (list_elem_of_fmap_2 (λ d : string * Tree, tree_depth d.2) subs (name, sub) Hin).
Qed.

(** Induction on the depth. *)
Lemma tree_induction (P : Tree → Prop) :
  (∀ files subs, (∀ name sub, (name, sub) ∈ subs → P sub) → P (mkDir files subs)) → ∀ t, P t.
Proof.
  intros Hstep t. remember (tree_depth t) as n eqn:Hn. revert t Hn.
  induction (lt_wf n) as [n _ IH]. intros [files subs] ->. apply Hstep. intros name sub Hin.
  by apply (IH (tree_depth sub)); [eapply depth_child|].
Qed.

Lemma walk_spec t here p : p ∈ walk here t ↔ ∃ path, is_package t path ∧ p = here ++ path.
Proof.
  revert here. induction t as [files subs IH] using tree_induction. intros here. rewrite walk_unfold. unfold walk_children.
  rewrite list_elem_of_In in_concat. split.
  - intros (l & Hl & Hp). apply in_map_iff in Hl as ([name sub] & <- & Hin). rewrite -list_elem_of_In in Hin.
    rewrite -list_elem_of_In elem_of_app in Hp. simpl in Hp. destruct Hp as [Hp|Hp].
    + unfold visit in Hp. case_bool_decide as Hall; [by apply elem_of_nil in Hp|]. destruct (hasGo sub) eqn:Hg; [|by apply elem_of_nil in Hp].
      apply list_elem_of_singleton in Hp as ->. exists [name]. split; [|done]. split_and!; [done|simpl; congruence|].
      exists sub. split; [|done]. econstructor; [done|constructor].
    + apply (IH _ _ Hin) in Hp as (path & (Hne & Hlast & t' & Hat & Hg) & ->). exists (name :: path).
      split; [|by rewrite -(assoc_L (++))]. split_and!; [done| |].
      * destruct path; [done|exact Hlast].
      * exists t'. split; [|done]. by econstructor.
  - intros (path & (Hne & Hlast & t' & Hat & Hg) & ->). inversion Hat as [|? ? name sub path' ? Hin Hat']; subst; [done|].
    eexists. split; [apply in_map_iff; exists (name, sub); split; [done|by apply list_elem_of_In]|].
    apply list_elem_of_In, elem_of_app. simpl. destruct path' as [|x path'].
    + left. inversion Hat'; subst. unfold visit. rewrite bool_decide_false; [by intros ->|]. rewrite Hg. by left.
    + right. apply (IH _ _ Hin). exists (x :: path'). split; [|by rewrite -(assoc_L (++))]. split_and!; [done|exact Hlast|by eauto].
Qed.

Lemma child_prefix here name sub p :
  p ∈ visit (here ++ [name]) name sub ++ walk (here ++ [name]) sub → ∃ path, p = here ++ name :: path.
Proof.
  rewrite elem_of_app walk_spec. intros [Hp|(path & _ & ->)]; [|exists path; by rewrite -(assoc_L (++))].
  exists []. unfold visit in Hp. repeat case_match; set_solver.
Qed.

Lemma walk_nodup t here : tree_wf t → NoDup (walk here t).
Proof.
  intros Hwf. revert here. induction t as [files subs IH] using tree_induction. intros here. rewrite walk_unfold.
  inversion Hwf as [? ? Hnd Hall]; subst. clear Hwf. unfold walk_children.
  induction subs as [|[name sub] subs IHs]; simpl; [constructor|].
  apply NoDup_cons in Hnd as [Hni Hnd]. apply Forall_cons in Hall as [[_ Hsub] Hall]. simpl in *. apply NoDup_app. split_and!.
  - apply NoDup_app. split_and!.
    + unfold visit. repeat case_match; [constructor|by apply NoDup_singleton|constructor].
    + intros p Hp (path & (Hne & _) & ->)%walk_spec. unfold visit in Hp. repeat case_match; try by apply elem_of_nil in Hp.
      apply list_elem_of_singleton in Hp. rewrite -{2}(List.app_nil_r (here ++ [name])) in Hp. by apply app_inv_head in Hp.
    + apply (IH name); [by left|done].
  - intros p Hp Hq. apply child_prefix in Hp as [path ->]. apply list_elem_of_In, in_concat in Hq as (l & Hl & Hq).
    apply in_map_iff in Hl as ([name' sub'] & <- & Hin). apply list_elem_of_In, child_prefix in Hq as [path' He].
    apply app_inv_head in He. injection He as <- _. apply Hni. apply list_elem_of_In in Hin.
    apply (list_elem_of_fmap_2 fst subs _ Hin).
  - apply IHs; try done. intros n s Hin. apply (IH n). by right.
Qed.

Lemma dir_at_names t path t' : tree_wf t → dir_at t path t' → Forall (λ w, all_chars name_char w = true) path.
Proof.
  intros Hwf Hat. revert Hwf. induction Hat as [|files subs name sub path t Hin Hat IH]; intros Hwf; constructor;
    inversion Hwf as [? ? _ Hall]; subst; rewrite Forall_forall in Hall; destruct (Hall _ Hin); auto.
Qed.

Lemma name_lacks c w : name_char c = false → all_chars name_char w = true → has_char c w = false.
Proof.
  intros Hc. induction w as [|d w IH]; simpl; [done|]. intros [Hd Hw]%andb_true_iff. rewrite IH // orb_false_r.
  apply bool_decide_false. intros ->. congruence.
Qed.

Lemma names_lack c path : name_char c = false → Forall (λ w, all_chars name_char w = true) path → Forall (λ w, has_char c w = false) path.
Proof. intros Hc Hp. eapply Forall_impl; [exact Hp|]. intros w. by apply name_lacks. Qed.

Lemma import_path_inj k p q :
  p ≠ [] → q ≠ [] → Forall (λ w, has_char "/" w = false) p → Forall (λ w, has_char "/" w = false) q →
  import_path k p = import_path k q → p = q.
Proof.
  unfold import_path. intros Hp Hq Fp Fq He. apply (inj (String.app _)) in He. injection He as He. rewrite !app_nil_l in He.
  rewrite -(Split_Join "/" p) // -(Split_Join "/" q) //. by rewrite /str1 He.
Qed.

(** ** What the generated text imports *)

(** The package named by a line of an import block. *)
Definition import_line (l : string) : option string :=
  let intro := tab +:+ "_ " +:+ str1 (chr 34) in
  if HasPrefix l intro then fst <$> cut_at (chr 34) (drop_str (String.length intro) l) else None.

Fixpoint after_line (mark : string) (lines : list string) : list string :=
  match lines with [] => [] | l :: lines => if bool_decide (l = mark) then lines else after_line mark lines end.
Fixpoint before_line (mark : string) (lines : list string) : list string :=
  match lines with [] => [] | l :: lines => if bool_decide (l = mark) then [] else l :: before_line mark lines end.

(** The packages a Go file imports in its import block, read off its text. *)
Definition imports_of (text : string) : list string :=
  omap import_line (before_line ")" (after_line "import (" (Split text (chr 10)))).

Lemma concat_cons s l : String.concat "" (s :: l) = s +:+ String.concat "" l.
Proof. destruct l; [by rewrite /= app_nil_r|done]. Qed.

Lemma lines_joined lines : String.concat "" (map (λ l, l +:+ nl) lines) = Join (lines ++ [""]) nl.
Proof.
  induction lines as [|l lines IH]; [done|]. cbn [map]. rewrite concat_cons IH. unfold Join.
  destruct lines as [|l' lines]; cbn [app String.concat]; by rewrite ?app_assoc.
Qed.

Lemma Split_lines lines : Forall (λ l, has_char (chr 10) l = false) lines →
  Split (String.concat "" (map (λ l, l +:+ nl) lines)) (chr 10) = lines ++ [""].
Proof.
  intros Hl. rewrite lines_joined Split_Join //; [by destruct lines|]. apply Forall_app. split; [done|]. by repeat constructor.
Qed.

Lemma import_line_quoted p rest : has_char (chr 34) p = false → import_line (tab +:+ "_ " +:+ quoted p +:+ rest) = Some p.
Proof.
  intros Hp. unfold import_line, quoted. rewrite (_ : tab +:+ "_ " +:+ _ +:+ rest = (tab +:+ "_ " +:+ str1 (chr 34)) +:+ p +:+ String (chr 34) rest).
  { by rewrite !app_assoc. }
  rewrite HasPrefix_app drop_str_app cut_at_app //.
Qed.

Lemma after_line_app mark pre lines : mark ∉ pre → after_line mark (pre ++ mark :: lines) = lines.
Proof.
  induction pre as [|l pre IH]; simpl; [by rewrite bool_decide_true|]. intros [Hl Hp]%not_elem_of_cons.
  rewrite bool_decide_false //. by apply IH.
Qed.

Lemma after_line_none mark lines : mark ∉ lines → after_line mark lines = [].
Proof. induction lines as [|l lines IH]; simpl; [done|]. intros [Hl Hp]%not_elem_of_cons. rewrite bool_decide_false //. by apply IH. Qed.

Lemma before_line_app mark pre lines : mark ∉ pre → before_line mark (pre ++ mark :: lines) = pre.
Proof.
  induction pre as [|l pre IH]; simpl; [by rewrite bool_decide_true|]. intros [Hl Hp]%not_elem_of_cons.
  rewrite bool_decide_false //. by rewrite IH.
Qed.

(** Neither header nor import roots of the two kinds break a line or hold a quote, and
the file without packages has no import block. *)
Lemma kinds_plain k : k ∈ kinds →
  Forall (λ l, has_char (chr 10) l = false) (header_lines k ++ import_block k [])
  ∧ ("import (" ∉ (header_lines k ++ import_block k []) ++ [""])
  ∧ has_char (chr 10) (EK_ImportRoot k) = false ∧ has_char (chr 34) (EK_ImportRoot k) = false.
Proof.
  intros Hk. apply list_elem_of_In in Hk as [<-|[<-|[]]]; split_and!; try reflexivity;
    apply (bool_decide_unpack _); vm_compute; exact I.
Qed.

Definition blank_import (p : string) : string := tab +:+ "_ " +:+ quoted p.
Definition api_import : string := blank_import (module_path +:+ "/api") +:+ " // ensure registry is loaded".

Lemma import_block_lines k p pkgs :
  import_block k (p :: pkgs) = "import (" :: (api_import :: map blank_import (p :: pkgs)) ++ [")"].
Proof. done. Qed.

Lemma omap_line_cons l lines p : import_line l = Some p → omap import_line (l :: lines) = p :: omap import_line lines.
Proof. intros Hl. cbn [omap list_omap]. by rewrite Hl. Qed.

Lemma imports_plain pkgs : Forall (λ p, has_char (chr 10) p = false ∧ has_char (chr 34) p = false) pkgs →
  Forall (λ l, has_char (chr 10) l = false) (api_import :: map blank_import pkgs)
  ∧ (")" ∉ api_import :: map blank_import pkgs)
  ∧ omap import_line (api_import :: map blank_import pkgs) = (module_path +:+ "/api") :: pkgs.
Proof.
  intros Hp. split_and!.
  - constructor; [reflexivity|]. apply Forall_fmap. eapply Forall_impl; [exact Hp|]. intros p [Hl _].
    unfold compose, blank_import, quoted. by rewrite !has_char_app Hl.
  - intros [He|(p & He & _)%list_elem_of_fmap_1]%elem_of_cons; [by vm_compute in He|done].
  - rewrite (omap_line_cons _ _ (module_path +:+ "/api")); [vm_compute; reflexivity|]. f_equal.
    induction Hp as [|p pkgs [_ Hq] _ IH]; [done|]. cbn [map]. rewrite (omap_line_cons _ _ p); [|by rewrite IH].
    unfold blank_import. rewrite -(app_nil_r (quoted p)). by apply import_line_quoted.
Qed.

Lemma all_go_imports k pkgs :
  k ∈ kinds → Forall (λ p, has_char (chr 10) p = false ∧ has_char (chr 34) p = false) pkgs →
  imports_of (all_go k pkgs) = match pkgs with [] => [] | _ => (module_path +:+ "/api") :: pkgs end.
Proof.
  intros Hk Hp. destruct (kinds_plain k Hk) as (Hl & Hi & _). unfold imports_of, all_go.
  destruct pkgs as [|p pkgs]; [by rewrite Split_lines // after_line_none|].
  destruct (imports_plain _ Hp) as (Hlines & Hclose & Himports).
  apply Forall_app in Hl as [Hl _]. rewrite !not_elem_of_app in Hi. destruct Hi as [[Hi _] _].
  rewrite import_block_lines Split_lines.
  - apply Forall_app. split; [done|]. constructor; [done|]. apply Forall_app. split; [done|]. by repeat constructor.
  - rewrite -List.app_assoc -List.app_comm_cons after_line_app // -List.app_assoc before_line_app //.
Qed.

Lemma Join_lacks c l : has_char c "/" = false → Forall (λ w, has_char c w = false) l → has_char c (Join l "/") = false.
Proof.
  intros Hc. unfold Join. induction l as [|w l IH]; [done|]. intros [Hw Hl]%Forall_cons. specialize (IH Hl).
  destruct l as [|w' l]; [done|]. change (String.concat "/" (w :: w' :: l)) with (w +:+ "/" +:+ String.concat "/" (w' :: l)).
  by rewrite !has_char_app Hw Hc IH.
Qed.

Lemma packages_plain k t : k ∈ kinds → tree_wf t →
  Forall (λ p, has_char (chr 10) p = false ∧ has_char (chr 34) p = false) (packages k t).
Proof.
  intros Hk Hwf. destruct (kinds_plain k Hk) as (_ & _ & Hn & Hq). apply Forall_forall. intros p.
  unfold packages. rewrite sort_strings_perm. intros (path & -> & (path' & (_ & _ & t' & Hat & _) & ->)%walk_spec)%list_elem_of_fmap_1.
  pose proof (dir_at_names _ _ _ Hwf Hat) as Hnames. unfold import_path. rewrite !has_char_app Hn Hq /=.
  split; apply Join_lacks; try done; by apply names_lack.
Qed.

Lemma packages_nodup k t : tree_wf t → NoDup (packages k t).
Proof.
  intros Hwf. unfold packages. rewrite sort_strings_perm. apply NoDup_fmap_2_strong; [|by apply walk_nodup].
  intros p q (p' & (Hp & _ & tp & Hpa & _) & ->)%walk_spec (q' & (Hq & _ & tq & Hqa & _) & ->)%walk_spec.
  apply import_path_inj; [done..|apply names_lack; [done|by eapply dir_at_names]|apply names_lack; [done|by eapply dir_at_names]].
Qed.

Lemma packages_spec k t p : p ∈ packages k t ↔ ∃ path, is_package t path ∧ p = import_path k path.
Proof.
  unfold packages. rewrite sort_strings_perm. split.
  - intros (path & -> & (path' & Hp & ->)%walk_spec)%list_elem_of_fmap_1. by exists path'.
  - intros (path & Hp & ->). apply list_elem_of_fmap_2, walk_spec. by exists path.
Qed.

(** [C40] The generated file imports every extension package and nothing else: read off
its text, the imports are the [api] package and then, sorted and each once, the import
paths of the directories with a Go file at any depth below the kind's directory, the
ones called [all] excepted; there is no import when there is no such directory. *)
Theorem generate_correct k dir t :
  k ∈ kinds → tree_wf t →
  ∃ text pkgs, generate k dir (Some t) = Ok text
  ∧ imports_of text = (match pkgs with [] => [] | _ => (module_path +:+ "/api") :: pkgs end)
  ∧ StronglySorted String.le pkgs ∧ NoDup pkgs
  ∧ ∀ p, p ∈ pkgs ↔ ∃ path, is_package t path ∧ p = import_path k path.
Proof.
  intros Hk Hwf. exists (all_go k (packages k t)), (packages k t). split; [done|].
  split; [by apply all_go_imports, packages_plain|]. split; [apply sort_strings_sorted|]. split; [by apply packages_nodup|apply packages_spec].
Qed.

(** ** The generated files of the repository *)
Section runs.
Definition providers_tree : Tree :=
  mkDir [] [("all", mkDir ["all.go"] []);
            ("osv", mkDir ["auth.go"; "client.go"; "convert.go"; "provider.go"; "vscode.go"] []);
            ("ossindex", mkDir ["auth.go"; "client.go"; "convert.go"; "provider.go"] []);
            ("stub-osv", mkDir ["provider.go"] []); ("stub-secrets", mkDir ["provider.go"] []);
            ("notes", mkDir [".gitkeep"] [])].

Definition repo_tree (dir : string) : option Tree :=
  if bool_decide (dir = "/src/scintx/extensions/providers") then Some providers_tree
  else if bool_decide (dir = "/src/scintx/extensions/policies") then Some (mkDir [] [("yaml", mkDir ["engine.go"] [])])
  else None.

Lemma generate_correct_witness :
  let k := mkExtensionKind "extensions/providers" (module_path +:+ "/extensions/providers") "providersall" "all provider extensions" in
  ∃ text (pkgs : list string), generate k "d" (Some providers_tree) = Ok text ∧ NoDup pkgs
  ∧ imports_of text = (module_path +:+ "/api")
      :: map (λ p, module_path +:+ "/extensions/providers/" +:+ p) ["ossindex"; "osv"; "stub-osv"; "stub-secrets"].
Proof.
  intros k. destruct (generate_correct k "d" providers_tree) as (text & pkgs & Ht & _ & _ & Hnd & _).
  - by left.
  - constructor; [apply (bool_decide_unpack _); vm_compute; exact I|].
    repeat (constructor; [split; [reflexivity|constructor; constructor]|]). constructor.
  - exists text, pkgs. split; [exact Ht|]. split; [exact Hnd|]. vm_compute in Ht. injection Ht as <-. vm_compute. reflexivity.
Defined.

(** Run from a directory of the repository, both files are written; without a [go.mod]
above it none is. *)
Example generator_runs :
  let has_mod dir := bool_decide (dir = ["scintx"; "src"]) in
  map fst (main has_mod ["extensions"; "scintx"; "src"] repo_tree).1
    = ["/src/scintx/extensions/providers/all/all.go"; "/src/scintx/extensions/policies/all/all.go"]
  ∧ main has_mod ["tmp"] repo_tree = ([], Some "gen-extensions: could not find go.mod walking up from /tmp")
  ∧ packages (mkExtensionKind "" "m" "" "") (mkDir [] [("all", mkDir ["a.go"] [("sub", mkDir ["b.go"] [])])]) = ["m/all/sub"].
Proof. vm_compute. split_and!; reflexivity. Qed.

(** The file checked in as [extensions/providers/all/all.go], line by line, is what the
generator writes. *)
Example checked_in_providers :
  head kinds ≫= (λ k, match generate k "" (Some providers_tree) with Ok text => Some text | Err _ => None end)
  = Some (String.concat "" (map (λ l, l +:+ nl)
      ["// Code generated by gen-extensions; DO NOT EDIT.";
       "//go:generate go run ../../../cmd/gen-extensions";
       "";
       "// Package providersall imports all provider extensions so their init() registrations run.";
       "//";
       "// To add a new extension of this kind:";
       "//  1. Create a directory under extensions/providers/<name>/ with a .go file containing init() registration.";
       "//  2. Run: go generate ./extensions/...";
       "//  3. The new extension is automatically picked up on next build.";
       "package providersall";
       "";
       "import (";
       tab +:+ "_ " +:+ quoted "github.com/yeeth-security/scintx/api" +:+ " // ensure registry is loaded";
       tab +:+ "_ " +:+ quoted "github.com/yeeth-security/scintx/extensions/providers/ossindex";
       tab +:+ "_ " +:+ quoted "github.com/yeeth-security/scintx/extensions/providers/osv";
       tab +:+ "_ " +:+ quoted "github.com/yeeth-security/scintx/extensions/providers/stub-osv";
       tab +:+ "_ " +:+ quoted "github.com/yeeth-security/scintx/extensions/providers/stub-secrets";
       ")"]))
  ∧ length kinds = 2.
Proof. vm_compute. split; reflexivity. Qed.
End runs.
